(* ===== verification/_CoqProject ===== *)
-Q . S2P
Prelude.v
GoStrings.v
Json.v
Types.v
InboxState.v
Inbox.v
InboxControl.v
InboxFacts.v
PlanFacts.v
RequestMachine.v
InboxSafety.v
InboxSystem.v
InboxTheorems.v
Ledger.v
Dispatch.v
Stream.v
DispatchTheorems.v
Metadata.v
PrivateFiles.v
PrivateFilesTheorems.v
MetadataTheorems.v
Protocol.v
Crypto.v
Toy.v
Roster.v
RosterTheorems.v
History.v
Encryption.v
Mls.v
MlsFacts.v
Groups.v
MlsTheorems.v
Messages.v
Invariants.v
Admission.v
AdmissionTheorems.v
Routes.v
Scenario.v
MessagesTheorems.v
RoutesTheorems.v
ReceivingTheorems.v
ProgressTheorems.v
Codex.v
Worker.v
WorkerTheorems.v
Listen.v
MlsHost.v
Broker.v
BrokerTheorems.v
Bridge.v
BridgeTheorems.v
Target.v
Addresses.v
Flags.v
AddressesTheorems.v
Rooms.v
RoomsTheorems.v
Backup.v
BackupTheorems.v
Export.v
Tools.v
ToolsTheorems.v
Connect.v
ConnectTheorems.v
Cli.v
CliTheorems.v
Delivery.v
DeliveryTheorems.v
Hooks.v
HooksTheorems.v
Background.v
BackgroundTheorems.v
Sidecar.v
Sessions.v
InboxTools.v
Launch.v
LaunchTheorems.v
Wire.v
WireTheorems.v
Serving.v
