(* ===== verification/Prelude.v ===== *)
(** * The Tincan client: a verification library

    [src/cmd/tincan] is the client of Tincan, a service over which coding agents of different
    people and machines send each other messages. It runs as a command line, as an MCP server
    inside an agent's host (the "plugin") and as a long-lived worker. This library translates
    the client's own logic, function by function, into Rocq and proves what a user, a worker or
    a correspondent may rely on. File names below are under [src/cmd/tincan] unless they start
    with [internal/].

    ** The parts of the program, and where they are modelled

    - The durable inbox keeps the received messages and the work they ask for, across crashes,
      in one file under a kernel lock. [InboxState] ([inbox_requests.go],
      [inbox_lifecycle.go]: the state, its migration and validation, scheduling), [Inbox]
      ([inbox.go]: opening, saving, taking an event in, releasing, acknowledging, replying),
      [InboxControl] ([inbox_claim.go], [inbox_requests.go]: claims, outcomes, decisions,
      policy, plans), [Dispatch] ([inbox_dispatch.go], [inbox_wait.go]: notices, the outbox,
      the delegated listener's wait), [Stream] ([inbox_stream.go]), [InboxTools]
      ([inbox_mcp.go], [inbox_requests_mcp.go], [inbox_claim_mcp.go], [inbox_wire.go]: the
      calls of a host), [Wire] (the inbox and its events as JSON: what a save writes, a copy makes
      and a restart reads).
    - The wire types, agent metadata and profiles ([internal/core]): [Types], [Metadata].
      Discovery of a server and its requirements ([internal/protocol], [protocol.go]):
      [Protocol].
    - End-to-end encryption. [Crypto] and [Roster] ([internal/e2ee]: devices, signed
      membership, envelopes), [Encryption] (the saved state of a group and the monad of the
      code under [withCrypto], [encryption.go]), [Mls] and [Groups] ([encryption_mls.go],
      [encryption_room_policy.go], [encryption_rejections.go], rotation in
      [encryption_history.go]), [History] (the search index), [Messages] (sending, receiving
      and searching, [encryption.go]), [Admission] ([encryption_admission.go] and management),
      [Routes] ([room_crypto_routes.go], [room_encryption.go]: which room's keys a call runs
      under), [Rooms] (creating and joining rooms with keys of their own), [Addresses]
      (invitations as addresses), [Backup] ([encryption_history.go]: the backup of the message
      keys and its restore), [Export] ([encryption.go]: the decrypted copy of a workspace),
      [MlsHost] ([internal/e2ee/mls.go]: finding and starting the WebAssembly module, and one
      operation on it). [PrivateFiles] ([encryption_storage.go], [encryption_replace_*.go],
      [inbox_lock_*.go] and every writer of private files: their system calls over a directory,
      with loss of power and other processes).
    - The plugin. [Broker] ([plugin.go], [harness.go], [join_approval.go]: the vault of
      connections and what is done to them), [Connect] ([plugin.go], [plugin_background.go]: making
      a connection, and the tool that makes, resumes or imports one), [Background]
      ([plugin_background.go], [plugin_wait.go], [presence.go], [harness.go]: pairing, status,
      presence), [Sessions] ([plugin_session.go]: what a session sees), [Tools] ([encryption.go], [plugin.go]: the tool
      calls of an agent), [Bridge] ([plugin_inbox_owner.go]: inbox calls between processes),
      [Target] ([codex_target.go], [codex_websocket.go]: the runtime of a task), [Delivery]
      ([plugin_delivery.go], [codex_queue.go]: waking it), [Hooks] ([plugin_hook.go],
      [claude_wake.go]: showing pending work in a session), [Serving] ([plugin.go],
      [plugin_codex.go], [codex_reload.go], [worker.go]: the tools as they are served, the
      delivery to a host, the notices of a worker).
    - The command line. [Cli] ([main.go], [join_approval.go]: the saved configuration, connecting,
      what each command asks for, watching), [Flags] and [Launch] ([main.go], [claude.go],
      [runtime_options.go], [harness.go], [inbox_mcp.go], [inbox_control.go], [listen.go],
      [worker.go], [cmd/tincan-launcher]: flags, dispatch, options, launching Claude, the MCP
      bridge), [Sidecar] ([sidecar.go]: the requests of a host on standard input).
    - Workers. [Codex] ([codex_rpc.go] and the exchanges over it), [Worker] ([worker.go]),
      [Listen] ([listen.go], and the bounded buffers of [codex_rpc.go] and
      [internal/e2ee/mls.go]).

    [Prelude], [GoStrings] and [Json] are the common ground: results, machine integers, lists
    and the automation; the parts of Go's string and number packages that are used; JSON trees
    and the decoding rules of [encoding/json].

    How they meet: the stream decrypts an event through [Routes] and [Messages], and gives it to
    [Inbox.ingest]; a worker ([Worker], [Listen]) or a delegated agent claims the request
    through [InboxControl] and settles it; a reply is sealed by [Messages.cryptoSend] and
    posted. The interface between the inbox and encryption is the class [CryptoRoutes]
    ([Inbox]): whether a stored conversation has keys in the current connection. The interface
    of the group code to cryptography is the class [Primitives] ([Crypto]), instantiated by
    [Toy] to show the hypotheses of the theorems can hold. [Stable] ([Invariants]) states what
    a predicate on a group's world must tolerate for every operation to keep it.

    ** What is proved

    - [RequestMachine], [InboxSafety], [InboxSystem], [InboxTheorems]: the inbox under any
      interleaving of its operations, failed saves and crashes. Exclusive claims, no lost
      request, replies sent as saved and at most one post under way, acyclic plans, copy on
      write, and the exact conditions under which a claim or a plan is accepted. [Ledger]: the
      contract of the inbox, and the refinement by every operation. [DispatchTheorems]:
      notices and resuming a stream. [InboxTools]: a tool call is an operation under the
      claim it presents. [WireTheorems]: what is saved is read back, a copy is a copy, and when
      it is not.
    - [RosterTheorems], [MlsTheorems], [ProgressTheorems], [AdmissionTheorems]: verified
      membership and envelopes are what was signed; the relay cannot fork a group's history;
      the loops end; what is sealed opens; an invitation admits one device.
      [MessagesTheorems], [ReceivingTheorems], [RoutesTheorems]: nothing that is posted shows
      its content, a key stands for one message, content goes out in the clear on plain
      channels only, what is shown is what the sender sealed, a replayed message wakes nobody
      twice. [RoomsTheorems], [AddressesTheorems], [BackupTheorems]: a room's creation is one
      request, an invitation reads as it was written, a backup restores and a restore is all or
      nothing. [ToolsTheorems]: where the content of a tool call may be seen, and where it is not
      checked; what an export shows. [PrivateFilesTheorems]: a private file is whole, the old or the
      new one, after any failure, loss of power and interference; recovery removes no other's
      file. [MlsHost]: a message is given up only on the module's own verdict.
    - [BrokerTheorems], [ConnectTheorems], [BridgeTheorems], [Target], [DeliveryTheorems],
      [HooksTheorems]: what each operation on a connection keeps of it; with the operations of all
      processes of a device overlapping, the vault stays loadable, a connection is one agent and one
      task from a moment at which nothing is done with it, and what a save of an older version
      loses; an agent the server granted is kept, and when its handle is lost; the names of agents; a
      greeting is answered and pairs, and what is said to be ready is ([BackgroundTheorems],
      [Sessions]); the bridge serves only holders of its capability; a credential goes where the
      launch configuration sends it; a launch whose receipt can be read, and hooks, do not repeat
      work.
    - [CliTheorems]: what connecting sends of an invitation, a join that waits, the paths of the
      commands, what a watch shows.
    - [LaunchTheorems], [Sidecar], [Serving]: what a launch passes on, to whom and
      of an invitation; requests are answered in order, each by the tool it names; a served tool asks for
      its connection.
    - [WorkerTheorems], [Listen]: a worker stays within its tools, commits nothing
      during a turn, and believes the runtime only about the turn it started; what is kept of a
      subprocess is bounded.

    Some theorems state what the code does although it is not what it means to do (a failed turn
    or save that brings the process down, a launch that is repeated, a journal that is blocked, a
    message that empties the inbox, a save of a connection that undoes a later one);
    they are listed with the findings of the manifest.

    ** How the code is read

    - A method with a receiver is a function from the state to the result and the new state.
      Code that holds one lock from its first to its last access of the state is one step;
      [reply] is split at the network call it makes without the lock, and a loop that runs until its
      context ends is the function of one round.
    - What the environment does is an argument: the outcome of a save ([None] or its error, which
      [PrivateFiles] computes), a script of the server's answers, of the saves, of random bytes and of files, and a
      function for what other goroutines do to the inbox meanwhile. A theorem quantifies over
      all of them.
    - JSON is a tree, and bytes that Go writes in base64 are strings; [nil] and an empty slice
      are one value where no reader tells them apart. Times are nanoseconds in [Z]. [int] is
      64-bit, and wraps in [int_incr]. Texts of decoding errors are stand-ins.
    - A copy of the inbox's state ([copy] of [InboxState]) is the state, migrated, or, when the text
      of the state would be nested too deeply to be read again, the empty state, migrated. The code
      copies through JSON: [WireTheorems.json_copy_is_copy] shows the two equal, and
      [deep_metadata_empties_copy] what the second case means. It arises by events whose metadata
      is nested deeper than 9995 levels alone; the runs of the inbox theorems
      ([InboxSystem.reachable]) take in events within that bound ([bounded]), and so do the two
      theorems that quantify over a run of their own ([work_is_durable], [inbox_refines_ledger]).
    - Functions of Go's library whose tables or formats are not modelled are parameters:
      [strings.ToLower] beyond ASCII, [http.DetectContentType], [url.Parse], [json.Marshal] of
      a tree, the re-encoding of a number, [filepath.Join]. So are the cryptographic
      primitives and the WebAssembly MLS module. What a theorem needs of them is a hypothesis
      of its section, documented there.

    Fuel: a group's loops run on the number of answers the server still gives; one more unit
    than that is enough: every larger amount gives the same result, and that result is the one
    solution of the code's own equations, in which each round takes an answer ([group_loops_end]). The
    search of a plan has one unit per request and edge, and is complete ([PlanFacts]). Pages of
    loaded tasks are bounded by the answers. The loops of [Listen] and [Worker] run on the
    scripts they are given.

    ** Not modelled, and why

    Help and printing ([main.go]), setup texts and tool schemas, starting processes, signals and
    the wiring of transports and goroutines (the ends of the commands of [worker.go], [listen.go]
    and [plugin.go]), framing of the websocket and of standard input, the WebAssembly runtime
    itself and key generation ([internal/e2ee]): they are the operating system's or a library's,
    and enter as outcomes. The body of an attachment is a string, not a stream. [waitNext] and
    [finishReply] ([inbox.go]) are called by no command. *)
From Stdlib Require Export ZArith Lia Sorted.
From stdpp Require Export base list gmap strings.
From stdpp Require Export option.

#[global] Set Default Proof Using "Type".

Declare Scope tincan_scope.
Delimit Scope tincan_scope with tincan.
#[global] Open Scope string_scope.
#[global] Open Scope list_scope.
#[global] Open Scope Z_scope.
#[global] Open Scope tincan_scope.

(** ** Errors as values

    A Go function returning [(T, error)] becomes a [result T]; an [error] alone is an
    [option string], [None] for a nil error. *)
Inductive result (A : Type) : Type :=
| Ok (a : A)
| Err (e : string).
Arguments Ok {A} _.
Arguments Err {A} _.

#[export] Instance result_ret : MRet result := fun _ a => Ok a.
#[export] Instance result_bind : MBind result := fun _ _ f m =>
  match m with Ok a => f a | Err e => Err e end.
#[export] Instance result_fmap : FMap result := fun _ _ f m =>
  match m with Ok a => Ok (f a) | Err e => Err e end.
#[export] Instance result_eq_dec {A} `{EqDecision A} : EqDecision (result A).
Proof. solve_decision. Defined.

Definition is_ok {A} (m : result A) : bool :=
  match m with Ok _ => true | Err _ => false end.

Lemma bind_ok {A B} (m : result A) (f : A -> result B) b :
  m ≫= f = Ok b -> exists a, m = Ok a /\ f a = Ok b.
Proof. destruct m as [a|e]; cbn; [eauto | discriminate]. Qed.

(** ** Machine integers

    Go's [int] and [int64] are 64-bit two's complement; an increment wraps. *)
Definition wrap64 (z : Z) : Z := (z + 2 ^ 63) mod 2 ^ 64 - 2 ^ 63.
Definition int_incr (z : Z) : Z := wrap64 (z + 1).

Lemma wrap64_range z : - 2 ^ 63 <= wrap64 z < 2 ^ 63.
Proof. unfold wrap64. pose proof (Z.mod_pos_bound (z + 2 ^ 63) (2 ^ 64)). lia. Qed.

Lemma wrap64_small z : - 2 ^ 63 <= z < 2 ^ 63 -> wrap64 z = z.
Proof. intros H. unfold wrap64. rewrite Z.mod_small; lia. Qed.

Lemma int_incr_small z : - 2 ^ 63 <= z < 2 ^ 63 - 1 -> int_incr z = z + 1.
Proof. intros. unfold int_incr. apply wrap64_small. lia. Qed.

Lemma int_incr_ne z : - 2 ^ 63 <= z < 2 ^ 63 -> int_incr z <> z.
Proof.
  intros H. destruct (decide (z = 2 ^ 63 - 1)) as [->|].
  - vm_compute. discriminate.
  - rewrite int_incr_small; lia.
Qed.

(** ** Tactics

    [go_split] does the case analysis of a handler: every test and match of the code becomes
    a case, with its equation. *)
Ltac go_case :=
  match goal with
  | H : context [if bool_decide ?P then _ else _] |- _ =>
      destruct (bool_decide_reflect P)
  | H : context [if ?b then _ else _] |- _ => let E := fresh "E" in destruct b eqn:E
  | H : context [match ?x with _ => _ end] |- _ => let E := fresh "E" in destruct x eqn:E
  | |- context [if bool_decide ?P then _ else _] => destruct (bool_decide_reflect P)
  | |- context [if ?b then _ else _] => let E := fresh "E" in destruct b eqn:E
  | |- context [match ?x with _ => _ end] => let E := fresh "E" in destruct x eqn:E
  end.
Ltac go_cases := repeat (go_case; simplify_eq/=).

(** The test that decides what comes next. *)
Ltac test H := match goal with |- context [if ?b then _ else _] => destruct b eqn:H end.

(** The guard in [H] did not fire: the other branch is an error or nothing. *)
Ltac passes H := match type of H with context [if ?b then _ else _] => destruct b eqn:?; [discriminate H|] end.

Ltac bool_simpl :=
  repeat match goal with
  | H : _ && _ = true |- _ => apply andb_true_iff in H; destruct H
  | H : _ || _ = false |- _ => apply orb_false_iff in H; destruct H
  | H : _ || _ = true |- _ => apply orb_true_iff in H
  | H : _ && _ = false |- _ => apply andb_false_iff in H
  | H : negb _ = true |- _ => apply negb_true_iff in H
  | H : negb _ = false |- _ => apply negb_false_iff in H
  | H : bool_decide _ = true |- _ => apply bool_decide_eq_true in H
  | H : bool_decide _ = false |- _ => apply bool_decide_eq_false in H
  | H : (_ <? _) = true |- _ => apply Z.ltb_lt in H
  | H : (_ <? _) = false |- _ => apply Z.ltb_ge in H
  | H : (_ <=? _) = true |- _ => apply Z.leb_le in H
  | H : (_ <=? _) = false |- _ => apply Z.leb_gt in H
  | H : (_ =? _) = true |- _ => apply Z.eqb_eq in H
  | H : (_ =? _) = false |- _ => apply Z.eqb_neq in H
  end.

(** ** Lists *)

(** A mapped list with one element replaced by one of the same image is unchanged. *)
Lemma fmap_insert_id {A B} (f : A -> B) (l : list A) n x y :
  l !! n = Some x -> f y = f x -> f <$> <[n:=y]> l = f <$> l.
Proof.
  intros Hx Hf. rewrite list_fmap_insert. apply list_insert_id.
  rewrite list_lookup_fmap, Hx. simpl. by rewrite Hf.
Qed.

Lemma Forall_insert_2 {A} (P : A -> Prop) (l : list A) n y :
  Forall P l -> P y -> Forall P (<[n:=y]> l).
Proof. intros. by apply Forall_insert. Qed.

Lemma filter_none {A} (P : A -> Prop) `{forall x, Decision (P x)} (l : list A) :
  (forall x, x ∈ l -> ~ P x) -> filter P l = [].
Proof.
  induction l as [|x l IH]; intros Hn; [done|].
  rewrite filter_cons_False by (apply Hn; apply list_elem_of_here).
  apply IH. intros y Hy. apply Hn. by apply list_elem_of_further.
Qed.

Lemma length_filter_fmap {A} (P : A -> Prop) `{forall x, Decision (P x)} (f : A -> A) (l : list A) :
  (forall x, P (f x) <-> P x) -> length (filter P (f <$> l)) = length (filter P l).
Proof.
  intros Hf. induction l as [|x l IH]; [done|]. rewrite fmap_cons, !filter_cons.
  repeat case_decide; simpl; rewrite ?IH; try done; specialize (Hf x); tauto.
Qed.

(** ** Go's [slices.SortStableFunc]

    Insertion of each element behind its equals, from the right: a stable sort. [le a b]
    says the comparison of [a] with [b] is not positive. *)
Section StableSort.
Context {A : Type} (key : A -> Z).

(** Descending by key: [cmp a b = key b - key a]. *)
Fixpoint insert_desc (x : A) (l : list A) : list A :=
  match l with
  | [] => [x]
  | y :: r => if key y <=? key x then x :: l else y :: insert_desc x r
  end.

Fixpoint sort_desc (l : list A) : list A :=
  match l with [] => [] | x :: r => insert_desc x (sort_desc r) end.

Definition desc (l : list A) : Prop := Sorted (fun a b => key b <= key a) l.

Lemma insert_desc_perm x l : insert_desc x l ≡ₚ x :: l.
Proof.
  induction l as [|y r IH]; simpl; [done|].
  destruct (key y <=? key x); [done|]. rewrite IH. constructor.
Qed.

Lemma sort_desc_perm l : sort_desc l ≡ₚ l.
Proof. induction l as [|x r IH]; simpl; [done|]. by rewrite insert_desc_perm, IH. Qed.

Lemma insert_desc_sorted x l : desc l -> desc (insert_desc x l).
Proof.
  unfold desc. induction 1 as [|y r Hs IH Hd]; simpl; [repeat constructor|].
  destruct (Z.leb_spec (key y) (key x)); [by repeat constructor|].
  constructor; [done|]. destruct r as [|z r]; simpl in *; [constructor; lia|].
  inversion Hd; subst. destruct (key z <=? key x); constructor; lia.
Qed.

Lemma sort_desc_sorted l : desc (sort_desc l).
Proof. induction l; simpl; [constructor | by apply insert_desc_sorted]. Qed.

Lemma sort_desc_id l : desc l -> sort_desc l = l.
Proof.
  unfold desc. induction 1 as [|y r Hs IH Hd]; simpl; [done|]. rewrite IH.
  destruct r as [|z r]; simpl; [done|]. inversion Hd; subst.
  by rewrite (proj2 (Z.leb_le _ _)).
Qed.

(** Stability: the elements of one key keep their order. *)
Lemma insert_desc_filter k x l :
  filter (fun a => key a = k) (insert_desc x l) =
  filter (fun a => key a = k) (x :: l).
Proof.
  induction l as [|y r IH]; simpl; [done|].
  destruct (Z.leb_spec (key y) (key x)); [done|].
  rewrite !filter_cons in *. rewrite IH.
  repeat case_decide; (done || lia).
Qed.

Lemma sort_desc_stable k l :
  filter (fun a => key a = k) (sort_desc l) = filter (fun a => key a = k) l.
Proof.
  induction l as [|x r IH]; simpl; [done|].
  rewrite insert_desc_filter, !filter_cons, IH. done.
Qed.
End StableSort.

(** Replacing an element by one with the same key keeps a descending list. *)
Lemma desc_insert {A} (key : A -> Z) (l : list A) n x y :
  desc key l -> l !! n = Some x -> key y = key x -> desc key (<[n:=y]> l).
Proof.
  unfold desc. intros Hs. revert n. induction Hs as [|z r Hs IH Hd]; intros [|n] Hx Hk; simplify_eq/=.
  - constructor; [done|]. destruct r; [constructor|]. inversion Hd; constructor; lia.
  - constructor; [by eapply IH|]. destruct n, r; simplify_eq/=; inversion Hd; constructor; lia.
Qed.

(** In a descending list a later element has no larger key. *)
Lemma desc_lookup {A} (key : A -> Z) (l : list A) n m x y :
  desc key l -> l !! n = Some x -> l !! m = Some y -> (n <= m)%nat -> key y <= key x.
Proof.
  intros Hs%Sorted_StronglySorted; [|intros a b c ? ?; lia].
  revert n m. induction Hs as [|z l Hs IH Hf]; intros [|n] [|m] Hx Hy Hle; simplify_eq/=; try lia.
  - exact (Forall_lookup_1 _ _ _ _ Hf Hy).
  - apply (IH n m); [done|done|lia].
Qed.

Create HintDb tincan.
#[export] Hint Resolve sort_desc_perm sort_desc_sorted wrap64_range : tincan.
