(* ===== verification/GoStrings.v ===== *)
(** * Go strings

    The parts of Go's [strings], [strconv], [encoding/hex] and [unicode/utf8] packages that
    the client's own code relies on. A Go string is its bytes: a Rocq [string], whose
    characters are bytes; [len] is [String.length]. *)
From S2P Require Import Prelude.
From stdpp Require Export pretty.
From Stdlib Require Export Ascii.
#[global] Open Scope Z_scope.

Definition len (s : string) : Z := Z.of_nat (String.length s).

Lemma len_nonneg s : 0 <= len s.
Proof. unfold len. lia. Qed.

Lemma len_app s t : len (s +:+ t) = len s + len t.
Proof.
  unfold len. rewrite <- Nat2Z.inj_add. f_equal.
  induction s; simpl; [done | by f_equal].
Qed.

Definition code (a : ascii) : Z := Z.of_N (N_of_ascii a).
Definition bytes (s : string) : list ascii := String.list_ascii_of_string s.
Definition of_bytes (l : list ascii) : string := String.string_of_list_ascii l.

Lemma of_bytes_bytes s : of_bytes (bytes s) = s.
Proof. apply String.string_of_list_ascii_of_string. Qed.
Lemma bytes_of_bytes l : bytes (of_bytes l) = l.
Proof. apply String.list_ascii_of_string_of_list_ascii. Qed.

Lemma length_of_bytes l : String.length (of_bytes l) = length l.
Proof. induction l; simpl; [done|by f_equal]. Qed.
Lemma length_bytes s : length (bytes s) = String.length s.
Proof. by rewrite <- (of_bytes_bytes s) at 2; rewrite length_of_bytes. Qed.

Lemma bytes_app s t : bytes (s +:+ t) = bytes s ++ bytes t.
Proof. induction s as [|a s IH]; simpl; [done|]. unfold bytes in *. by rewrite <- IH. Qed.

Definition byte_in (lo hi : Z) (a : ascii) : bool := (lo <=? code a) && (code a <=? hi).

(** ** White space: [strings.TrimSpace]

    [unicode.IsSpace] holds of six ASCII characters, of U+0085 and U+00A0 (two bytes), and
    of U+1680, U+2000..U+200A, U+2028, U+2029, U+202F, U+205F and U+3000 (three bytes). *)
Definition space1 (a : ascii) : bool := byte_in 9 13 a || (code a =? 32).
Definition space2 (a b : ascii) : bool :=
  (code a =? 194) && ((code b =? 133) || (code b =? 160)).
Definition space3 (a b c : ascii) : bool :=
  ((code a =? 225) && (code b =? 154) && (code c =? 128))
  || ((code a =? 226) && (code b =? 128)
      && (byte_in 128 138 c || (code c =? 168) || (code c =? 169) || (code c =? 175)))
  || ((code a =? 226) && (code b =? 129) && (code c =? 159))
  || ((code a =? 227) && (code b =? 128) && (code c =? 128)).

Fixpoint trim_left (l : list ascii) : list ascii :=
  match l with
  | [] => []
  | a :: r =>
      if space1 a then trim_left r else
      match r with
      | b :: r2 =>
          if space2 a b then trim_left r2 else
          match r2 with
          | c :: r3 => if space3 a b c then trim_left r3 else l
          | [] => l
          end
      | [] => l
      end
  end.

(** The same from the right, on the reversed bytes: a trailing encoding is reversed. *)
Fixpoint trim_right_rev (l : list ascii) : list ascii :=
  match l with
  | [] => []
  | a :: r =>
      if space1 a then trim_right_rev r else
      match r with
      | b :: r2 =>
          if space2 b a then trim_right_rev r2 else
          match r2 with
          | c :: r3 => if space3 c b a then trim_right_rev r3 else l
          | [] => l
          end
      | [] => l
      end
  end.

Definition TrimSpace (s : string) : string :=
  of_bytes (rev (trim_right_rev (rev (trim_left (bytes s))))).

(** [strings.TrimSpace(s) == ""], the test of the code's required fields. *)
Definition blank (s : string) : bool := bool_decide (TrimSpace s = "").

Example TrimSpace_ex : TrimSpace "  a b	
" = "a b".
Proof. reflexivity. Qed.
Example blank_ex : blank " 	 " = true /\ blank "" = true /\ blank " x" = false.
Proof. repeat split. Qed.

Lemma TrimSpace_empty : TrimSpace "" = "".
Proof. reflexivity. Qed.

Lemma not_blank_nonempty s : blank s = false -> s <> "".
Proof. intros H ->. discriminate H. Qed.

(** ** UTF-8 *)
Definition cont (a : ascii) : bool := byte_in 128 191 a.

(** Whether a lead byte and its second byte start a valid sequence of three or four bytes
    (the table of [utf8.acceptRanges]). *)
Definition lead3 (a b : ascii) : bool :=
  ((code a =? 224) && byte_in 160 191 b)
  || ((byte_in 225 236 a || byte_in 238 239 a) && cont b)
  || ((code a =? 237) && byte_in 128 159 b).
Definition lead4 (a b : ascii) : bool :=
  ((code a =? 240) && byte_in 144 191 b)
  || (byte_in 241 243 a && cont b)
  || ((code a =? 244) && byte_in 128 143 b).

(** [utf8.ValidString]. *)
Fixpoint valid_bytes (l : list ascii) : bool :=
  match l with
  | [] => true
  | a :: r =>
      if code a <? 128 then valid_bytes r else
      match r with
      | b :: r2 =>
          if byte_in 194 223 a && cont b then valid_bytes r2 else
          match r2 with
          | c :: r3 =>
              if lead3 a b && cont c then valid_bytes r3 else
              match r3 with
              | d :: r4 => if lead4 a b && cont c && cont d then valid_bytes r4 else false
              | [] => false
              end
          | [] => false
          end
      | [] => false
      end
  end.
Definition ValidString (s : string) : bool := valid_bytes (bytes s).

(** [utf8.RuneCountInString]: an invalid byte counts as one rune of width one. *)
Fixpoint count_runes (l : list ascii) : Z :=
  match l with
  | [] => 0
  | a :: r =>
      1 + match r with
          | b :: r2 =>
              if (code a <? 128) then count_runes r
              else if byte_in 194 223 a && cont b then count_runes r2
              else match r2 with
                   | c :: r3 =>
                       if lead3 a b && cont c then count_runes r3
                       else match r3 with
                            | d :: r4 => if lead4 a b && cont c && cont d then count_runes r4
                                         else count_runes r
                            | [] => count_runes r
                            end
                   | [] => count_runes r
                   end
          | [] => 0
          end
  end.
Definition RuneCountInString (s : string) : Z := count_runes (bytes s).

(** [strings.IndexFunc(s, unicode.IsControl) >= 0]: C0 controls, DEL, and the C1 controls
    U+0080..U+009F, two bytes each. *)
Fixpoint has_control (l : list ascii) : bool :=
  match l with
  | [] => false
  | a :: r =>
      (code a <? 32) || (code a =? 127)
      || match r with b :: _ => (code a =? 194) && byte_in 128 159 b | [] => false end
      || has_control r
  end.
Definition ContainsControl (s : string) : bool := has_control (bytes s).

(** ** Prefixes, sets of characters, slices *)
Definition HasPrefix (s p : string) : bool := String.prefix p s.

(** [s[:n]] and [s[n:]] within bounds. *)
Definition take_str (n : nat) (s : string) : string := of_bytes (take n (bytes s)).
Definition drop_str (n : nat) (s : string) : string := of_bytes (drop n (bytes s)).

Lemma len_drop n s : (n <= String.length s)%nat -> len (drop_str n s) = len s - Z.of_nat n.
Proof. intros. unfold len, drop_str. rewrite length_of_bytes, length_drop, length_bytes. lia. Qed.

Definition TrimPrefix (s p : string) : string :=
  if HasPrefix s p then drop_str (String.length p) s else s.

(** [strings.ContainsAny] for a set of ASCII characters. *)
Definition ContainsAny (s chars : string) : bool :=
  existsb (fun a => existsb (Ascii.eqb a) (bytes chars)) (bytes s).

Lemma HasPrefix_app s p : HasPrefix (p +:+ s) p = true.
Proof. induction p as [|a p IH]; simpl; [by destruct s|]. by destruct (ascii_dec a a). Qed.

Lemma HasPrefix_spec s p : HasPrefix s p = true <-> exists t, s = p +:+ t.
Proof.
  split.
  - unfold HasPrefix. revert s. induction p as [|a p IH]; intros s H; simpl; [eauto|].
    destruct s as [|b s]; [done|]. simpl in H.
    destruct (ascii_dec a b) as [->|]; [|done].
    destruct (IH s H) as [t ->]. by exists t.
  - intros [t ->]. apply HasPrefix_app.
Qed.

Lemma TrimPrefix_app p t : TrimPrefix (p +:+ t) p = t.
Proof.
  unfold TrimPrefix. rewrite HasPrefix_app. unfold drop_str.
  induction p as [|a p IH]; simpl; [apply of_bytes_bytes | apply IH].
Qed.

(** [strings.TrimSuffix], [strings.TrimRight] for one ASCII character, and the part after the
    last [c], if there is one. *)
Definition HasSuffix (s p : string) : bool := HasPrefix (of_bytes (reverse (bytes s))) (of_bytes (reverse (bytes p))).
Definition TrimSuffix (s p : string) : string :=
  if HasSuffix s p then take_str (String.length s - String.length p) s else s.
Fixpoint drop_while (c : ascii) (l : list ascii) : list ascii :=
  match l with a :: r => if Ascii.eqb a c then drop_while c r else l | [] => [] end.
Definition TrimRight (c : ascii) (s : string) : string := of_bytes (reverse (drop_while c (reverse (bytes s)))).
Fixpoint take_until (c : ascii) (l : list ascii) : list ascii :=
  match l with a :: r => if Ascii.eqb a c then [] else a :: take_until c r | [] => [] end.
Definition after_last (c : ascii) (s : string) : string := of_bytes (reverse (take_until c (reverse (bytes s)))).

(** [filepath.Base] and [filepath.IsAbs], with [/] as the separator. *)
Definition Base (s : string) : string :=
  if bool_decide (s = "") then "." else
  let s := after_last "/" (TrimRight "/" s) in
  if bool_decide (s = "") then "/" else s.
Definition IsAbs (s : string) : bool := HasPrefix s "/".
Example Base_ex :
  Base "/usr/bin/codex.exe" = "codex.exe" /\ Base "a/b//" = "b" /\ Base "///" = "/" /\ Base "" = "." /\
  TrimSuffix "codex.exe" ".exe" = "codex" /\ TrimSuffix "codex" ".exe" = "codex".
Proof. repeat split; vm_compute; reflexivity. Qed.

(** ** Numbers in decimal, bytes in hexadecimal *)

(** [strconv.FormatInt(z, 10)], and [%d]. *)
Definition Itoa (z : Z) : string := pretty z.

#[export] Instance Itoa_inj : Inj (=) (=) Itoa.
Proof. unfold Itoa. apply _. Qed.

Definition hex_digit (n : N) : ascii :=
  if decide (n < 10)%N then ascii_of_N (48 + n) else ascii_of_N (87 + n).

(** [hex.EncodeToString]. *)
Fixpoint hex_bytes (l : list ascii) : list ascii :=
  match l with
  | [] => []
  | a :: r =>
      hex_digit (N_of_ascii a / 16) :: hex_digit (N_of_ascii a mod 16) :: hex_bytes r
  end.
Definition hex (s : string) : string := of_bytes (hex_bytes (bytes s)).

Lemma len_hex s : len (hex s) = 2 * len s.
Proof.
  unfold hex, len. rewrite <- (of_bytes_bytes s) at 2. generalize (bytes s). intros l.
  induction l as [|a l IH]; simpl in *; lia.
Qed.

Lemma hex_digit_inj m n : (m < 16)%N -> (n < 16)%N -> hex_digit m = hex_digit n -> m = n.
Proof.
  intros Hm Hn H. unfold hex_digit in H.
  repeat case_decide; apply (f_equal N_of_ascii) in H; rewrite !N_ascii_embedding in H; lia.
Qed.

#[export] Instance hex_inj : Inj (=) (=) hex.
Proof.
  intros s t H. apply (f_equal bytes) in H. unfold hex in H. rewrite !bytes_of_bytes in H.
  rewrite <- (of_bytes_bytes s), <- (of_bytes_bytes t). f_equal. revert H.
  generalize (bytes s) (bytes t). intros l.
  induction l as [|a l IH]; intros [|b k] H; simpl in H; try done.
  injection H as H1 H2 H3. f_equal; [|by apply IH].
  assert (Hb : forall c, (N_of_ascii c < 256)%N) by apply N_ascii_bounded.
  apply hex_digit_inj in H1; [|apply N.Div0.div_lt_upper_bound; specialize (Hb a); lia
                              |apply N.Div0.div_lt_upper_bound; specialize (Hb b); lia].
  apply hex_digit_inj in H2; [|apply N.mod_lt; lia|apply N.mod_lt; lia].
  rewrite <- (ascii_N_embedding a), <- (ascii_N_embedding b). f_equal.
  rewrite (N.div_mod (N_of_ascii a) 16), (N.div_mod (N_of_ascii b) 16) by lia.
  by rewrite H1, H2.
Qed.

Lemma app_str_inj_l p s t : p +:+ s = p +:+ t -> s = t.
Proof. intros H. by apply (inj (String.append p)) in H. Qed.

Create HintDb gostr.
#[export] Hint Resolve len_nonneg HasPrefix_app not_blank_nonempty : gostr.
