(* ===== verification/Json.v ===== *)
(** * JSON values and Go's [encoding/json] on them

    Metadata ([json.RawMessage]) and tool results ([map[string]any]) are JSON trees. A nil
    [RawMessage] marshals as [null] and no reader of it in the client tells the two apart, so
    both are [JNull]. Decoding follows [encoding/json]: object keys match struct fields
    exactly or under case folding, a later duplicate overrides an earlier one, [null] leaves a
    field alone, and a value of the wrong type is an error reported after the others are
    decoded. *)
From S2P Require Import Prelude GoStrings.

Inductive json : Type :=
| JNull
| JBool (b : bool)
| JNum (literal : string)
| JStr (s : string)
| JArr (l : list json)
| JObj (members : list (string * json)).

(** Nesting of arrays and objects, which [encoding/json] bounds when it reads. *)
Fixpoint depth (v : json) : Z :=
  match v with
  | JArr l => 1 + foldr (fun v n => depth v `max` n) 0 l
  | JObj m => 1 + foldr (fun kv n => depth kv.2 `max` n) 0 m
  | _ => 0
  end.
Definition maxNestingDepth : Z := 10000.

(** Map literals of tool results. *)
Definition JInt (z : Z) : json := JNum (Itoa z).

(** [v, ok := m[key]] on an object built with distinct keys. *)
Definition jfield (key : string) (members : list (string * json)) : option json :=
  snd <$> List.find (fun kv => bool_decide (kv.1 = key)) members.
Definition jget (key : string) (v : json) : option json :=
  match v with JObj members => jfield key members | _ => None end.

(** [m[key]] used as an [any]: nil when the key is absent. *)
Definition jany (key : string) (v : json) : json := default JNull (jget key v).

Definition jstr_is (s : string) (v : json) : bool :=
  match v with JStr t => bool_decide (t = s) | _ => false end.

(** ** Field names under case folding ([foldName]): ASCII letters, and the two characters
    outside ASCII that fold into it, U+017F (long s) and U+212A (Kelvin sign). *)
Definition upper (a : ascii) : ascii :=
  if byte_in 97 122 a then ascii_of_N (N_of_ascii a - 32) else a.

Fixpoint fold_bytes (l : list ascii) : list ascii :=
  match l with
  | [] => []
  | a :: r =>
      match r with
      | b :: r2 =>
          if (code a =? 197) && (code b =? 191) then "S"%char :: fold_bytes r2 else
          match r2 with
          | c :: r3 => if (code a =? 226) && (code b =? 132) && (code c =? 170)
                       then "K"%char :: fold_bytes r3 else upper a :: fold_bytes r
          | [] => upper a :: fold_bytes r
          end
      | [] => [upper a]
      end
  end.
Definition foldName (s : string) : string := of_bytes (fold_bytes (bytes s)).
Definition field_match (name key : string) : bool := bool_decide (foldName key = foldName name).

Example field_match_ex :
  field_match "tincan_listener" "Tincan_LISTENER" = true /\
  field_match "tincan_listener" "tincan_listen" = false.
Proof. split; reflexivity. Qed.

(** Storing one value into a [string] or [bool] field; the second component says whether a
    type error was saved. *)
Definition store_string (v : json) (old : string) : string * bool :=
  match v with JStr s => (s, false) | JNull => (old, false) | _ => (old, true) end.
Definition store_bool (v : json) (old : bool) : bool * bool :=
  match v with JBool b => (b, false) | JNull => (old, false) | _ => (old, true) end.

(** [json.Unmarshal] into [map[string]json.RawMessage], for [_, ok := m[key]]. *)
Definition has_key (key : string) (v : json) : bool :=
  match v with JObj members => existsb (fun kv => bool_decide (kv.1 = key)) members | _ => false end.

Lemma jget_cons_eq k v r : jget k (JObj ((k, v) :: r)) = Some v.
Proof. unfold jget, jfield. simpl. by rewrite bool_decide_eq_true_2. Qed.
Lemma jget_cons_ne k k' v r : k <> k' -> jget k (JObj ((k', v) :: r)) = jget k (JObj r).
Proof. intros. unfold jget, jfield. simpl. by rewrite bool_decide_eq_false_2. Qed.
