(* ===== verification/Types.v ===== *)
(** * Wire and state types

    The structs of [internal/core/types.go], [internal/core/join_approval.go],
    [internal/e2ee/crypto.go] and of the inbox ([cmd/tincan/inbox*.go]). Field names keep the
    Go name behind a prefix for the struct. Times are nanoseconds; the confidence of a
    semantic notice is a float64, kept as an IEEE binary64 value ([spec_float]). *)
From S2P Require Import Prelude GoStrings Json.
From Stdlib Require Export Floats.SpecFloat.

(** ** internal/e2ee *)
Record Device := mkDevice {
  dev_AgentID : string; dev_Recipient : string; dev_SigningKey : string;
  dev_Protocol : Z; dev_KeyPackage : string }.

Record Envelope := mkEnvelope {
  env_RoomGroup : bool; env_RoomID : string; env_Kind : string; env_Version : Z;
  env_WorkspaceID : string; env_ChannelID : string; env_SenderID : string; env_Key : string;
  env_Mentions : list string; env_ReplyTo : option string; env_AttachmentIDs : list string;
  env_Epoch : Z; env_RosterHash : string; env_Ciphertext : string; env_Signature : string;
  env_Capsule : string; env_PayloadHash : string }.

(** ** internal/core *)
Record Attachment := mkAttachment {
  att_ID : string; att_Name : string; att_MIME : string; att_Bytes : Z }.
Record MessageContext := mkMessageContext {
  mc_RoomID : string; mc_RoomName : string; mc_ChannelName : string; mc_Private : bool }.
Record ReplyPreview := mkReplyPreview {
  rp_ID : string; rp_AgentName : string; rp_Text : string }.

Record Message := mkMessage {
  msg_EncryptionError : string; msg_Encrypted : option Envelope;
  msg_Context : option MessageContext; msg_ReplyPreview : option ReplyPreview;
  msg_Seq : Z; msg_ID : string; msg_ChannelID : string; msg_AgentID : string;
  msg_AgentName : string; msg_Text : string; msg_Metadata : json;
  msg_Attachments : list Attachment; msg_Mentions : list string;
  msg_ReplyTo : option string; msg_CreatedAt : Z }.

Record SendInput := mkSendInput {
  si_Encrypted : option Envelope; si_ChannelID : string; si_Text : string;
  si_SharingPurpose : string; si_SharingContext : string; si_Metadata : json;
  si_AttachmentIDs : list string; si_Mentions : list string; si_ReplyTo : option string;
  si_IdempotencyKey : string }.

(** [core.ID]: a prefix and sixteen random bytes in hexadecimal; the bytes are the caller's. *)
Definition ID (prefix random : string) : string := prefix +:+ hex random.

#[export] Instance ID_inj prefix : Inj (=) (=) (ID prefix).
Proof. intros a b H. apply app_str_inj_l in H. by apply hex_inj in H. Qed.

(** ** cmd/tincan: connection configuration *)
Record JoinReceipt := mkJoinReceipt {
  jr_Automatic : bool; jr_Fingerprint : string; jr_RequestID : string; jr_Receipt : string;
  jr_Status : string; jr_VerificationPhrase : string; jr_ExpiresAt : Z }.
Record pendingRoomCreation := mkPendingRoomCreation {
  prc_ID : string; prc_Name : string; prc_Path : string }.
Record Config := mkConfig {
  cfg_PendingEncryptedRoom : option pendingRoomCreation;
  cfg_CryptoRooms : gmap string string; cfg_EncryptionRoom : string;
  cfg_ConnectionPath : string; cfg_CryptoPath : string; cfg_PendingJoin : option JoinReceipt;
  cfg_Server : string; cfg_Token : string }.

(** ** cmd/tincan: inbox *)
Record semanticNotice := mkSemanticNotice {
  sem_MessageID : string; sem_Classification : string; sem_Confidence : spec_float;
  sem_OwnerAgentID : string; sem_SuggestionID : string; sem_Feature : string;
  sem_Kind : string; sem_Mode : string }.
Record collaborationNotice := mkCollaborationNotice {
  col_OwnerAgentID : string; col_RequestID : string; col_MessageID : string;
  col_Reason : string }.
Record joinNotice := mkJoinNotice {
  jn_RequestID : string; jn_Name : string; jn_VerificationPhrase : string; jn_ExpiresAt : Z }.

Record inboxEvent := mkEvent {
  ev_Semantic : option semanticNotice; ev_Collaboration : option collaborationNotice;
  ev_Mentioned : bool; ev_JoinRequest : option joinNotice; ev_Seq : Z; ev_Kind : string;
  ev_ChannelID : string; ev_Payload : Message }.

Record inboxClaim := mkClaim { cl_WorkerID : string; cl_Token : string }.
Record requestApproval := mkApproval {
  ap_ID : string; ap_Question : string; ap_Permission : string; ap_Delivery : string;
  ap_Source : string }.
Record standingPolicy := mkPolicy {
  pol_Source : string; pol_Scope : string; pol_Resources : list string;
  pol_Boundaries : list string; pol_Revision : Z; pol_MaxWorkers : Z }.

Record inboxRequest := mkRequest {
  req_AppliedUpdates : gmap string bool; req_Event : inboxEvent; req_Status : string;
  req_Claim : option inboxClaim; req_DeliveryError : string; req_Reply : option string;
  req_Summary : string; req_Context : string; req_Dependencies : list Z;
  req_Resources : list string; req_Approval : option requestApproval; req_Attempt : Z;
  req_LastClaim : string; req_Decision : string }.

Record inboxState := mkState {
  st_Revision : Z; st_Version : Z; st_Requests : list inboxRequest;
  st_Policy : option standingPolicy; st_After : Z; st_Pending : option inboxEvent;
  st_Reply : option string; st_Claim : option inboxClaim }.

(** [inboxRequest{Event: e, Status: status}]: every other field at its zero value. *)
Definition new_request (e : inboxEvent) (status : string) : inboxRequest :=
  mkRequest ∅ e status None "" None "" "" [] [] None 0 "" "".

(** ** Assignments to one field *)
Definition set_Mentioned (b : bool) (e : inboxEvent) : inboxEvent :=
  mkEvent (ev_Semantic e) (ev_Collaboration e) b (ev_JoinRequest e) (ev_Seq e) (ev_Kind e)
    (ev_ChannelID e) (ev_Payload e).
Definition set_Semantic (o : option semanticNotice) (e : inboxEvent) : inboxEvent :=
  mkEvent o (ev_Collaboration e) (ev_Mentioned e) (ev_JoinRequest e) (ev_Seq e) (ev_Kind e)
    (ev_ChannelID e) (ev_Payload e).
Definition set_Payload (p : Message) (e : inboxEvent) : inboxEvent :=
  mkEvent (ev_Semantic e) (ev_Collaboration e) (ev_Mentioned e) (ev_JoinRequest e) (ev_Seq e)
    (ev_Kind e) (ev_ChannelID e) p.
Definition set_AgentName (n : string) (m : Message) : Message :=
  mkMessage (msg_EncryptionError m) (msg_Encrypted m) (msg_Context m) (msg_ReplyPreview m)
    (msg_Seq m) (msg_ID m) (msg_ChannelID m) (msg_AgentID m) n (msg_Text m) (msg_Metadata m)
    (msg_Attachments m) (msg_Mentions m) (msg_ReplyTo m) (msg_CreatedAt m).

Definition map_Event (f : inboxEvent -> inboxEvent) (r : inboxRequest) : inboxRequest :=
  mkRequest (req_AppliedUpdates r) (f (req_Event r)) (req_Status r) (req_Claim r)
    (req_DeliveryError r) (req_Reply r) (req_Summary r) (req_Context r) (req_Dependencies r)
    (req_Resources r) (req_Approval r) (req_Attempt r) (req_LastClaim r) (req_Decision r).
Definition set_Applied (v : gmap string bool) (r : inboxRequest) : inboxRequest :=
  mkRequest v (req_Event r) (req_Status r) (req_Claim r) (req_DeliveryError r) (req_Reply r)
    (req_Summary r) (req_Context r) (req_Dependencies r) (req_Resources r) (req_Approval r)
    (req_Attempt r) (req_LastClaim r) (req_Decision r).
Definition set_Status (v : string) (r : inboxRequest) : inboxRequest :=
  mkRequest (req_AppliedUpdates r) (req_Event r) v (req_Claim r) (req_DeliveryError r)
    (req_Reply r) (req_Summary r) (req_Context r) (req_Dependencies r) (req_Resources r)
    (req_Approval r) (req_Attempt r) (req_LastClaim r) (req_Decision r).
Definition set_Claim (v : option inboxClaim) (r : inboxRequest) : inboxRequest :=
  mkRequest (req_AppliedUpdates r) (req_Event r) (req_Status r) v (req_DeliveryError r)
    (req_Reply r) (req_Summary r) (req_Context r) (req_Dependencies r) (req_Resources r)
    (req_Approval r) (req_Attempt r) (req_LastClaim r) (req_Decision r).
Definition set_DeliveryError (v : string) (r : inboxRequest) : inboxRequest :=
  mkRequest (req_AppliedUpdates r) (req_Event r) (req_Status r) (req_Claim r) v (req_Reply r)
    (req_Summary r) (req_Context r) (req_Dependencies r) (req_Resources r) (req_Approval r)
    (req_Attempt r) (req_LastClaim r) (req_Decision r).
Definition set_Reply (v : option string) (r : inboxRequest) : inboxRequest :=
  mkRequest (req_AppliedUpdates r) (req_Event r) (req_Status r) (req_Claim r)
    (req_DeliveryError r) v (req_Summary r) (req_Context r) (req_Dependencies r)
    (req_Resources r) (req_Approval r) (req_Attempt r) (req_LastClaim r) (req_Decision r).
Definition set_Summary (v : string) (r : inboxRequest) : inboxRequest :=
  mkRequest (req_AppliedUpdates r) (req_Event r) (req_Status r) (req_Claim r)
    (req_DeliveryError r) (req_Reply r) v (req_Context r) (req_Dependencies r) (req_Resources r)
    (req_Approval r) (req_Attempt r) (req_LastClaim r) (req_Decision r).
Definition set_Context (v : string) (r : inboxRequest) : inboxRequest :=
  mkRequest (req_AppliedUpdates r) (req_Event r) (req_Status r) (req_Claim r)
    (req_DeliveryError r) (req_Reply r) (req_Summary r) v (req_Dependencies r) (req_Resources r)
    (req_Approval r) (req_Attempt r) (req_LastClaim r) (req_Decision r).
Definition set_Plan (ds : list Z) (rs : list string) (r : inboxRequest) : inboxRequest :=
  mkRequest (req_AppliedUpdates r) (req_Event r) (req_Status r) (req_Claim r)
    (req_DeliveryError r) (req_Reply r) (req_Summary r) (req_Context r) ds rs (req_Approval r)
    (req_Attempt r) (req_LastClaim r) (req_Decision r).
Definition set_Approval (v : option requestApproval) (r : inboxRequest) : inboxRequest :=
  mkRequest (req_AppliedUpdates r) (req_Event r) (req_Status r) (req_Claim r)
    (req_DeliveryError r) (req_Reply r) (req_Summary r) (req_Context r) (req_Dependencies r)
    (req_Resources r) v (req_Attempt r) (req_LastClaim r) (req_Decision r).
Definition set_Attempt (v : Z) (r : inboxRequest) : inboxRequest :=
  mkRequest (req_AppliedUpdates r) (req_Event r) (req_Status r) (req_Claim r)
    (req_DeliveryError r) (req_Reply r) (req_Summary r) (req_Context r) (req_Dependencies r)
    (req_Resources r) (req_Approval r) v (req_LastClaim r) (req_Decision r).
Definition set_LastClaim (v : string) (r : inboxRequest) : inboxRequest :=
  mkRequest (req_AppliedUpdates r) (req_Event r) (req_Status r) (req_Claim r)
    (req_DeliveryError r) (req_Reply r) (req_Summary r) (req_Context r) (req_Dependencies r)
    (req_Resources r) (req_Approval r) (req_Attempt r) v (req_Decision r).
Definition set_Decision (v : string) (r : inboxRequest) : inboxRequest :=
  mkRequest (req_AppliedUpdates r) (req_Event r) (req_Status r) (req_Claim r)
    (req_DeliveryError r) (req_Reply r) (req_Summary r) (req_Context r) (req_Dependencies r)
    (req_Resources r) (req_Approval r) (req_Attempt r) (req_LastClaim r) v.

Definition set_Delivery (v : string) (a : requestApproval) : requestApproval :=
  mkApproval (ap_ID a) (ap_Question a) (ap_Permission a) v (ap_Source a).
Definition set_Source (v : string) (a : requestApproval) : requestApproval :=
  mkApproval (ap_ID a) (ap_Question a) (ap_Permission a) (ap_Delivery a) v.
Definition set_PolicyRevision (v : Z) (p : standingPolicy) : standingPolicy :=
  mkPolicy (pol_Source p) (pol_Scope p) (pol_Resources p) (pol_Boundaries p) v
    (pol_MaxWorkers p).

Definition set_Requests (v : list inboxRequest) (s : inboxState) : inboxState :=
  mkState (st_Revision s) (st_Version s) v (st_Policy s) (st_After s) (st_Pending s)
    (st_Reply s) (st_Claim s).
Definition set_Revision (v : Z) (s : inboxState) : inboxState :=
  mkState v (st_Version s) (st_Requests s) (st_Policy s) (st_After s) (st_Pending s)
    (st_Reply s) (st_Claim s).
Definition set_Version (v : Z) (s : inboxState) : inboxState :=
  mkState (st_Revision s) v (st_Requests s) (st_Policy s) (st_After s) (st_Pending s)
    (st_Reply s) (st_Claim s).
Definition set_After (v : Z) (s : inboxState) : inboxState :=
  mkState (st_Revision s) (st_Version s) (st_Requests s) (st_Policy s) v (st_Pending s)
    (st_Reply s) (st_Claim s).
Definition set_Policy (v : option standingPolicy) (s : inboxState) : inboxState :=
  mkState (st_Revision s) (st_Version s) (st_Requests s) v (st_After s) (st_Pending s)
    (st_Reply s) (st_Claim s).
Definition set_Legacy (e : option inboxEvent) (y : option string) (c : option inboxClaim)
    (s : inboxState) : inboxState :=
  mkState (st_Revision s) (st_Version s) (st_Requests s) (st_Policy s) (st_After s) e y c.
