(* ===== verification/InboxState.v ===== *)
(** * The durable inbox state

    [inboxState] and its methods ([inbox_requests.go], [inbox_lifecycle.go]): validation and
    migration of a saved state, the copy-on-write copy, request lookup, scheduling
    ([eligible], [runnable]) and the legacy projection.

    A Go pointer into [s.Requests] is its index in the list. A method that starts with
    [s.migrate()] returns the migrated state beside its result. *)
From S2P Require Import Prelude GoStrings Json Types.

(** ** Connection notices ([lifecycleKind]) *)

(** The anonymous struct [{Kind string; Listener bool}] and the decoding of one member into
    it; the last component is whether a type error was saved. *)
Definition decode_member (acc : string * bool * bool) (kv : string * json) : string * bool * bool :=
  let '(kind, listener, bad) := acc in
  if field_match "tincan_connection" kv.1 then
    let '(kind', e) := store_string kv.2 kind in (kind', listener, bad || e)
  else if field_match "tincan_listener" kv.1 then
    let '(listener', e) := store_bool kv.2 listener in (kind, listener', bad || e)
  else acc.

Definition decode_connection_meta (v : json) : option (string * bool) :=
  match v with
  | JObj members =>
      let '(kind, listener, bad) := fold_left decode_member members ("", false, false) in
      if bad then None else Some (kind, listener)
  | JNull => Some ("", false)
  | _ => None
  end.

Definition lifecycleKind (e : inboxEvent) : string :=
  if bool_decide (ev_Kind e <> "message") || bool_decide (msg_ID (ev_Payload e) = "") then "" else
  match decode_connection_meta (msg_Metadata (ev_Payload e)) with
  | Some (kind, listener) =>
      if bool_decide (kind = "hello") && listener then "connection_notice" else ""
  | None => ""
  end.

Definition is_lifecycle (e : inboxEvent) : bool := bool_decide (lifecycleKind e <> "").

(** ** Priority *)

(** The float64 constant [.8]: 0x1999999999999A * 2^-53. *)
Definition point8 : spec_float := S754_finite false 7205759403792794 (-53).

Definition work_classification (c : string) : bool :=
  bool_decide (c ∈ ["human_decision"; "blocker"; "changed_requirement"; "agent_work"]).

Definition event_priority (e : inboxEvent) : Z :=
  if bool_decide (ev_Kind e = "join_requested") then 3
  else if ev_Mentioned e then 2
  else match ev_Semantic e with
       | Some n => if SFleb point8 (sem_Confidence n) && work_classification (sem_Classification n)
                   then 1 else 0
       | None => 0
       end.
Definition requestPriority (r : inboxRequest) : Z := event_priority (req_Event r).

(** ** Validation and migration *)
Definition req_Seq (r : inboxRequest) : Z := ev_Seq (req_Event r).

Definition statuses : list string :=
  ["ready"; "running"; "awaiting_approval"; "awaiting_information"; "failed";
   "needs_recovery"; "reply_pending"; "completed"; "declined"; "cancelled"].

Definition awaiting (status : string) : bool :=
  bool_decide (status = "awaiting_approval") || bool_decide (status = "awaiting_information").

Definition approval_missing (r : inboxRequest) : bool :=
  match req_Approval r with
  | None => true
  | Some a => bool_decide (ap_ID a = "") || bool_decide (ap_Question a = "")
              || bool_decide (req_Claim r <> None)
  end.

Definition claim_malformed (r : inboxRequest) : bool :=
  match req_Claim r with
  | Some c => bool_decide (cl_WorkerID c = "") || bool_decide (cl_Token c = "")
  | None => false
  end.

Definition check_request (after : Z) (seen : gset Z) (r : inboxRequest) : option string :=
  if (req_Seq r <=? 0) || (after <? req_Seq r) || bool_decide (req_Seq r ∈ seen)
  then Some "invalid request cursor"
  else if bool_decide (req_Status r ∉ statuses) then Some "invalid request state"
  else if bool_decide (req_Status r = "running") && bool_decide (req_Claim r = None)
  then Some "running request has no claim"
  else if awaiting (req_Status r) && approval_missing r then Some "invalid suspended request"
  else if claim_malformed r then Some "invalid inbox worker claim" else None.

Fixpoint check_requests (after : Z) (seen : gset Z) (l : list inboxRequest) : option string :=
  match l with
  | [] => None
  | r :: rest =>
      match check_request after seen r with
      | Some e => Some e
      | None => check_requests after ({[req_Seq r]} ∪ seen) rest
      end
  end.

(** The version-1 branch: one pending event becomes the first request. *)
Definition migrate_v1 (s : inboxState) : result inboxState :=
  if 2 <=? st_Version s then Ok s else
  if (bool_decide (st_Claim s <> None) || bool_decide (st_Reply s <> None))
     && bool_decide (st_Pending s = None)
  then Err "invalid inbox cursor" else
  match st_Pending s with
  | Some e =>
      if ev_Seq e <=? st_After s then Err "invalid inbox cursor" else
      let status := "ready" in
      let status := if bool_decide (st_Claim s <> None) then "running" else status in
      let status := if bool_decide (st_Reply s <> None) then "reply_pending" else status in
      let r := set_Reply (st_Reply s) (set_Claim (st_Claim s) (new_request e status)) in
      Ok (set_Version 2 (set_After (ev_Seq e) (set_Requests (st_Requests s ++ [r]) s)))
  | None => Ok (set_Version 2 s)
  end.

(** [migrate] mutates its receiver even when it then fails: the error beside the state. *)
Definition migrate (s : inboxState) : option string * inboxState :=
  if (2 <? st_Version s) || (st_After s <? 0)
  then (Some "unsupported or invalid inbox state", s) else
  match migrate_v1 s with
  | Err e => (Some e, s)
  | Ok s1 =>
      match check_requests (st_After s1) ∅ (st_Requests s1) with
      | Some e => (Some e, s1)
      | None => (None, set_Requests (sort_desc requestPriority (st_Requests s1)) s1)
      end
  end.

(** The metadata of an event, which alone is of any depth, lies five levels deep in the text of a
    state, and three levels deep in that of its pending event. *)
Definition meta_depth (e : inboxEvent) : Z := depth (msg_Metadata (ev_Payload e)).
Definition state_limit : Z := maxNestingDepth - 5.
Definition too_deep (s : inboxState) : bool :=
  existsb (fun r => maxNestingDepth <? 5 + meta_depth (req_Event r)) (st_Requests s)
  || from_option (fun e => maxNestingDepth <? 3 + meta_depth e) false (st_Pending s).
Definition blank_state : inboxState := mkState 0 0 [] None 0 None None None.

(** [copy]: the state as JSON, read again, with the errors of both dropped, then [migrate] with its
    error ignored. A text that is nested too deeply is not read at all, which leaves the zero
    state. ([WireTheorems.json_copy_is_copy]: this is what the round trip comes to.) *)
Definition copy (s : inboxState) : inboxState := (migrate (if too_deep s then blank_state else s)).2.

(** [request]: the migrated state, and the index and value of the request. *)
Definition request (s : inboxState) (seq : Z) : inboxState * option (nat * inboxRequest) :=
  let s := (migrate s).2 in
  (s, list_find (fun r => req_Seq r = seq) (st_Requests s)).

Definition terminal (status : string) : bool :=
  bool_decide (status = "completed") || bool_decide (status = "declined")
  || bool_decide (status = "cancelled").

(** ** Scheduling *)
Definition worker_limit (s : inboxState) : Z :=
  match st_Policy s with
  | Some p => if 0 <? pol_MaxWorkers p then pol_MaxWorkers p else 4
  | None => 4
  end.

Definition running_count (s : inboxState) : Z :=
  Z.of_nat (length (filter (fun a => req_Status a = "running") (st_Requests s))).

(** The loop over [r.Dependencies]; each lookup migrates the state. *)
Fixpoint deps_completed (s : inboxState) (deps : list Z) : bool * inboxState :=
  match deps with
  | [] => (true, s)
  | seq :: rest =>
      let '(s, d) := request s seq in
      match d with
      | Some (_, d) =>
          if bool_decide (req_Status d = "completed") then deps_completed s rest else (false, s)
      | None => (false, s)
      end
  end.

Definition same_suggestion (a b : inboxEvent) : bool :=
  match ev_Semantic a, ev_Semantic b with
  | Some x, Some y => bool_decide (sem_SuggestionID x = sem_SuggestionID y)
  | _, _ => false
  end.
Definition same_collaboration (a b : inboxEvent) : bool :=
  match ev_Collaboration a, ev_Collaboration b with
  | Some x, Some y => bool_decide (col_RequestID x = col_RequestID y)
  | _, _ => false
  end.
Definition shares_resource (a b : inboxRequest) : bool :=
  existsb (fun x => bool_decide (x ∈ req_Resources b)) (req_Resources a).

(** What an [active] request denies [r]. *)
Definition conflicts (r active : inboxRequest) : bool :=
  bool_decide (req_Claim active <> None) &&
  (same_suggestion (req_Event r) (req_Event active)
   || same_collaboration (req_Event r) (req_Event active)
   || shares_resource active r).

Definition eligible (s : inboxState) (r : inboxRequest) : bool :=
  if bool_decide (req_Status r <> "ready") then false
  else if is_lifecycle (req_Event r) then true
  else if worker_limit s <=? running_count s then false
  else let '(completed, s) := deps_completed s (req_Dependencies r) in
       if negb completed then false else negb (existsb (conflicts r) (st_Requests s)).

Definition runnable (s : inboxState) : inboxState * option (nat * inboxRequest) :=
  let s := (migrate s).2 in
  (s, list_find (fun r => eligible s r = true) (st_Requests s)).

(** ** The legacy projection *)
Definition project (s : inboxState) : inboxState :=
  let '(s, r) := runnable s in
  let r := match r with
           | Some r => Some r
           | None => list_find (fun r => terminal (req_Status r) = false) (st_Requests s)
           end in
  match r with
  | Some (_, r) => set_Legacy (Some (req_Event r)) (req_Reply r) (req_Claim r) s
  | None => set_Legacy None None None s
  end.

(** ** Well-formed states *)
Record valid_request (after : Z) (r : inboxRequest) : Prop := {
  vr_seq : 0 < req_Seq r <= after;
  vr_status : req_Status r ∈ statuses;
  vr_running : req_Status r = "running" -> req_Claim r <> None;
  vr_awaiting : awaiting (req_Status r) = true ->
    exists a, req_Approval r = Some a /\ ap_ID a <> "" /\ ap_Question a <> ""
              /\ req_Claim r = None;
  vr_claim : forall c, req_Claim r = Some c -> cl_WorkerID c <> "" /\ cl_Token c <> "" }.

(** A state that can be copied: see [too_deep]. *)
Definition shallow_event (e : inboxEvent) : Prop := meta_depth e <= state_limit.
Definition shallow (s : inboxState) : Prop :=
  Forall (fun r => shallow_event (req_Event r)) (st_Requests s) /\ from_option shallow_event True (st_Pending s).

Record valid_state (s : inboxState) : Prop := {
  vs_version : st_Version s = 2;
  vs_after : 0 <= st_After s;
  vs_requests : Forall (valid_request (st_After s)) (st_Requests s);
  vs_nodup : NoDup (req_Seq <$> st_Requests s);
  vs_sorted : desc requestPriority (st_Requests s);
  vs_shallow : shallow s }.

Lemma approval_missing_false r :
  approval_missing r = false <->
  exists a, req_Approval r = Some a /\ ap_ID a <> "" /\ ap_Question a <> ""
            /\ req_Claim r = None.
Proof.
  unfold approval_missing. destruct (req_Approval r) as [a|];
    [|split; [done | intros (a & [=] & _)]].
  rewrite !orb_false_iff, !bool_decide_eq_false. split.
  - intros [[? ?] ?]. exists a. split_and!; try done. by apply dec_stable.
  - intros (? & [= <-] & ? & ? & ?). auto.
Qed.

Lemma claim_malformed_false r :
  claim_malformed r = false <->
  forall c, req_Claim r = Some c -> cl_WorkerID c <> "" /\ cl_Token c <> "".
Proof.
  unfold claim_malformed. destruct (req_Claim r) as [c|]; [|split; [by intros _ c [=] | done]].
  rewrite orb_false_iff, !bool_decide_eq_false. split; [by intros H c' [= <-] | by intros H; apply H].
Qed.

(** The checks of one request, as one boolean. *)
Lemma check_request_bool after seen r :
  check_request after seen r = None <->
  ((req_Seq r <=? 0) || (after <? req_Seq r) || bool_decide (req_Seq r ∈ seen)) = false /\
  bool_decide (req_Status r ∉ statuses) = false /\
  (bool_decide (req_Status r = "running") && bool_decide (req_Claim r = None)) = false /\
  (awaiting (req_Status r) && approval_missing r) = false /\ claim_malformed r = false.
Proof.
  unfold check_request.
  repeat (match goal with |- context [if ?b then _ else _] => destruct b end;
          [split; [done | by intros (? & ? & ? & ? & ?)]|]).
  done.
Qed.

Lemma check_request_None after seen r :
  check_request after seen r = None <-> valid_request after r /\ req_Seq r ∉ seen.
Proof.
  rewrite check_request_bool, claim_malformed_false, !orb_false_iff, !andb_false_iff,
    approval_missing_false, !bool_decide_eq_false, Z.leb_gt, Z.ltb_ge.
  split.
  - intros ([[? ?] ?] & ? & Hrun & Haw & ?). split; [|done]. split; [lia| | | |done].
    + by apply dec_stable.
    + intros E. by destruct Hrun.
    + intros E. destruct Haw; [congruence|done].
  - intros [[] ?]. split_and!; try done; try lia.
    + by intros [].
    + destruct (decide (req_Status r = "running")); auto.
    + destruct (awaiting (req_Status r)); auto.
Qed.

Lemma check_requests_None after seen l :
  check_requests after seen l = None <->
  Forall (valid_request after) l /\ NoDup (req_Seq <$> l) /\ Forall (fun r => req_Seq r ∉ seen) l.
Proof.
  revert seen. induction l as [|r l IH]; intros seen; simpl.
  - split; [|done]. repeat split; constructor.
  - destruct (check_request after seen r) eqn:E.
    + split; [done|]. intros (H1 & _ & H3). inversion H1; inversion H3; subst.
      by rewrite (proj2 (check_request_None after seen r)) in E.
    + apply check_request_None in E as [Hv Hs]. rewrite IH, NoDup_cons, !Forall_cons. split.
      * intros (H1 & H2 & H3). rewrite Forall_forall in H3. split_and!; try done.
        -- intros (x & Hx & Hin)%list_elem_of_fmap. apply H3 in Hin. set_solver.
        -- apply Forall_forall. intros x Hx%H3. set_solver.
      * intros ((_ & H1) & (Hn & H2) & _ & H3). split_and!; try done.
        apply Forall_forall. intros x Hx. rewrite Forall_forall in H3. specialize (H3 x Hx).
        assert (req_Seq x <> req_Seq r); [|set_solver].
        intros Heq. apply Hn. rewrite <- Heq. by apply list_elem_of_fmap_2.
Qed.

Lemma valid_state_checks s :
  check_requests (st_After s) ∅ (st_Requests s) = None ->
  st_Version s = 2 -> 0 <= st_After s -> shallow s ->
  valid_state (set_Requests (sort_desc requestPriority (st_Requests s)) s).
Proof.
  intros (Hv & Hn & _)%check_requests_None H2 Ha [Hd Hp]. split; simpl; [done|done| | | |split; simpl; [|done]].
  - by rewrite sort_desc_perm.
  - by rewrite (sort_desc_perm requestPriority).
  - apply sort_desc_sorted.
  - by rewrite sort_desc_perm.
Qed.

Lemma migrate_v1_Ok s s1 :
  migrate_v1 s = Ok s1 -> 0 <= st_After s -> st_Version s <= 2 ->
  st_Version s1 = 2 /\ 0 <= st_After s1.
Proof. unfold migrate_v1. intros H Ha Hv. go_cases; bool_simpl; simpl; lia. Qed.

Lemma migrate_v1_shallow s s1 : migrate_v1 s = Ok s1 -> shallow s -> shallow s1.
Proof.
  unfold migrate_v1, shallow. intros H [Hr Hp]. destruct (2 <=? st_Version s); [by simplify_eq|].
  destruct ((_ || _) && _); [done|]. destruct (st_Pending s) as [e|] eqn:E; [|simplify_eq; simpl; by rewrite E].
  destruct (_ <=? _); [done|]. injection H as <-. simpl. rewrite E. split; [|done].
  apply Forall_app. split; [done|]. by apply Forall_singleton.
Qed.

Lemma migrate_valid s s' : migrate s = (None, s') -> shallow s -> valid_state s'.
Proof.
  unfold migrate. intros H Hd. go_cases. bool_simpl.
  match goal with Hm : migrate_v1 _ = Ok _ |- _ =>
    pose proof (migrate_v1_shallow _ _ Hm Hd); apply migrate_v1_Ok in Hm as [? ?]; [|lia|lia] end.
  by apply valid_state_checks.
Qed.

Lemma migrate_current s :
  st_Version s = 2 -> 0 <= st_After s ->
  migrate s = match check_requests (st_After s) ∅ (st_Requests s) with
              | Some e => (Some e, s)
              | None => (None, set_Requests (sort_desc requestPriority (st_Requests s)) s)
              end.
Proof.
  intros Hv Ha. unfold migrate, migrate_v1. rewrite Hv.
  replace (st_After s <? 0) with false by (symmetry; by apply Z.ltb_ge). done.
Qed.

(** A migrated state is one whose checks pass and whose requests are sorted. *)
Lemma migrate_checked s : st_Version s = 2 -> 0 <= st_After s ->
  check_requests (st_After s) ∅ (st_Requests s) = None -> desc requestPriority (st_Requests s) -> migrate s = (None, s).
Proof. intros Hv Ha Hc Hs. rewrite migrate_current, Hc, sort_desc_id by done. by destruct s. Qed.

Lemma migrate_fix s : valid_state s -> migrate s = (None, s).
Proof.
  intros [Hv Ha Hr Hn Hs _]. apply migrate_checked; [done..| |done]. apply check_requests_None.
  split_and!; [done..|]. apply Forall_forall. intros. apply not_elem_of_empty.
Qed.

Lemma shallow_not_deep s : shallow s -> too_deep s = false.
Proof.
  intros [Hr Hp]. unfold too_deep, shallow_event, state_limit in *. apply orb_false_iff. split.
  - apply not_true_iff_false. intros (r & Hin%list_elem_of_In & Hd)%existsb_exists.
    rewrite Forall_forall in Hr. specialize (Hr r Hin). simpl in Hr. lia.
  - destruct (st_Pending s); simpl in *; [apply Z.ltb_ge; lia|done].
Qed.

Lemma copy_shallow s : shallow s -> copy s = (migrate s).2.
Proof. intros H. unfold copy. by rewrite shallow_not_deep. Qed.
Lemma copy_valid s : valid_state s -> copy s = s.
Proof. intros H. rewrite copy_shallow by apply H. by rewrite migrate_fix. Qed.

Lemma request_valid s seq :
  valid_state s ->
  request s seq = (s, list_find (fun r => req_Seq r = seq) (st_Requests s)).
Proof. intros H. unfold request. by rewrite migrate_fix. Qed.

Lemma runnable_valid s :
  valid_state s ->
  runnable s = (s, list_find (fun r => eligible s r = true) (st_Requests s)).
Proof. intros H. unfold runnable. by rewrite migrate_fix. Qed.

(** Whatever the state, a second migration changes nothing more. *)
Lemma migrate_idem s : (migrate (migrate s).2).2 = (migrate s).2.
Proof.
  destruct (migrate s) as [[e|] s'] eqn:E; simpl.
  - unfold migrate in E. destruct ((2 <? st_Version s) || (st_After s <? 0)) eqn:E1; simplify_eq.
    { unfold migrate. by rewrite E1. }
    destruct (migrate_v1 s) as [s1|e1] eqn:E2; simplify_eq.
    + destruct (check_requests (st_After s1) ∅ (st_Requests s1)) eqn:E3; simplify_eq.
      bool_simpl. pose proof (migrate_v1_Ok _ _ E2) as [Hv Ha]; [lia|lia|].
      rewrite migrate_current by done. by rewrite E3.
    + unfold migrate. by rewrite E1, E2.
  - unfold migrate in E. destruct ((2 <? st_Version s) || (st_After s <? 0)) eqn:E1; simplify_eq.
    destruct (migrate_v1 s) as [s1|e1] eqn:E2; simplify_eq.
    destruct (check_requests (st_After s1) ∅ (st_Requests s1)) eqn:E3; simplify_eq.
    bool_simpl. pose proof (migrate_v1_Ok _ _ E2) as [Hv Ha]; [lia|lia|].
    rewrite migrate_checked; [done|done|done| |apply sort_desc_sorted].
    apply check_requests_None in E3 as (H1 & H2 & H3). apply check_requests_None. simpl.
    by rewrite (sort_desc_perm requestPriority).
Qed.
