(* ===== verification/Inbox.v ===== *)
(** * The inbox

    [inbox.go]: the process's inbox object over its durable state, opened under a kernel lock.
    [save] is the only writer of the state: it replaces the file, then the live state. Every
    method runs under [i.mu] and is one function here, except [reply], whose network call
    runs unlocked and is split at it. The outcome of the file operations of a [save] is an
    argument: [None], or the error they return. *)
From S2P Require Import Prelude GoStrings Json Types InboxState.

(** What the inbox needs of the connection's encryption routing: how many locally saved room
    identities the connection manages, [len(managedCryptoConfigs(currentCryptoConfig(c)))]. *)
Class CryptoRoutes := {
  managed : Config -> Z;
  managed_nonneg : forall c, 0 <= managed c;
  managed_plain : forall c,
    cfg_ConnectionPath c = "" -> cfg_CryptoPath c = "" -> cfg_CryptoRooms c = ∅ ->
    managed c = 0 }.

Record inboxWaiter := mkWaiter { wt_WorkerID : string; wt_Until : Z }.

(** The [inbox] struct. [updates] counts the closings of the broadcast channel; [changed] is
    the one-slot acknowledgement channel; [questionNotices] is the map's key set (its values
    are always true); [lock] is whether the kernel lock is held; [file] is the content of the
    file at [path]. *)
Record inbox := mkInbox {
  ib_creator : bool; ib_c : Config; ib_agent : string; ib_allowed : list string;
  ib_workspacePeers : bool; ib_background : bool; ib_streamError : string;
  ib_bridgeError : string; ib_streaming : bool; ib_streamTransport : string; ib_path : string;
  ib_state : inboxState; ib_changed : bool; ib_updates : Z; ib_waiter : option inboxWaiter;
  ib_questionNotices : gset string; ib_closed : bool; ib_lock : bool;
  ib_file : option inboxState }.

Definition set_state (v : inboxState) (i : inbox) : inbox :=
  mkInbox (ib_creator i) (ib_c i) (ib_agent i) (ib_allowed i) (ib_workspacePeers i)
    (ib_background i) (ib_streamError i) (ib_bridgeError i) (ib_streaming i)
    (ib_streamTransport i) (ib_path i) v (ib_changed i) (ib_updates i) (ib_waiter i)
    (ib_questionNotices i) (ib_closed i) (ib_lock i) (ib_file i).
Definition set_background (v : bool) (i : inbox) : inbox :=
  mkInbox (ib_creator i) (ib_c i) (ib_agent i) (ib_allowed i) (ib_workspacePeers i) v
    (ib_streamError i) (ib_bridgeError i) (ib_streaming i) (ib_streamTransport i) (ib_path i)
    (ib_state i) (ib_changed i) (ib_updates i) (ib_waiter i) (ib_questionNotices i)
    (ib_closed i) (ib_lock i) (ib_file i).
Definition set_streamError (v : string) (i : inbox) : inbox :=
  mkInbox (ib_creator i) (ib_c i) (ib_agent i) (ib_allowed i) (ib_workspacePeers i)
    (ib_background i) v (ib_bridgeError i) (ib_streaming i) (ib_streamTransport i) (ib_path i)
    (ib_state i) (ib_changed i) (ib_updates i) (ib_waiter i) (ib_questionNotices i)
    (ib_closed i) (ib_lock i) (ib_file i).
Definition set_changed (v : bool) (i : inbox) : inbox :=
  mkInbox (ib_creator i) (ib_c i) (ib_agent i) (ib_allowed i) (ib_workspacePeers i)
    (ib_background i) (ib_streamError i) (ib_bridgeError i) (ib_streaming i)
    (ib_streamTransport i) (ib_path i) (ib_state i) v (ib_updates i) (ib_waiter i)
    (ib_questionNotices i) (ib_closed i) (ib_lock i) (ib_file i).
Definition set_waiter (v : option inboxWaiter) (i : inbox) : inbox :=
  mkInbox (ib_creator i) (ib_c i) (ib_agent i) (ib_allowed i) (ib_workspacePeers i)
    (ib_background i) (ib_streamError i) (ib_bridgeError i) (ib_streaming i)
    (ib_streamTransport i) (ib_path i) (ib_state i) (ib_changed i) (ib_updates i) v
    (ib_questionNotices i) (ib_closed i) (ib_lock i) (ib_file i).
Definition set_questionNotices (v : gset string) (i : inbox) : inbox :=
  mkInbox (ib_creator i) (ib_c i) (ib_agent i) (ib_allowed i) (ib_workspacePeers i)
    (ib_background i) (ib_streamError i) (ib_bridgeError i) (ib_streaming i)
    (ib_streamTransport i) (ib_path i) (ib_state i) (ib_changed i) (ib_updates i) (ib_waiter i)
    v (ib_closed i) (ib_lock i) (ib_file i).
Definition set_file (v : option inboxState) (i : inbox) : inbox :=
  mkInbox (ib_creator i) (ib_c i) (ib_agent i) (ib_allowed i) (ib_workspacePeers i)
    (ib_background i) (ib_streamError i) (ib_bridgeError i) (ib_streaming i)
    (ib_streamTransport i) (ib_path i) (ib_state i) (ib_changed i) (ib_updates i) (ib_waiter i)
    (ib_questionNotices i) (ib_closed i) (ib_lock i) v.
Definition set_closed (v l : bool) (i : inbox) : inbox :=
  mkInbox (ib_creator i) (ib_c i) (ib_agent i) (ib_allowed i) (ib_workspacePeers i)
    (ib_background i) (ib_streamError i) (ib_bridgeError i) (ib_streaming i)
    (ib_streamTransport i) (ib_path i) (ib_state i) (ib_changed i) (ib_updates i) (ib_waiter i)
    (ib_questionNotices i) v l (ib_file i).
Definition set_stream (s : bool) (t : string) (i : inbox) : inbox :=
  mkInbox (ib_creator i) (ib_c i) (ib_agent i) (ib_allowed i) (ib_workspacePeers i)
    (ib_background i) (ib_streamError i) (ib_bridgeError i) s t (ib_path i) (ib_state i)
    (ib_changed i) (ib_updates i) (ib_waiter i) (ib_questionNotices i) (ib_closed i) (ib_lock i)
    (ib_file i).

(** [signalUpdate]: close the broadcast channel and make a new one. *)
Definition signalUpdate (i : inbox) : inbox :=
  mkInbox (ib_creator i) (ib_c i) (ib_agent i) (ib_allowed i) (ib_workspacePeers i)
    (ib_background i) (ib_streamError i) (ib_bridgeError i) (ib_streaming i)
    (ib_streamTransport i) (ib_path i) (ib_state i) (ib_changed i) (ib_updates i + 1)
    (ib_waiter i) (ib_questionNotices i) (ib_closed i) (ib_lock i) (ib_file i).

(** ** Opening and closing *)
Definition close (i : inbox) : inbox :=
  if ib_closed i then i else signalUpdate (set_closed true false i).

(** ** Saving *)

(** The claim written to disk instead of the legacy projection, so that a reader of version
    1 rejects the file rather than drop the requests. *)
Definition format_guard : inboxClaim :=
  mkClaim "controller-v2-required" "format-guard-not-a-claim".

Definition disk_form (s : inboxState) : inboxState := set_Legacy None None (Some format_guard) s.

Definition save (io : option string) (i : inbox) (s : inboxState) : option string * inbox :=
  let '(err, s) := migrate s in
  match err with
  | Some e => (Some e, i)
  | None =>
      let s := disk_form s in
      match io with
      | Some e => (Some e, i)
      | None => (None, signalUpdate (set_state (project s) (set_file (Some s) i)))
      end
  end.

(** ** Which events the inbox accepts *)
Section Accepts.
Context `{!CryptoRoutes}.

Definition accepts (i : inbox) (e : inboxEvent) : bool :=
  let agent := msg_AgentID (ev_Payload e) in
  if bool_decide (ev_Kind e = "semantic_attention") then
    match ev_Semantic e with
    | Some n => bool_decide (sem_OwnerAgentID n = ib_agent i) && bool_decide (sem_SuggestionID n <> "")
    | None => false
    end
  else if bool_decide (ev_Kind e = "collaboration_attention") then
    match ev_Collaboration e with
    | Some n => bool_decide (col_OwnerAgentID n = ib_agent i) && bool_decide (col_RequestID n <> "")
    | None => false
    end
  else if bool_decide (ev_Kind e = "join_requested") then
    (ib_creator i || (0 <? managed (ib_c i))) &&
    match ev_JoinRequest e with Some n => bool_decide (jn_RequestID n <> "") | None => false end
  else if bool_decide (ev_Kind e <> "message")
       || bool_decide (msg_ID (ev_Payload e) = "")
       || (bool_decide (agent = ib_agent i) && bool_decide (lifecycleKind e = ""))
       || (negb (ib_workspacePeers i) && bool_decide (agent <> ib_agent i)
           && bool_decide (agent ∉ ib_allowed i))
  then false
  else if existsb (fun r => match ev_Collaboration (req_Event r) with
                            | Some n => bool_decide (col_MessageID n = msg_ID (ev_Payload e))
                            | None => false
                            end) (st_Requests (ib_state i))
  then false
  else negb (has_key "tincan_listener" (msg_Metadata (ev_Payload e)))
       || bool_decide (lifecycleKind e <> "").

(** [ingest] and the assignment of [Mentioned] that precedes it everywhere. *)
Definition mentions (agent : string) (e : inboxEvent) : bool :=
  bool_decide (ev_Kind e = "message") && bool_decide (agent ∈ msg_Mentions (ev_Payload e)).

(** Attaching a classification to the existing work it names. *)
Definition attach (n : semanticNotice) (r : inboxRequest) : inboxRequest :=
  if bool_decide (msg_ID (ev_Payload (req_Event r)) = sem_MessageID n)
     && bool_decide (ev_Kind (req_Event r) = "message")
  then map_Event (set_Semantic (Some n)) r else r.

Definition attached_summary : string :=
  "Classification attached to existing work; no separate action.".

Definition classification (e : inboxEvent) : option semanticNotice :=
  match ev_Semantic e with
  | Some n => if bool_decide (sem_Kind n = "attention") then Some n else None
  | None => None
  end.

(** Go's [(bool, error)]: whether the event became new work, and the save's error. *)
Definition ingest (io : option string) (i : inbox) (e : inboxEvent) (valid : bool)
    : bool * option string * inbox :=
  let s := copy (ib_state i) in
  if ev_Seq e <=? st_After s then (false, None, i) else
  let e := set_Mentioned (mentions (ib_agent i) e) e in
  let accepted := valid && accepts i e in
  let s := set_After (ev_Seq e) s in
  match (if accepted then classification e else None) with
  | Some n =>
      let done := set_Summary attached_summary (new_request e "completed") in
      let '(err, i) := save io i (set_Requests ((attach n <$> st_Requests s) ++ [done]) s) in
      (false, err, i)
  | None =>
      let s := if accepted then set_Requests (st_Requests s ++ [new_request e "ready"]) s else s in
      let '(err, i) := save io i s in
      (accepted, err, i)
  end.

(** The middle of [next]: cancel ready requests an operator's allowlist no longer covers. *)
Definition revalidate_request (i : inbox) (r : inboxRequest) : inboxRequest :=
  if bool_decide (req_Status r = "ready") && negb (accepts i (req_Event r))
  then set_Status "cancelled" r else r.

Definition revalidate (io : option string) (i : inbox) : option string * inbox :=
  let '(err, st) := migrate (ib_state i) in
  let i := set_state st i in
  match err with
  | Some e => (Some e, i)
  | None =>
      let s := copy (ib_state i) in
      if existsb (fun r => bool_decide (req_Status r = "ready") && negb (accepts i (req_Event r)))
           (st_Requests s)
      then save io i (set_Requests (revalidate_request i <$> st_Requests s) s)
      else (None, i)
  end.
End Accepts.

(** ** Claims guarding completion ([checkRequestClaim]) *)
Definition suspended (status : string) : bool :=
  awaiting status || bool_decide (status = "needs_recovery").

Definition checkRequestClaim (r : inboxRequest) (tokens : list string) : option string :=
  if match req_Claim r with
     | Some c => bool_decide (tokens <> [cl_Token c])
     | None => false
     end
  then Some "mention belongs to a delegated worker; its claim is required"
  else if bool_decide (req_Claim r = None)
          && match tokens with t :: _ => bool_decide (t <> "") | [] => false end
  then Some "worker claim is no longer active"
  else if suspended (req_Status r)
  then Some "request is suspended; use the controller decision/recovery path"
  else None.

(** ** Acknowledgement *)
Definition finish_request (r : inboxRequest) : inboxRequest :=
  let r := match req_Claim r with Some c => set_LastClaim (cl_Token c) r | None => r end in
  let r := set_Reply None (set_Claim None (set_Status "completed" r)) in
  let r := set_DeliveryError "" r in
  if bool_decide (req_Decision r = "decline") then set_Status "declined" r else r.

(** [s.Requests[n] = r; s.Revision++]. *)
Definition commit (n : nat) (r : inboxRequest) (s : inboxState) : inboxState :=
  set_Revision (int_incr (st_Revision s)) (set_Requests (<[n:=r]> (st_Requests s)) s).

Definition ackLocked (io : option string) (i : inbox) (seq : Z) : option string * inbox :=
  let '(s, r) := request (copy (ib_state i)) seq in
  match r with
  | None => (Some "no matching pending event", i)
  | Some (n, r) =>
      if bool_decide (req_Status r = "completed") || bool_decide (req_Status r = "declined")
      then (None, i)
      else
        let '(err, i) := save io i (commit n (finish_request r) s) in
        match err with
        | Some e => (Some e, i)
        | None => (None, set_changed true i)
        end
  end.

(** A lookup in the live state, which it migrates in place. *)
Definition live_request (i : inbox) (seq : Z) : inbox * option inboxRequest :=
  let '(st, r) := request (ib_state i) seq in (set_state st i, snd <$> r).

Definition ack (io : option string) (i : inbox) (seq : Z) (claim : list string)
    : option string * inbox :=
  let '(i, r) := live_request i seq in
  match r with
  | Some r =>
      match checkRequestClaim r claim with
      | Some e => (Some e, i)
      | None =>
          if bool_decide (req_Reply r <> None)
          then (Some "reply delivery is pending; retry inbox_reply before acknowledging", i)
          else ackLocked io i seq
      end
  | None => ackLocked io i seq
  end.

(** ** Replies and their outbox *)
Definition acknowledged (seq : Z) : json := JObj [("acknowledged", JInt seq)].

(** The part of [reply] under the lock: an immediate result, or a saved reply to deliver. *)
Definition reply_begin (io : option string) (i : inbox) (seq : Z) (text : string)
    (claim : list string) : option (result json) * inbox :=
  let '(i, r) := live_request i seq in
  let stop e := (Some (Err e), i) in
  match r with
  | None => stop "no matching pending event"
  | Some r =>
      if bool_decide (req_Status r = "completed") then (Some (Ok (acknowledged seq)), i) else
      match checkRequestClaim r claim with
      | Some e => stop e
      | None =>
          if is_lifecycle (req_Event r)
          then stop "present this connection notice to the user, then inbox_ack; do not reply to the peer"
          else if bool_decide (ev_Kind (req_Event r) = "semantic_attention")
          then stop "resolve the private semantic suggestion and acknowledge; do not reply to this notice"
          else if bool_decide (ev_Kind (req_Event r) = "collaboration_attention")
          then stop "review this private request with request_get/request_update, then inbox_ack; do not reply to a private notice"
          else if bool_decide (ev_Kind (req_Event r) = "join_requested")
          then stop "use join_request_decide to approve or deny; inbox_ack dismisses this notification without granting access"
          else match req_Reply r with
          | Some _ => (None, i)
          | None =>
              if blank text || (65536 <? len text)
              then stop "reply must contain 1 to 65536 bytes"
              else
                let '(s, found) := request (copy (ib_state i)) seq in
                match found with
                | None => (None, i) (* not reached: the live lookup found it *)
                | Some (n, r) =>
                    let r := set_Status "reply_pending" (set_Reply (Some text) r) in
                    let '(err, i) := save io i (set_Requests (<[n:=r]> (st_Requests s)) s) in
                    match err with
                    | Some e => (Some (Err e), i)
                    | None => (None, i)
                    end
                end
          end
      end
  end.

Definition listener_metadata : json := JObj [("tincan_listener", JBool true)].

Definition idempotency_key (agent : string) (seq : Z) : string :=
  "listen_" +:+ agent +:+ "_" +:+ Itoa seq.

Definition reply_input (i : inbox) (e : inboxEvent) (text : string) : SendInput :=
  mkSendInput None (ev_ChannelID e) text "" "" listener_metadata [] []
    (Some (msg_ID (ev_Payload e))) (idempotency_key (ib_agent i) (ev_Seq e)).

(** The first locked section of [deliverReplyContext]: what to post, if anything. *)
Definition deliver_prepare (i : inbox) (seq : Z) : option SendInput * inbox :=
  let '(i, r) := live_request i seq in
  match r with
  | Some r => match req_Reply r with
              | Some text => (Some (reply_input i (req_Event r) text), i)
              | None => (None, i)
              end
  | None => (None, i)
  end.

Definition delivery_failed : string :=
  "Saved reply delivery failed; automatic idempotent retry is pending".

(** The second one, after the server's answer. *)
Definition deliver_finish (io : option string) (i : inbox) (seq : Z) (answer : result json)
    : result json * inbox :=
  match answer with
  | Err e =>
      let '(s, r) := request (copy (ib_state i)) seq in
      match r with
      | Some (n, r) =>
          if bool_decide (req_Reply r <> None) && bool_decide (req_DeliveryError r = "")
          then (Err e, (save io i (set_Requests (<[n:=set_DeliveryError delivery_failed r]>
                                                 (st_Requests s)) s)).2)
          else (Err e, i)
      | None => (Err e, i)
      end
  | Ok v =>
      let '(err, i) := ackLocked io i seq in
      (match err with Some e => Err e | None => Ok v end, i)
  end.

(** [deliverReply]: [post] answers the request; [meanwhile] is what other goroutines do to
    the inbox while the call runs without the lock. *)
Definition deliverReply (post : SendInput -> result json) (meanwhile : inbox -> inbox)
    (io : option string) (i : inbox) (seq : Z) : result json * inbox :=
  let '(input, i) := deliver_prepare i seq in
  match input with
  | None => (Ok JNull, i)
  | Some input => deliver_finish io (meanwhile i) seq (post input)
  end.

Definition reply (post : SendInput -> result json) (meanwhile : inbox -> inbox)
    (io io2 : option string) (i : inbox) (seq : Z) (text : string) (claim : list string)
    : result json * inbox :=
  let '(stop, i) := reply_begin io i seq text claim in
  match stop with
  | Some v => (v, i)
  | None => deliverReply post meanwhile io2 i seq
  end.

(** ** Opening ([openInboxIdentity]) *)
Definition recover_request (r : inboxRequest) : inboxRequest :=
  if bool_decide (req_Status r = "running") then set_Status "needs_recovery" r else r.

Definition reopen_event (agent : string) (encrypted : bool) (e : inboxEvent) : inboxEvent :=
  let e := set_Mentioned (mentions agent e) e in
  if encrypted
  then set_Payload (set_AgentName (msg_AgentID (ev_Payload e)) (ev_Payload e)) e else e.

Definition fresh_state : inboxState := blank_state.

Section Open.
Context `{!CryptoRoutes}.

(** [mkdir] is the outcome of making the directory, [lock] of taking the kernel lock, [read] of
    reading and decoding the file ([None]: there is no file), but for the check of its nesting, [backup] of writing [path.v1.bak] for a version-1 file
    ([None] also when it already existed), [io] of the save that records a recovery. *)
Definition openInboxIdentity (c : Config) (allowed : list string) (path : string)
    (workspacePeers : bool) (agent : string) (admin : bool) (mkdir lock : option string)
    (read : result (option inboxState)) (backup io : option string) : result inbox :=
  if bool_decide (agent = "") then Err "saved agent identity required" else
  match mkdir with
  | Some e => Err e
  | None =>
  match lock with
  | Some e => Err ("inbox already in use or unavailable (" +:+ path +:+
      "); stop the other consumer before restarting: " +:+ e)
  | None =>
  match read with
  | Err e => Err e
  | Ok saved =>
  if from_option too_deep false saved then Err "exceeded max depth" else
  let state := default fresh_state saved in
  let i := mkInbox (admin || (0 <? managed c)) c agent allowed workspacePeers false "" ""
             false "" path state false 0 None ∅ false true saved in
  match (if bool_decide (saved <> None) && (st_Version state <? 2) then backup else None) with
  | Some e => Err e
  | None =>
      let '(err, s) := migrate state in
      match err with
      | Some e => Err e
      | None =>
          let refresh := map_Event (reopen_event agent (bool_decide (cfg_CryptoPath c <> ""))) in
          let requests := refresh <$> st_Requests s in
          let recovered := existsb (fun r => bool_decide (req_Status r = "running")) requests in
          let s := project (set_Requests (recover_request <$> requests) s) in
          let i := set_state s i in
          if recovered then
            match save io i (copy s) with
            | (Some e, _) => Err e
            | (None, i) => Ok i
            end
          else Ok i
      end
  end
  end
  end
  end.
End Open.
