(* ===== verification/InboxControl.v ===== *)
(** * Claims, outcomes, decisions, plans

    [inbox_claim.go] and the controller half of [inbox_requests.go]: exclusive claims of a
    request by a delegated worker, the structured outcomes a worker reports, the
    user/operator decisions, the standing policy and the dependency plan. *)
From S2P Require Import Prelude GoStrings Json Types InboxState Inbox.

(** ** Claiming *)
Record commitmentReference := mkReference {
  cr_Seq : Z; cr_Status : string; cr_Summary : string; cr_MessageID : string }.

Record claimResult := mkClaimResult {
  cl_Related : list commitmentReference; cl_Acquired : bool; cl_ResultWorker : string;
  cl_Claim : string; cl_Event : option inboxEvent; cl_Context : string;
  cl_Policy : option standingPolicy; cl_Attempt : Z }.

Definition no_claim : claimResult := mkClaimResult [] false "" "" None "" None 0.
Definition held_by (worker : string) : claimResult :=
  mkClaimResult [] false worker "" None "" None 0.

(** The characters NUL, CR and LF. *)
Definition control_chars : string := of_bytes [ascii_of_nat 0; ascii_of_nat 13; ascii_of_nat 10].

Definition bad_worker_id (worker : string) : bool :=
  blank worker || (200 <? len worker) || ContainsAny worker control_chars.

(** Unfinished work in the same channel or on the same collaboration request. *)
Definition related_to (seq : Z) (r other : inboxRequest) : bool :=
  bool_decide (req_Seq other <> seq)
  && ((bool_decide (ev_ChannelID (req_Event r) <> "")
       && bool_decide (ev_ChannelID (req_Event other) = ev_ChannelID (req_Event r)))
      || same_collaboration (req_Event r) (req_Event other))
  && negb (terminal (req_Status other)).

Definition reference (r : inboxRequest) : commitmentReference :=
  let summary := if bool_decide (req_Summary r = "") then msg_Text (ev_Payload (req_Event r))
                 else req_Summary r in
  mkReference (req_Seq r) (req_Status r)
    (if 1000 <? len summary then take_str 1000 summary else summary)
    (msg_ID (ev_Payload (req_Event r))).

(** The newest twenty first. *)
Definition related (s : inboxState) (seq : Z) (r : inboxRequest) : list commitmentReference :=
  take 20 (reference <$> List.filter (related_to seq r) (rev (st_Requests s))).

Section Claim.
Context `{!CryptoRoutes}.

Definition acquire (worker random : string) (r : inboxRequest) : inboxRequest :=
  set_Attempt (int_incr (req_Attempt r))
    (set_Status "running" (set_Claim (Some (mkClaim worker (ID "claim_" random))) r)).

Definition acquired (s : inboxState) (seq : Z) (worker : string) (r : inboxRequest)
    : claimResult :=
  mkClaimResult (related s seq r) true worker
    (match req_Claim r with Some c => cl_Token c | None => "" end)
    (Some (req_Event r)) (req_Context r) (st_Policy s) (req_Attempt r).

(** [random]: the sixteen bytes of the new token. *)
Definition claim (random : string) (io : option string) (i : inbox) (seq : Z) (worker : string)
    : result claimResult * inbox :=
  if bad_worker_id worker then (Err "worker_id must identify this delegated worker", i) else
  let '(s, r) := request (copy (ib_state i)) seq in
  match r with
  | None => (Ok no_claim, i)
  | Some (n, r) =>
      if bool_decide (req_Reply r <> None) || negb (accepts i (req_Event r))
      then (Ok no_claim, i)
      else match req_Claim r with
      | Some c =>
          if bool_decide (cl_WorkerID c <> worker) || bool_decide (req_Status r <> "running")
          then (Ok (held_by (cl_WorkerID c)), i)
          else (Ok (acquired s seq worker r), i)
      | None =>
          if negb (eligible s r) then (Ok no_claim, i) else
          let r := acquire worker random r in
          let s := set_Requests (<[n:=r]> (st_Requests s)) s in
          let '(err, i) := save io i s in
          match err with
          | Some e => (Err e, i)
          | None => (Ok (acquired s seq worker r), i)
          end
      end
  end.
End Claim.

Definition release (io : option string) (i : inbox) (seq : Z) (token : string)
    : option string * inbox :=
  let '(s, r) := request (copy (ib_state i)) seq in
  match r with
  | Some (n, r) =>
      match req_Claim r with
      | Some c =>
          if bool_decide (cl_Token c <> token) then (Some "no matching worker claim", i)
          else if bool_decide (req_Reply r <> None)
          then (Some "reply delivery is pending; recover the reply before releasing", i)
          else save io i (commit n (set_Status "ready" (set_Claim None r)) s)
      | None => (Some "no matching worker claim", i)
      end
  | None => (Some "no matching worker claim", i)
  end.

(** ** Clarifications between commitments ([contextUpdates]) *)
Record commitmentUpdate := mkUpdate { up_Seq : Z; up_Context : string }.

Definition newline : string := of_bytes [ascii_of_nat 10].

Definition update_key (source : inboxRequest) (seq : Z) : string :=
  Itoa (req_Attempt source) +:+ ":" +:+ Itoa seq.

Definition clarification (source : inboxRequest) (text : string) : string :=
  newline +:+ "Peer clarification from " +:+ msg_ID (ev_Payload (req_Event source))
  +:+ ": " +:+ text.

(** One update, with the source at index [src]: the loop's body. *)
Definition apply_update (src : nat) (s : inboxState) (u : commitmentUpdate) : result inboxState :=
  let '(s, found) := request s (up_Seq u) in
  match st_Requests s !! src, found with
  | Some source, Some (n, target) =>
      if terminal (req_Status target)
         || bool_decide (ev_ChannelID (req_Event target) <> ev_ChannelID (req_Event source))
      then Err "clarification target must be an unfinished commitment in the same channel"
      else if blank (up_Context u) || (4000 <? len (up_Context u))
      then Err "invalid clarification context"
      else
        let key := update_key source (up_Seq u) in
        if default false (req_AppliedUpdates source !! key) then Ok s else
        let text := req_Context target +:+ clarification source (up_Context u) in
        let s := set_Requests (<[n:=set_Context text target]> (st_Requests s)) s in
        if 65536 <? len text then Err "clarification exceeds continuation limit" else
        Ok (set_Requests
              (alter (fun r => set_Applied (<[key:=true]> (req_AppliedUpdates r)) r) src
                 (st_Requests s)) s)
  | _, _ => Err "clarification target must be an unfinished commitment in the same channel"
  end.

Fixpoint apply_updates (src : nat) (s : inboxState) (l : list commitmentUpdate)
    : result inboxState :=
  match l with
  | [] => Ok s
  | u :: r => s ← apply_update src s u; apply_updates src s r
  end.

Definition contextUpdates (io : option string) (i : inbox) (seq : Z) (token : string)
    (updates : list commitmentUpdate) : option string * inbox :=
  if 20 <? Z.of_nat (length updates) then (Some "too many commitment updates", i) else
  let '(s, source) := request (copy (ib_state i)) seq in
  match source with
  | None => (Some "unknown source message", i)
  | Some (n, source) =>
      if match req_Claim source with Some c => bool_decide (cl_Token c <> token) | None => true end
      then if bool_decide (req_LastClaim source = token) && bool_decide (token <> "")
           then (None, i) else (Some "source worker claim required", i)
      else match apply_updates n s updates with
           | Err e => (Some e, i)
           | Ok s => save io i s
           end
  end.

(** ** Worker outcomes *)
Record workerOutcome := mkOutcome {
  wo_Updates : list commitmentUpdate; wo_Status : string; wo_Reply : option string;
  wo_Summary : string; wo_Context : string; wo_Question : string; wo_Permission : string }.

Definition outcome_statuses : list string :=
  ["completed"; "awaiting_approval"; "awaiting_information"; "failed"; "needs_recovery"].

Definition approval_json (a : option requestApproval) : json :=
  match a with
  | None => JNull
  | Some a => JObj ([("id", JStr (ap_ID a)); ("question", JStr (ap_Question a));
                     ("permission", JStr (ap_Permission a)); ("delivery", JStr (ap_Delivery a))]
                    ++ (if bool_decide (ap_Source a = "") then [] else [("source", JStr (ap_Source a))]))
  end.

Definition outcome_json (r : inboxRequest) : json :=
  JObj [("status", JStr (req_Status r)); ("approval", approval_json (req_Approval r))].

(** The input checks, made before and again after the context updates. *)
Definition outcome_too_large (o : workerOutcome) : bool :=
  (65536 <? len (wo_Context o)) || (4000 <? len (wo_Summary o)) || (4000 <? len (wo_Question o))
  || (4000 <? len (wo_Permission o)).

Definition check_outcome (statuses : list string) (o : workerOutcome) : option string :=
  if bool_decide (wo_Status o ∉ statuses) then Some "unsupported worker outcome"
  else if outcome_too_large o then Some "worker outcome too large"
  else if awaiting (wo_Status o) && blank (wo_Question o)
  then Some "waiting requires a concrete question" else None.

(** The request after a suspension or failure: [random] makes the decision's identifier. *)
Definition suspend_request (random token : string) (o : workerOutcome) (r : inboxRequest)
    : inboxRequest :=
  let r := set_Summary (wo_Summary o) (set_Status (wo_Status o) r) in
  let r := if bool_decide (wo_Context o <> "")
           then set_Context (req_Context r +:+ newline +:+ "Worker checkpoint: " +:+ wo_Context o) r
           else r in
  let r := if awaiting (wo_Status o)
           then set_Approval (Some (mkApproval (ID "decision_" random) (wo_Question o)
                                      (wo_Permission o) "pending" "")) r else r in
  let r := set_LastClaim token r in
  if bool_decide (wo_Status o <> "needs_recovery") then set_Claim None r else r.

(** The last part of [outcome], for every status but [completed]. *)
Definition suspend (random : string) (io : option string) (i : inbox) (seq : Z) (token : string)
    (o : workerOutcome) : result json * inbox :=
  let '(s, r) := request (copy (ib_state i)) seq in
  match r with
  | None => (Err "unknown request", i)
  | Some (n, r) =>
      if bool_decide (req_LastClaim r = token) && bool_decide (token <> "")
         && bool_decide (req_Status r = wo_Status o)
      then (Ok (outcome_json r), i)
      else if bool_decide (token = "")
              || match req_Claim r with Some c => bool_decide (cl_Token c <> token) | None => true end
      then (Err "active claim required", i)
      else match check_outcome (tail outcome_statuses) o with
      | Some e => (Err e, i)
      | None =>
          if bool_decide (req_Reply r <> None)
          then (Err "saved reply must be delivered, not replaced by another outcome", i)
          else
            let r := suspend_request random token o r in
            if 65536 <? len (req_Context r)
            then (Err "continuation context too large; retain a concise checkpoint", i)
            else
              let '(err, i) := save io i (commit n r s) in
              match err with
              | Some e => (Err e, i)
              | None => (Ok (outcome_json r), i)
              end
      end
  end.

(** [io1] is the save of the context updates, [io2] that of the outcome, [io3] that of a
    delivered reply. *)
Definition outcome (post : SendInput -> result json) (meanwhile : inbox -> inbox)
    (random : string) (io1 io2 io3 : option string) (i : inbox) (seq : Z) (token : string)
    (o : workerOutcome) : result json * inbox :=
  if bool_decide (token = "") then (Err "private worker claim required", i) else
  match check_outcome outcome_statuses o with
  | Some e => (Err e, i)
  | None =>
      let '(err, i) := match wo_Updates o with
                       | [] => (None, i)
                       | updates => contextUpdates io1 i seq token updates
                       end in
      match err with
      | Some e => (Err e, i)
      | None =>
          if bool_decide (wo_Status o = "completed") then
            match wo_Reply o with
            | Some text => reply post meanwhile io2 io3 i seq text [token]
            | None =>
                let '(err, i) := ack io2 i seq [token] in
                (match err with Some e => Err e
                 | None => Ok (JObj [("completed", JInt seq)]) end, i)
            end
          else suspend random io2 i seq token o
      end
  end.

(** ** Controller decisions *)
Definition decline_reply : string := "I cannot proceed with this request.".

(** The action's effect on the request: [Ok None] is a successful no-op. *)
Definition decide_request (id action source context : string) (stopped : bool) (r : inboxRequest)
    : result (option inboxRequest) :=
  let matching := match req_Approval r with
                  | Some a => if bool_decide (ap_ID a = id) then Some a else None
                  | None => None
                  end in
  if bool_decide (action = "presented") then
    match matching with
    | None => Err "unknown decision"
    | Some a => if bool_decide (ap_Delivery a = "answered") then Ok None
                else Ok (Some (set_Approval (Some (set_Delivery "presented" a)) r))
    end
  else if bool_decide (action ∈ ["approve"; "decline"; "answer"]) then
    match matching with
    | None => Err "unknown decision"
    | Some a =>
        if bool_decide (ap_Source a <> "") then
          if bool_decide (req_Decision r = action) && bool_decide (ap_Source a = source)
          then Ok None else Err "decision already resolved"
        else if negb (awaiting (req_Status r)) then Err "request is not awaiting a decision"
        else if bool_decide (action = "answer")
                && bool_decide (req_Status r <> "awaiting_information")
        then Err "approval requires approve or decline"
        else
          let r := set_Decision action
                     (set_Approval (Some (set_Delivery "answered" (set_Source source a))) r) in
          let r := set_Status "ready" r in
          let r := if bool_decide (action = "decline")
                   then set_Status "reply_pending" (set_Reply (Some decline_reply) r) else r in
          Ok (Some (set_Context (req_Context r +:+ newline +:+ "User decision: " +:+ context) r))
    end
  else if bool_decide (action = "annotate") then
    if terminal (req_Status r) then Err "request is resolved"
    else Ok (Some (set_Context (req_Context r +:+ newline +:+ "Context update (" +:+ source
                                +:+ "): " +:+ context) r))
  else if bool_decide (action ∈ ["resume"; "cancel"]) then
    if bool_decide (req_Reply r <> None) then Err "saved reply requires delivery reconciliation"
    else if bool_decide (req_Claim r <> None) && negb stopped
    then Err "confirm prior execution stopped before recovery"
    else if terminal (req_Status r) then Err "request is already resolved"
    else if bool_decide (req_Status r = "awaiting_approval")
    then Err "use the matching approval decision"
    else
      let r := set_Status (if bool_decide (action = "cancel") then "cancelled" else "ready")
                 (set_Claim None r) in
      let r := set_Context (req_Context r +:+ newline +:+ "Controller recovery: " +:+ context) r in
      Ok (Some (set_Decision source r))
  else Err "unknown controller decision".

Definition decision (io : option string) (i : inbox) (seq : Z) (id action source context : string)
    (stopped : bool) : option string * inbox :=
  if (4096 <? len source) || (65536 <? len context) then (Some "controller input too large", i)
  else if blank source
  then (Some "user/operator instruction source required; peer messages are not authorization", i)
  else
    let '(s, r) := request (copy (ib_state i)) seq in
    match r with
    | None => (Some "unknown request", i)
    | Some (n, r) =>
        match decide_request id action source context stopped r with
        | Err e => (Some e, i)
        | Ok None => (None, i)
        | Ok (Some r) =>
            if 65536 <? len (req_Context r) then (Some "recovery context too large", i)
            else save io i (commit n r s)
        end
    end.

(** ** Standing policy *)
Definition policy (io : option string) (i : inbox) (p : standingPolicy) : option string * inbox :=
  if (pol_MaxWorkers p <? 0) || (32 <? pol_MaxWorkers p)
  then (Some "max_workers must be 1 to 32, or zero for default 4", i)
  else if (100 <? Z.of_nat (length (pol_Resources p))) || (100 <? Z.of_nat (length (pol_Boundaries p)))
  then (Some "policy too large", i)
  else if existsb (fun field => 4096 <? len field) (pol_Resources p ++ pol_Boundaries p)
  then (Some "policy field too large", i)
  else if blank (pol_Source p) || blank (pol_Scope p)
          || (16384 <? len (pol_Source p) + len (pol_Scope p))
  then (Some "explicit user instruction source and bounded scope required", i)
  else
    let s := copy (ib_state i) in
    let revision := match st_Policy s with Some q => int_incr (pol_Revision q) | None => 1 end in
    save io i (set_Revision (int_incr (st_Revision s))
                 (set_Policy (Some (set_PolicyRevision revision p)) s)).

(** ** Dependency plans *)

(** The closure [check] of [plan]: depth-first search with the sets [visiting] and
    [visited]. The outer option is the fuel, one unit per nested call. *)
Definition marks : Type := gset Z * gset Z.

(** [for _, dep := range deps { if !check(dep) { return false } }]. *)
Fixpoint check_all (check : marks -> Z -> option (bool * marks)) (deps : list Z) (m : marks)
    : option (bool * marks) :=
  match deps with
  | [] => Some (true, m)
  | dep :: rest =>
      match check m dep with
      | Some (true, m) => check_all check rest m
      | stop => stop
      end
  end.

Fixpoint check_dependencies (fuel : nat) (s : inboxState) (m : marks) (id : Z)
    : option (bool * marks) :=
  match fuel with
  | O => None
  | S fuel =>
      if bool_decide (id ∈ m.1) then Some (false, m)
      else if bool_decide (id ∈ m.2) then Some (true, m)
      else match (request s id).2 with
      | None => Some (false, m)
      | Some (_, d) =>
          match check_all (check_dependencies fuel s) (req_Dependencies d) ({[id]} ∪ m.1, m.2) with
          | Some (true, m) => Some (true, (m.1 ∖ {[id]}, {[id]} ∪ m.2))
          | stop => stop
          end
      end
  end.

(** Each nested call adds a request to [visiting], so this depth is enough
    (lemma [check_dependencies_total]). *)
Definition plan_fuel (s : inboxState) : nat := S (length (st_Requests s)).

Definition acyclic_from (s : inboxState) (seq : Z) : bool :=
  match check_dependencies (plan_fuel s) s (∅, ∅) seq with
  | Some (ok, _) => ok
  | None => false
  end.

Definition plan (io : option string) (i : inbox) (seq : Z) (dependencies : list Z)
    (resources : list string) : option string * inbox :=
  let '(s, r) := request (copy (ib_state i)) seq in
  match r with
  | None => (Some "only ready messages may be planned", i)
  | Some (n, r) =>
      if bool_decide (req_Status r <> "ready") then (Some "only ready messages may be planned", i)
      else if (100 <? Z.of_nat (length dependencies)) || (100 <? Z.of_nat (length resources))
      then (Some "plan too large", i)
      else if existsb (fun key => blank key || (4096 <? len key)) resources
      then (Some "invalid resource key", i)
      else
        let s := set_Requests (<[n:=set_Plan dependencies resources r]> (st_Requests s)) s in
        if acyclic_from s seq
        then save io i (set_Revision (int_incr (st_Revision s)) s)
        else (Some "dependencies must exist and be acyclic", i)
  end.

(** ** The private snapshot ([requests]): live claim tokens are removed from it. *)
Definition redact (r : inboxRequest) : inboxRequest :=
  let r := set_LastClaim "" r in
  match req_Claim r with
  | Some c => set_Claim (Some (mkClaim (cl_WorkerID c) "")) r
  | None => r
  end.

Definition snapshot (i : inbox) : list inboxRequest := redact <$> st_Requests (copy (ib_state i)).

(** ** MCP guards ([addInboxTools]): completion without a claim is only for notices. *)
Definition isConnectionNotice (i : inbox) (seq : Z) : bool :=
  match (live_request i seq).2 with
  | Some r => is_lifecycle (req_Event r)
  | None => false
  end.
Definition isJoinReview (i : inbox) (seq : Z) : bool :=
  ib_creator i &&
  match (live_request i seq).2 with
  | Some r => bool_decide (ev_Kind (req_Event r) = "join_requested")
  | None => false
  end.

Definition tool_ack (io : option string) (i : inbox) (seq : Z) (token : string)
    : option string * inbox :=
  if bool_decide (token = "") && negb (isJoinReview i seq) && negb (isConnectionNotice i seq)
  then (Some "delegate this request and call inbox_claim before acknowledging", i)
  else ack io i seq [token].

Definition tool_reply (post : SendInput -> result json) (meanwhile : inbox -> inbox)
    (io io2 : option string) (i : inbox) (seq : Z) (text token : string) : result json * inbox :=
  if bool_decide (token = "") then (Err "delegate this request and call inbox_claim before replying", i)
  else reply post meanwhile io io2 i seq text [token].
