(* ===== verification/InboxFacts.v ===== *)
(** * Lemma library of the inbox

    How [save] and the request updates act on a well-formed state: [save] either fails and
    changes nothing, or installs exactly the requests it was given; an update that keeps a
    request's event keeps the order and the uniqueness of sequence numbers. *)
From S2P Require Import Prelude GoStrings Json Types InboxState Inbox InboxControl.

#[global] Arguments request : simpl never.
#[global] Arguments copy : simpl never.
#[global] Arguments save : simpl never.

(** ** The projection touches only the legacy fields *)
Lemma project_form s :
  exists e y c, project s = set_Legacy e y c (migrate s).2 /\
    (shallow (migrate s).2 -> from_option shallow_event True e).
Proof.
  unfold project, runnable. repeat case_match; simplify_eq; eexists _, _, _; (split; [done|]); intros [Hs _]; simpl; try done;
    repeat match goal with H : list_find _ _ = Some _ |- _ => apply list_find_Some in H as [H _] end;
    by eapply (Forall_lookup_1 (fun r => shallow_event (req_Event r))).
Qed.

Lemma valid_set_Legacy e y c s : from_option shallow_event True e -> valid_state s -> valid_state (set_Legacy e y c s).
Proof. intros He [????? []]. by split. Qed.

Lemma valid_project s : valid_state s -> valid_state (project s).
Proof.
  intros Hv. destruct (project_form s) as (e & y & c & -> & He). rewrite migrate_fix in He |- * by done.
  apply valid_set_Legacy; [apply He, Hv|done].
Qed.

(** The state that a successful [save] installs, as its five persistent fields; its pending event
    can be copied if the other's can. *)
Definition same_core (s t : inboxState) : Prop :=
  st_Requests s = st_Requests t /\ st_Version s = st_Version t /\ st_After s = st_After t /\
  st_Policy s = st_Policy t /\ st_Revision s = st_Revision t /\ (shallow s <-> shallow t).

#[export] Instance same_core_equiv : Equivalence same_core.
Proof. unfold same_core. split; repeat intro; naive_solver congruence. Qed.

Lemma same_core_legacy e y c s : from_option shallow_event True e -> shallow s -> same_core (set_Legacy e y c s) s.
Proof. intros He [Hr Hp]. by repeat split. Qed.

Lemma same_core_project s : valid_state s -> same_core (project s) s.
Proof.
  intros Hv. destruct (project_form s) as (e & y & c & -> & He). rewrite migrate_fix in He |- * by done.
  apply same_core_legacy; [apply He|]; apply Hv.
Qed.

Lemma valid_same_core s t : same_core s t -> valid_state s -> valid_state t.
Proof.
  intros (H1 & H2 & H3 & H4 & H5 & H6) []. split; try congruence. by apply H6.
Qed.

#[export] Instance valid_state_proper : Proper (same_core ==> iff) valid_state.
Proof. intros s t H. split; apply valid_same_core; [done | by symmetry]. Qed.

Lemma valid_disk_form s : valid_state s -> valid_state (disk_form s).
Proof. by apply valid_set_Legacy. Qed.

(** What a successful save of a valid state leaves behind. *)
Definition installed (i : inbox) (s : inboxState) : inbox :=
  signalUpdate (set_state (project (disk_form s)) (set_file (Some (disk_form s)) i)).

Lemma save_spec io i s :
  valid_state s ->
  save io i s = match io with Some e => (Some e, i) | None => (None, installed i s) end.
Proof. intros Hv. unfold save. by rewrite migrate_fix. Qed.

Lemma save_error io i s e i' : save io i s = (Some e, i') -> i' = i.
Proof. unfold save. intros H. go_cases; done. Qed.

(** A save whose file operations fail never touches the inbox. *)
Lemma save_fails e i s : exists e', save (Some e) i s = (Some e', i).
Proof. unfold save. destruct (migrate s) as [[e'|] s']; eauto. Qed.

(** One operation whose save fails: every path ends in the inbox it started from. *)
Ltac failing Hf :=
  repeat match goal with
  | |- context [save (Some ?e) ?i ?s] =>
      let e' := fresh "e" in let E := fresh "E" in destruct (Hf s) as [e' E]; rewrite E; clear E
  | |- context [match ?x with _ => _ end] =>
      lazymatch x with save _ _ _ => fail | _ => destruct x end
  end; try done.

Lemma save_valid io i s i' :
  save io i s = (None, i') -> exists s', migrate s = (None, s') /\ i' = installed i s'.
Proof. unfold save. intros H. go_cases. eauto. Qed.

Lemma installed_core i s : valid_state s -> same_core (ib_state (installed i s)) s.
Proof.
  intros Hv. unfold installed; simpl. rewrite same_core_project by by apply valid_disk_form.
  apply same_core_legacy; [done|apply Hv].
Qed.

Lemma installed_valid i s : valid_state s -> valid_state (ib_state (installed i s)).
Proof. intros Hv. by rewrite installed_core. Qed.

Lemma installed_requests i s :
  valid_state s -> st_Requests (ib_state (installed i s)) = st_Requests s.
Proof. intros Hv. apply (installed_core i s Hv). Qed.

#[export] Hint Resolve valid_project valid_disk_form installed_valid valid_set_Legacy : tincan.

(** ** Lookup by sequence number *)
Definition lookup_request (s : inboxState) (seq : Z) : option (nat * inboxRequest) :=
  list_find (fun r => req_Seq r = seq) (st_Requests s).

Lemma lookup_request_Some s seq n r :
  lookup_request s seq = Some (n, r) -> st_Requests s !! n = Some r /\ req_Seq r = seq.
Proof. unfold lookup_request. intros (?&?&?)%list_find_Some. done. Qed.

Lemma lookup_request_None s seq :
  lookup_request s seq = None <-> forall r, r ∈ st_Requests s -> req_Seq r <> seq.
Proof. unfold lookup_request. rewrite list_find_None, Forall_forall. done. Qed.

(** With unique sequence numbers the lookup finds any request it is asked for. *)
Lemma lookup_request_intro s n r :
  NoDup (req_Seq <$> st_Requests s) -> st_Requests s !! n = Some r ->
  lookup_request s (req_Seq r) = Some (n, r).
Proof.
  intros Hn Hr. unfold lookup_request. apply list_find_Some. split_and!; [done|done|].
  intros m y Hy Hlt Heq.
  assert (m = n); [|lia]. eapply NoDup_lookup; [exact Hn| |].
  - rewrite list_lookup_fmap, Hy. simpl. by rewrite Heq.
  - by rewrite list_lookup_fmap, Hr.
Qed.

Lemma lookup_request_elem s r :
  NoDup (req_Seq <$> st_Requests s) -> r ∈ st_Requests s ->
  exists n, lookup_request s (req_Seq r) = Some (n, r).
Proof.
  intros Hn [n Hr]%list_elem_of_lookup. exists n. by apply lookup_request_intro.
Qed.

Lemma request_lookup s seq : valid_state s -> request s seq = (s, lookup_request s seq).
Proof. apply request_valid. Qed.

Lemma copy_request_lookup s seq :
  valid_state s -> request (copy s) seq = (s, lookup_request s seq).
Proof. intros. rewrite copy_valid by done. by apply request_lookup. Qed.

Lemma live_request_lookup i seq :
  valid_state (ib_state i) ->
  live_request i seq = (i, snd <$> lookup_request (ib_state i) seq).
Proof. intros. unfold live_request. rewrite request_lookup by done. by destruct i. Qed.

(** ** Updating one request *)
Definition put (n : nat) (r : inboxRequest) (s : inboxState) : inboxState :=
  set_Requests (<[n:=r]> (st_Requests s)) s.

Lemma commit_core n r s :
  st_Requests (commit n r s) = st_Requests (put n r s) /\ st_After (commit n r s) = st_After s
  /\ st_Version (commit n r s) = st_Version s /\ st_Policy (commit n r s) = st_Policy s.
Proof. done. Qed.

Lemma put_valid s n r r' :
  valid_state s -> st_Requests s !! n = Some r -> req_Event r' = req_Event r ->
  valid_request (st_After s) r' -> valid_state (put n r' s).
Proof.
  intros [????? [Hd Hp]] Hr He Hv. split; simpl; [done|done| | | |split; simpl; [|done]].
  - by apply Forall_insert_2.
  - erewrite fmap_insert_id; [done|done|]. unfold req_Seq. by rewrite He.
  - eapply desc_insert; [done|done|]. unfold requestPriority. by rewrite He.
  - apply Forall_insert_2; [done|]. rewrite He. by eapply (Forall_lookup_1 (fun r => shallow_event (req_Event r))).
Qed.

Lemma valid_state_revision v s : valid_state (set_Revision v s) <-> valid_state s.
Proof. split; intros []; by split. Qed.
Lemma valid_state_policy v s : valid_state (set_Policy v s) <-> valid_state s.
Proof. split; intros []; by split. Qed.

Lemma commit_valid s n r r' :
  valid_state s -> st_Requests s !! n = Some r -> req_Event r' = req_Event r ->
  valid_request (st_After s) r' -> valid_state (commit n r' s).
Proof. intros. unfold commit. rewrite valid_state_revision. by eapply put_valid. Qed.

Lemma valid_lookup s n r :
  valid_state s -> st_Requests s !! n = Some r -> valid_request (st_After s) r.
Proof. intros [] Hr. by eapply Forall_lookup_1. Qed.

(** Appending a request with a fresh, larger sequence number. *)
Lemma append_valid s r :
  valid_state s -> st_After s < req_Seq r -> valid_request (req_Seq r) r -> shallow_event (req_Event r) ->
  valid_state (set_Requests (sort_desc requestPriority (st_Requests s ++ [r]))
                 (set_After (req_Seq r) s)).
Proof.
  intros [Hver Hafter Hreqs Hnd Hsort [Hd Hp]] Hlt Hv Hs. split; simpl; [done|lia| | |apply sort_desc_sorted|split; simpl; [|done]].
  - rewrite sort_desc_perm. apply Forall_app. split; [|by constructor].
    eapply Forall_impl; [exact Hreqs|]. intros x []. split; [lia|done..].
  - rewrite (sort_desc_perm requestPriority), fmap_app, NoDup_app. split_and!; [done| |apply NoDup_singleton].
    intros q (x & -> & Hx)%list_elem_of_fmap. simpl. intros Hq%list_elem_of_singleton.
    rewrite Forall_forall in Hreqs. destruct (Hreqs x Hx). lia.
  - rewrite sort_desc_perm. apply Forall_app. split; [done|]. by constructor.
Qed.
