(* ===== verification/PlanFacts.v ===== *)
(** * Dependency plans are acyclic

    The depth-first search of [plan] against its specification: a sequence number is
    [grounded] when a request has it and all its dependencies are grounded, so no chain of
    dependencies from it is missing a request or is infinite. The search answers true exactly
    on grounded numbers, and its fuel is always enough. *)
From S2P Require Import Prelude GoStrings Json Types InboxState Inbox InboxControl InboxFacts.

Inductive grounded (s : inboxState) : Z -> Prop :=
| grounded_intro r :
    r ∈ st_Requests s -> (forall d, d ∈ req_Dependencies r -> grounded s d) ->
    grounded s (req_Seq r).

(** [dep s a b]: the request [a] waits for [b]. *)
Definition dep (s : inboxState) (a b : Z) : Prop :=
  exists r, r ∈ st_Requests s /\ req_Seq r = a /\ b ∈ req_Dependencies r.

Definition all_grounded (s : inboxState) : Prop :=
  forall r, r ∈ st_Requests s -> grounded s (req_Seq r).

(** Every request of [s] is in [t] with the same dependencies. *)
Definition deps_incl (s t : inboxState) : Prop :=
  forall r, r ∈ st_Requests s ->
    exists r', r' ∈ st_Requests t /\ req_Seq r' = req_Seq r
               /\ req_Dependencies r' = req_Dependencies r.

Lemma grounded_incl s t x : deps_incl s t -> grounded s x -> grounded t x.
Proof.
  intros Hi. induction 1 as [r Hr Hd IH]. destruct (Hi r Hr) as (r' & Hr' & <- & Hdeps).
  constructor; [done|]. rewrite Hdeps. apply IH.
Qed.

Lemma all_grounded_incl s t : deps_incl s t -> deps_incl t s -> all_grounded s -> all_grounded t.
Proof.
  intros H1 H2 Hs r Hr. destruct (H2 r Hr) as (r' & Hr' & <- & _).
  eapply grounded_incl; [done|]. by apply Hs.
Qed.

Lemma tc_first {A} (R : relation A) x z : tc R x z -> exists y, R x y /\ (y = z \/ tc R y z).
Proof. intros H. destruct H; eauto. Qed.

Section Unique.
Context (s : inboxState) (Hnd : NoDup (req_Seq <$> st_Requests s)).

Lemma seq_unique a b :
  a ∈ st_Requests s -> b ∈ st_Requests s -> req_Seq a = req_Seq b -> a = b.
Proof using Hnd.
  intros Ha Hb Heq. destruct (lookup_request_elem s a Hnd Ha) as [n Hn].
  destruct (lookup_request_elem s b Hnd Hb) as [m Hm]. rewrite Heq in Hn. congruence.
Qed.

Lemma grounded_dep x y : grounded s x -> dep s x y -> grounded s y.
Proof using Hnd.
  intros [r Hr Hd] (r' & Hr' & Heq & Hy). apply Hd.
  by rewrite (seq_unique r r' Hr Hr').
Qed.

(** A grounded number is on no cycle. *)
Lemma grounded_acyclic x : grounded s x -> ~ tc (dep s) x x.
Proof using Hnd.
  induction 1 as [r Hr Hd IH]. intros (y & (r' & Hr' & Heq & Hy) & Hyr)%tc_first.
  rewrite (seq_unique r' r Hr' Hr Heq) in Hy. apply (IH _ Hy).
  assert (dep s (req_Seq r) y) as Hdep by by exists r.
  destruct Hyr as [->|Hyr]; [by apply tc_once | by eapply tc_r].
Qed.
End Unique.

(** ** The search *)
Section Search.
Context (s : inboxState) (Hvalid : valid_state s).

Let Hnd : NoDup (req_Seq <$> st_Requests s) := vs_nodup s Hvalid.

Lemma check_dependencies_S fuel m id :
  check_dependencies (S fuel) s m id =
  if bool_decide (id ∈ m.1) then Some (false, m)
  else if bool_decide (id ∈ m.2) then Some (true, m)
  else match lookup_request s id with
  | None => Some (false, m)
  | Some (_, d) =>
      match check_all (check_dependencies fuel s) (req_Dependencies d) ({[id]} ∪ m.1, m.2) with
      | Some (true, m) => Some (true, (m.1 ∖ {[id]}, {[id]} ∪ m.2))
      | stop => stop
      end
  end.
Proof using Hvalid. cbn [check_dependencies]. by rewrite (request_lookup s id Hvalid). Qed.

Lemma lookup_elem id n d :
  lookup_request s id = Some (n, d) -> d ∈ st_Requests s /\ req_Seq d = id.
Proof.
  intros [Hn Hs]%lookup_request_Some. split; [|done]. by eapply list_elem_of_lookup_2.
Qed.

(** What an answer [true] means for one call. *)
Definition sound_answer (check : marks -> Z -> option (bool * marks)) : Prop :=
  forall m id m', check m id = Some (true, m') -> (forall x, x ∈ m.2 -> grounded s x) ->
    grounded s id /\ m'.1 = m.1 /\ (forall x, x ∈ m'.2 -> grounded s x).

Lemma check_all_sound check : sound_answer check ->
  forall deps m m', check_all check deps m = Some (true, m') ->
    (forall x, x ∈ m.2 -> grounded s x) ->
    (forall d, d ∈ deps -> grounded s d) /\ m'.1 = m.1 /\ (forall x, x ∈ m'.2 -> grounded s x).
Proof.
  intros Hc. induction deps as [|d deps IH]; intros m m' H Hm; simpl in H.
  - simplify_eq. split_and!; [|done|done]. by intros d ?%not_elem_of_nil.
  - destruct (check m d) as [[[] m1]|] eqn:E; try done.
    destruct (Hc _ _ _ E Hm) as (Hd & H1 & H2). destruct (IH _ _ H H2) as (Hds & H3 & H4).
    split_and!; [|congruence|done]. intros x [->|Hx]%elem_of_cons; auto.
Qed.

Lemma check_dependencies_sound fuel : sound_answer (check_dependencies fuel s).
Proof using Hvalid.
  induction fuel as [|fuel IH]; intros m id m' H Hm; [done|].
  rewrite check_dependencies_S in H.
  destruct (bool_decide_reflect (id ∈ m.1)); [done|].
  destruct (bool_decide_reflect (id ∈ m.2)); [simplify_eq; auto|].
  destruct (lookup_request s id) as [[k d]|] eqn:El; [|done].
  apply lookup_elem in El as [Hd <-].
  destruct (check_all _ _ _) as [[[] m1]|] eqn:Ea; simplify_eq.
  destruct (check_all_sound _ IH _ _ _ Ea Hm) as (Hds & H1 & H2).
  assert (grounded s (req_Seq d)) by by constructor. simpl in *.
  split_and!; [done | rewrite H1; set_solver |].
  intros x [->%elem_of_singleton|Hx]%elem_of_union; auto.
Qed.

(** On a grounded number the search never answers [false], provided nothing being visited
    is reachable from it. *)
Definition complete_answer (check : marks -> Z -> option (bool * marks)) : Prop :=
  forall m id b m', check m id = Some (b, m') -> grounded s id ->
    (forall x, x ∈ m.1 -> tc (dep s) x id) -> b = true /\ m'.1 = m.1.

Lemma check_all_complete check id d : complete_answer check ->
  d ∈ st_Requests s -> req_Seq d = id ->
  forall deps m b m', check_all check deps m = Some (b, m') ->
    (forall x, x ∈ deps -> x ∈ req_Dependencies d /\ grounded s x) ->
    (forall x, x ∈ m.1 -> x = id \/ tc (dep s) x id) -> b = true /\ m'.1 = m.1.
Proof.
  intros Hc Hd Hid. induction deps as [|x deps IH]; intros m b m' H Hds Hm; simpl in H.
  - by simplify_eq.
  - destruct (Hds x) as [Hx Hgx]; [apply elem_of_cons; auto|].
    assert (dep s id x) as Hdep by by exists d.
    destruct (check m x) as [[b1 m1]|] eqn:E; [|done].
    destruct (Hc _ _ _ _ E Hgx) as [-> Hm1].
    { intros y [->|Hy]%Hm; [by apply tc_once | by eapply tc_r]. }
    destruct (IH _ _ _ H) as [-> Hm'].
    + intros y Hy. apply Hds. apply elem_of_cons. auto.
    + by rewrite Hm1.
    + split; [done|congruence].
Qed.

Lemma check_dependencies_complete fuel : complete_answer (check_dependencies fuel s).
Proof using Hvalid.
  induction fuel as [|fuel IH]; intros m id b m' H Hg Hm; [done|].
  rewrite check_dependencies_S in H.
  destruct (bool_decide_reflect (id ∈ m.1)) as [Hin|Hnin].
  { exfalso. by eapply grounded_acyclic; [..|apply Hm]. }
  destruct (bool_decide_reflect (id ∈ m.2)); [by simplify_eq|].
  pose proof Hg as Hg'. inversion Hg' as [r Hr Hrd Heq]. 
  destruct (lookup_request_elem s r Hnd Hr) as [k Hk]. rewrite Heq in Hk. rewrite Hk in H.
  destruct (check_all _ _ _) as [[b1 m1]|] eqn:Ea; [|done].
  destruct (check_all_complete _ id r IH Hr Heq _ _ _ _ Ea) as [-> H1].
  - auto.
  - simpl. intros x [->%elem_of_singleton|Hx]%elem_of_union; auto.
  - simplify_eq/=. split; [done|]. rewrite H1. set_solver.
Qed.

(** Fuel: what is being visited are requests, without repetition. *)
Definition seqs : gset Z := list_to_set (req_Seq <$> st_Requests s).

Definition total_within (k : nat) (check : marks -> Z -> option (bool * marks)) : Prop :=
  forall m id, m.1 ⊆ seqs -> (size (seqs ∖ m.1) < k)%nat ->
    exists b m', check m id = Some (b, m') /\ (b = true -> m'.1 = m.1).

Lemma check_all_total k check : total_within k check ->
  forall deps m, m.1 ⊆ seqs -> (size (seqs ∖ m.1) < k)%nat ->
    exists b m', check_all check deps m = Some (b, m') /\ (b = true -> m'.1 = m.1).
Proof.
  intros Hc. induction deps as [|d deps IH]; intros m Hs Hk; simpl; [eauto|].
  destruct (Hc m d Hs Hk) as (b & m1 & -> & Hb). destruct b; [|eauto].
  specialize (Hb eq_refl). rewrite <- Hb in *. by apply IH.
Qed.

Lemma check_dependencies_within fuel : total_within fuel (check_dependencies fuel s).
Proof using Hvalid.
  induction fuel as [|fuel IH]; intros m id Hs Hk; [lia|].
  rewrite check_dependencies_S.
  destruct (bool_decide_reflect (id ∈ m.1)); [eauto|].
  destruct (bool_decide_reflect (id ∈ m.2)); [eauto|].
  destruct (lookup_request s id) as [[k d]|] eqn:El; [|eauto].
  apply lookup_elem in El as [Hd <-].
  assert (req_Seq d ∈ seqs) as Hin.
  { unfold seqs. apply elem_of_list_to_set. by apply list_elem_of_fmap_2. }
  destruct (check_all_total fuel _ IH (req_Dependencies d) ({[req_Seq d]} ∪ m.1, m.2))
    as (b & m1 & -> & Hb); simpl in *.
  - set_solver.
  - assert (seqs ∖ ({[req_Seq d]} ∪ m.1) ⊂ seqs ∖ m.1) as Hlt%subset_size by set_solver.
    lia.
  - destruct b; [|by exists false, m1]. specialize (Hb eq_refl). eexists _, _. split; [done|].
    intros _. simpl. rewrite Hb. set_solver.
Qed.

Lemma check_dependencies_total id :
  exists b m, check_dependencies (plan_fuel s) s (∅, ∅) id = Some (b, m).
Proof using Hvalid.
  destruct (check_dependencies_within (plan_fuel s) (∅, ∅) id) as (b & m & H & _); simpl.
  - set_solver.
  - unfold plan_fuel, seqs. assert (size (list_to_set (req_Seq <$> st_Requests s) ∖ ∅ : gset Z)
      <= length (st_Requests s))%nat; [|lia].
    rewrite difference_empty_L, size_list_to_set by exact Hnd. by rewrite length_fmap.
  - eauto.
Qed.

Lemma acyclic_from_grounded id : acyclic_from s id = true <-> grounded s id.
Proof using Hvalid.
  unfold acyclic_from. destruct (check_dependencies_total id) as (b & m & H). rewrite H.
  split.
  - intros ->. destruct (check_dependencies_sound _ _ _ _ H) as (Hg & _); [set_solver|done].
  - intros Hg. destruct (check_dependencies_complete _ _ _ _ _ H Hg) as [-> _]; [set_solver|done].
Qed.
End Search.
