(* ===== verification/RequestMachine.v ===== *)
(** * The request state machine

    An abstract machine for the life of a request, without files, locks or connections: one
    rule per thing that may happen to a request ([change]) and to the state ([lstep]). Its
    invariant [inv] is proved by cases on the rules; [InboxSafety] proves that every operation
    of the inbox is a sequence of these steps. *)
From S2P Require Import Prelude GoStrings Json Types InboxState Inbox InboxControl InboxFacts PlanFacts.

(** ** The rules *)

(** On whose authority a step is taken: the worker that presents a token (empty: none), the
    controller (with or without its confirmation that the worker stopped), the delivery of
    the saved reply, or the host process. *)
Inductive actor := Worker (token : string) | Controller (stopped : bool) | Delivery | Host.

(** The token covers the request: it is the token of its claim, if it has one. *)
Definition holds (token : string) (r : inboxRequest) : Prop :=
  forall c, req_Claim r = Some c -> cl_Token c = token.

Inductive change (l : actor) (s : inboxState) : inboxRequest -> inboxRequest -> Prop :=
| ch_claim worker random r :
    l = Host -> worker <> "" -> req_Reply r = None -> req_Claim r = None -> eligible s r = true ->
    change l s r (acquire worker random r)
| ch_release c r :
    l = Worker (cl_Token c) -> req_Claim r = Some c -> req_Reply r = None ->
    change l s r (set_Status "ready" (set_Claim None r))
| ch_finish token r :
    l = Worker token -> holds token r -> req_Reply r = None -> suspended (req_Status r) = false ->
    req_Status r <> "completed" -> req_Status r <> "declined" -> change l s r (finish_request r)
| ch_delivered r :
    l = Delivery -> req_Reply r <> None -> change l s r (finish_request r)
| ch_reply token text r :
    l = Worker token -> holds token r ->
    req_Status r <> "completed" -> suspended (req_Status r) = false -> req_Reply r = None ->
    blank text = false -> len text <= 65536 ->
    change l s r (set_Status "reply_pending" (set_Reply (Some text) r))
| ch_error r : req_Reply r <> None -> change l s r (set_DeliveryError delivery_failed r)
| ch_applied m r : req_Claim r <> None -> change l s r (set_Applied m r)
| ch_context text r : terminal (req_Status r) = false -> change l s r (set_Context text r)
| ch_suspend random c o r :
    l = Worker (cl_Token c) ->
    req_Claim r = Some c -> req_Reply r = None -> check_outcome (tail outcome_statuses) o = None ->
    change l s r (suspend_request random (cl_Token c) o r)
| ch_decide id action source context stopped r r' :
    l = Controller stopped ->
    blank source = false -> decide_request id action source context stopped r = Ok (Some r') ->
    change l s r r'.

Definition arrive (rs : list inboxRequest) (seq : Z) (s : inboxState) : inboxState :=
  set_Requests (sort_desc requestPriority rs) (set_After seq s).

Lemma elem_arrive rs seq s x : x ∈ st_Requests (arrive rs seq s) <-> x ∈ rs.
Proof. unfold arrive; cbn [st_Requests set_Requests]. by rewrite (sort_desc_perm requestPriority). Qed.

Definition revoke (f : inboxRequest -> bool) (r : inboxRequest) : inboxRequest :=
  if bool_decide (req_Status r = "ready") && f r then set_Status "cancelled" r else r.

Inductive lstep (l : actor) (s : inboxState) : inboxState -> Prop :=
| ls_request n r r' v :
    st_Requests s !! n = Some r -> change l s r r' -> lstep l s (set_Revision v (put n r' s))
| ls_plan n r ds rs v :
    st_Requests s !! n = Some r -> req_Status r = "ready" ->
    acyclic_from (put n (set_Plan ds rs r) s) (req_Seq r) = true ->
    lstep l s (set_Revision v (put n (set_Plan ds rs r) s))
| ls_arrive e :
    l = Host -> st_After s < ev_Seq e -> shallow_event e ->
    lstep l s (arrive (st_Requests s ++ [new_request e "ready"]) (ev_Seq e) s)
| ls_skip e : l = Host -> st_After s < ev_Seq e -> lstep l s (arrive (st_Requests s) (ev_Seq e) s)
| ls_classify n e :
    l = Host -> st_After s < ev_Seq e -> shallow_event e ->
    lstep l s (arrive ((attach n <$> st_Requests s)
                     ++ [set_Summary attached_summary (new_request e "completed")]) (ev_Seq e) s)
| ls_revoke f : l = Host -> lstep l s (set_Requests (revoke f <$> st_Requests s) s)
| ls_policy p v : lstep l s (set_Revision v (set_Policy (Some p) s)).

(** ** The invariant *)
Record sound_request (r : inboxRequest) : Prop := {
  sr_claim : req_Claim r <> None -> req_Status r ∈ ["running"; "needs_recovery"; "reply_pending"];
  sr_reply : req_Reply r <> None <-> req_Status r = "reply_pending";
  sr_open : awaiting (req_Status r) = true ->
    exists a, req_Approval r = Some a /\ ap_Source a = "" }.

(** Two requests that must not be worked on at once. *)
Definition overlap (a b : inboxRequest) : bool :=
  same_collaboration (req_Event a) (req_Event b) || shares_resource a b.

Definition exclusive (s : inboxState) : Prop := forall a b,
  a ∈ st_Requests s -> b ∈ st_Requests s -> req_Seq a <> req_Seq b ->
  req_Claim a <> None -> req_Claim b <> None ->
  is_lifecycle (req_Event a) = false -> is_lifecycle (req_Event b) = false -> overlap a b = false.

Record inv (s : inboxState) : Prop := {
  inv_valid : valid_state s;
  inv_sound : Forall sound_request (st_Requests s);
  inv_exclusive : exclusive s;
  inv_grounded : all_grounded s }.

Lemma shares_resource_sym a b : shares_resource a b = shares_resource b a.
Proof.
  unfold shares_resource. apply eq_true_iff_eq. rewrite !existsb_exists.
  setoid_rewrite bool_decide_eq_true. setoid_rewrite <- list_elem_of_In. split; intros (x & ? & ?); eauto.
Qed.

Lemma overlap_sym a b : overlap a b = overlap b a.
Proof.
  unfold overlap. rewrite shares_resource_sym. f_equal. unfold same_collaboration.
  repeat case_match; try done. apply bool_decide_ext. naive_solver.
Qed.

(** ** One request *)
Lemma decide_event id action source context stopped r r' :
  decide_request id action source context stopped r = Ok (Some r') -> req_Event r' = req_Event r.
Proof. unfold decide_request. intros H. go_cases; done. Qed.

Lemma finish_event r : req_Event (finish_request r) = req_Event r.
Proof. unfold finish_request. by repeat case_match. Qed.

Lemma change_event l s r r' : change l s r r' -> req_Event r' = req_Event r.
Proof.
  destruct 1; try done.
  - apply finish_event.
  - apply finish_event.
  - unfold suspend_request. by repeat case_match.
  - by eapply decide_event.
Qed.

Lemma change_seq l s r r' : change l s r r' -> req_Seq r' = req_Seq r.
Proof. intros H%change_event. unfold req_Seq. by rewrite H. Qed.

(** The ways a controller decision changes a request. *)
Inductive decided (source : string) (stopped : bool) (r : inboxRequest) : inboxRequest -> Prop :=
| dec_presented a :
    req_Approval r = Some a ->
    decided source stopped r (set_Approval (Some (set_Delivery "presented" a)) r)
| dec_answered a text d :
    req_Approval r = Some a -> awaiting (req_Status r) = true ->
    decided source stopped r (set_Context text (set_Status "ready" (set_Decision d
      (set_Approval (Some (set_Delivery "answered" (set_Source source a))) r))))
| dec_declined a text :
    req_Approval r = Some a -> awaiting (req_Status r) = true ->
    decided source stopped r (set_Context text (set_Status "reply_pending"
      (set_Reply (Some decline_reply) (set_Status "ready" (set_Decision "decline"
        (set_Approval (Some (set_Delivery "answered" (set_Source source a))) r))))))
| dec_annotated text :
    terminal (req_Status r) = false -> decided source stopped r (set_Context text r)
| dec_recovered status text :
    req_Reply r = None -> terminal (req_Status r) = false -> req_Status r <> "awaiting_approval" ->
    req_Claim r = None \/ stopped = true -> status = "ready" \/ status = "cancelled" ->
    decided source stopped r
      (set_Decision source (set_Context text (set_Status status (set_Claim None r)))).

Ltac solve_decided :=
  first [by econstructor
        | constructor; [by apply dec_stable|done|done| |by auto];
          match goal with Hs : _ \/ _ |- _ => destruct Hs end; bool_simpl;
          first [by right | left; by apply dec_stable]].

Lemma decide_request_decided id action source context stopped r r' :
  decide_request id action source context stopped r = Ok (Some r') -> decided source stopped r r'.
Proof.
  unfold decide_request. intros H.
  destruct (match req_Approval r with Some a => _ | None => _ end) as [a|] eqn:Ea.
  - assert (req_Approval r = Some a) as Ha by (repeat case_match; simplify_eq; done).
    go_cases; bool_simpl; solve_decided.
  - go_cases; bool_simpl; solve_decided.
Qed.

Ltac solve_status :=
  unfold statuses; repeat first [apply list_elem_of_here | apply list_elem_of_further].

(** A request whose status, claim and approval are unchanged stays well formed. *)
Lemma valid_request_same after r r' :
  valid_request after r -> req_Event r' = req_Event r -> req_Status r' = req_Status r ->
  req_Claim r' = req_Claim r -> req_Approval r' = req_Approval r -> valid_request after r'.
Proof.
  intros [H1 H2 H3 H4 H5] He Hs Hc Ha. unfold req_Seq in *.
  split; rewrite ?Hs, ?Hc, ?Ha; unfold req_Seq; rewrite ?He; auto.
Qed.

Lemma sound_request_same r r' :
  sound_request r -> req_Status r' = req_Status r -> req_Claim r' = req_Claim r ->
  req_Reply r' = req_Reply r -> req_Approval r' = req_Approval r -> sound_request r'.
Proof. intros [H1 H2 H3] Hs Hc Hr Ha. split; rewrite ?Hs, ?Hc, ?Hr, ?Ha; auto. Qed.

(** A request moved to a status that is neither running nor awaiting, with no claim. *)
Lemma valid_request_unclaimed after r r' :
  valid_request after r -> req_Event r' = req_Event r -> req_Claim r' = None ->
  req_Status r' ∈ statuses -> req_Status r' <> "running" -> awaiting (req_Status r') = false ->
  valid_request after r'.
Proof.
  intros [H1 _ _ _ _] He Hc Hs Hr Ha. split; rewrite ?Hc; unfold req_Seq in *; rewrite ?He; try done.
  congruence.
Qed.

Lemma sound_request_unclaimed r' :
  req_Claim r' = None -> req_Reply r' = None -> req_Status r' <> "reply_pending" ->
  awaiting (req_Status r') = false -> sound_request r'.
Proof. intros Hc Hr Hs Ha. split; rewrite ?Hc, ?Hr; [done|done|congruence]. Qed.

Lemma awaiting_True st :
  awaiting st = true <-> st = "awaiting_approval" \/ st = "awaiting_information".
Proof. unfold awaiting. by rewrite orb_true_iff, !bool_decide_eq_true. Qed.

(** A suspended question is pending: it can still be answered. *)
Lemma awaiting_unclaimed after r :
  valid_request after r -> awaiting (req_Status r) = true -> req_Claim r = None.
Proof. intros [_ _ _ H _] Ha. by destruct (H Ha) as (a & _ & _ & _ & ?). Qed.

Lemma awaiting_no_reply r : sound_request r -> awaiting (req_Status r) = true -> req_Reply r = None.
Proof.
  intros [_ [H _] _] Ha%awaiting_True. destruct (req_Reply r); [|done].
  assert (req_Status r = "reply_pending") by by apply H. naive_solver congruence.
Qed.

Lemma finish_status r :
  req_Status (finish_request r) = "completed" \/ req_Status (finish_request r) = "declined".
Proof. unfold finish_request. repeat case_match; simpl; auto. Qed.
Lemma finish_claim r : req_Claim (finish_request r) = None /\ req_Reply (finish_request r) = None.
Proof. unfold finish_request. by repeat case_match. Qed.

Lemma finish_valid after r : valid_request after r -> valid_request after (finish_request r).
Proof.
  intros Hv. apply (valid_request_unclaimed _ r); [done|apply finish_event|apply finish_claim|..];
    destruct (finish_status r) as [-> | ->]; (done || solve_status).
Qed.

Lemma finish_sound r : sound_request (finish_request r).
Proof.
  apply sound_request_unclaimed; [apply finish_claim..| |];
    by destruct (finish_status r) as [-> | ->].
Qed.

(** What a suspension leaves of the request. *)
Lemma suspend_request_form random token o r :
  let r' := suspend_request random token o r in
  req_Status r' = wo_Status o /\ req_Reply r' = req_Reply r /\
  req_Claim r' = (if bool_decide (wo_Status o <> "needs_recovery") then None else req_Claim r) /\
  req_Approval r' = (if awaiting (wo_Status o)
                     then Some (mkApproval (ID "decision_" random) (wo_Question o)
                                  (wo_Permission o) "pending" "") else req_Approval r) /\
  req_LastClaim r' = token /\ req_Event r' = req_Event r /\ req_Resources r' = req_Resources r
  /\ req_Dependencies r' = req_Dependencies r.
Proof. unfold suspend_request. split_and!; repeat case_match; done. Qed.

Lemma check_outcome_None l o :
  check_outcome l o = None ->
  wo_Status o ∈ l /\ outcome_too_large o = false
  /\ (awaiting (wo_Status o) = true -> blank (wo_Question o) = false).
Proof.
  unfold check_outcome. intros H. go_cases. bool_simpl.
  split_and!; [by apply dec_stable|done|]. intros Ha. destruct E0; congruence.
Qed.

Lemma blank_false_nonempty q : blank q = false -> q <> "".
Proof. by intros H ->. Qed.

Lemma tail_outcomes st :
  st ∈ tail outcome_statuses ->
  st ∈ statuses /\ st <> "running" /\ st <> "reply_pending".
Proof.
  unfold outcome_statuses; simpl. rewrite !elem_of_cons, elem_of_nil.
  intros [-> | [-> | [-> | [-> | []]]]]; (split_and!; [|done..]); unfold statuses;
    repeat first [apply list_elem_of_here | apply list_elem_of_further].
Qed.

Lemma suspend_valid after random c o r :
  valid_request after r -> req_Claim r = Some c -> check_outcome (tail outcome_statuses) o = None ->
  valid_request after (suspend_request random (cl_Token c) o r).
Proof.
  intros [H1 _ _ _ H5] Hc (Ho & _ & Hq)%check_outcome_None.
  destruct (suspend_request_form random (cl_Token c) o r) as (Hs & _ & Hcl & Ha & _ & He & _).
  apply tail_outcomes in Ho as (Ho & Hrun & _).
  split; rewrite ?Hs; [by unfold req_Seq in *; rewrite He|done|done| |].
  - intros Hw. rewrite Hw in Ha. rewrite Ha, Hcl. eexists. split_and!; [done|done| |].
    + apply blank_false_nonempty; auto.
    + apply awaiting_True in Hw as [-> | ->]; done.
  - intros c' Hc'. apply H5. rewrite Hcl in Hc'. by destruct (bool_decide_reflect (wo_Status o <> "needs_recovery")).
Qed.

Lemma suspend_sound random c o r :
  req_Reply r = None -> check_outcome (tail outcome_statuses) o = None ->
  sound_request (suspend_request random (cl_Token c) o r).
Proof.
  intros Hr (Ho & _ & _)%check_outcome_None.
  destruct (suspend_request_form random (cl_Token c) o r) as (Hs & Hr' & Hcl & Ha & _).
  apply tail_outcomes in Ho as (_ & _ & Ho). split; rewrite ?Hs, ?Hr', ?Hcl, ?Ha, ?Hr.
  - destruct (bool_decide_reflect (wo_Status o <> "needs_recovery")) as [|Hn]; [done|].
    intros _. apply dec_stable in Hn. rewrite Hn. set_solver.
  - done.
  - intros ->. eauto.
Qed.

Lemma decided_valid after source stopped r r' :
  valid_request after r -> decided source stopped r r' -> valid_request after r'.
Proof.
  intros Hv Hd. pose proof Hv as [H1 H2 H3 H4 H5]. destruct Hd as [a Ha|a text d Ha Hw|a text Ha Hw|text Ht|status text Hr Ht Hn Hs Hst].
  - split; simpl; try done. intros Hw. destruct (H4 Hw) as (b & Hb & ? & ? & ?). simplify_eq.
    by eexists.
  - pose proof (awaiting_unclaimed _ _ Hv Hw).
    apply (valid_request_unclaimed after r); try done. simpl. solve_status.
  - pose proof (awaiting_unclaimed _ _ Hv Hw).
    apply (valid_request_unclaimed after r); try done. simpl. solve_status.
  - by apply (valid_request_same after r).
  - apply (valid_request_unclaimed after r); try done; simpl; destruct Hst as [-> | ->]; try done;
      solve_status.
Qed.

Lemma decided_sound after source stopped r r' :
  blank source = false -> valid_request after r -> sound_request r -> 
  decided source stopped r r' -> sound_request r'.
Proof.
  intros Hb Hv Hs Hd. pose proof Hs as [H1 H2 H3].
  destruct Hd as [a Ha|a text d Ha Hw|a text Ha Hw|text Ht|status text Hr Ht Hn Hst Hst'].
  - split; simpl; try done. intros Hw. destruct (H3 Hw) as (b & Hb' & ?). simplify_eq. by eexists.
  - apply sound_request_unclaimed; simpl; [by eapply awaiting_unclaimed|by apply awaiting_no_reply|done..].
  - split; simpl; [by rewrite (awaiting_unclaimed _ _ Hv Hw)|done|done].
  - by apply (sound_request_same r).
  - apply sound_request_unclaimed; simpl; [done|done|by destruct Hst' as [-> | ->]..].
Qed.

Lemma acquire_valid after worker random r :
  valid_request after r -> worker <> "" -> valid_request after (acquire worker random r).
Proof.
  intros [V1 V2 V3 V4 V5] Hw. split; simpl; try done; [solve_status|]. by intros c [= <-].
Qed.

Lemma change_valid l s r r' :
  change l s r r' -> valid_request (st_After s) r -> sound_request r ->
  valid_request (st_After s) r'.
Proof.
  destruct 1 as [worker random r Hl Hw Hr Hc He|c r Hl Hc Hr
                |token r Hl Htok Hr H1 H2 H3|r Hl Hr|token text r Hl Htok H1 H2 H3 H4 H5|r Hr|m r Hc|text r Ht
                |random c o r Hl Hc Hr Ho|id action source context stopped r r' Hl Hb Hd];
    intros Hv Hs.
  - by apply acquire_valid.
  - apply (valid_request_unclaimed _ r); try done. simpl. solve_status.
  - by apply finish_valid.
  - by apply finish_valid.
  - destruct Hv as [V1 V2 V3 V4 V5]. split; simpl; try done. solve_status.
  - by apply (valid_request_same _ r).
  - by apply (valid_request_same _ r).
  - by apply (valid_request_same _ r).
  - by apply suspend_valid.
  - eapply decided_valid; [done|]. by eapply decide_request_decided.
Qed.

Lemma change_sound l s r r' :
  change l s r r' -> valid_request (st_After s) r -> sound_request r -> sound_request r'.
Proof.
  destruct 1 as [worker random r Hl Hw Hr Hc He|c r Hl Hc Hr
                |token r Hl Htok Hr H1 H2 H3|r Hl Hr|token text r Hl Htok H1 H2 H3 H4 H5|r Hr|m r Hc|text r Ht
                |random c o r Hl Hc Hr Ho|id action source context stopped r r' Hl Hb Hd];
    intros Hv Hs.
  - split; simpl; [set_solver|by rewrite Hr|done].
  - by apply sound_request_unclaimed.
  - apply finish_sound.
  - apply finish_sound.
  - split; simpl; [set_solver|done|done].
  - by apply (sound_request_same r).
  - by apply (sound_request_same r).
  - by apply (sound_request_same r).
  - by apply suspend_sound.
  - eapply decided_sound; try done. by eapply decide_request_decided.
Qed.

(** ** Eligibility *)
Definition dep_completed (s : inboxState) (seq : Z) : Prop :=
  exists n d, lookup_request s seq = Some (n, d) /\ req_Status d = "completed".

#[export] Instance dep_completed_dec s seq : Decision (dep_completed s seq).
Proof.
  unfold dep_completed. destruct (lookup_request s seq) as [[n d]|].
  - destruct (decide (req_Status d = "completed")) as [H|H]; [left; by exists n, d|].
    right. intros (n' & d' & [= <- <-] & H'). done.
  - right. by intros (n & d & H & _).
Defined.

Lemma deps_completed_spec s deps :
  valid_state s ->
  exists b, deps_completed s deps = (b, s) /\ (b = true <-> Forall (dep_completed s) deps).
Proof.
  intros Hv. induction deps as [|seq deps (b & IH & Hb)]; cbn [deps_completed].
  - exists true. by split; [|split].
  - rewrite request_lookup by done.
    destruct (lookup_request s seq) as [[n d]|] eqn:El.
    + destruct (bool_decide_reflect (req_Status d = "completed")) as [Hc|Hc].
      * exists b. split; [done|]. rewrite Forall_cons, Hb. split; [|by intros []].
        split; [by exists n, d|done].
      * exists false. split; [done|]. split; [done|]. intros (n' & d' & H & ?)%Forall_inv. congruence.
    + exists false. split; [done|]. split; [done|]. intros (n' & d' & H & ?)%Forall_inv. congruence.
Qed.

(** When a non-notice request may be claimed, as a proposition. *)
Record schedulable (s : inboxState) (r : inboxRequest) : Prop := {
  sc_limit : running_count s < worker_limit s;
  sc_deps : Forall (dep_completed s) (req_Dependencies r);
  sc_free : forall a, a ∈ st_Requests s -> conflicts r a = false }.

Lemma existsb_false {A} (f : A -> bool) l : existsb f l = false <-> forall x, x ∈ l -> f x = false.
Proof.
  rewrite <- not_true_iff_false, existsb_exists. setoid_rewrite <- list_elem_of_In. split.
  - intros H x Hx. apply not_true_iff_false. eauto.
  - intros H (x & Hx & Hf). by rewrite H in Hf.
Qed.

Lemma eligible_iff s r :
  valid_state s ->
  eligible s r = true <->
  req_Status r = "ready" /\ (is_lifecycle (req_Event r) = false -> schedulable s r).
Proof.
  intros Hv. unfold eligible.
  destruct (bool_decide_reflect (req_Status r <> "ready")) as [Hn|Hn]; [by split; [|intros []]|].
  apply dec_stable in Hn. destruct (is_lifecycle (req_Event r)); [by split|].
  destruct (deps_completed_spec s (req_Dependencies r) Hv) as (b & Hb & Hdeps).
  destruct (Z.leb_spec (worker_limit s) (running_count s)).
  { split; [done|]. intros [_ Hs]. destruct (Hs eq_refl). lia. }
  rewrite Hb. destruct b; simpl.
  - rewrite negb_true_iff, existsb_false. split.
    + intros Hf. split; [done|]. intros _. split; [done|by apply Hdeps|done].
    + intros [_ Hs]. by destruct (Hs eq_refl).
  - split; [done|]. intros [_ Hs]. destruct (Hs eq_refl) as [_ Hd _]. by apply Hdeps in Hd.
Qed.

Lemma conflicts_overlap r a :
  conflicts r a = false -> req_Claim a <> None -> overlap r a = false.
Proof.
  unfold conflicts, overlap. intros H Hc. rewrite bool_decide_eq_true_2 in H by done. simpl in H.
  rewrite shares_resource_sym. bool_simpl. by apply orb_false_iff.
Qed.

(** ** Replacing one request *)
Lemma put_elem s n r r' x :
  NoDup (req_Seq <$> st_Requests s) -> st_Requests s !! n = Some r -> req_Seq r' = req_Seq r ->
  x ∈ st_Requests (put n r' s) -> x = r' \/ x ∈ st_Requests s /\ req_Seq x <> req_Seq r.
Proof.
  intros Hnd Hr Hs [m Hm]%list_elem_of_lookup. simpl in Hm.
  destruct (decide (m = n)) as [->|Hne].
  - rewrite list_lookup_insert_eq in Hm by by eapply lookup_lt_Some. simplify_eq. auto.
  - rewrite list_lookup_insert_ne in Hm by done. right.
    split; [by eapply list_elem_of_lookup_2|]. intros Heq. apply Hne.
    eapply NoDup_lookup; [exact Hnd| |]; rewrite list_lookup_fmap; [by rewrite Hm|by rewrite Hr, Heq].
Qed.

Lemma put_elem_new s n r r' : st_Requests s !! n = Some r -> r' ∈ st_Requests (put n r' s).
Proof.
  intros Hr. simpl. apply list_elem_of_lookup. exists n.
  by apply list_lookup_insert_eq; eapply lookup_lt_Some.
Qed.

Lemma put_elem_old s n r r' x :
  st_Requests s !! n = Some r -> x ∈ st_Requests s -> req_Seq x <> req_Seq r ->
  x ∈ st_Requests (put n r' s).
Proof.
  intros Hr [m Hm]%list_elem_of_lookup Hne. simpl. apply list_elem_of_lookup. exists m.
  rewrite list_lookup_insert_ne; [done|]. intros ->. congruence.
Qed.

(** ** Frames: what the rules leave alone *)
Lemma decided_frame source stopped r r' :
  decided source stopped r r' ->
  req_Resources r' = req_Resources r /\ req_Dependencies r' = req_Dependencies r /\
  (req_Claim r' = req_Claim r \/ req_Claim r' = None).
Proof. destruct 1; simpl; auto. Qed.

Lemma finish_frame s r :
  req_Resources (finish_request r) = req_Resources r /\
  req_Dependencies (finish_request r) = req_Dependencies r /\
  (req_Claim (finish_request r) <> None -> req_Claim r <> None \/ eligible s r = true).
Proof.
  destruct (finish_claim r) as [Hc _]. rewrite Hc.
  split_and!; [..|done]; unfold finish_request; by repeat case_match.
Qed.

Lemma change_frame l s r r' :
  change l s r r' ->
  req_Resources r' = req_Resources r /\ req_Dependencies r' = req_Dependencies r /\
  (req_Claim r' <> None -> req_Claim r <> None \/ eligible s r = true).
Proof.
  destruct 1 as [worker random r Hl Hw Hr Hc He|c r Hl Hc Hr
                |token r Hl Htok Hr H1 H2 H3|r Hl Hr|token text r Hl Htok H1 H2 H3 H4 H5|r Hr|m r Hc|text r Ht
                |random c o r Hl Hc Hr Ho|id action source context stopped r r' Hl Hb Hd];
    try (simpl; split_and!; [done|done|by auto]).
  - apply finish_frame.
  - apply finish_frame.
  - destruct (suspend_request_form random (cl_Token c) o r) as (_ & _ & Hcl & _ & _ & _ & H1 & H2).
    split_and!; [done|done|]. left. by rewrite Hc.
  - apply decide_request_decided, decided_frame in Hd as (? & ? & Hc).
    split_and!; [done..|]. destruct Hc as [-> | ->]; auto.
Qed.

Lemma overlap_cong a a' b :
  req_Event a' = req_Event a -> req_Resources a' = req_Resources a -> overlap a' b = overlap a b.
Proof. intros He Hr. unfold overlap, shares_resource. by rewrite He, Hr. Qed.

(** ** Steps keep the invariant *)
Lemma exclusive_put s n r r' :
  NoDup (req_Seq <$> st_Requests s) -> exclusive s -> st_Requests s !! n = Some r ->
  req_Event r' = req_Event r ->
  (req_Claim r' <> None -> is_lifecycle (req_Event r') = false ->
   forall a, a ∈ st_Requests s -> req_Seq a <> req_Seq r -> req_Claim a <> None ->
             is_lifecycle (req_Event a) = false -> overlap r' a = false) ->
  exclusive (put n r' s).
Proof.
  intros Hnd Hex Hr He Hnew a b Ha Hb Hne Hca Hcb Hla Hlb.
  assert (req_Seq r' = req_Seq r) as Hs by (unfold req_Seq; by rewrite He).
  apply (put_elem s n r r') in Ha as [->|[Ha Ha']]; try done;
    apply (put_elem s n r r') in Hb as [->|[Hb Hb']]; try done.
  - apply Hnew; congruence.
  - rewrite overlap_sym. apply Hnew; congruence.
  - by apply Hex.
Qed.

Lemma change_exclusive l s n r r' :
  inv s -> st_Requests s !! n = Some r -> change l s r r' -> exclusive (put n r' s).
Proof.
  intros [Hv Hs Hex Hg] Hr Hc. pose proof (change_event _ _ _ _ Hc) as He.
  destruct (change_frame _ _ _ _ Hc) as (Hres & _ & Hcl).
  apply (exclusive_put s n r); [by apply vs_nodup|done..|].
  intros Hnew Hl a Ha Hne Hca Hla. rewrite (overlap_cong r) by done. rewrite He in Hl.
  assert (r ∈ st_Requests s) as Hin by by eapply list_elem_of_lookup_2.
  destruct (Hcl Hnew) as [Hold|Hel%eligible_iff]; [by apply Hex|..|done].
  destruct Hel as [_ [_ _ Hfree]]; [done|]. by apply conflicts_overlap; [apply Hfree|].
Qed.

Lemma put_grounded s n r r' :
  NoDup (req_Seq <$> st_Requests s) -> st_Requests s !! n = Some r -> req_Event r' = req_Event r ->
  req_Dependencies r' = req_Dependencies r -> all_grounded s -> all_grounded (put n r' s).
Proof.
  intros Hnd Hr He Hd. assert (req_Seq r' = req_Seq r) as Hs by (unfold req_Seq; by rewrite He).
  assert (r ∈ st_Requests s) as Hin by by eapply list_elem_of_lookup_2.
  apply all_grounded_incl.
  - intros x Hx. destruct (decide (req_Seq x = req_Seq r)) as [Heq|Hne].
    + rewrite (seq_unique s Hnd x r) in * by done. exists r'. split; [by eapply put_elem_new|done].
    + exists x. split; [by eapply put_elem_old|done].
  - intros x Hx. apply (put_elem s n r) in Hx as [->|[Hx _]]; try done; by eexists.
Qed.

(** Planning the dependencies of one request, checked from it, keeps every chain finite. *)
Lemma plan_grounded s n r ds rs :
  valid_state s -> st_Requests s !! n = Some r -> valid_state (put n (set_Plan ds rs r) s) ->
  all_grounded s -> acyclic_from (put n (set_Plan ds rs r) s) (req_Seq r) = true ->
  all_grounded (put n (set_Plan ds rs r) s).
Proof.
  intros Hv Hr Hv' Hg Hac%acyclic_from_grounded; [|done]. pose proof (vs_nodup s Hv) as Hnd.
  assert (forall x, grounded s x -> grounded (put n (set_Plan ds rs r) s) x) as Hall.
  { induction 1 as [x Hx Hd IH]. destruct (decide (req_Seq x = req_Seq r)) as [->|Hne]; [done|].
    constructor; [by eapply put_elem_old|done]. }
  intros x Hx. apply (put_elem s n r) in Hx as [->|[Hx _]]; [done|by apply Hall, Hg|done..].
Qed.

(** The invariant reads the requests, the cursor and the version, and the depth of the pending event. *)
Lemma inv_fields s t :
  st_Requests t = st_Requests s -> st_After t = st_After s -> st_Version t = st_Version s ->
  (shallow s -> shallow t) -> inv s -> inv t.
Proof.
  intros Hr Ha Hv Hd [V S X G]. split.
  - destruct V. split; try congruence. by apply Hd.
  - by rewrite Hr.
  - intros a b. rewrite Hr. apply X.
  - apply (all_grounded_incl s); try done; intros r; rewrite Hr; eauto.
Qed.

Lemma inv_put l s n r r' :
  inv s -> st_Requests s !! n = Some r -> change l s r r' -> inv (put n r' s).
Proof.
  intros Hi Hr Hc. pose proof Hi as [Hv Hs Hex Hg].
  pose proof (change_event _ _ _ _ Hc) as He. destruct (change_frame _ _ _ _ Hc) as (_ & Hd & _).
  assert (valid_request (st_After s) r) by by eapply valid_lookup.
  assert (sound_request r) by by eapply Forall_lookup_1.
  split.
  - eapply put_valid; try done. by eapply change_valid.
  - apply Forall_insert_2; [done|]. by eapply change_sound.
  - by eapply change_exclusive.
  - apply (put_grounded s n r); try done. by apply vs_nodup.
Qed.

Lemma inv_plan s n r ds rs :
  inv s -> st_Requests s !! n = Some r -> req_Status r = "ready" ->
  acyclic_from (put n (set_Plan ds rs r) s) (req_Seq r) = true -> inv (put n (set_Plan ds rs r) s).
Proof.
  intros [Hv Hs Hex Hg] Hr Hst Hac.
  assert (valid_request (st_After s) r) by by eapply valid_lookup.
  assert (sound_request r) as Hsr by by eapply Forall_lookup_1.
  assert (valid_state (put n (set_Plan ds rs r) s)) as Hv'.
  { eapply put_valid; try done. by apply (valid_request_same _ r). }
  split; [done| | |].
  - apply Forall_insert_2; [done|]. by apply (sound_request_same r).
  - apply (exclusive_put s n r); [by apply vs_nodup|done..|]. intros Hc. simpl in Hc.
    apply (sr_claim r Hsr) in Hc. rewrite Hst in Hc. set_solver.
  - by eapply plan_grounded.
Qed.

(** ** Steps on all requests *)
Record mapping (f : inboxRequest -> inboxRequest) : Prop := {
  mp_seq r : req_Seq (f r) = req_Seq r;
  mp_valid after r : valid_request after r -> valid_request after (f r);
  mp_sound r : sound_request r -> sound_request (f r);
  mp_claim r : req_Claim (f r) = req_Claim r;
  mp_overlap a b : overlap (f a) (f b) = overlap a b;
  mp_lifecycle r : is_lifecycle (req_Event (f r)) = is_lifecycle (req_Event r);
  mp_deps r : req_Dependencies (f r) = req_Dependencies r;
  mp_depth r : meta_depth (req_Event (f r)) = meta_depth (req_Event r) }.

Lemma mapping_id : mapping id.
Proof. by split. Qed.

Lemma mapping_attach n : mapping (attach n).
Proof.
  assert (forall r, attach n r = r \/ attach n r = map_Event (set_Semantic (Some n)) r) as Hf.
  { intros r. unfold attach. case_match; auto. }
  split; try (intros r; by destruct (Hf r) as [-> | ->]).
  - intros after r Hv. destruct (Hf r) as [-> | ->]; [done|]. destruct Hv. by split.
  - intros r Hs. destruct (Hf r) as [-> | ->]; [done|]. by apply (sound_request_same r).
  - intros a b. by destruct (Hf a) as [-> | ->], (Hf b) as [-> | ->].
Qed.

Lemma mapping_revoke g : mapping (revoke g).
Proof.
  assert (forall r, revoke g r = r \/ req_Status r = "ready" /\ revoke g r = set_Status "cancelled" r) as Hf.
  { intros r. unfold revoke. case_match; bool_simpl; auto. }
  split; try (intros r; by destruct (Hf r) as [-> | [? ->]]).
  - intros after r [H1 H2 H3 H4 H5]. destruct (Hf r) as [-> | [Hr ->]]; [done|].
    split; try done. solve_status.
  - intros r [H1 H2 H3]. destruct (Hf r) as [-> | [Hr ->]]; [done|]. rewrite Hr in *.
    split; simpl; [|split|done].
    + intros Hc%H1. set_solver.
    + intros Hc%H2. done.
    + done.
  - intros a b. by destruct (Hf a) as [-> | [_ ->]], (Hf b) as [-> | [_ ->]].
Qed.

(** Requests that may be appended: at most one, new, unclaimed and without dependencies. *)
Definition fresh_requests (s : inboxState) (seq : Z) (l : list inboxRequest) : Prop :=
  l = [] \/ exists r, l = [r] /\ st_After s < req_Seq r /\ valid_request seq r /\
                      sound_request r /\ req_Claim r = None /\ req_Dependencies r = [] /\
                      shallow_event (req_Event r).

Section Arrive.
Context (f : inboxRequest -> inboxRequest) (Hf : mapping f).
Context (s : inboxState) (seq : Z) (new : list inboxRequest).
Context (Hi : inv s) (Hseq : st_After s <= seq) (Hnew : fresh_requests s seq new).

Let t : inboxState := arrive ((f <$> st_Requests s) ++ new) seq s.

Lemma arrive_elem x :
  x ∈ st_Requests t <-> (exists r, x = f r /\ r ∈ st_Requests s) \/ x ∈ new.
Proof using Type.
  subst t. by rewrite elem_arrive, elem_of_app, list_elem_of_fmap.
Qed.

Lemma new_elem x :
  x ∈ new -> st_After s < req_Seq x /\ valid_request seq x /\ sound_request x /\
             req_Claim x = None /\ req_Dependencies x = [] /\ shallow_event (req_Event x).
Proof using Hnew.
  clear t. destruct Hnew as [-> | (r & -> & H)]; [by intros ?%elem_of_nil|].
  by intros ->%list_elem_of_singleton.
Qed.

Lemma arrive_valid : valid_state t.
Proof using Hf Hi Hseq Hnew.
  destruct Hi as [[Hver Haf Hr Hnd _ [Hd Hp]] _ _ _].
  split; simpl; [done|lia| | |apply sort_desc_sorted|split; simpl; [|done]].
  - rewrite sort_desc_perm, Forall_app, Forall_fmap. split.
    + eapply Forall_impl; [exact Hr|]. intros x Hx. apply (mp_valid f Hf). destruct Hx. split; [lia|done..].
    + destruct Hnew as [-> | (r & -> & _ & Hv & _)]; by constructor.
  - rewrite (sort_desc_perm requestPriority), fmap_app, NoDup_app, <- list_fmap_compose.
    rewrite (list_fmap_ext _ req_Seq) by (intros; apply (mp_seq f Hf)).
    destruct Hnew as [-> | (r & -> & Hlt & _)]; simpl.
    + split_and!; [done| |by constructor]. intros ? _ []%elem_of_nil.
    + split_and!; [done| |by apply NoDup_singleton].
      intros q (x & -> & Hx)%list_elem_of_fmap Hq%list_elem_of_singleton.
      rewrite Forall_forall in Hr. destruct (Hr x Hx). lia.
  - rewrite sort_desc_perm, Forall_app, Forall_fmap. split.
    + eapply Forall_impl; [exact Hd|]. intros x Hx. unfold shallow_event. simpl. by rewrite (mp_depth f Hf).
    + destruct Hnew as [-> | (r & -> & H)]; constructor; [apply H|done].
Qed.

Lemma arrive_grounded : all_grounded t.
Proof using Hf Hi Hseq Hnew.
  pose proof (inv_grounded s Hi) as Hg.
  assert (deps_incl s t) as Hincl.
  { intros r Hr. exists (f r). split_and!; [|apply (mp_seq f Hf)|apply (mp_deps f Hf)].
    apply arrive_elem. eauto. }
  intros x [(r & -> & Hr)|Hx]%arrive_elem.
  - rewrite (mp_seq f Hf). by apply (grounded_incl s), Hg.
  - destruct (new_elem x Hx) as (_ & _ & _ & _ & Hd & _).
    constructor; [apply arrive_elem; auto|]. rewrite Hd. by intros ? ?%elem_of_nil.
Qed.

Lemma arrive_inv : inv t.
Proof using Hf Hi Hseq Hnew.
  split; [apply arrive_valid| | |apply arrive_grounded].
  - apply Forall_forall. intros x [(r & -> & Hr)|Hx]%arrive_elem.
    + apply (mp_sound f Hf). eapply Forall_forall; [by apply inv_sound|done].
    + by apply new_elem.
  - assert (forall x, x ∈ new -> req_Claim x = None) as Hn by (intros; by apply new_elem).
    intros x y [(a & -> & Ha)|Hx%Hn]%arrive_elem [(b & -> & Hb)|Hy%Hn]%arrive_elem; try done.
    rewrite !(mp_seq f Hf), !(mp_claim f Hf), !(mp_lifecycle f Hf), (mp_overlap f Hf).
    by apply (inv_exclusive s Hi).
Qed.
End Arrive.

Lemma desc_fmap {A} (key : A -> Z) (f : A -> A) l :
  (forall x, key (f x) = key x) -> desc key l -> desc key (f <$> l).
Proof.
  intros Hk. unfold desc. induction 1 as [|x l Hs IH Hd]; [constructor|].
  constructor; [done|]. destruct Hd; constructor. by rewrite !Hk.
Qed.

Lemma new_request_sound e st :
  st <> "reply_pending" -> awaiting st = false -> sound_request (new_request e st).
Proof. intros. by apply sound_request_unclaimed. Qed.

Lemma new_request_valid e st after :
  0 < ev_Seq e <= after -> st ∈ statuses -> st <> "running" -> awaiting st = false ->
  valid_request after (new_request e st).
Proof. intros ? ? ? Ha. split; try done. simpl. congruence. Qed.

(** Every step keeps the invariant. *)
Lemma lstep_inv l s t : lstep l s t -> inv s -> inv t.
Proof.
  intros H Hi. pose proof (vs_after s (inv_valid s Hi)) as Ha0. 
  destruct H as [n r r' v Hr Hc|n r ds rs v Hr Hst Hac|e Hh Hlt Hd|e Hh Hlt|n e Hh Hlt Hd|g Hh|p v].
  - eapply (inv_fields (put n r' s)); [done..|]. by eapply inv_put.
  - eapply (inv_fields (put n (set_Plan ds rs r) s)); [done..|]. by eapply inv_plan.
  - pose proof (arrive_inv id mapping_id s (ev_Seq e) [new_request e "ready"] Hi) as H.
    rewrite list_fmap_id in H. apply H; [lia|]. right. eexists. split_and!; try done.
    apply new_request_valid; [lia|solve_status|done..].
  - pose proof (arrive_inv id mapping_id s (ev_Seq e) [] Hi) as H.
    rewrite list_fmap_id, app_nil_r in H. apply H; [lia|]. by left.
  - apply (arrive_inv (attach n) (mapping_attach n)); [done|lia|]. right. eexists.
    split_and!; [done|simpl; unfold req_Seq; simpl; lia| | |done..].
    + apply (valid_request_same _ (new_request e "completed")); [|done..].
      apply new_request_valid; [lia|solve_status|done..].
    + apply (sound_request_same (new_request e "completed")); [|done..]. by apply new_request_sound.
  - pose proof (arrive_inv (revoke g) (mapping_revoke g) s (st_After s) [] Hi) as H.
    assert (sort_desc requestPriority ((revoke g <$> st_Requests s) ++ []) = revoke g <$> st_Requests s) as Hsame.
    { rewrite app_nil_r, sort_desc_id; [done|]. apply desc_fmap; [|apply (vs_sorted s (inv_valid s Hi))].
      intros r. unfold revoke. by case_match. }
    eapply (inv_fields _ _); [..|apply H; [lia|by left]]; unfold shallow; simpl; by rewrite ?Hsame.
  - by apply (inv_fields s).
Qed.

(** ** What a step never undoes *)

(** [keeps r r']: the same message, and a completed request stays completed. *)
Record keeps (r r' : inboxRequest) : Prop := {
  kp_seq : req_Seq r' = req_Seq r;
  kp_kind : ev_Kind (req_Event r') = ev_Kind (req_Event r);
  kp_message : msg_ID (ev_Payload (req_Event r')) = msg_ID (ev_Payload (req_Event r));
  kp_text : msg_Text (ev_Payload (req_Event r')) = msg_Text (ev_Payload (req_Event r));
  kp_completed : req_Status r = "completed" -> req_Status r' = "completed" }.

#[export] Instance keeps_preorder : PreOrder keeps.
Proof.
  split; [by intros r; split|]. intros a b c [H1 H2 H3 H4 H5] [G1 G2 G3 G4 G5]. split; [congruence..|auto].
Qed.

(** [evolves s t]: the cursor did not go back and no request was lost; a request that was not
    there before is a new message, past the old cursor. *)
Record evolves (s t : inboxState) : Prop := {
  evo_after : st_After s <= st_After t;
  evo_kept : forall r, r ∈ st_Requests s -> exists r', r' ∈ st_Requests t /\ keeps r r';
  evo_new : forall r', r' ∈ st_Requests t ->
    st_After s < req_Seq r' \/ exists r, r ∈ st_Requests s /\ keeps r r' }.

Lemma evolves_refl s : evolves s s.
Proof. split; [done|..]; intros r Hr; [exists r; by split|right; exists r; by split]. Qed.

Lemma evolves_trans s t u : evolves s t -> evolves t u -> evolves s u.
Proof.
  intros [A1 B1 C1] [A2 B2 C2]. split; [lia| |].
  - intros r (r1 & H1 & K1)%B1. destruct (B2 r1 H1) as (r2 & H2 & K2). exists r2.
    split; [done|by transitivity r1].
  - intros r [Hlt|(r1 & H1 & K1)]%C2; [left; lia|].
    destruct (C1 r1 H1) as [Hlt|(r0 & H0 & K0)].
    + left. by rewrite (kp_seq _ _ K1).
    + right. exists r0. split; [done|by transitivity r1].
Qed.

#[export] Instance evolves_preorder : PreOrder evolves.
Proof. split; [exact evolves_refl | intros s t u; apply evolves_trans]. Qed.

Lemma keeps_event r r' :
  req_Event r' = req_Event r -> (req_Status r = "completed" -> req_Status r' = "completed") ->
  keeps r r'.
Proof. intros He Hs. split; unfold req_Seq; rewrite ?He; done. Qed.

(** No rule moves a completed request; [sound_request] excludes the rules for claimed ones. *)
Lemma change_keeps l s r r' :
  change l s r r' -> valid_request (st_After s) r -> sound_request r -> keeps r r'.
Proof.
  intros H Hv Hs. apply keeps_event; [by eapply change_event|]. intros Hc. revert Hc.
  destruct H as [worker random r Hl Hw Hr Hc He|c r Hl Hc Hr
                |token r Hl Htok Hr H1 H2 H3|r Hl Hr|token text r Hl Htok H1 H2 H3 H4 H5|r Hr|m r Hc|text r Ht
                |random c o r Hl Hc Hr Ho|id action source context stopped r r' Hl Hb Hd];
    intros Hst; try done.
  - unfold eligible in He. by rewrite Hst in He.
  - destruct Hs as [Hcl _ _]. rewrite Hc, Hst in Hcl. exfalso. specialize (Hcl ltac:(done)). set_solver.
  - apply (sr_reply r Hs) in Hr. congruence.
  - destruct Hs as [Hcl _ _]. rewrite Hc, Hst in Hcl. exfalso. specialize (Hcl ltac:(done)). set_solver.
  - apply decide_request_decided in Hd. destruct Hd as [a Ha|a text d Ha Hw|a text Ha Hw|text Ht|status text Hr Ht Hn Hst' Hss];
      simpl; try done; rewrite Hst in *; done.
Qed.

Lemma put_evolves s n r r' :
  NoDup (req_Seq <$> st_Requests s) -> st_Requests s !! n = Some r -> keeps r r' ->
  evolves s (put n r' s).
Proof.
  intros Hnd Hr Hk. assert (r ∈ st_Requests s) as Hin by by eapply list_elem_of_lookup_2.
  split; [done| |].
  - intros x Hx. destruct (decide (req_Seq x = req_Seq r)) as [Heq|Hne].
    + rewrite (seq_unique s Hnd x r) by done. exists r'. split; [by eapply put_elem_new|done].
    + exists x. split; [by eapply put_elem_old|done].
  - intros x Hx. right. apply (put_elem s n r) in Hx as [->|[Hx _]]; [by exists r|by exists x|done|done|].
    apply (kp_seq _ _ Hk).
Qed.

Lemma arrive_evolves f s seq new :
  (forall r, r ∈ st_Requests s -> keeps r (f r)) -> st_After s <= seq ->
  (forall x, x ∈ new -> st_After s < req_Seq x) ->
  evolves s (arrive ((f <$> st_Requests s) ++ new) seq s).
Proof.
  intros Hf Hseq Hnew. split; [done|..]; intros x.
  - intros Hx. exists (f x). rewrite elem_arrive, elem_of_app.
    split; [left; by apply list_elem_of_fmap_2|auto].
  - rewrite elem_arrive, elem_of_app. intros [(r & -> & Hr)%list_elem_of_fmap|Hx]; [|auto]. right. eauto.
Qed.

Lemma attach_keeps n r : keeps r (attach n r).
Proof. unfold attach. case_match; [|done]. by split. Qed.

Lemma revoke_keeps g r : keeps r (revoke g r).
Proof.
  unfold revoke. case_match; [|done]. bool_simpl. apply keeps_event; [done|]. simpl. congruence.
Qed.

Lemma lstep_evolves l s t : lstep l s t -> inv s -> evolves s t.
Proof.
  intros H Hi. pose proof (vs_nodup s (inv_valid s Hi)) as Hnd.
  assert (forall n r, st_Requests s !! n = Some r -> valid_request (st_After s) r /\ sound_request r) as Hr.
  { intros n r Hr. split; [eapply valid_lookup; [by apply inv_valid|done]|].
    eapply Forall_lookup_1; [by apply inv_sound|done]. }
  destruct H as [n r r' v Hl Hc|n r ds rs v Hl Hst Hac|e Hh Hlt Hd|e Hh Hlt|n e Hh Hlt Hd|g Hh|p v].
  - transitivity (put n r' s); [|by split; [|intros x ?; exists x|intros x ?; right; exists x]].
    apply (put_evolves s n r); [done|done|].
    destruct (Hr n r Hl). by eapply change_keeps.
  - transitivity (put n (set_Plan ds rs r) s);
      [|by split; [|intros x ?; exists x|intros x ?; right; exists x]].
    apply (put_evolves s n r); [done|done|]. by apply keeps_event.
  - pose proof (arrive_evolves id s (ev_Seq e) [new_request e "ready"]) as H.
    rewrite list_fmap_id in H. apply H; [done|lia|]. by intros x ->%list_elem_of_singleton.
  - pose proof (arrive_evolves id s (ev_Seq e) []) as H. rewrite list_fmap_id, app_nil_r in H.
    apply H; [done|lia|]. by intros x ?%elem_of_nil.
  - apply arrive_evolves; [by intros; apply attach_keeps|lia|]. by intros x ->%list_elem_of_singleton.
  - split; simpl; [done|..].
    + intros x Hx. exists (revoke g x). split; [by apply list_elem_of_fmap_2|apply revoke_keeps].
    + intros x (r & -> & Hx)%list_elem_of_fmap. right. exists r. split; [done|apply revoke_keeps].
  - by split; [|intros x ?; exists x|intros x ?; right; exists x].
Qed.

(** Any number of steps. *)
Lemma lsteps_inv l s t : rtc (lstep l) s t -> inv s -> inv t /\ evolves s t.
Proof.
  induction 1 as [s|s u t Hs _ IH]; intros Hi; [by split|].
  destruct IH as [Ht He]; [by eapply lstep_inv|]. split; [done|].
  etransitivity; [by eapply lstep_evolves|done].
Qed.

(** ** Following one request through a step *)
Inductive moved (l : actor) (s : inboxState) (r : inboxRequest) : inboxRequest -> Prop :=
| mv_same : moved l s r r
| mv_change r' : change l s r r' -> moved l s r r'
| mv_plan ds rs : req_Status r = "ready" -> moved l s r (set_Plan ds rs r)
| mv_attach n : l = Host -> moved l s r (attach n r)
| mv_revoke g : l = Host -> moved l s r (revoke g r).

Lemma put_track l s n x x' r :
  NoDup (req_Seq <$> st_Requests s) -> st_Requests s !! n = Some x -> moved l s x x' ->
  r ∈ st_Requests s -> exists r', r' ∈ st_Requests (put n x' s) /\ moved l s r r'.
Proof.
  intros Hnd Hx Hm Hr. destruct (decide (req_Seq r = req_Seq x)) as [Heq|Hne].
  - assert (x ∈ st_Requests s) by by eapply list_elem_of_lookup_2.
    rewrite (seq_unique s Hnd r x) by done. exists x'. split; [by eapply put_elem_new|done].
  - exists r. split; [by eapply put_elem_old|constructor].
Qed.

Lemma lstep_track l s t r :
  lstep l s t -> NoDup (req_Seq <$> st_Requests s) -> r ∈ st_Requests s ->
  exists r', r' ∈ st_Requests t /\ moved l s r r'.
Proof.
  intros H Hnd Hr.
  destruct H as [n x x' v Hl Hc|n x ds rs v Hl Hst Hac|e Hh Hlt Hd|e Hh Hlt|n e Hh Hlt Hd|g Hh|p v].
  - eapply (put_track l s n x x'); try done. by constructor.
  - eapply (put_track l s n x (set_Plan ds rs x)); try done. by constructor.
  - exists r. split; [|constructor]. rewrite elem_arrive, elem_of_app. auto.
  - exists r. split; [|constructor]. by rewrite elem_arrive.
  - exists (attach n r). split; [|by apply mv_attach]. rewrite elem_arrive, elem_of_app. left. by apply list_elem_of_fmap_2.
  - exists (revoke g r). split; [by apply list_elem_of_fmap_2|by apply mv_revoke].
  - exists r. split; [done|constructor].
Qed.

Lemma moved_seq l s r r' : moved l s r r' -> req_Seq r' = req_Seq r.
Proof.
  destruct 1 as [|r' Hc|ds rs Hst|n Hh|g Hh]; try done; [by eapply change_seq|..].
  - apply (mp_seq _ (mapping_attach n)).
  - apply (mp_seq _ (mapping_revoke g)).
Qed.

(** A claim with no reply saved is ended only by its own token or by a controller that
    confirms the worker stopped; and nobody else saves a reply for it. *)
Definition held (c : inboxClaim) (r : inboxRequest) : Prop :=
  req_Claim r = Some c /\ req_Reply r = None.

Definition ends (l : actor) (c : inboxClaim) : Prop := l = Worker (cl_Token c) \/ l = Controller true.

Lemma moved_held l s r r' c :
  moved l s r r' -> valid_request (st_After s) r -> held c r -> ~ ends l c -> held c r'.
Proof.
  unfold ends, held. intros Hm Hv [Hc Hn] Hno. destruct Hm as [|r' Hch|ds rs Hst|n Hh|g Hh]; auto.
  - revert Hc Hn.
    destruct Hch as [worker random r Hl Hw Hr Hc' He|c' r Hl Hc' Hr
                |token r Hl Htok Hr H1 H2 H3|r Hl Hr|token text r Hl Htok H1 H2 H3 H4 H5|r Hr|m r Hc'|text r Ht
                |random c' o r Hl Hc' Hr Ho|id action source context stopped r r' Hl Hb Hd];
      intros Hc Hn; try done.
    + congruence.
    + destruct Hno. left. congruence.
    + destruct Hno. left. by rewrite Hl, (Htok c Hc).
    + destruct Hno. left. by rewrite Hl, (Htok c Hc).
    + destruct Hno. left. congruence.
    + apply decide_request_decided in Hd. subst l.
      assert (awaiting (req_Status r) = true -> req_Claim r = None) as Haw by by eapply awaiting_unclaimed.
      destruct Hd as [a Ha|a text d Ha Hw|a text Ha Hw|text Ht|status text Hr Ht Hn' Hst' Hss]; try done.
      * rewrite Haw in Hc by done. done.
      * destruct Hst' as [?|Hst']; [congruence|]. destruct Hno. right. congruence.
  - rewrite (mp_claim _ (mapping_attach n)). split; [done|]. unfold attach. by case_match.
  - rewrite (mp_claim _ (mapping_revoke g)). split; [done|]. unfold revoke. by case_match.
Qed.

(** What identifies the message a request will post in reply. *)
Definition reply_target (r : inboxRequest) : Z * string * string :=
  (req_Seq r, ev_ChannelID (req_Event r), msg_ID (ev_Payload (req_Event r))).

Lemma moved_reply l s r r' t :
  moved l s r r' -> sound_request r -> l <> Delivery -> req_Reply r = Some t ->
  req_Reply r' = Some t /\ reply_target r' = reply_target r.
Proof.
  intros Hm Hs Hl Ht. destruct Hm as [|r' Hch|ds rs Hst|n Hh|g Hh]; auto.
  - pose proof (change_event _ _ _ _ Hch) as He. unfold reply_target, req_Seq. rewrite He.
    split; [|done]. revert Hl Ht.
    assert (awaiting (req_Status r) = true -> req_Reply r = None) as Hnr by by apply awaiting_no_reply.
    destruct Hch as [worker random r Hl Hw Hr Hc' He'|c' r Hl Hc' Hr
                |token r Hl Htok Hr H1 H2 H3|r Hl Hr|token text r Hl Htok H1 H2 H3 H4 H5|r Hr|m r Hc'|text r Ht'
                |random c' o r Hl Hc' Hr Ho|id action source context stopped r r' Hl Hb Hd];
      intros Hnl Ht; try congruence; try done.
    apply decide_request_decided in Hd.
    destruct Hd as [a Ha|a text d Ha Hw|a text Ha Hw|text Ht'|status text Hr Ht' Hn Hst' Hss]; try done.
    rewrite Hnr in Ht by done. done.
  - unfold attach. case_match; auto.
  - unfold revoke. case_match; auto.
Qed.

(** ** Following one request through several steps *)
Lemma lsteps_held l s t r c :
  rtc (lstep l) s t -> inv s -> r ∈ st_Requests s -> held c r -> ~ ends l c ->
  exists r', r' ∈ st_Requests t /\ req_Seq r' = req_Seq r /\ held c r'.
Proof.
  intros H. revert r. induction H as [s|s u t Hst _ IH]; intros r Hi Hr Hc Hno; [eauto|].
  destruct (lstep_track _ _ _ _ Hst (vs_nodup s (inv_valid s Hi)) Hr) as (r1 & Hr1 & Hm).
  assert (valid_request (st_After s) r) as Hv.
  { eapply Forall_forall; [apply vs_requests, inv_valid, Hi|done]. }
  destruct (IH r1) as (r' & Hr' & Hs & Hc'); try done.
  - by eapply lstep_inv.
  - by eapply moved_held.
  - exists r'. split_and!; try done. by rewrite Hs, (moved_seq _ _ _ _ Hm).
Qed.

Lemma lsteps_reply l s t r text :
  rtc (lstep l) s t -> inv s -> r ∈ st_Requests s -> req_Reply r = Some text -> l <> Delivery ->
  exists r', r' ∈ st_Requests t /\ req_Reply r' = Some text /\ reply_target r' = reply_target r.
Proof.
  intros H. revert r. induction H as [s|s u t Hst _ IH]; intros r Hi Hr Hc Hno; [eauto|].
  destruct (lstep_track _ _ _ _ Hst (vs_nodup s (inv_valid s Hi)) Hr) as (r1 & Hr1 & Hm).
  assert (sound_request r) as Hs by (eapply Forall_forall; [by apply inv_sound|done]).
  destruct (moved_reply _ _ _ _ _ Hm Hs Hno Hc) as [Hc1 Ht1].
  destruct (IH r1) as (r' & Hr' & Hc' & Ht'); try done; [by eapply lstep_inv|].
  exists r'. split_and!; try done. congruence.
Qed.
