(* ===== verification/InboxSafety.v ===== *)
(** * The inbox refines the request state machine

    Every operation of the inbox, whatever its arguments, the outcome of its file operations
    and the state it finds, either leaves the durable state as it was or performs steps of
    [RequestMachine] on the authority it was given, and then the state in memory and the file
    are those of the machine. *)
From S2P Require Import Prelude GoStrings Json Types InboxState Inbox InboxControl InboxFacts.
From S2P Require Import PlanFacts RequestMachine.

(** What an operation never changes: whose inbox it is, and which peers it accepts. *)
Definition identity (i : inbox) : string * Config * string * bool * list string * bool :=
  (ib_agent i, ib_c i, ib_path i, ib_creator i, ib_allowed i, ib_workspacePeers i).

(** [updates l i i']: the effect of one operation performed on the authority [l]. *)
Record updates (l : actor) (i i' : inbox) : Prop := {
  up_identity : identity i' = identity i;
  up_state : ib_state i' = ib_state i /\ ib_file i' = ib_file i \/
    exists t, rtc (lstep l) (ib_state i) t /\ inv t /\ evolves (ib_state i) t /\
      ib_state i' = project (disk_form t) /\ ib_file i' = Some (disk_form t) }.

Lemma updates_refl l i : updates l i i.
Proof. split; auto. Qed.

Lemma updates_changed l i i' b : updates l i i' -> updates l i (set_changed b i').
Proof. by intros []. Qed.

Lemma save_updates l io i t :
  inv (ib_state i) -> rtc (lstep l) (ib_state i) t -> updates l i (save io i t).2.
Proof.
  intros Hi Hs. destruct (lsteps_inv l _ _ Hs Hi) as [Ht He].
  rewrite save_spec by by apply inv_valid. destruct io; [apply updates_refl|].
  split; [done|]. right. exists t. by split_and!.
Qed.

Lemma save_updates_eq l io i t err i' :
  save io i t = (err, i') -> inv (ib_state i) -> rtc (lstep l) (ib_state i) t -> updates l i i'.
Proof. intros H Hi Hs. replace i' with (save io i t).2 by by rewrite H. by apply save_updates. Qed.

(** ** Steps in the form the code takes them *)
Lemma set_Revision_id s : set_Revision (st_Revision s) s = s.
Proof. by destruct s. Qed.

Lemma lstep_put l s n r r' :
  st_Requests s !! n = Some r -> change l s r r' -> lstep l s (put n r' s).
Proof.
  intros Hr Hc. pose proof (ls_request l s n r r' (st_Revision s) Hr Hc) as H.
  exact H.
Qed.

Lemma lstep_commit l s n r r' :
  st_Requests s !! n = Some r -> change l s r r' -> lstep l s (commit n r' s).
Proof. intros. by apply (ls_request l s n r r'). Qed.

(** Sorting on migration: a list that is valid once sorted is saved sorted. *)
Lemma migrate_arrive rs seq s :
  valid_state (arrive rs seq s) ->
  migrate (set_Requests rs (set_After seq s)) = (None, arrive rs seq s).
Proof.
  intros [Hv Ha Hr Hn _ _]. simpl in *. rewrite migrate_current by done.
  rewrite (proj2 (check_requests_None _ _ _)); [done|]. split_and!.
  - by rewrite sort_desc_perm in Hr.
  - by rewrite (sort_desc_perm requestPriority) in Hn.
  - apply Forall_forall. intros. apply not_elem_of_empty.
Qed.

Lemma save_migrate io i s s' : migrate s = (None, s') -> valid_state s' -> save io i s = save io i s'.
Proof. intros H Hv. unfold save. by rewrite H, migrate_fix. Qed.

Lemma save_arrive l io i rs seq err i' :
  save io i (set_Requests rs (set_After seq (ib_state i))) = (err, i') ->
  inv (ib_state i) -> lstep l (ib_state i) (arrive rs seq (ib_state i)) -> updates l i i'.
Proof.
  intros H Hi Hs. pose proof (lstep_inv l _ _ Hs Hi) as Ht.
  rewrite (save_migrate _ _ _ (arrive rs seq (ib_state i))) in H.
  - eapply save_updates_eq; [done|done|by apply rtc_once].
  - by apply migrate_arrive, inv_valid.
  - by apply inv_valid.
Qed.

(** The lookups of an operation, on a well-formed state. *)
Ltac lookup_simpl Hi :=
  rewrite ?copy_request_lookup, ?request_lookup, ?live_request_lookup, ?copy_valid
    in * by (exact (inv_valid _ Hi)).

Section Operations.
Context `{!CryptoRoutes}.

Lemma ingest_updates io i e valid :
  inv (ib_state i) -> shallow_event e -> updates Host i (ingest io i e valid).2.
Proof.
  intros Hi Hd. unfold ingest. lookup_simpl Hi.
  destruct (Z.leb_spec (ev_Seq e) (st_After (ib_state i))) as [|Hlt]; [apply updates_refl|].
  cbn zeta. change (ev_Seq (set_Mentioned _ e)) with (ev_Seq e).
  set (e1 := set_Mentioned _ e). assert (st_After (ib_state i) < ev_Seq e1) as Hlt1 by done.
  destruct (valid && accepts i e1); [destruct (classification e1) as [n|]|].
  - destruct (save _ _ _) as [err i'] eqn:E. simpl. eapply save_arrive; [exact E|done|].
    exact (ls_classify Host (ib_state i) n e1 eq_refl Hlt1 Hd).
  - destruct (save _ _ _) as [err i'] eqn:E. simpl. eapply save_arrive; [exact E|done|].
    exact (ls_arrive Host (ib_state i) e1 eq_refl Hlt1 Hd).
  - destruct (save _ _ _) as [err i'] eqn:E. simpl.
    eapply (save_arrive _ _ _ (st_Requests (ib_state i))); [exact E|done|]. 
    exact (ls_skip Host (ib_state i) e1 eq_refl Hlt1).
Qed.

Lemma revalidate_updates io i : inv (ib_state i) -> updates Host i (revalidate io i).2.
Proof.
  intros Hi. unfold revalidate. rewrite migrate_fix by by apply inv_valid.
  replace (set_state (ib_state i) i) with i by by destruct i. lookup_simpl Hi.
  destruct (existsb _ _); [|apply updates_refl].
  apply save_updates; [done|]. apply rtc_once. by apply (ls_revoke Host _ (fun r => negb (accepts i (req_Event r)))).
Qed.

Lemma claim_updates random io i seq worker :
  inv (ib_state i) -> updates Host i (claim random io i seq worker).2.
Proof.
  intros Hi. unfold claim.
  destruct (bad_worker_id worker) eqn:Hw; [apply updates_refl|]. lookup_simpl Hi.
  destruct (lookup_request _ seq) as [[n r]|] eqn:El; [|apply updates_refl].
  apply lookup_request_Some in El as [Hr _].
  destruct (bool_decide_reflect (req_Reply r <> None)) as [|Hrep]; [apply updates_refl|].
  destruct (accepts i (req_Event r)); simpl; [|apply updates_refl].
  destruct (req_Claim r) as [c|] eqn:Hc; [case_match; apply updates_refl|].
  destruct (eligible (ib_state i) r) eqn:Hel; simpl; [|apply updates_refl].
  destruct (save _ _ _) as [err i'] eqn:E.
  assert (updates Host i i') as Hu; [|by destruct err].
  eapply save_updates_eq; [exact E|done|]. apply rtc_once.
  apply (lstep_put Host _ n r); [done|]. apply ch_claim; try done.
  - unfold bad_worker_id in Hw. bool_simpl. by apply blank_false_nonempty.
  - by apply dec_stable.
Qed.
End Operations.

Lemma release_updates io i seq token :
  inv (ib_state i) -> updates (Worker token) i (release io i seq token).2.
Proof.
  intros Hi. unfold release. lookup_simpl Hi.
  destruct (lookup_request _ seq) as [[n r]|] eqn:El; [|apply updates_refl].
  apply lookup_request_Some in El as [Hr _].
  destruct (req_Claim r) as [c|] eqn:Hc; [|apply updates_refl].
  destruct (bool_decide_reflect (cl_Token c <> token)) as [|Htok]; [apply updates_refl|].
  destruct (bool_decide_reflect (req_Reply r <> None)) as [|Hrep]; [apply updates_refl|].
  apply dec_stable in Htok. apply dec_stable in Hrep. subst token.
  apply save_updates; [done|]. apply rtc_once, (lstep_commit _ _ n r); [done|]. by apply (ch_release _ _ c).
Qed.

(** The completion of a request, when the token or the delivered reply permits it. *)
Lemma ackLocked_updates l io i seq :
  inv (ib_state i) ->
  (forall n r, lookup_request (ib_state i) seq = Some (n, r) ->
     req_Status r <> "completed" -> req_Status r <> "declined" ->
     change l (ib_state i) r (finish_request r)) ->
  updates l i (ackLocked io i seq).2.
Proof.
  intros Hi Hch. unfold ackLocked. lookup_simpl Hi.
  destruct (lookup_request _ seq) as [[n r]|] eqn:El; [|apply updates_refl].
  destruct (bool_decide_reflect (req_Status r = "completed")) as [|H1]; [apply updates_refl|].
  destruct (bool_decide_reflect (req_Status r = "declined")) as [|H2]; [apply updates_refl|]. simpl.
  pose proof El as [Hr _]%lookup_request_Some.
  destruct (save _ _ _) as [err i'] eqn:E.
  assert (updates l i i') as Hu; [|destruct err; [done|by apply updates_changed]].
  eapply save_updates_eq; [exact E|done|]. apply rtc_once, (lstep_commit _ _ n r); [done|]. by eapply Hch.
Qed.

(** The token an optional-argument list presents. *)
Definition presented (tokens : list string) : string := default "" (head tokens).

Lemma checkRequestClaim_None r tokens :
  checkRequestClaim r tokens = None -> holds (presented tokens) r /\ suspended (req_Status r) = false.
Proof.
  unfold checkRequestClaim, holds. intros H. destruct (req_Claim r) as [c|].
  - destruct (bool_decide_reflect (tokens <> [cl_Token c])) as [|Ht]; [done|]. simpl in H.
    apply dec_stable in Ht. subst tokens. destruct (suspended (req_Status r)); [done|].
    split; [|done]. by intros c' [= <-].
  - split; [done|]. destruct (suspended (req_Status r)); [|done]. by case_match.
Qed.

Lemma ack_updates io i seq tokens :
  inv (ib_state i) -> updates (Worker (presented tokens)) i (ack io i seq tokens).2.
Proof.
  intros Hi. unfold ack. lookup_simpl Hi.
  destruct (lookup_request _ seq) as [[n r]|] eqn:El; simpl.
  - destruct (checkRequestClaim r tokens) eqn:Hch; [apply updates_refl|].
    apply checkRequestClaim_None in Hch as [Hh Hs].
    destruct (bool_decide_reflect (req_Reply r <> None)) as [|Hrep]; [apply updates_refl|].
    apply ackLocked_updates; [done|]. intros n' r' Hl H1 H2. rewrite El in Hl. simplify_eq.
    eapply ch_finish; try done. by apply dec_stable.
  - apply ackLocked_updates; [done|]. intros n r Hl. by rewrite El in Hl.
Qed.

Lemma reply_begin_updates io i seq text tokens :
  inv (ib_state i) -> updates (Worker (presented tokens)) i (reply_begin io i seq text tokens).2.
Proof.
  intros Hi. unfold reply_begin. lookup_simpl Hi. 
  destruct (lookup_request _ seq) as [[n r]|] eqn:El; simpl; [|apply updates_refl].
  destruct (bool_decide_reflect (req_Status r = "completed")) as [|H1]; [apply updates_refl|].
  destruct (checkRequestClaim r tokens) eqn:Hch; [apply updates_refl|].
  apply checkRequestClaim_None in Hch as [Hh Hs].
  do 6 (case_match; [apply updates_refl|]). bool_simpl.
  rewrite migrate_fix by by apply inv_valid. cbn [snd].
  change (list_find _ _) with (lookup_request (ib_state i) seq). rewrite El.
  pose proof El as [Hr _]%lookup_request_Some.
  destruct (save _ _ _) as [err i'] eqn:E.
  assert (updates (Worker (presented tokens)) i i') as Hu; [|by destruct err].
  eapply save_updates_eq; [exact E|done|].
  apply rtc_once, (lstep_put _ _ n r); [done|]. by eapply ch_reply.
Qed.

(** The server's answer: [seq] has the saved reply that was posted. *)
Definition answer_actor (answer : result json) : actor := if is_ok answer then Delivery else Host.

Lemma deliver_finish_updates io i seq answer :
  inv (ib_state i) ->
  (forall n r, lookup_request (ib_state i) seq = Some (n, r) -> req_Reply r <> None) ->
  updates (answer_actor answer) i (deliver_finish io i seq answer).2.
Proof.
  intros Hi Hrep. unfold deliver_finish. destruct answer as [v|e]; cbn [answer_actor is_ok].
  - pose proof (ackLocked_updates Delivery io i seq Hi) as H.
    destruct (ackLocked io i seq) as [err i']. apply H. intros n r Hl _ _.
    by eapply ch_delivered, Hrep.
  - lookup_simpl Hi. destruct (lookup_request _ seq) as [[n r]|] eqn:El; [|apply updates_refl].
    case_match; [|apply updates_refl]. pose proof El as [Hr _]%lookup_request_Some.
    apply save_updates; [done|]. apply rtc_once, (lstep_put _ _ n r); [done|]. by eapply ch_error, Hrep.
Qed.

(** The delivery touches no other request. *)
Lemma save_other io i s n r r' x :
  inv (ib_state i) -> inv s -> st_Requests s = <[n:=r']> (st_Requests (ib_state i)) ->
  st_Requests (ib_state i) !! n = Some r -> req_Seq x <> req_Seq r ->
  x ∈ st_Requests (ib_state i) -> x ∈ st_Requests (ib_state (save io i s).2).
Proof.
  intros Hi Hs Heq Hr Hne Hx. rewrite save_spec by by apply inv_valid.
  destruct io; [done|]. cbn [snd]. rewrite installed_requests by by apply inv_valid.
  rewrite Heq. by eapply (put_elem_old (ib_state i)).
Qed.

Lemma deliver_finish_other io i seq answer x :
  inv (ib_state i) -> x ∈ st_Requests (ib_state i) -> req_Seq x <> seq ->
  (forall n r, lookup_request (ib_state i) seq = Some (n, r) -> req_Reply r <> None) ->
  x ∈ st_Requests (ib_state (deliver_finish io i seq answer).2).
Proof.
  intros Hi Hx Hne Hrep. unfold deliver_finish, ackLocked. lookup_simpl Hi.
  destruct answer as [v|e].
  - destruct (lookup_request _ seq) as [[n r]|] eqn:El; [|done].
    destruct (_ || _); [done|]. pose proof El as [Hr <-]%lookup_request_Some.
    destruct (save _ _ _) as [err i'] eqn:E.
    assert (x ∈ st_Requests (ib_state i')) as Hin; [|by destruct err].
    replace i' with (save io i (commit n (finish_request r) (ib_state i))).2 by by rewrite E.
    eapply save_other; try done. apply (lstep_inv Delivery (ib_state i)); [|done].
    apply (lstep_commit _ _ n r); [done|]. by eapply ch_delivered, Hrep.
  - destruct (lookup_request _ seq) as [[n r]|] eqn:El; [|done].
    destruct (_ && _); [|done]. pose proof El as [Hr <-]%lookup_request_Some.
    eapply (save_other _ _ _ n r); try done. apply (lstep_inv Delivery (ib_state i)); [|done].
    apply (lstep_put _ _ n r); [done|]. by eapply ch_error, Hrep.
Qed.

(** ** Clarifications *)
Lemma alter_insert {A} (f : A -> A) (l : list A) n x :
  l !! n = Some x -> alter f n l = <[n:=f x]> l.
Proof. revert n. induction l as [|y l IH]; intros [|n] H; simplify_eq/=; [done|]. f_equal. by apply IH. Qed.

Lemma apply_update_steps l src s u s' :
  inv s -> (exists r, st_Requests s !! src = Some r /\ req_Claim r <> None) ->
  apply_update src s u = Ok s' ->
  rtc (lstep l) s s' /\ exists r, st_Requests s' !! src = Some r /\ req_Claim r <> None.
Proof.
  intros Hi (source & Hsrc & Hcl) H. unfold apply_update in H. lookup_simpl Hi. rewrite Hsrc in H.
  destruct (lookup_request s (up_Seq u)) as [[n target]|] eqn:El; [|done].
  apply lookup_request_Some in El as [Hn _]. go_cases; [by split; [constructor|eauto]|].
  bool_simpl. set (text := req_Context target +:+ _) in *. set (s1 := put n (set_Context text target) s).
  assert (lstep l s s1) as Hstep by by apply (lstep_put l s n target), ch_context.
  assert (exists r, st_Requests s1 !! src = Some r /\ req_Claim r <> None) as (r1 & Hr1 & Hc1).
  { change (st_Requests s1) with (<[n:=set_Context text target]> (st_Requests s)).
    destruct (decide (n = src)) as [->|Hne].
    - exists (set_Context text target). rewrite list_lookup_insert_eq by by eapply lookup_lt_Some.
      simplify_eq. done.
    - exists source. by rewrite list_lookup_insert_ne. }
  change (<[n:=set_Context text target]> (st_Requests s)) with (st_Requests s1).
  rewrite (alter_insert _ _ _ _ Hr1). split.
  - eapply rtc_l; [exact Hstep|]. apply rtc_once.
    match goal with |- lstep l s1 (set_Requests (<[src:=?r']> _) _) => exact (lstep_put l s1 src r1 r' Hr1 (ch_applied _ _ _ _ Hc1)) end.
  - eexists. split; [cbn [st_Requests set_Requests]; by apply list_lookup_insert_eq; eapply lookup_lt_Some|done].
Qed.

Lemma apply_updates_steps l src ups s s' :
  inv s -> (exists r, st_Requests s !! src = Some r /\ req_Claim r <> None) ->
  apply_updates src s ups = Ok s' -> rtc (lstep l) s s'.
Proof.
  revert s. induction ups as [|u ups IH]; intros s Hi Hsrc H; simpl in H; [simplify_eq; constructor|].
  apply bind_ok in H as (s1 & Hu & H). destruct (apply_update_steps l _ _ _ _ Hi Hsrc Hu) as [Hs Hsrc1].
  etransitivity; [exact Hs|]. apply IH; try done. by apply (lsteps_inv l s s1).
Qed.

Lemma contextUpdates_updates io i seq token ups :
  inv (ib_state i) -> updates (Worker token) i (contextUpdates io i seq token ups).2.
Proof.
  intros Hi. unfold contextUpdates. case_match; [apply updates_refl|]. lookup_simpl Hi.
  destruct (lookup_request _ seq) as [[n r]|] eqn:El; [|apply updates_refl].
  apply lookup_request_Some in El as [Hr _].
  destruct (req_Claim r) as [c|] eqn:Hc; [|case_match; apply updates_refl].
  case_match; [case_match; apply updates_refl|].
  destruct (apply_updates n (ib_state i) ups) as [s'|e] eqn:Eu; [|apply updates_refl].
  apply save_updates; [done|]. eapply apply_updates_steps; try done. exists r. by rewrite Hc.
Qed.

(** ** Outcomes, decisions, policies, plans *)
Lemma suspend_updates random io i seq token o :
  inv (ib_state i) -> updates (Worker token) i (suspend random io i seq token o).2.
Proof.
  intros Hi. unfold suspend. lookup_simpl Hi.
  destruct (lookup_request _ seq) as [[n r]|] eqn:El; [|apply updates_refl].
  apply lookup_request_Some in El as [Hr _].
  case_match; [apply updates_refl|].
  destruct (bool_decide_reflect (token = "")) as [|Ht]; [apply updates_refl|]. simpl.
  destruct (req_Claim r) as [c|] eqn:Hc; [|apply updates_refl].
  destruct (bool_decide_reflect (cl_Token c <> token)) as [|Htok]; [apply updates_refl|].
  apply dec_stable in Htok. subst token.
  destruct (check_outcome _ o) eqn:Ho; [apply updates_refl|].
  destruct (bool_decide_reflect (req_Reply r <> None)) as [|Hrep]; [apply updates_refl|].
  apply dec_stable in Hrep. case_match; [apply updates_refl|].
  destruct (save _ _ _) as [err i'] eqn:E.
  assert (updates (Worker (cl_Token c)) i i') as Hu; [|by destruct err].
  eapply save_updates_eq; [exact E|done|]. apply rtc_once, (lstep_commit _ _ n r); [done|].
  by apply ch_suspend.
Qed.

Lemma decision_updates io i seq id action source context stopped :
  inv (ib_state i) ->
  updates (Controller stopped) i (decision io i seq id action source context stopped).2.
Proof.
  intros Hi. unfold decision. case_match; [apply updates_refl|].
  destruct (blank source) eqn:Hb; [apply updates_refl|]. lookup_simpl Hi.
  destruct (lookup_request _ seq) as [[n r]|] eqn:El; [|apply updates_refl].
  apply lookup_request_Some in El as [Hr _].
  destruct (decide_request _ _ _ _ _ r) as [[r'|]|e] eqn:Ed; [|apply updates_refl..].
  case_match; [apply updates_refl|]. apply save_updates; [done|].
  apply rtc_once, (lstep_commit _ _ n r); [done|]. by eapply ch_decide.
Qed.

Lemma policy_updates io i p : inv (ib_state i) -> updates (Controller false) i (policy io i p).2.
Proof.
  intros Hi. unfold policy. do 4 (case_match; [apply updates_refl|]). lookup_simpl Hi. cbn zeta.
  apply save_updates; [done|]. apply rtc_once, ls_policy.
Qed.

Lemma plan_updates io i seq ds rs : inv (ib_state i) -> updates (Controller false) i (plan io i seq ds rs).2.
Proof.
  intros Hi. unfold plan. lookup_simpl Hi.
  destruct (lookup_request _ seq) as [[n r]|] eqn:El; [|apply updates_refl].
  apply lookup_request_Some in El as [Hr Hseq].
  destruct (bool_decide_reflect (req_Status r <> "ready")) as [|Hst]; [apply updates_refl|].
  apply dec_stable in Hst. do 2 (case_match; [apply updates_refl|]). cbn zeta.
  destruct (acyclic_from _ _) eqn:Hac; [|apply updates_refl]. apply save_updates; [done|].
  apply rtc_once. subst seq. exact (ls_plan _ _ n r ds rs _ Hr Hst Hac).
Qed.
