(* ===== verification/InboxSystem.v ===== *)
(** * The inbox as a system: interleavings, retries and crashes

    The operations of the inbox under arbitrary interleaving, with the delivery of a saved
    reply split at its network call and with process crashes between any two operations. A
    crash loses everything but the file; the next process opens it with [openInboxIdentity].
    The theorems hold in every state reachable from a first, empty inbox by operations whose
    events can be copied ([bounded]): metadata at most [state_limit] = 9995 levels deep. Past
    that bound [copy] and [openInboxIdentity] give the inbox up. *)
From S2P Require Import Prelude GoStrings Json Types InboxState Inbox InboxControl InboxFacts.
From S2P Require Import PlanFacts RequestMachine InboxSafety.

(** [Post] and [Answer] are the two locked sections of [deliverReplyContext]; the lock
    [replyMu] is held between them, so at most one post is under way. *)
Inductive op :=
| Ingest (e : inboxEvent) (valid : bool)
| Revalidate
| Claim (random : string) (seq : Z) (worker : string)
| Release (seq : Z) (token : string)
| Ack (seq : Z) (tokens : list string)
| ReplyBegin (seq : Z) (text : string) (tokens : list string)
| Post (seq : Z)
| Answer (a : result json)
| Updates (seq : Z) (token : string) (l : list commitmentUpdate)
| Suspend (random : string) (seq : Z) (token : string) (o : workerOutcome)
| Decide (seq : Z) (id action source context : string) (stopped : bool)
| SetPolicy (p : standingPolicy)
| Plan (seq : Z) (dependencies : list Z) (resources : list string)
| Close
| Crash (allowed : list string) (workspacePeers admin : bool) (backup : option string).

(** The bound on what arrives: the metadata of an event is at most 9995 levels deep. *)
Definition bounded_op (o : op) : Prop :=
  match o with Ingest e _ => shallow_event e | _ => True end.
Definition bounded (ops : list (option string * op)) : Prop := Forall (fun o => bounded_op o.2) ops.

Lemma bounded_app ops ops' : bounded (ops ++ ops') <-> bounded ops /\ bounded ops'.
Proof. apply Forall_app. Qed.

Record sys := mkSys { sys_inbox : inbox; sys_posting : option (Z * SendInput) }.

Definition sys_state (x : sys) : inboxState := ib_state (sys_inbox x).

(** ** What is durable

    A request without the fields that a reopening refreshes (whether it mentions this agent,
    and the sender's display name) or a classification may set. *)
Definition work_of (r : inboxRequest) :=
  (req_Seq r, ev_Kind (req_Event r), ev_ChannelID (req_Event r), msg_ID (ev_Payload (req_Event r)),
   msg_Text (ev_Payload (req_Event r)),
   (req_Status r, req_Claim r, req_Reply r, req_DeliveryError r, req_Approval r, req_Attempt r),
   (req_AppliedUpdates r, req_Summary r, req_Context r, req_Dependencies r, req_Resources r,
    req_LastClaim r, req_Decision r)).

Definition same_work (s t : inboxState) : Prop :=
  st_After t = st_After s /\ work_of <$> st_Requests t ≡ₚ work_of <$> st_Requests s.

#[export] Instance same_work_equiv : Equivalence same_work.
Proof.
  unfold same_work. split; [by intros s|intros s t []; by split|].
  intros s t u [] []. split; [congruence|by etransitivity].
Qed.

Section System.
Context `{!CryptoRoutes}.

(** One operation; [io] is the outcome of its file operations. A crash whose reopening
    fails leaves the file, and the next one reads it again. *)
Definition exec (io : option string) (o : op) (x : sys) : sys :=
  let i := sys_inbox x in
  let on (i : inbox) := mkSys i (sys_posting x) in
  match o with
  | Ingest e valid => on (ingest io i e valid).2
  | Revalidate => on (revalidate io i).2
  | Claim random seq worker => on (claim random io i seq worker).2
  | Release seq token => on (release io i seq token).2
  | Ack seq tokens => on (ack io i seq tokens).2
  | ReplyBegin seq text tokens => on (reply_begin io i seq text tokens).2
  | Post seq =>
      match sys_posting x with
      | Some _ => x
      | None => let '(input, i) := deliver_prepare i seq in
                mkSys i (pair seq <$> input)
      end
  | Answer a =>
      match sys_posting x with
      | Some (seq, _) => mkSys (deliver_finish io i seq a).2 None
      | None => x
      end
  | Updates seq token l => on (contextUpdates io i seq token l).2
  | Suspend random seq token o => on (suspend random io i seq token o).2
  | Decide seq id action source context stopped =>
      on (decision io i seq id action source context stopped).2
  | SetPolicy p => on (policy io i p).2
  | Plan seq dependencies resources => on (plan io i seq dependencies resources).2
  | Close => on (close i)
  | Crash allowed workspacePeers admin backup =>
      match openInboxIdentity (ib_c i) allowed (ib_path i) workspacePeers (ib_agent i) admin None None
              (Ok (ib_file i)) backup io with
      | Ok i => mkSys i None
      | Err _ => x
      end
  end.

Definition run (ops : list (option string * op)) (x : sys) : sys :=
  fold_left (fun x o => exec o.1 o.2 x) ops x.

(** The first opening of an inbox, before any file exists. *)
Definition first_open (io : option string) (c : Config) (allowed : list string) (path agent : string)
    (workspacePeers admin : bool) : result inbox :=
  openInboxIdentity c allowed path workspacePeers agent admin None None (Ok None) None io.

Definition reachable (x : sys) : Prop :=
  exists io c allowed path agent workspacePeers admin i ops,
    first_open io c allowed path agent workspacePeers admin = Ok i /\ bounded ops /\
    x = run ops (mkSys i None).

(** ** The authority of an operation *)
Definition authority (o : op) : actor :=
  match o with
  | Release _ token | Updates _ token _ | Suspend _ _ token _ => Worker token
  | Ack _ tokens | ReplyBegin _ _ tokens => Worker (presented tokens)
  | Answer a => answer_actor a
  | Decide _ _ _ _ _ stopped => Controller stopped
  | SetPolicy _ | Plan _ _ _ => Controller false
  | _ => Host
  end.

(** ** The system invariant *)
Definition posting_of (i : inbox) (r : inboxRequest) (seq : Z) (m : SendInput) : Prop :=
  req_Seq r = seq /\ exists text, req_Reply r = Some text /\ m = reply_input i (req_Event r) text.

Definition file_agrees (i : inbox) : Prop :=
  match ib_file i with
  | Some d => inv d /\ same_work d (ib_state i)
  | None => st_Requests (ib_state i) = [] /\ st_After (ib_state i) = 0
  end.

Record sys_inv (x : sys) : Prop := {
  si_inv : inv (sys_state x);
  si_file : file_agrees (sys_inbox x);
  si_posting : forall seq m, sys_posting x = Some (seq, m) ->
    exists r, r ∈ st_Requests (sys_state x) /\ posting_of (sys_inbox x) r seq m }.

End System.

(** ** One operation *)
Lemma evolves_same s t :
  st_Requests t = st_Requests s -> st_After t = st_After s -> evolves s t.
Proof.
  intros Hr Ha. split; rewrite ?Ha, ?Hr; [done|..]; intros r Hx; [|right]; by exists r.
Qed.

Lemma work_keeps r r' : work_of r' = work_of r -> keeps r r'.
Proof. unfold work_of. intros [= H1 H2 H3 H4 H5 H6]. by split; congruence. Qed.

Lemma same_work_elem s t r :
  same_work s t -> r ∈ st_Requests s -> exists r', r' ∈ st_Requests t /\ work_of r' = work_of r.
Proof.
  intros [_ Hp] Hr. apply (list_elem_of_fmap_2 work_of) in Hr. rewrite <- Hp in Hr.
  apply list_elem_of_fmap in Hr as (r' & Heq & Hr'). by exists r'.
Qed.

Lemma same_work_evolves s t : same_work s t -> evolves s t.
Proof.
  intros Hs. split.
  - destruct Hs. lia.
  - intros r Hr. destruct (same_work_elem s t r Hs Hr) as (r' & ? & ?%work_keeps). eauto.
  - intros r Hr. right. destruct (same_work_elem t s r) as (r' & ? & Heq); [by symmetry|done|].
    exists r'. split; [done|]. by apply work_keeps.
Qed.

Lemma same_requests_work s t :
  st_Requests t = st_Requests s -> st_After t = st_After s -> same_work s t.
Proof. intros Hr Ha. split; [done|by rewrite Hr]. Qed.

Lemma disk_requests t :
  inv t -> st_Requests (project (disk_form t)) = st_Requests t
           /\ st_After (project (disk_form t)) = st_After t.
Proof.
  intros Hi. destruct (same_core_project (disk_form t)) as (H1 & _ & H3 & _).
  - apply valid_disk_form. by apply inv_valid.
  - by rewrite H1, H3.
Qed.

Lemma inv_disk_form t : inv t -> inv (disk_form t).
Proof. intros. apply (inv_fields t); try done. by intros [Hd _]. Qed.

Lemma inv_project t : inv t -> inv (project t).
Proof.
  intros Hi. destruct (same_core_project t) as (H1 & H2 & H3 & _ & _ & Hd); [by apply inv_valid|].
  apply (inv_fields t); try done. apply Hd.
Qed.

Lemma updates_inv l i i' :
  updates l i i' -> inv (ib_state i) -> inv (ib_state i') /\ evolves (ib_state i) (ib_state i').
Proof.
  intros [_ [[-> _] | (t & _ & Ht & He & -> & _)]] Hi; [done|]. split.
  - by apply inv_project, inv_disk_form.
  - transitivity t; [done|]. destruct (disk_requests t Ht). by apply evolves_same.
Qed.

Lemma updates_file l i i' :
  updates l i i' -> file_agrees i -> file_agrees i'.
Proof.
  unfold file_agrees. intros [_ [[-> ->] | (t & _ & Ht & He & -> & ->)]] Hf; [done|].
  destruct (disk_requests t Ht) as [Hr Ha]. split; [by apply inv_disk_form|].
  by apply same_requests_work.
Qed.

Lemma reply_target_input i i' r r' text :
  identity i' = identity i -> reply_target r' = reply_target r ->
  reply_input i' (req_Event r') text = reply_input i (req_Event r) text.
Proof.
  unfold identity, reply_target, reply_input, req_Seq. intros Hi Ht.
  injection Ht as -> -> ->. by injection Hi as -> _ _ _ _ _.
Qed.

Lemma updates_posting l i i' r seq m :
  updates l i i' -> inv (ib_state i) -> l <> Delivery -> r ∈ st_Requests (ib_state i) ->
  posting_of i r seq m ->
  exists r', r' ∈ st_Requests (ib_state i') /\ posting_of i' r' seq m.
Proof.
  intros [Hid Hst] Hi Hl Hr (Hseq & text & Ht & ->). unfold posting_of.
  destruct Hst as [[-> _] | (t & Hsteps & Hti & _ & -> & _)].
  - exists r. split_and!; [done|done|]. exists text. split; [done|]. symmetry. by apply reply_target_input.
  - destruct (lsteps_reply _ _ _ _ _ Hsteps Hi Hr Ht Hl) as (r' & Hr' & Ht' & Htar).
    exists r'. rewrite (proj1 (disk_requests t Hti)). split_and!; [done| |].
    + unfold reply_target in Htar. congruence.
    + exists text. split; [done|]. symmetry. by apply reply_target_input.
Qed.

(** ** Reopening *)
Definition reopen_request (agent : string) (encrypted : bool) (r : inboxRequest) : inboxRequest :=
  recover_request (map_Event (reopen_event agent encrypted) r).

Lemma mapping_reopen agent encrypted : mapping (map_Event (reopen_event agent encrypted)).
Proof.
  assert (forall e, ev_Seq (reopen_event agent encrypted e) = ev_Seq e) as Hs by by destruct encrypted.
  split; try (intros; by destruct encrypted).
  - intros after r []. by split; simpl; unfold req_Seq in *; simpl; rewrite ?Hs.
  - intros r H. by apply (sound_request_same r).
Qed.

Lemma mapping_recover : mapping recover_request.
Proof.
  assert (forall r, recover_request r = r \/
            req_Status r = "running" /\ recover_request r = set_Status "needs_recovery" r) as Hf.
  { intros r. unfold recover_request. case_match; bool_simpl; auto. }
  split; try (intros r; by destruct (Hf r) as [-> | [_ ->]]).
  - intros after r Hv. destruct (Hf r) as [-> | [Hr ->]]; [done|].
    destruct Hv as [H1 H2 H3 H4 H5]. split; try done. solve_status.
  - intros r Hs. destruct (Hf r) as [-> | [Hr ->]]; [done|].
    destruct Hs as [H1 H2 H3]. rewrite Hr in *. split; simpl; [set_solver| |done].
    split; [|done]. intros Hc%H2. done.
  - intros a b. by destruct (Hf a) as [-> | [_ ->]], (Hf b) as [-> | [_ ->]].
Qed.

Lemma mapping_compose f g : mapping f -> mapping g -> mapping (f ∘ g).
Proof.
  intros [F1 F2 F3 F4 F5 F6 F7 F8] [G1 G2 G3 G4 G5 G6 G7 G8].
  split; intros; simpl; rewrite ?F1, ?F4, ?F5, ?F6, ?F7, ?F8; auto.
Qed.

(** Replacing the requests of a state and projecting it: the list is sorted. *)
Lemma project_requests rs s :
  inv (arrive rs (st_After s) s) ->
  exists e y c, from_option shallow_event True e /\
    project (set_Requests rs s) = set_Legacy e y c (arrive rs (st_After s) s).
Proof.
  intros Ht. destruct (project_form (set_Requests rs s)) as (e & y & c & -> & He).
  replace (set_Requests rs s) with (set_Requests rs (set_After (st_After s) s)) in He |- * by by destruct s.
  rewrite migrate_arrive in He |- * by by apply inv_valid. exists e, y, c. split; [|done]. apply He, Ht.
Qed.

Section Open.
Context `{!CryptoRoutes}.
Context (c : Config) (allowed : list string) (path agent : string) (workspacePeers admin : bool).
Context (backup io : option string).

(** A successful opening: the saved requests, each refreshed and recovered, and the file
    replaced when a recovery had to be recorded. *)
Record opened (saved : option inboxState) (s : inboxState) (i : inbox) : Prop := {
  op_inv : inv (ib_state i);
  op_requests : st_Requests (ib_state i) =
    sort_desc requestPriority
      (reopen_request agent (bool_decide (cfg_CryptoPath c <> "")) <$> st_Requests s);
  op_after : st_After (ib_state i) = st_After s;
  op_file :
    ib_file i = saved /\ (forall r, r ∈ st_Requests s -> req_Status r <> "running")
    \/ exists d, ib_file i = Some d /\ inv d /\ same_work d (ib_state i);
  op_identity : identity i = (agent, c, path, admin || (0 <? managed c), allowed, workspacePeers) }.

Lemma open_spec saved i s :
  openInboxIdentity c allowed path workspacePeers agent admin None None (Ok saved) backup io = Ok i ->
  migrate (default fresh_state saved) = (None, s) -> inv s -> opened saved s i.
Proof using Type.
  intros Ho Hm Hi. unfold openInboxIdentity in Ho.
  case_match; [done|]. case_match; [done|]. case_match; [done|]. rewrite Hm in Ho. cbn zeta in Ho.
  rewrite <- list_fmap_compose in Ho. set (f := recover_request ∘ _) in Ho.
  set (rs := f <$> st_Requests s) in Ho.
  assert (inv (arrive rs (st_After s) s)) as Ht.
  { pose proof (arrive_inv f (mapping_compose _ _ mapping_recover (mapping_reopen _ _))
                  s (st_After s) [] Hi) as Harr. rewrite app_nil_r in Harr. apply Harr; [done|by left]. }
  destruct (project_requests rs s Ht) as (e & y & cl & He & Hp). rewrite Hp in Ho.
  assert (exists u, u = set_Legacy e y cl (arrive rs (st_After s) s)) as [u Hu_eq] by eauto.
  rewrite <- Hu_eq in Ho.
  assert (inv u) as Hu.
  { subst u. apply (inv_fields (arrive rs (st_After s) s)); try done. by intros [Hd _]. }
  assert (st_Requests u = sort_desc requestPriority rs /\ st_After u = st_After s) as [Hur Hua]
    by by subst u.
  clear Hu_eq Hp.
  destruct (existsb _ _) eqn:Eex.
  - rewrite copy_valid, save_spec in Ho by by apply inv_valid. destruct io; [done|].
    injection Ho as <-. destruct (disk_requests u Hu) as [Hr Ha]. unfold installed.
    split; cbn [ib_state ib_file set_state set_file signalUpdate]; rewrite ?Hr, ?Ha; try done.
    + by apply inv_project, inv_disk_form.
    + right. exists (disk_form u). split_and!; [done|by apply inv_disk_form|].
      by apply same_requests_work.
  - injection Ho as <-. split; try done. left. split; [done|]. intros r Hin Hrun.
    pose proof (proj1 (existsb_false _ _) Eex) as Hno. apply (list_elem_of_fmap_2 (map_Event (reopen_event agent
      (bool_decide (cfg_CryptoPath c <> ""))))), Hno in Hin. by rewrite bool_decide_eq_true_2 in Hin.
Qed.
End Open.

(** ** What a crash does to the work

    [recovered s t]: the same requests, in some order, each running one marked as needing
    recovery, with its claim and everything else unchanged. *)
Definition recovered (s t : inboxState) : Prop :=
  st_After t = st_After s /\
  work_of <$> st_Requests t ≡ₚ (work_of ∘ recover_request) <$> st_Requests s.

(** [recover_request] on what [work_of] keeps. *)
Definition recover_work (w : Z * string * string * string * string
    * (string * option inboxClaim * option string * string * option requestApproval * Z)
    * (gmap string bool * string * string * list Z * list string * string * string)) :=
  let '(k, (st, c, y, e, a, n), rest) := w in
  (k, (if bool_decide (st = "running") then "needs_recovery" else st, c, y, e, a, n), rest).

Lemma recover_request_work r : work_of (recover_request r) = recover_work (work_of r).
Proof. unfold recover_request, work_of, recover_work, req_Seq. by case_match. Qed.

Lemma reopen_work agent encrypted r :
  work_of (reopen_request agent encrypted r) = recover_work (work_of r).
Proof.
  unfold reopen_request. rewrite recover_request_work. f_equal. by destruct encrypted.
Qed.

Lemma recover_work_id r : req_Status r <> "running" -> recover_work (work_of r) = work_of r.
Proof. intros H. unfold recover_work, work_of. by rewrite bool_decide_eq_false_2. Qed.

Lemma recovered_elem s t r :
  recovered s t -> r ∈ st_Requests s ->
  exists r', r' ∈ st_Requests t /\ work_of r' = recover_work (work_of r).
Proof.
  intros [_ Hp] Hr. apply (list_elem_of_fmap_2 (work_of ∘ recover_request)) in Hr. rewrite <- Hp in Hr.
  apply list_elem_of_fmap in Hr as (r' & Heq & Hr'). exists r'. split; [done|].
  rewrite <- Heq. apply recover_request_work.
Qed.

Lemma recover_work_keeps r r' : work_of r' = recover_work (work_of r) -> keeps r r'.
Proof.
  unfold work_of. intros [= H1 H2 H3 H4 H5 H6]. split; try congruence.
  intros Hc. rewrite H6, Hc. done.
Qed.

Lemma recovered_evolves s t : recovered s t -> evolves s t.
Proof.
  intros Hrec. split.
  - destruct Hrec. lia.
  - intros r Hr. destruct (recovered_elem s t r Hrec Hr) as (r' & ? & ?%recover_work_keeps). eauto.
  - intros r' Hr'. right. destruct Hrec as [_ Hp]. apply (list_elem_of_fmap_2 work_of) in Hr'.
    rewrite Hp in Hr'. apply list_elem_of_fmap in Hr' as (r & Heq & Hr). exists r. split; [done|].
    apply recover_work_keeps. rewrite Heq. apply recover_request_work.
Qed.

(** The state of an inbox that was never saved. *)
Lemma fresh_inv : inv (set_Version 2 fresh_state).
Proof.
  split; [|by constructor|by intros ? ? ?%elem_of_nil|by intros ? ?%elem_of_nil].
  split; try done; by constructor.
Qed.

Section System2.
Context `{!CryptoRoutes}.

(** Reopening the file of a running system. *)
Lemma crash_inv i allowed peers admin backup io i' :
  openInboxIdentity (ib_c i) allowed (ib_path i) peers (ib_agent i) admin None None (Ok (ib_file i))
    backup io = Ok i' ->
  inv (ib_state i) -> file_agrees i ->
  inv (ib_state i') /\ file_agrees i' /\ recovered (ib_state i) (ib_state i').
Proof using Type.
  intros Ho Hi Hf. unfold file_agrees in Hf.
  assert (exists s, migrate (default fresh_state (ib_file i)) = (None, s) /\ inv s
            /\ same_work s (ib_state i) /\ (forall d, ib_file i = Some d -> s = d) /\
            (ib_file i = None -> st_Requests s = [] /\ st_After s = 0)) as (s & Hm & Hs & Hw & Hd & Hn).
  { destruct (ib_file i) as [d|].
    - destruct Hf as (Hd & ?). exists d. simpl. rewrite migrate_fix by by apply inv_valid.
      split_and!; try done. congruence.
    - destruct Hf as [Hr Ha]. exists (set_Version 2 fresh_state). split_and!; [done|apply fresh_inv| |done|done].
      by apply same_requests_work. }
  destruct (open_spec _ _ _ _ _ _ _ _ _ _ _ Ho Hm Hs) as [H1 Hr Ha Hfile Hid].
  assert (recovered (ib_state i) (ib_state i')) as Hrec.
  { split; [by rewrite Ha; destruct Hw|]. rewrite Hr, (sort_desc_perm requestPriority), <- list_fmap_compose.
    rewrite (list_fmap_ext _ (recover_work ∘ work_of)) by (intros; apply reopen_work).
    rewrite (list_fmap_ext (_ ∘ recover_request) (recover_work ∘ work_of)) by (intros; apply recover_request_work).
    rewrite !list_fmap_compose. destruct Hw as [_ ->]. done. }
  split_and!; [done| |done]. unfold file_agrees.
  destruct Hfile as [[-> Hrun] | (d & -> & Hdi & Hdw)]; [|done].
  destruct (ib_file i) as [d|].
  - rewrite <- (Hd d eq_refl). split; [done|]. split; [done|].
    rewrite Hr, (sort_desc_perm requestPriority), <- list_fmap_compose.
    apply reflexive_eq, list_fmap_ext. intros n r Hin. unfold compose. rewrite reopen_work, recover_work_id; [done|].
    by eapply Hrun, list_elem_of_lookup_2.
  - destruct (Hn eq_refl) as [Hnr Hna]. by rewrite Hr, Ha, Hnr.
Qed.

(** A lookup in a well-formed inbox leaves it alone. *)
Lemma deliver_prepare_spec i seq :
  inv (ib_state i) ->
  deliver_prepare i seq =
    (match lookup_request (ib_state i) seq with
     | Some (_, r) => (fun text => reply_input i (req_Event r) text) <$> req_Reply r
     | None => None
     end, i).
Proof using Type.
  intros Hi. unfold deliver_prepare. rewrite live_request_lookup by by apply inv_valid.
  destruct (lookup_request _ seq) as [[n r]|]; simpl; [|done]. by destruct (req_Reply r).
Qed.

Lemma deliver_prepare_Some i seq m :
  inv (ib_state i) -> (deliver_prepare i seq).1 = Some m ->
  exists r, r ∈ st_Requests (ib_state i) /\ posting_of i r seq m.
Proof using Type.
  intros Hi. rewrite deliver_prepare_spec by done. simpl.
  destruct (lookup_request _ seq) as [[n r]|] eqn:El; [|done].
  apply lookup_request_Some in El as [Hr Hs].
  destruct (req_Reply r) as [text|] eqn:Ht; [|done]. intros [= <-].
  exists r. split; [by eapply list_elem_of_lookup_2|]. split; [done|by exists text].
Qed.

Lemma updates_close i : updates Host i (close i).
Proof using Type. unfold close. case_match; split; auto. Qed.

(** The operations that neither post nor crash. *)
Definition local (o : op) : bool :=
  match o with Post _ | Answer _ | Crash _ _ _ _ => false | _ => true end.

Lemma exec_local io o x :
  local o = true -> bounded_op o -> inv (sys_state x) ->
  updates (authority o) (sys_inbox x) (sys_inbox (exec io o x))
  /\ sys_posting (exec io o x) = sys_posting x.
Proof using Type.
  intros Hl Hb Hi. destruct o; try done; (split; [|done]); cbn [exec sys_inbox authority].
  - by apply ingest_updates.
  - by apply revalidate_updates.
  - by apply claim_updates.
  - by apply release_updates.
  - by apply ack_updates.
  - by apply reply_begin_updates.
  - by apply contextUpdates_updates.
  - by apply suspend_updates.
  - by apply decision_updates.
  - by apply policy_updates.
  - by apply plan_updates.
  - apply updates_close.
Qed.

Lemma exec_post io seq x :
  sys_inv x -> sys_inbox (exec io (Post seq) x) = sys_inbox x /\ sys_inv (exec io (Post seq) x).
Proof using Type.
  intros Hx. pose proof Hx as [Hi Hf Hp]. unfold exec.
  destruct (sys_posting x) as [p|] eqn:Ep; [done|].
  pose proof (deliver_prepare_Some (sys_inbox x) seq) as Hsome.
  rewrite deliver_prepare_spec in * by done. simpl in Hsome.
  split; [done|]. split; simpl; [done..|]. intros seq' m Hm.
  destruct (match lookup_request _ seq with Some _ => _ | None => _ end) as [m'|]; [|done].
  simplify_eq/=. by apply Hsome.
Qed.

Lemma exec_answer io a x :
  sys_inv x -> updates (answer_actor a) (sys_inbox x) (sys_inbox (exec io (Answer a) x)).
Proof using Type.
  intros [Hi Hf Hp]. unfold exec. destruct (sys_posting x) as [[seq m]|]; [|apply updates_refl].
  destruct (Hp _ _ eq_refl) as (r & Hr & Hseq & text & Ht & _).
  apply deliver_finish_updates; [done|]. intros n r' [Hn Hs]%lookup_request_Some.
  rewrite (seq_unique (sys_state x) (vs_nodup _ (inv_valid _ Hi)) r' r); [congruence| |done|congruence].
  by eapply list_elem_of_lookup_2.
Qed.

Lemma exec_inv io o x :
  bounded_op o -> sys_inv x -> sys_inv (exec io o x) /\ evolves (sys_state x) (sys_state (exec io o x)).
Proof using Type.
  intros Hb Hx. pose proof Hx as [Hi Hf Hp]. destruct (local o) eqn:Hl.
  - destruct (exec_local io o x Hl Hb Hi) as [Hu Hpost].
    destruct (updates_inv _ _ _ Hu Hi) as [Hi' He]. split; [|done]. split; [done| |].
    + by eapply updates_file.
    + intros seq m Hm. rewrite Hpost in Hm. destruct (Hp _ _ Hm) as (r & Hr & Hr').
      eapply updates_posting; try done. by destruct o.
  - destruct o; try done.
    + destruct (exec_post io seq x Hx) as [He H1]. unfold sys_state. by rewrite He.
    + pose proof (exec_answer io a x Hx) as Hu. destruct (updates_inv _ _ _ Hu Hi) as [Hi' He].
      split; [|done]. split; [done|by eapply updates_file|]. intros seq m.
      unfold exec. destruct (sys_posting x) as [[seq' m']|] eqn:E; simpl; [done|by rewrite E].
    + unfold exec. destruct (openInboxIdentity _ _ _ _ _ _ _ _ _ _ _) as [i'|e] eqn:Eo; [|done].
      destruct (crash_inv _ _ _ _ _ _ _ Eo Hi Hf) as (Hi' & Hf' & He).
      split; [by split|by apply recovered_evolves].
Qed.

Lemma run_inv ops x : bounded ops -> sys_inv x -> sys_inv (run ops x) /\ evolves (sys_state x) (sys_state (run ops x)).
Proof using Type.
  revert x. induction ops as [|[io o] ops IH]; intros x Hb Hx; [done|].
  apply Forall_cons in Hb as [Ho Hb]. simpl.
  destruct (exec_inv io o x Ho Hx) as [Hx' He]. destruct (IH _ Hb Hx') as [? ?].
  split; [done|]. by etransitivity.
Qed.

Lemma first_open_inv io c allowed path agent peers admin i :
  first_open io c allowed path agent peers admin = Ok i -> sys_inv (mkSys i None).
Proof using Type.
  intros Ho. unfold first_open in Ho.
  destruct (open_spec _ _ _ _ _ _ _ _ None i (set_Version 2 fresh_state) Ho) as [H1 Hr Ha Hfile Hid].
  - done.
  - apply fresh_inv.
  - split; simpl; [done| |done]. unfold file_agrees.
    by destruct Hfile as [[-> _] | (d & -> & Hd & Hdw)].
Qed.

Lemma reachable_inv x : reachable x -> sys_inv x.
Proof using Type.
  intros (io & c & allowed & path & agent & peers & admin & i & ops & Ho & Hb & ->).
  apply run_inv; [done|]. by eapply first_open_inv.
Qed.

Lemma reachable_run ops x : bounded ops -> reachable x -> reachable (run ops x).
Proof using Type.
  intros Hb (io & c & allowed & path & agent & peers & admin & i & ops' & Ho & Hb' & ->).
  exists io, c, allowed, path, agent, peers, admin, i, (ops' ++ ops). split; [done|].
  split; [by apply bounded_app|].
  unfold run. by rewrite fold_left_app.
Qed.

(** ** Following a claim and a saved reply through a run *)

(** The operation neither presents the token of [c] nor confirms that its worker stopped. *)
Definition leaves_claim (c : inboxClaim) (o : op) : Prop := ~ ends (authority o) c.

Lemma updates_held l i i' r c :
  updates l i i' -> inv (ib_state i) -> ~ ends l c -> r ∈ st_Requests (ib_state i) -> held c r ->
  exists r', r' ∈ st_Requests (ib_state i') /\ req_Seq r' = req_Seq r /\ held c r'.
Proof using Type.
  intros [_ [[-> _] | (t & Hs & Ht & _ & -> & _)]] Hi Hl Hr Hh; [eauto|].
  destruct (disk_requests t Ht) as [-> _]. by eapply lsteps_held.
Qed.

Lemma reopen_request_fields agent encrypted r :
  let r' := reopen_request agent encrypted r in
  req_Seq r' = req_Seq r /\ req_Claim r' = req_Claim r /\ req_Reply r' = req_Reply r
  /\ reply_target r' = reply_target r /\
  req_Status r' = (if bool_decide (req_Status r = "running") then "needs_recovery" else req_Status r).
Proof using Type.
  unfold reopen_request, recover_request, reply_target, req_Seq.
  destruct encrypted; simpl; case_match; done.
Qed.


Lemma exec_held io o x r c :
  bounded_op o -> sys_inv x -> r ∈ st_Requests (sys_state x) -> held c r -> leaves_claim c o ->
  exists r', r' ∈ st_Requests (sys_state (exec io o x)) /\ req_Seq r' = req_Seq r /\ held c r'.
Proof using Type.
  intros Hb Hx Hr Hh Ho. pose proof Hx as [Hi Hf _]. destruct (local o) eqn:Hl.
  - destruct (exec_local io o x Hl Hb Hi) as [Hu _]. by eapply updates_held.
  - destruct o; try done.
    + destruct (exec_post io seq x Hx) as [He _]. unfold sys_state. rewrite He. eauto.
    + by eapply updates_held; [apply exec_answer| |..].
    + unfold exec. destruct (openInboxIdentity _ _ _ _ _ _ _ _ _ _ _) as [i'|e] eqn:Eo; [|eauto].
      destruct (crash_inv _ _ _ _ _ _ _ Eo Hi Hf) as (_ & _ & Hrec).
      destruct (recovered_elem _ _ r Hrec Hr) as (r' & Hr' & Hw). exists r'. split; [done|].
      destruct Hh as [Hc Hn]. unfold work_of in Hw. injection Hw as Hseq _ _ _ _ _ Hcl Hrep _.
      unfold held. split; [done|]. by rewrite Hcl, Hrep.
Qed.

Lemma run_held ops x r c :
  bounded ops -> sys_inv x -> r ∈ st_Requests (sys_state x) -> held c r ->
  Forall (fun o => leaves_claim c o.2) ops ->
  exists r', r' ∈ st_Requests (sys_state (run ops x)) /\ req_Seq r' = req_Seq r /\ held c r'.
Proof using Type.
  revert x r. induction ops as [|[io o] ops IH]; intros x r Hb Hx Hr Hh Hops; [eauto|].
  apply Forall_cons in Hops as [Ho Hops]. apply Forall_cons in Hb as [Hbo Hb].
  destruct (exec_held io o x r c Hbo Hx Hr Hh Ho) as (r1 & Hr1 & Hs1 & Hh1).
  destruct (IH (exec io o x) r1) as (r' & ? & ? & ?); [done|by apply exec_inv|done..|].
  exists r'. split_and!; [done|congruence|done].
Qed.

(** [carries x seq target text]: a saved reply waits for delivery. *)
Definition carries (x : sys) (target : Z * string * string) (text : string) : Prop :=
  exists r, r ∈ st_Requests (sys_state x) /\ req_Reply r = Some text /\ reply_target r = target.

(** The server accepted the reply to the request [seq]. *)
Definition delivers (x : sys) (o : op) (seq : Z) : Prop :=
  exists v m, o = Answer (Ok v) /\ sys_posting x = Some (seq, m).

Lemma updates_carries l i i' r text :
  updates l i i' -> inv (ib_state i) -> l <> Delivery -> r ∈ st_Requests (ib_state i) ->
  req_Reply r = Some text ->
  exists r', r' ∈ st_Requests (ib_state i') /\ req_Reply r' = Some text
             /\ reply_target r' = reply_target r.
Proof using Type.
  intros [_ [[-> _] | (t & Hs & Ht & _ & -> & _)]] Hi Hl Hr Hh; [eauto|].
  destruct (disk_requests t Ht) as [-> _]. by eapply lsteps_reply.
Qed.

Lemma exec_carries io o x target text :
  bounded_op o -> sys_inv x -> carries x target text ->
  carries (exec io o x) target text \/ delivers x o target.1.1.
Proof using Type.
  intros Hb Hx (r & Hr & Ht & <-). pose proof Hx as [Hi Hf Hp].
  assert (forall i' l, updates l (sys_inbox x) i' -> l <> Delivery ->
            exists r', r' ∈ st_Requests (ib_state i') /\ req_Reply r' = Some text
                       /\ reply_target r' = reply_target r) as Hup.
  { intros i' l Hu Hl. by eapply updates_carries. }
  destruct (local o) eqn:Hl.
  - left. destruct (exec_local io o x Hl Hb Hi) as [Hu _]. eapply Hup; [done|]. by destruct o.
  - destruct o; try done.
    + left. destruct (exec_post io seq x Hx) as [He _]. exists r. unfold sys_state. by rewrite He.
    + destruct a as [v|e]; [|left; by eapply Hup; [apply exec_answer|]].
      unfold exec. destruct (sys_posting x) as [[seq m]|] eqn:E; [|left; by exists r].
      destruct (decide (req_Seq r = seq)) as [<-|Hne].
      * right. by exists v, m.
      * left. exists r. split; [|done]. destruct (Hp _ _ eq_refl) as (r0 & Hr0 & Hs0 & t0 & Ht0 & _).
        apply deliver_finish_other; try done. intros n r1 [Hn Hs1]%lookup_request_Some.
        rewrite (seq_unique (sys_state x) (vs_nodup _ (inv_valid _ Hi)) r1 r0); [congruence| |done|congruence].
        by eapply list_elem_of_lookup_2.
    + left. unfold exec. destruct (openInboxIdentity _ _ _ _ _ _ _ _ _ _ _) as [i'|e] eqn:Eo; [|by exists r].
      destruct (crash_inv _ _ _ _ _ _ _ Eo Hi Hf) as (_ & _ & Hrec).
      destruct (recovered_elem _ _ r Hrec Hr) as (r' & Hr' & Hw). exists r'. split; [done|].
      unfold work_of in Hw. injection Hw as Hseq _ Hch Hid _ _ _ Hrep _.
      unfold reply_target. split; congruence.
Qed.

Lemma exec_agent io o x :
  bounded_op o -> sys_inv x -> ib_agent (sys_inbox (exec io o x)) = ib_agent (sys_inbox x).
Proof using Type.
  intros Hb Hx. pose proof Hx as [Hi Hf _].
  assert (forall l i', updates l (sys_inbox x) i' -> ib_agent i' = ib_agent (sys_inbox x)) as Hup.
  { intros l i' [Hid _]. unfold identity in Hid. congruence. }
  destruct (local o) eqn:Hl; [by eapply Hup, exec_local|].
  destruct o; try done.
  - by destruct (exec_post io seq x Hx) as [-> _].
  - by eapply Hup, exec_answer.
  - unfold exec. destruct (openInboxIdentity _ _ _ _ _ _ _ _ _ _ _) as [i'|e] eqn:Eo; [|done].
    unfold openInboxIdentity in Eo. go_cases; try done;
    match goal with H : save _ _ _ = (None, i') |- _ => by apply save_valid in H as (? & _ & ->) end.
Qed.

Lemma run_agent ops x : bounded ops -> sys_inv x -> ib_agent (sys_inbox (run ops x)) = ib_agent (sys_inbox x).
Proof using Type.
  revert x. induction ops as [|[io o] ops IH]; intros x Hb Hx; [done|].
  apply Forall_cons in Hb as [Ho Hb]. simpl. rewrite IH by (done || by apply exec_inv). by apply exec_agent.
Qed.

Lemma run_carries ops x target text :
  bounded ops -> sys_inv x -> carries x target text ->
  carries (run ops x) target text \/
  exists before io o after, ops = before ++ (io, o) :: after /\ delivers (run before x) o target.1.1.
Proof using Type.
  revert x. induction ops as [|[io o] ops IH]; intros x Hb Hx Hc; [by left|].
  apply Forall_cons in Hb as [Hbo Hb].
  destruct (exec_carries io o x target text Hbo Hx Hc) as [Hc'|Hd].
  - destruct (IH (exec io o x)) as [?|(b & io' & o' & a & -> & Hd)]; [done|by apply exec_inv|done|by left|].
    right. by exists ((io, o) :: b), io', o', a.
  - right. by exists [], io, o, ops.
Qed.

(** The message posted for a request: only its target, its text and the agent matter. *)
Definition reply_of (agent : string) (target : Z * string * string) (text : string) : SendInput :=
  mkSendInput None target.1.2 text "" "" listener_metadata [] [] (Some target.2)
    (idempotency_key agent target.1.1).

Lemma carries_post x target text :
  sys_inv x -> carries x target text ->
  (deliver_prepare (sys_inbox x) target.1.1).1 = Some (reply_of (ib_agent (sys_inbox x)) target text).
Proof using Type.
  intros [Hi _ _] (r & Hr & Ht & <-). rewrite deliver_prepare_spec by done. simpl.
  destruct (lookup_request_elem (sys_state x) r) as [n Hn]; [by apply vs_nodup, inv_valid|done|].
  unfold sys_state in Hn. by rewrite Hn, Ht.
Qed.
(** The file of a running inbox can always be opened. *)
Lemma open_total i allowed peers admin :
  ib_agent i <> "" -> inv (ib_state i) -> file_agrees i ->
  exists i', openInboxIdentity (ib_c i) allowed (ib_path i) peers (ib_agent i) admin None None
               (Ok (ib_file i)) None None = Ok i'.
Proof using Type.
  intros Ha Hi Hf. unfold openInboxIdentity. rewrite bool_decide_eq_false_2 by done.
  assert (exists s, migrate (default fresh_state (ib_file i)) = (None, s) /\ inv s) as (s & Hm & Hs).
  { unfold file_agrees in Hf. destruct (ib_file i) as [d|].
    - destruct Hf as [Hd _]. exists d. simpl. by rewrite migrate_fix by by apply inv_valid.
    - exists (set_Version 2 fresh_state). split; [done|apply fresh_inv]. }
  rewrite Hm. cbn zeta.
  replace (from_option too_deep false (ib_file i)) with false
    by (unfold file_agrees in Hf; destruct (ib_file i) as [d|]; [|done]; symmetry; apply shallow_not_deep, Hf).
  replace (if _ && _ then None else None) with (@None string) by by case_match.
  destruct (existsb _ _); [|by eexists].
  rewrite <- list_fmap_compose. set (f := recover_request ∘ _).
  assert (inv (arrive (f <$> st_Requests s) (st_After s) s)) as Ht.
  { pose proof (arrive_inv f (mapping_compose _ _ mapping_recover (mapping_reopen _ _))
                  s (st_After s) [] Hs) as Harr. rewrite app_nil_r in Harr. apply Harr; [done|by left]. }
  destruct (project_requests _ s Ht) as (e & y & cl & He & ->).
  assert (valid_state (set_Legacy e y cl (arrive (f <$> st_Requests s) (st_After s) s))) as Hv.
  { apply valid_set_Legacy; [done|]. by apply inv_valid. }
  rewrite copy_valid, save_spec by done. by eexists.
Qed.

Lemma reachable_agent x : reachable x -> ib_agent (sys_inbox x) <> "".
Proof using Type.
  intros (io & c & allowed & path & agent & peers & admin & i & ops & Ho & Hb & ->).
  rewrite run_agent by (done || by eapply first_open_inv). simpl. intros Heq.
  unfold first_open in Ho.
  destruct (open_spec _ _ _ _ _ _ _ _ None i (set_Version 2 fresh_state) Ho) as [_ _ _ _ Hid].
  - done.
  - apply fresh_inv.
  - unfold identity in Hid. injection Hid as Hid _. rewrite Heq in Hid. subst agent. done.
Qed.
End System2.

(** ** The effect of [ingest] *)
Lemma ingest_replay `{!CryptoRoutes} io i e valid :
  valid_state (ib_state i) -> ev_Seq e <= st_After (ib_state i) -> ingest io i e valid = (false, None, i).
Proof. intros Hv Hle. unfold ingest. rewrite copy_valid by done. by rewrite (proj2 (Z.leb_le _ _)). Qed.

(** A successful save of a list of requests that a step of the machine produces. *)
Lemma ingest_save l i rs seq err i' :
  inv (ib_state i) -> lstep l (ib_state i) (arrive rs seq (ib_state i)) ->
  save None i (set_Requests rs (set_After seq (ib_state i))) = (err, i') ->
  err = None /\ valid_state (ib_state i') /\ st_After (ib_state i') = seq
  /\ st_Requests (ib_state i') ≡ₚ rs.
Proof.
  intros Hi Hs H. pose proof (inv_valid _ (lstep_inv _ _ _ Hs Hi)) as Hv.
  rewrite (save_migrate _ _ _ (arrive rs seq (ib_state i))), save_spec in H
    by (by apply migrate_arrive || done). simplify_eq.
  destruct (installed_core i _ Hv) as (Hr & _ & Ha & _). split_and!; [done|by apply installed_valid|done|].
  rewrite Hr. apply (sort_desc_perm requestPriority).
Qed.

(** What a new event leaves behind. *)
Lemma ingest_effect `{!CryptoRoutes} i e valid work err i' :
  inv (ib_state i) -> shallow_event e -> st_After (ib_state i) < ev_Seq e ->
  ingest None i e valid = (work, err, i') ->
  let e' := set_Mentioned (mentions (ib_agent i) e) e in
  err = None /\ valid_state (ib_state i') /\ st_After (ib_state i') = ev_Seq e /\
  work = (valid && accepts i e' && bool_decide (classification e' = None)) /\
  st_Requests (ib_state i') ≡ₚ
    (if valid && accepts i e' then
       match classification e' with
       | Some n => (attach n <$> st_Requests (ib_state i))
                   ++ [set_Summary attached_summary (new_request e' "completed")]
       | None => st_Requests (ib_state i) ++ [new_request e' "ready"]
       end
     else st_Requests (ib_state i)).
Proof.
  intros Hi Hd Hlt E e'. pose proof (inv_valid _ Hi) as Hv.
  assert (forall l rs b, lstep l (ib_state i) (arrive rs (ev_Seq e) (ib_state i)) ->
    (let '(err, i) := save None i (set_Requests rs (set_After (ev_Seq e) (ib_state i))) in (b, err, i))
      = (work, err, i') ->
    err = None /\ valid_state (ib_state i') /\ st_After (ib_state i') = ev_Seq e /\ work = b /\
    st_Requests (ib_state i') ≡ₚ rs) as Hsave.
  { intros l rs b Hs Hsv. destruct (save _ _ _) as [err1 i1] eqn:Es. simplify_eq.
    by destruct (ingest_save _ _ _ _ _ _ Hi Hs Es) as (-> & Hv' & Ha & Hr). }
  unfold ingest in E. rewrite copy_valid in E by done. rewrite (proj2 (Z.leb_gt _ _)) in E by done.
  cbn zeta in E. change (set_Mentioned _ e) with e' in E.
  assert (st_After (ib_state i) < ev_Seq e') as Hlt' by done.
  destruct (valid && accepts i e'); [destruct (classification e') as [n|]|].
  - rewrite andb_false_r. exact (Hsave Host _ false (ls_classify _ _ n e' eq_refl Hlt' Hd) E).
  - rewrite andb_true_r. exact (Hsave Host _ true (ls_arrive _ _ e' eq_refl Hlt' Hd) E).
  - exact (Hsave Host _ false (ls_skip _ _ e' eq_refl Hlt') E).
Qed.
