(* ===== verification/InboxTheorems.v ===== *)
(** * What the inbox guarantees

    The theorems about the inbox, each with a concrete run in which its hypotheses hold. *)
From S2P Require Import Prelude GoStrings Json Types InboxState Inbox InboxControl InboxFacts.
From S2P Require Import PlanFacts RequestMachine InboxSafety InboxSystem.

(** ** A concrete inbox, for the witnesses

    A plain connection without managed room identities, three messages of one peer, and what
    the host and two workers do with them. *)
#[refine] Definition demo_routes : CryptoRoutes := {| managed := fun _ => 0 |}.
Proof. all: done. Defined.

Definition demo_config : Config := mkConfig None ∅ "" "" "" None "https://server" "token".

Definition demo_message (seq : Z) (id : string) : inboxEvent :=
  mkEvent None None false None seq "message" "room"
    (mkMessage "" None None None seq id "room" "peer" "Peer" "please look" JNull [] [] None 0).

Definition demo_start : list (option string * op) :=
  [(None, Ingest (demo_message 1 "m1") true); (None, Ingest (demo_message 2 "m2") true);
   (None, Ingest (demo_message 3 "m3") true)].

Definition demo_open : inbox :=
  match @first_open demo_routes None demo_config [] "/inbox.json" "me" true false with
  | Ok i => i
  | Err _ => mkInbox false demo_config "" [] false false "" "" false "" "" fresh_state false 0 None ∅
               false false None
  end.

Definition demo_run (ops : list (option string * op)) : sys :=
  @run demo_routes (demo_start ++ ops) (mkSys demo_open None).

(** Decides [bounded]; instance resolution evaluates it on the concrete runs below. *)
Definition boundedb (ops : list (option string * op)) : bool :=
  forallb (fun o => match o.2 with Ingest e _ => meta_depth e <=? state_limit | _ => true end) ops.

Lemma boundedb_ok ops : boundedb ops = true -> bounded ops.
Proof.
  unfold boundedb. rewrite forallb_forall. intros H. apply Forall_forall. intros [io o] Ho%list_elem_of_In%H.
  destruct o; try done. by apply Z.leb_le.
Qed.

Lemma demo_reachable ops `{!TCEq (boundedb ops) true} : @reachable demo_routes (demo_run ops).
Proof.
  exists None, demo_config, [], "/inbox.json", "me", true, false, demo_open, (demo_start ++ ops).
  split; [done|]. split; [|done]. apply bounded_app. split; apply boundedb_ok; [vm_compute; done|].
  by match goal with H : TCEq _ _ |- _ => destruct H end.
Qed.

Lemma demo_inv ops `{!TCEq (boundedb ops) true} : inv (sys_state (demo_run ops)).
Proof. exact (si_inv _ (@reachable_inv demo_routes _ (demo_reachable ops))). Qed.

Lemma demo_inbox_inv ops `{!TCEq (boundedb ops) true} : inv (ib_state (sys_inbox (demo_run ops))).
Proof. exact (demo_inv ops). Qed.

Lemma demo_valid ops `{!TCEq (boundedb ops) true} : valid_state (ib_state (sys_inbox (demo_run ops))).
Proof. exact (inv_valid _ (demo_inv ops)). Qed.

(** The token of a claim made with the random bytes [random]. *)
Definition demo_token (random : string) : string := ID "claim_" random.

Definition demo_requests (x : sys) : list (Z * string) :=
  (fun r => (req_Seq r, req_Status r)) <$> st_Requests (sys_state x).

Example demo_claimed :
  demo_requests (demo_run [(None, Claim "a" 1 "w1"); (None, Crash [] true false None);
                           (None, Claim "b" 2 "w2")])
  = [(1, "needs_recovery"); (2, "running"); (3, "ready")].
Proof. vm_compute. reflexivity. Qed.

(** ** Safety in every reachable state *)

(** C1. Mutual exclusion. In every reachable state, whatever the interleaving of operations,
    failed saves and crashes, two different requests that workers hold claims on share no
    resource of their plans and do not serve the same collaboration request. Connection
    notices are exempt: [eligible] lets them through without the checks. *)
Theorem claims_exclusive `{!CryptoRoutes} x a b :
  reachable x -> a ∈ st_Requests (sys_state x) -> b ∈ st_Requests (sys_state x) ->
  req_Seq a <> req_Seq b -> req_Claim a <> None -> req_Claim b <> None ->
  is_lifecycle (req_Event a) = false -> is_lifecycle (req_Event b) = false ->
  (forall res, res ∈ req_Resources a -> res ∉ req_Resources b) /\
  same_collaboration (req_Event a) (req_Event b) = false.
Proof.
  intros Hx%reachable_inv Ha Hb Hne Hca Hcb Hla Hlb.
  pose proof (inv_exclusive _ (si_inv x Hx) a b Ha Hb Hne Hca Hcb Hla Hlb) as Ho.
  unfold overlap in Ho. bool_simpl. split; [|done]. intros res Hra Hrb.
  match goal with H : shares_resource a b = false |- _ =>
    unfold shares_resource in H; rewrite existsb_false in H; specialize (H res Hra);
    by rewrite bool_decide_eq_true_2 in H end.
Qed.

Definition demo_two_workers : sys :=
  demo_run [(None, Plan 1 [] ["repo"]); (None, Plan 2 [] ["repo"]); (None, Plan 3 [] ["docs"]);
            (None, Claim "a" 1 "w1"); (None, Claim "b" 2 "w2"); (None, Claim "c" 3 "w3")].

(** The request at an index of the demonstration state. *)
Definition demo_request (x : sys) (n : nat) : inboxRequest :=
  default (new_request (demo_message 0 "") "") (st_Requests (sys_state x) !! n).

Lemma demo_request_elem x n :
  bool_decide (is_Some (st_Requests (sys_state x) !! n)) = true ->
  demo_request x n ∈ st_Requests (sys_state x).
Proof.
  intros H%bool_decide_eq_true. unfold demo_request. destruct H as [r Hr]. rewrite Hr. simpl.
  by eapply list_elem_of_lookup_2.
Qed.

Lemma claims_exclusive_witness :
  (forall res, res ∈ req_Resources (demo_request demo_two_workers 0) ->
               res ∉ req_Resources (demo_request demo_two_workers 2)) /\
  same_collaboration (req_Event (demo_request demo_two_workers 0))
    (req_Event (demo_request demo_two_workers 2)) = false.
Proof.
  apply (@claims_exclusive demo_routes demo_two_workers).
  - exact (demo_reachable _).
  - apply demo_request_elem. vm_compute. reflexivity.
  - apply demo_request_elem. vm_compute. reflexivity.
  - vm_compute. discriminate.
  - vm_compute. discriminate.
  - vm_compute. discriminate.
  - vm_compute. reflexivity.
  - vm_compute. reflexivity.
Defined.

(** C2. Durability of shallow events. As long as no event the inbox takes in, before or after,
    has metadata nested more than 9995 levels deep, then from any reachable state any further
    operations, failed saves and crashes lose no request: each message received is still there
    with its text, a completed request is still completed, the cursor has not moved back, and
    whatever is new has a sequence number past the old cursor, so no event is ever received
    twice. (The bound is the program's: with metadata 9996 to 9998 levels deep [copy] empties
    the inbox, see C4.) *)
Theorem work_is_durable `{!CryptoRoutes} x ops :
  reachable x -> Forall (fun o => match o.2 with
                                  | Ingest e _ => depth (msg_Metadata (ev_Payload e)) <= 9995
                                  | _ => True
                                  end) ops ->
  evolves (sys_state x) (sys_state (run ops x)).
Proof. intros Hx%reachable_inv Hb. by apply run_inv. Qed.

Lemma work_is_durable_witness :
  evolves (sys_state (demo_run []))
    (sys_state (@run demo_routes [(None, Claim "a" 1 "w1"); (None, Ack 1 [demo_token "a"]);
                                  (None, Crash [] true false None);
                                  (None, Ingest (demo_message 4 "m4") true)] (demo_run []))).
Proof.
  apply (@work_is_durable demo_routes).
  - exact (demo_reachable _).
  - apply boundedb_ok. vm_compute. reflexivity.
Defined.

(** A claim belongs to its worker. While a worker holds a claim and has saved no reply,
    no sequence of operations takes the claim away or saves a reply for it, unless one of
    them presents the claim's token or is a controller decision that confirms the worker
    stopped: not other workers, not a changed allowlist, not a failed save, not a crash. *)
Theorem claim_is_held `{!CryptoRoutes} x ops r c :
  reachable x -> bounded ops ->
  r ∈ st_Requests (sys_state x) -> req_Claim r = Some c -> req_Reply r = None ->
  Forall (fun o => authority o.2 <> Worker (cl_Token c) /\ authority o.2 <> Controller true) ops ->
  exists r', r' ∈ st_Requests (sys_state (run ops x)) /\ req_Seq r' = req_Seq r
             /\ req_Claim r' = Some c /\ req_Reply r' = None.
Proof.
  intros Hx%reachable_inv Hb Hr Hc Hn Hops. apply (run_held ops x r c); try done.
  eapply Forall_impl; [exact Hops|]. intros o [H1 H2] [E|E]; auto.
Qed.

Definition demo_others : list (option string * op) :=
  [(None, Claim "x" 1 "w9"); (None, Release 1 "stolen"); (None, Ack 1 []); (None, Ack 1 [""]);
   (None, ReplyBegin 1 "hello" ["guess"]); (None, Decide 1 "" "cancel" "user" "" false);
   (None, Crash [] false false None); (None, Revalidate); (None, Claim "y" 1 "w1")].

Lemma claim_is_held_witness :
  exists r', r' ∈ st_Requests (sys_state (@run demo_routes demo_others (demo_run [(None, Claim "a" 1 "w1")])))
             /\ req_Seq r' = 1 /\ req_Claim r' = Some (mkClaim "w1" (demo_token "a"))
             /\ req_Reply r' = None.
Proof.
  apply (@claim_is_held demo_routes (demo_run [(None, Claim "a" 1 "w1")]) demo_others
           (demo_request (demo_run [(None, Claim "a" 1 "w1")]) 0)).
  - exact (demo_reachable _).
  - apply boundedb_ok. vm_compute. reflexivity.
  - apply demo_request_elem. vm_compute. reflexivity.
  - vm_compute. reflexivity.
  - vm_compute. reflexivity.
  - repeat (apply Forall_cons; split; [vm_compute; split; discriminate|]). apply Forall_nil. done.
Defined.

(** A saved reply is sent as saved. Once a reply to a request is saved, then after any
    operations and crashes, until the server has accepted the reply to that request, every
    attempt posts the same message: same room, text, reply target and idempotency key. *)
Theorem saved_reply_is_stable `{!CryptoRoutes} x ops r text :
  reachable x -> bounded ops -> r ∈ st_Requests (sys_state x) -> req_Reply r = Some text ->
  (forall before io o after, ops = before ++ (io, o) :: after ->
     ~ delivers (run before x) o (req_Seq r)) ->
  (deliver_prepare (sys_inbox (run ops x)) (req_Seq r)).1 =
    (deliver_prepare (sys_inbox x) (req_Seq r)).1 /\
  (deliver_prepare (sys_inbox x) (req_Seq r)).1 =
    Some (reply_input (sys_inbox x) (req_Event r) text).
Proof.
  intros Hx%reachable_inv Hb Hr Ht Hno.
  assert (carries x (reply_target r) text) as Hc by by exists r.
  destruct (run_carries ops x _ _ Hb Hx Hc) as [Hc'|(b & io & o & a & Heq & Hd)]; [|by edestruct Hno].
  assert (sys_inv (run ops x)) as Hx' by by apply run_inv.
  pose proof (carries_post _ _ _ Hx Hc) as H1. pose proof (carries_post _ _ _ Hx' Hc') as H2.
  simpl in H1, H2. rewrite H1, H2. split; [by rewrite run_agent|done].
Qed.

Definition demo_replied : sys :=
  demo_run [(None, Claim "a" 1 "w1"); (None, ReplyBegin 1 "done" [demo_token "a"]); (None, Post 1);
            (None, Answer (Err "timeout"))].

Lemma saved_reply_is_stable_witness :
  (deliver_prepare (sys_inbox (@run demo_routes
       [(None, Crash [] true false None); (None, ReplyBegin 1 "other" [demo_token "a"])] demo_replied)) 1).1
    = (deliver_prepare (sys_inbox demo_replied) 1).1 /\
  (deliver_prepare (sys_inbox demo_replied) 1).1 =
    Some (reply_input (sys_inbox demo_replied) (req_Event (demo_request demo_replied 0)) "done").
Proof.
  apply (@saved_reply_is_stable demo_routes demo_replied _ (demo_request demo_replied 0)).
  - exact (demo_reachable _).
  - apply boundedb_ok. vm_compute. reflexivity.
  - apply demo_request_elem. vm_compute. reflexivity.
  - vm_compute. reflexivity.
  - intros before io o after Heq (v & m & -> & _).
    destruct before as [|[? ?] [|[? ?] [|? ?]]]; simplify_eq/=.
Defined.

(** C31. At most one post is under way, and what it carries is the saved reply of an
    unfinished request: nothing else can complete that request meanwhile. *)
Theorem posting_is_saved_reply `{!CryptoRoutes} x seq m :
  reachable x -> sys_posting x = Some (seq, m) ->
  exists r text, r ∈ st_Requests (sys_state x) /\ req_Seq r = seq /\ req_Reply r = Some text
    /\ req_Status r = "reply_pending" /\ m = reply_input (sys_inbox x) (req_Event r) text.
Proof.
  intros Hx%reachable_inv Hm. destruct (si_posting x Hx _ _ Hm) as (r & Hr & Hs & text & Ht & ->).
  exists r, text. split_and!; try done.
  assert (sound_request r) as Hsr by (eapply Forall_forall; [apply inv_sound, (si_inv x Hx)|done]).
  apply (sr_reply r Hsr). by rewrite Ht.
Qed.

Lemma posting_is_saved_reply_witness :
  exists r text, r ∈ st_Requests (sys_state (demo_run [(None, Claim "a" 1 "w1");
      (None, ReplyBegin 1 "done" [demo_token "a"]); (None, Post 1); (None, Ack 1 [demo_token "a"])]))
    /\ req_Seq r = 1 /\ req_Reply r = Some text /\ req_Status r = "reply_pending" /\
    mkSendInput None "room" "done" "" "" listener_metadata [] [] (Some "m1") "listen_me_1"
      = reply_input (sys_inbox (demo_run [(None, Claim "a" 1 "w1");
          (None, ReplyBegin 1 "done" [demo_token "a"]); (None, Post 1); (None, Ack 1 [demo_token "a"])]))
          (req_Event r) text.
Proof.
  apply (@posting_is_saved_reply demo_routes).
  - exact (demo_reachable _).
  - vm_compute. reflexivity.
Defined.

(** ** Dependency plans and scheduling *)

(** C32. In every reachable state the plans form no cycle, and no request waits, directly or
    through others, for one that does not exist. *)
Theorem plans_are_acyclic `{!CryptoRoutes} x r :
  reachable x -> r ∈ st_Requests (sys_state x) ->
  grounded (sys_state x) (req_Seq r) /\ ~ tc (dep (sys_state x)) (req_Seq r) (req_Seq r).
Proof.
  intros Hx%reachable_inv Hr. pose proof (inv_grounded _ (si_inv x Hx) r Hr) as Hg.
  split; [done|]. apply grounded_acyclic; [|done]. apply vs_nodup, inv_valid, (si_inv x Hx).
Qed.

Definition demo_planned : sys :=
  demo_run [(None, Plan 3 [1; 2] []); (None, Plan 2 [1] []); (None, Plan 1 [3] [])].

Lemma plans_are_acyclic_witness :
  grounded (sys_state demo_planned) 3 /\ ~ tc (dep (sys_state demo_planned)) 3 3.
Proof.
  apply (@plans_are_acyclic demo_routes demo_planned (demo_request demo_planned 2)).
  - exact (demo_reachable _).
  - apply demo_request_elem. vm_compute. reflexivity.
Defined.

(** C33. [plan] accepts exactly the sound plans. On a well-formed inbox, a plan for a ready
    request, within the size limits and with valid keys, succeeds if and only if every
    dependency chain from the request, with the new plan in place, is finite and names only
    existing requests; the search that decides it never runs out of fuel. *)
Theorem plan_accepts_iff i seq n r ds rs :
  valid_state (ib_state i) -> lookup_request (ib_state i) seq = Some (n, r) ->
  req_Status r = "ready" -> Z.of_nat (length ds) <= 100 -> Z.of_nat (length rs) <= 100 ->
  (forall key, key ∈ rs -> blank key = false /\ len key <= 4096) ->
  (plan None i seq ds rs).1 = None <-> grounded (put n (set_Plan ds rs r) (ib_state i)) seq.
Proof.
  intros Hv Hl Hs H1 H2 Hk. unfold plan. rewrite copy_request_lookup by done. rewrite Hl.
  rewrite bool_decide_eq_false_2 by auto. apply Z.ltb_ge in H1, H2. rewrite H1, H2.
  replace (existsb _ rs) with false; cycle 1.
  { symmetry. apply existsb_false. intros key [-> Hlen]%Hk. simpl. by apply Z.ltb_ge. }
  apply lookup_request_Some in Hl as [Hn Hseq]. cbn zeta beta iota.
  change (set_Requests (<[n:=set_Plan ds rs r]> (st_Requests (ib_state i))) (ib_state i))
    with (put n (set_Plan ds rs r) (ib_state i)).
  assert (valid_state (put n (set_Plan ds rs r) (ib_state i))) as Hv'.
  { eapply put_valid; try done. by apply (valid_request_same _ r); [eapply valid_lookup|..]. }
  rewrite <- (acyclic_from_grounded _ Hv'). destruct (acyclic_from _ seq); [|done].
  cbn [orb]. rewrite save_spec by by apply valid_state_revision. done.
Qed.

Lemma plan_accepts_iff_witness :
  (plan None (sys_inbox (demo_run [])) 3 [1; 2] ["repo"]).1 = None <->
  grounded (put 2 (set_Plan [1; 2] ["repo"] (demo_request (demo_run []) 2)) (sys_state (demo_run []))) 3.
Proof.
  apply plan_accepts_iff.
  - exact (demo_valid _).
  - vm_compute. reflexivity.
  - vm_compute. reflexivity.
  - vm_compute. discriminate.
  - vm_compute. discriminate.
  - intros key ->%list_elem_of_singleton. split; [reflexivity|vm_compute; discriminate].
Defined.

(** C36. The scheduler does not deadlock. In a well-formed state where no claim is held, and
    where no ready request depends on one that was abandoned, suspended or failed, as soon as
    one request is ready some request is runnable. *)
Theorem scheduler_progress s r :
  inv s -> (forall a, a ∈ st_Requests s -> req_Claim a = None) ->
  (forall a n d seq, a ∈ st_Requests s -> req_Status a = "ready" -> seq ∈ req_Dependencies a ->
     lookup_request s seq = Some (n, d) -> req_Status d = "ready" \/ req_Status d = "completed") ->
  r ∈ st_Requests s -> req_Status r = "ready" ->
  exists n r', (runnable s).2 = Some (n, r') /\ st_Requests s !! n = Some r'
               /\ eligible s r' = true.
Proof.
  intros Hi Hfree Hdeps Hr Hst. pose proof (inv_valid s Hi) as Hv. pose proof (vs_nodup s Hv) as Hnd.
  assert (running_count s = 0) as Hrun.
  { unfold running_count. rewrite filter_none; [done|].
    intros a Ha Hra. assert (valid_request (st_After s) a) as Hva.
    { eapply Forall_forall; [by apply vs_requests|done]. }
    apply (vr_running _ a Hva) in Hra. auto. }
  assert (exists r', r' ∈ st_Requests s /\ eligible s r' = true) as (r' & Hr' & Hel); cycle 1.
  { rewrite runnable_valid by done. cbn [snd].
    destruct (list_find (fun r0 => eligible s r0 = true) (st_Requests s)) as [[n q]|] eqn:El.
    - apply list_find_Some in El as (? & ? & _). eauto.
    - apply list_find_None in El. rewrite Forall_forall in El. by apply El in Hr'. }
  pose proof (inv_grounded s Hi r Hr) as Hg. remember (req_Seq r) as x eqn:Hx.
  revert r Hr Hst Hx. induction Hg as [r0 Hr0 Hd IH]. intros r Hr Hst Hx.
  rewrite (seq_unique s Hnd r0 r Hr0 Hr Hx) in *. clear r0 Hr0 Hx.
  destruct (decide (Forall (dep_completed s) (req_Dependencies r))) as [Hall|Hnot].
  - exists r. split; [done|]. apply eligible_iff; [done|]. split; [done|]. intros _. split; [|done|].
    + rewrite Hrun. unfold worker_limit. repeat case_match; bool_simpl; lia.
    + intros a Ha. unfold conflicts. by rewrite bool_decide_eq_false_2 by (rewrite Hfree by done; auto).
  - apply not_Forall_Exists, Exists_exists in Hnot as (seq & Hseq & Hnc); [|apply _].
    assert (grounded s seq) as Hgd by auto. inversion Hgd as [d Hin _ Heq].
    destruct (lookup_request_elem s d Hnd Hin) as [n Hn]. rewrite Heq in Hn.
    destruct (Hdeps r n d seq Hr Hst Hseq Hn) as [Hready|Hdone].
    + by apply (IH seq Hseq d).
    + destruct Hnc. by exists n, d.
Qed.

Lemma scheduler_progress_witness :
  exists n r', (runnable (sys_state demo_planned)).2 = Some (n, r')
    /\ st_Requests (sys_state demo_planned) !! n = Some r' /\ eligible (sys_state demo_planned) r' = true.
Proof.
  apply (scheduler_progress (sys_state demo_planned) (demo_request demo_planned 2)).
  - exact (demo_inv _).
  - intros a Ha. assert (Forall (fun a => req_Claim a = None) (st_Requests (sys_state demo_planned))) as H.
    { vm_compute. repeat constructor. }
    rewrite Forall_forall in H. by apply H.
  - intros a n d seq _ _ _ [Hd _]%lookup_request_Some. left.
    assert (Forall (fun d => req_Status d = "ready") (st_Requests (sys_state demo_planned))) as H.
    { vm_compute. repeat constructor. }
    by eapply Forall_lookup_1 in H.
  - apply demo_request_elem. vm_compute. reflexivity.
  - vm_compute. reflexivity.
Defined.

(** [runnable] picks the most urgent work. On a well-formed state it returns a request
    that may be claimed and whose priority no other claimable request exceeds; it returns
    nothing only when nothing may be claimed. *)
Theorem runnable_is_most_urgent s :
  valid_state s ->
  match (runnable s).2 with
  | Some (n, r) => st_Requests s !! n = Some r /\ eligible s r = true /\
      forall r', r' ∈ st_Requests s -> eligible s r' = true -> requestPriority r' <= requestPriority r
  | None => forall r', r' ∈ st_Requests s -> eligible s r' = false
  end.
Proof.
  intros Hv. rewrite runnable_valid by done. cbn [snd].
  destruct (list_find _ (st_Requests s)) as [[n r]|] eqn:El.
  - apply list_find_Some in El as (Hn & Hel & Hfirst). split_and!; [done..|].
    intros r' [m Hm]%list_elem_of_lookup Hel'.
    destruct (decide (m < n)%nat) as [Hlt|Hge]; [by edestruct (Hfirst m r')|].
    eapply (desc_lookup requestPriority); [by apply vs_sorted|exact Hn|exact Hm|lia].
  - apply list_find_None in El. rewrite Forall_forall in El. intros r' Hr'.
    apply not_true_iff_false. by apply El.
Qed.

Lemma runnable_is_most_urgent_witness :
  match (runnable (sys_state demo_planned)).2 with
  | Some (n, r) => st_Requests (sys_state demo_planned) !! n = Some r
      /\ eligible (sys_state demo_planned) r = true /\
      forall r', r' ∈ st_Requests (sys_state demo_planned) -> eligible (sys_state demo_planned) r' = true ->
                 requestPriority r' <= requestPriority r
  | None => forall r', r' ∈ st_Requests (sys_state demo_planned) -> eligible (sys_state demo_planned) r' = false
  end.
Proof. apply runnable_is_most_urgent. exact (demo_valid _). Defined.

(** ** Claims *)

(** [claim] grants exactly the claimable requests. For an unclaimed request of a
    well-formed inbox, when the save succeeds, a worker acquires it if and only if its name is
    usable, no reply is saved, the sender is (still) accepted, and the request is ready and,
    unless it is a connection notice, below the worker limit, with every dependency completed
    and in conflict with no claimed work. The effect is that one request, running, with the
    fresh token and one more attempt. *)
Theorem claim_grants_iff `{!CryptoRoutes} random i seq worker n r :
  valid_state (ib_state i) -> lookup_request (ib_state i) seq = Some (n, r) -> req_Claim r = None ->
  ((exists res, (claim random None i seq worker).1 = Ok res /\ cl_Acquired res = true) <->
   bad_worker_id worker = false /\ req_Reply r = None /\ accepts i (req_Event r) = true /\
   req_Status r = "ready" /\ (is_lifecycle (req_Event r) = false -> schedulable (ib_state i) r)) /\
  (forall res, (claim random None i seq worker).1 = Ok res -> cl_Acquired res = true ->
     cl_Claim res = ID "claim_" random /\
     st_Requests (ib_state (claim random None i seq worker).2) =
       <[n := acquire worker random r]> (st_Requests (ib_state i))).
Proof.
  intros Hv Hl Hc. unfold claim. rewrite copy_request_lookup, Hl by done. cbn beta iota. rewrite Hc.
  rewrite <- (eligible_iff _ _ Hv).
  destruct (bad_worker_id worker) eqn:Hw.
  { split; [split; [by intros (? & ? & ?)|by intros [? _]]|done]. }
  destruct (bool_decide_reflect (req_Reply r <> None)) as [Hrep|Hrep]; cbn [orb].
  { split; [split; [by intros (? & [= <-] & ?)|by intros (_ & ? & _)]|by intros ? [= <-]]. }
  apply dec_stable in Hrep.
  destruct (accepts i (req_Event r)); cbn [negb]; cycle 1.
  { split; [split; [by intros (? & [= <-] & ?)|by intros (_ & _ & ? & _)]|by intros ? [= <-]]. }
  destruct (eligible (ib_state i) r) eqn:Hel; cbn [negb]; cycle 1.
  { split; [split; [by intros (? & [= <-] & ?)|by intros (_ & _ & _ & ?)]|by intros ? [= <-]]. }
  pose proof Hl as [Hn _]%lookup_request_Some. unfold bad_worker_id in Hw. bool_simpl.
  assert (valid_state (put n (acquire worker random r) (ib_state i))) as Hv'.
  { eapply put_valid; try done. apply acquire_valid; [by eapply valid_lookup|].
    by apply blank_false_nonempty. }
  rewrite save_spec by exact Hv'. cbn [fst snd]. split.
  - split; [done|]. intros _. by eexists.
  - intros res [= <-] _. split; [done|]. by rewrite installed_requests by exact Hv'.
Qed.

Definition demo_acquire : list inboxRequest :=
  st_Requests (ib_state (@claim demo_routes "a" None (sys_inbox (demo_run [])) 1 "w1").2).

Lemma claim_grants_iff_witness :
  ((exists res, (@claim demo_routes "a" None (sys_inbox (demo_run [])) 1 "w1").1 = Ok res
      /\ cl_Acquired res = true) <->
   bad_worker_id "w1" = false /\ req_Reply (demo_request (demo_run []) 0) = None /\
   @accepts demo_routes (sys_inbox (demo_run [])) (req_Event (demo_request (demo_run []) 0)) = true /\
   req_Status (demo_request (demo_run []) 0) = "ready" /\
   (is_lifecycle (req_Event (demo_request (demo_run []) 0)) = false ->
    schedulable (sys_state (demo_run [])) (demo_request (demo_run []) 0))) /\
  (forall res, (@claim demo_routes "a" None (sys_inbox (demo_run [])) 1 "w1").1 = Ok res ->
     cl_Acquired res = true ->
     cl_Claim res = ID "claim_" "a" /\
     demo_acquire = <[0%nat := acquire "w1" "a" (demo_request (demo_run []) 0)]>
                      (st_Requests (sys_state (demo_run [])))).
Proof.
  apply (@claim_grants_iff demo_routes "a" (sys_inbox (demo_run [])) 1 "w1" 0).
  - exact (demo_valid _).
  - vm_compute. reflexivity.
  - vm_compute. reflexivity.
Defined.

(** A claim's token is private. A second [claim] of claimed work never changes the inbox,
    and discloses the token only to the worker that holds the claim. *)
Theorem claim_token_private `{!CryptoRoutes} random io i seq worker n r c res :
  valid_state (ib_state i) -> lookup_request (ib_state i) seq = Some (n, r) ->
  req_Claim r = Some c -> (claim random io i seq worker).1 = Ok res ->
  (claim random io i seq worker).2 = i /\
  (cl_Claim res <> "" -> worker = cl_WorkerID c /\ cl_Claim res = cl_Token c).
Proof.
  intros Hv Hl Hc. unfold claim. destruct (bad_worker_id worker); [done|].
  rewrite copy_request_lookup, Hl by done. cbn beta iota. rewrite Hc.
  destruct (_ || _); [by intros [= <-]|].
  destruct (bool_decide_reflect (cl_WorkerID c <> worker)) as [Hw|Hw]; [by intros [= <-]|].
  apply dec_stable in Hw. destruct (bool_decide_reflect (req_Status r <> "running")); cbn [orb];
    intros [= <-]; (split; [done|]); [done|]. simpl. by rewrite Hc.
Qed.

Definition demo_second (worker : string) : result claimResult * inbox :=
  @claim demo_routes "b" None (sys_inbox (demo_run [(None, Claim "a" 1 "w1")])) 1 worker.

Lemma claim_token_private_witness :
  (demo_second "w2").2 = sys_inbox (demo_run [(None, Claim "a" 1 "w1")]) /\
  (cl_Claim (held_by "w1") <> "" ->
   "w2" = "w1" /\ cl_Claim (held_by "w1") = demo_token "a").
Proof.
  apply (@claim_token_private demo_routes "b" None (sys_inbox (demo_run [(None, Claim "a" 1 "w1")])) 1 "w2"
           0 (demo_request (demo_run [(None, Claim "a" 1 "w1")]) 0) (mkClaim "w1" (demo_token "a"))).
  - exact (demo_valid _).
  - vm_compute. reflexivity.
  - vm_compute. reflexivity.
  - vm_compute. reflexivity.
Defined.

(** ** Crashes, failed saves, replays *)

(** A crash is recoverable. In every reachable state the file can be reopened, whatever
    the new process's allowlist: it holds exactly the work of the lost process, in some
    order, except that work that was running now needs recovery, its claim retained; nothing
    is still marked as running. *)
Theorem reopen_recovers `{!CryptoRoutes} x allowed peers admin :
  reachable x ->
  exists i', openInboxIdentity (ib_c (sys_inbox x)) allowed (ib_path (sys_inbox x)) peers
               (ib_agent (sys_inbox x)) admin None None (Ok (ib_file (sys_inbox x))) None None = Ok i' /\
    recovered (sys_state x) (ib_state i') /\
    (forall r, r ∈ st_Requests (ib_state i') -> req_Status r <> "running").
Proof.
  intros Hr. pose proof (reachable_agent x Hr) as Ha. apply reachable_inv in Hr.
  destruct (open_total (sys_inbox x) allowed peers admin) as [i' Ho];
    [done|apply (si_inv x Hr)|apply (si_file x Hr)|].
  exists i'. split; [done|].
  destruct (crash_inv _ _ _ _ _ _ _ Ho (si_inv x Hr) (si_file x Hr)) as (_ & _ & Hrec).
  split; [done|]. intros r Hin Hrun. destruct Hrec as [_ Hp].
  apply (list_elem_of_fmap_2 work_of) in Hin. rewrite Hp in Hin.
  apply list_elem_of_fmap in Hin as (r0 & Heq & _). unfold compose in Heq.
  assert (req_Status r = req_Status (recover_request r0)) as Hs by (unfold work_of in Heq; congruence).
  rewrite Hrun in Hs. unfold recover_request in Hs. case_match; bool_simpl; simpl in *; congruence.
Qed.

Lemma reopen_recovers_witness :
  exists i', @openInboxIdentity demo_routes (ib_c (sys_inbox demo_two_workers)) ["friend"]
               (ib_path (sys_inbox demo_two_workers)) false (ib_agent (sys_inbox demo_two_workers)) false
               None None (Ok (ib_file (sys_inbox demo_two_workers))) None None = Ok i' /\
    recovered (sys_state demo_two_workers) (ib_state i') /\
    (forall r, r ∈ st_Requests (ib_state i') -> req_Status r <> "running").
Proof. apply (@reopen_recovers demo_routes). exact (demo_reachable _). Defined.

Lemma ackLocked_fails e i seq : inv (ib_state i) -> (ackLocked (Some e) i seq).2 = i.
Proof.
  intros Hi. pose proof (save_fails e i) as Hf. unfold ackLocked. lookup_simpl Hi. failing Hf.
Qed.

(** C34. Copy on write. In every reachable state, an operation whose file operations fail
    changes nothing at all, in memory or on disk: the state is replaced only by a completed
    save. (Posting and reopening are the network's and the next process's steps.) *)
Theorem failed_save_changes_nothing `{!CryptoRoutes} x e o :
  reachable x -> local o = true -> o <> Close -> exec (Some e) o x = x.
Proof.
  intros Hx%reachable_inv Hl Hc. pose proof (si_inv x Hx) as Hi.
  replace (exec (Some e) o x) with (mkSys (sys_inbox (exec (Some e) o x)) (sys_posting x));
    [|by destruct o].
  destruct x as [i p]. unfold sys_state in Hi; cbn [sys_inbox sys_posting] in *. f_equal.
  pose proof (save_fails e i) as Hf. destruct o; try done; cbn [exec sys_inbox].
  - unfold ingest. lookup_simpl Hi. cbn zeta. failing Hf.
  - unfold revalidate. rewrite migrate_fix by by apply inv_valid.
    replace (set_state (ib_state i) i) with i by by destruct i. lookup_simpl Hi. failing Hf.
  - unfold claim. lookup_simpl Hi. cbn zeta. failing Hf.
  - unfold release. lookup_simpl Hi. failing Hf.
  - unfold ack. lookup_simpl Hi. cbn beta iota.
    pose proof (ackLocked_fails e i seq Hi) as Ha. failing Hf.
  - unfold reply_begin. lookup_simpl Hi. cbn beta iota zeta. failing Hf.
  - unfold contextUpdates. lookup_simpl Hi. failing Hf.
  - unfold suspend. lookup_simpl Hi. cbn zeta. failing Hf.
  - unfold decision. lookup_simpl Hi. failing Hf.
  - unfold policy. lookup_simpl Hi. cbn zeta. failing Hf.
  - unfold plan. lookup_simpl Hi. cbn zeta. failing Hf.
Qed.

Lemma failed_save_changes_nothing_witness :
  @exec demo_routes (Some "disk full") (Claim "a" 1 "w1") (demo_run []) = demo_run [].
Proof.
  apply (@failed_save_changes_nothing demo_routes (demo_run []) "disk full" (Claim "a" 1 "w1")).
  - exact (demo_reachable _).
  - reflexivity.
  - discriminate.
Defined.

(** Each event is taken once. A new event, with a sequence number past the cursor,
    advances the cursor to it, and becomes ready work exactly when the listener vouched for
    it, the inbox accepts it and it is not a classification of existing work; the other
    requests are kept. Whatever the outcome, receiving it or an older event again changes
    nothing, so the stream may replay. *)
Theorem ingest_exactly_once `{!CryptoRoutes} i e valid work err i' :
  inv (ib_state i) -> shallow_event e -> st_After (ib_state i) < ev_Seq e ->
  ingest None i e valid = (work, err, i') ->
  let e' := set_Mentioned (mentions (ib_agent i) e) e in
  err = None /\ st_After (ib_state i') = ev_Seq e /\
  work = (valid && accepts i e' && bool_decide (classification e' = None)) /\
  st_Requests (ib_state i') ≡ₚ
    (if valid && accepts i e' then
       match classification e' with
       | Some n => (attach n <$> st_Requests (ib_state i))
                   ++ [set_Summary attached_summary (new_request e' "completed")]
       | None => st_Requests (ib_state i) ++ [new_request e' "ready"]
       end
     else st_Requests (ib_state i)) /\
  (forall io again valid', ev_Seq again <= ev_Seq e -> ingest io i' again valid' = (false, None, i')).
Proof.
  intros Hi Hd Hlt E e'. destruct (ingest_effect i e valid work err i' Hi Hd Hlt E) as (H1 & Hv & Ha & Hw & Hr).
  split_and!; try done. intros io again valid' Hle. apply ingest_replay; [done|lia].
Qed.

Definition demo_ingest : bool * option string * inbox :=
  @ingest demo_routes None (sys_inbox (demo_run [])) (demo_message 7 "m7") true.

Lemma triple_eta {A B C} (p : A * B * C) : p = (p.1.1, p.1.2, p.2).
Proof. by destruct p as [[a b] c]. Qed.

Lemma demo_ingest_eq :
  @ingest demo_routes None (sys_inbox (demo_run [])) (demo_message 7 "m7") true
  = (demo_ingest.1.1, demo_ingest.1.2, demo_ingest.2).
Proof. unfold demo_ingest. apply triple_eta. Qed.

Lemma ingest_exactly_once_witness :
  let i := sys_inbox (demo_run []) in
  let e := demo_message 7 "m7" in
  let e' := set_Mentioned (mentions (ib_agent i) e) e in
  demo_ingest.1.2 = None /\ st_After (ib_state demo_ingest.2) = ev_Seq e /\
  demo_ingest.1.1 = (true && @accepts demo_routes i e' && bool_decide (classification e' = None)) /\
  st_Requests (ib_state demo_ingest.2) ≡ₚ
    (if true && @accepts demo_routes i e' then
       match classification e' with
       | Some n => (attach n <$> st_Requests (ib_state i))
                   ++ [set_Summary attached_summary (new_request e' "completed")]
       | None => st_Requests (ib_state i) ++ [new_request e' "ready"]
       end
     else st_Requests (ib_state i)) /\
  (forall io again valid', ev_Seq again <= ev_Seq e ->
     @ingest demo_routes io demo_ingest.2 again valid' = (false, None, demo_ingest.2)).
Proof.
  exact (@ingest_exactly_once demo_routes (sys_inbox (demo_run [])) (demo_message 7 "m7") true
           demo_ingest.1.1 demo_ingest.1.2 demo_ingest.2 (demo_inbox_inv [])
           ltac:(vm_compute; discriminate) ltac:(vm_compute; reflexivity) demo_ingest_eq).
Defined.

(** No reply loop. A reply that this workflow posts, once it comes back as a message of
    any author, is work for no inbox, even one it mentions and whatever its allowlist. *)
Theorem replies_start_no_work `{!CryptoRoutes} i j e0 text e :
  ev_Kind e = "message" -> msg_Metadata (ev_Payload e) = si_Metadata (reply_input j e0 text) ->
  accepts i e = false.
Proof.
  intros Hk Hm. unfold accepts. rewrite Hk, Hm.
  assert (lifecycleKind e = "") as Hl.
  { unfold lifecycleKind. rewrite Hk, Hm. simpl. by case_match. }
  rewrite Hl. simpl. case_match; [done|]. by case_match.
Qed.

Definition demo_reply_event : inboxEvent :=
  mkEvent None None true None 9 "message" "room"
    (mkMessage "" None None None 9 "m9" "room" "peer" "Peer" "done"
       (si_Metadata (reply_input demo_open (demo_message 1 "m1") "done")) [] ["me"] None 0).

Lemma replies_start_no_work_witness : @accepts demo_routes (sys_inbox (demo_run [])) demo_reply_event = false.
Proof.
  apply (@replies_start_no_work demo_routes _ demo_open (demo_message 1 "m1") "done").
  - reflexivity.
  - reflexivity.
Defined.

(** ** Retries of the tools *)

(** The request an update installs is the one the next lookup finds. *)
Lemma commit_lookup i n r r' :
  valid_state (ib_state i) -> st_Requests (ib_state i) !! n = Some r -> req_Seq r' = req_Seq r ->
  valid_state (commit n r' (ib_state i)) ->
  lookup_request (ib_state (installed i (commit n r' (ib_state i)))) (req_Seq r) = Some (n, r').
Proof.
  intros Hv Hr Hs Hc. rewrite <- Hs. apply lookup_request_intro.
  - by apply vs_nodup, installed_valid.
  - rewrite installed_requests by done. simpl. by apply list_lookup_insert_eq; eapply lookup_lt_Some.
Qed.

(** What an accepted report leaves in the inbox. *)
Lemma suspend_recorded random io i seq token o v i' :
  valid_state (ib_state i) -> suspend random io i seq token o = (Ok v, i') ->
  valid_state (ib_state i') /\ exists n r, lookup_request (ib_state i') seq = Some (n, r) /\
    req_LastClaim r = token /\ token <> "" /\ req_Status r = wo_Status o /\ v = outcome_json r.
Proof.
  intros Hv H. unfold suspend in H. rewrite copy_request_lookup in H by done.
  destruct (lookup_request (ib_state i) seq) as [[n r]|] eqn:El; [|done].
  destruct (_ && _ && _) eqn:Eretry in H.
  { simplify_eq. split; [done|]. exists n, r. bool_simpl. bool_simpl. naive_solver. }
  destruct (bool_decide_reflect (token = "")) as [|Ht]; [done|]. simpl in H.
  destruct (req_Claim r) as [c|] eqn:Hc; [|done].
  destruct (bool_decide_reflect (cl_Token c <> token)) as [|Htok]; [done|].
  apply dec_stable in Htok. subst token.
  destruct (check_outcome _ o) eqn:Ho; [done|].
  destruct (bool_decide_reflect (req_Reply r <> None)) as [|Hrep]; [done|].
  destruct (65536 <? _) in H; [done|]. cbn zeta in H.
  apply lookup_request_Some in El as [Hn Hseq].
  destruct (suspend_request_form random (cl_Token c) o r) as (Hs & _ & _ & _ & Hlast & He & _).
  set (r' := suspend_request random (cl_Token c) o r) in *.
  assert (valid_state (commit n r' (ib_state i))) as Hv'.
  { eapply commit_valid; try done. apply suspend_valid; try done. by eapply valid_lookup. }
  rewrite save_spec in H by done. destruct io; [done|]. simplify_eq. split; [by apply installed_valid|].
  exists n, r'. split; [|done]. apply commit_lookup; [done..| |done]. unfold req_Seq. by rewrite He.
Qed.

(** Reporting an outcome is idempotent. When a worker's report that its work failed or
    waits was accepted, sending the same report again, with the same token, returns the same
    answer and changes nothing, although the claim is gone by then. *)
Theorem suspend_retry random random' io i seq token o v i' :
  valid_state (ib_state i) -> suspend random None i seq token o = (Ok v, i') ->
  suspend random' io i' seq token o = (Ok v, i').
Proof.
  intros Hv H. apply suspend_recorded in H as (Hv' & n & r & Hl & Hlast & Ht & Hs & ->); [|done].
  unfold suspend. rewrite copy_request_lookup by done. rewrite Hl.
  by rewrite (bool_decide_eq_true_2 _ Hlast), (bool_decide_eq_true_2 _ Ht), (bool_decide_eq_true_2 _ Hs).
Qed.

Definition demo_outcome : workerOutcome :=
  mkOutcome [] "awaiting_approval" None "needs a decision" "half done" "Deploy now?" "deploy".

Definition demo_suspend : result json * inbox :=
  suspend "d" None (sys_inbox (demo_run [(None, Claim "a" 1 "w1")])) 1 (demo_token "a") demo_outcome.

Definition answer_of (p : result json * inbox) : json :=
  match p.1 with Ok v => v | Err _ => JNull end.

Lemma answer_eta p : is_ok p.1 = true -> p = (Ok (answer_of p), p.2).
Proof. by destruct p as [[v|e] i]. Qed.

Lemma demo_suspend_eq :
  suspend "d" None (sys_inbox (demo_run [(None, Claim "a" 1 "w1")])) 1 (demo_token "a") demo_outcome
  = (Ok (answer_of demo_suspend), demo_suspend.2).
Proof. unfold demo_suspend. apply answer_eta. vm_compute. reflexivity. Qed.

Lemma suspend_retry_witness :
  suspend "other" (Some "disk full") demo_suspend.2 1 (demo_token "a") demo_outcome
  = (Ok (answer_of demo_suspend), demo_suspend.2).
Proof. exact (suspend_retry _ _ _ _ _ _ _ _ _ (demo_valid _) demo_suspend_eq). Defined.

(** What an answer to an approval question does to the request. *)
Lemma decide_answer id action source context stopped r :
  action ∈ ["approve"; "decline"; "answer"] ->
  (exists a, decide_request id action source context stopped r = Ok None /\ req_Approval r = Some a /\
     ap_ID a = id /\ ap_Source a = source /\ req_Decision r = action) \/
  (exists e, decide_request id action source context stopped r = Err e) \/
  (exists a r', decide_request id action source context stopped r = Ok (Some r') /\
     req_Approval r' = Some a /\ ap_ID a = id /\ ap_Source a = source /\ req_Decision r' = action /\
     req_Event r' = req_Event r /\ forall after, valid_request after r -> valid_request after r').
Proof.
  intros Ha. unfold decide_request.
  rewrite (bool_decide_eq_false_2 (action = "presented")) by (intros ->; set_solver).
  rewrite (bool_decide_eq_true_2 (action ∈ ["approve"; "decline"; "answer"])) by done.
  destruct (req_Approval r) as [a|] eqn:Hap; [|right; left; by eexists].
  destruct (bool_decide_reflect (ap_ID a = id)) as [Hid|]; [|right; left; by eexists].
  destruct (bool_decide_reflect (ap_Source a <> "")) as [Hs|Hs].
  { destruct (bool_decide_reflect (req_Decision r = action)) as [Hd|]; [|right; left; by eexists].
    destruct (bool_decide_reflect (ap_Source a = source)) as [Hsrc|]; [|right; left; by eexists].
    left. by exists a. }
  destruct (awaiting (req_Status r)) eqn:Hw; [|right; left; by eexists].
  destruct (_ && _); [right; left; by eexists|]. right; right.
  eexists (set_Delivery "answered" (set_Source source a)), _. split; [done|].
  split_and!; try done; try (by case_match).
  intros after Hv. pose proof (awaiting_unclaimed _ _ Hv Hw).
  apply (valid_request_unclaimed after r); try done; case_match; (done || solve_status).
Qed.

(** A decision is made once. After an approval question was answered, answering it again
    is accepted only as a repetition of the same action by the same source, which changes
    nothing; any other answer is refused. *)
Theorem decision_resolves_once i seq id action source context stopped i'
    io action' source' context' stopped' :
  valid_state (ib_state i) -> action ∈ ["approve"; "decline"; "answer"] ->
  decision None i seq id action source context stopped = (None, i') ->
  action' ∈ ["approve"; "decline"; "answer"] -> blank source' = false -> len source' <= 4096 ->
  len context' <= 65536 ->
  decision io i' seq id action' source' context' stopped' =
    if bool_decide (action = action') && bool_decide (source = source') then (None, i')
    else (Some "decision already resolved", i').
Proof.
  intros Hv Ha H Ha' Hb' Hs' Hc'.
  assert (exists n r a, lookup_request (ib_state i') seq = Some (n, r) /\ valid_state (ib_state i') /\
            req_Approval r = Some a /\ ap_ID a = id /\ ap_Source a = source /\ source <> "" /\
            req_Decision r = action) as (n & r & a & Hl & Hv' & Hap & Hid & Hsrc & Hne & Hdec).
  { unfold decision in H. destruct (_ || _) in H; [done|].
    destruct (blank source) eqn:Hb; [done|]. apply blank_false_nonempty in Hb.
    rewrite copy_request_lookup in H by done.
    destruct (lookup_request (ib_state i) seq) as [[n r]|] eqn:El; [|done].
    destruct (decide_answer id action source context stopped r Ha)
      as [(a & Hd & H1 & H2 & H3 & H4)|[[e Hd]|(a & r' & Hd & H1 & H2 & H3 & H4 & He & Hva)]];
      rewrite Hd in H; [simplify_eq|done|].
    - by exists n, r, a.
    - destruct (65536 <? _) in H; [done|]. pose proof El as [Hn Hseq]%lookup_request_Some.
      assert (valid_state (commit n r' (ib_state i))) as Hv'.
      { eapply commit_valid; try done. eapply Hva, valid_lookup; done. }
      rewrite save_spec in H by done. simplify_eq. exists n, r', a. split_and!; try done.
      + apply commit_lookup; try done. unfold req_Seq. by rewrite He.
      + by apply installed_valid. }
  unfold decision. rewrite (proj2 (Z.ltb_ge _ _) Hs'), (proj2 (Z.ltb_ge _ _) Hc'), Hb'. cbn [orb].
  rewrite copy_request_lookup, Hl by done. cbn beta iota.
  unfold decide_request. rewrite Hap, Hid, (bool_decide_eq_true_2 (id = id)) by done.
  rewrite (bool_decide_eq_false_2 (action' = "presented")); cycle 1.
  { intros ->. set_solver. }
  rewrite (bool_decide_eq_true_2 _ Ha'), Hsrc, (bool_decide_eq_true_2 (source <> "")), Hdec by done.
  by destruct (_ && _).
Qed.

Definition demo_waiting : sys :=
  demo_run [(None, Claim "a" 1 "w1"); (None, Suspend "d" 1 (demo_token "a") demo_outcome)].

Definition demo_decide (action source : string) (io : option string) (i : inbox) : option string * inbox :=
  decision io i 1 (ID "decision_" "d") action source "looks fine" false.

Lemma none_eta (p : option string * inbox) : p.1 = None -> p = (None, p.2).
Proof. destruct p. by intros [= ->]. Qed.

Lemma demo_decide_eq :
  decision None (sys_inbox demo_waiting) 1 (ID "decision_" "d") "approve" "user" "looks fine" false
  = (None, (demo_decide "approve" "user" None (sys_inbox demo_waiting)).2).
Proof. unfold demo_decide. apply none_eta. vm_compute. reflexivity. Qed.

Lemma decision_resolves_once_witness :
  let i' := (demo_decide "approve" "user" None (sys_inbox demo_waiting)).2 in
  decision None i' 1 (ID "decision_" "d") "decline" "user" "looks fine" false
    = if bool_decide ("approve" = "decline") && bool_decide ("user" = "user") then (None, i')
      else (Some "decision already resolved", i').
Proof.
  apply (decision_resolves_once (sys_inbox demo_waiting) 1 (ID "decision_" "d") "approve" "user"
           "looks fine" false).
  - exact (demo_valid _).
  - set_solver.
  - exact demo_decide_eq.
  - set_solver.
  - reflexivity.
  - vm_compute. discriminate.
  - vm_compute. discriminate.
Defined.

(** ** Clarifications *)

(** The update [u] of the source at index [src] has been applied to [s]. *)
Definition applied (s : inboxState) (src : nat) (u : commitmentUpdate) : Prop :=
  apply_update src s u = Ok s.

(** What decides whether an update is already applied. *)
Record settled_update (s : inboxState) (src : nat) (u : commitmentUpdate) : Prop := {
  su_source : exists source n target,
    st_Requests s !! src = Some source /\ lookup_request s (up_Seq u) = Some (n, target) /\
    terminal (req_Status target) = false /\
    ev_ChannelID (req_Event target) = ev_ChannelID (req_Event source) /\
    req_AppliedUpdates source !! update_key source (up_Seq u) = Some true;
  su_text : blank (up_Context u) = false /\ len (up_Context u) <= 4000 }.

Lemma settled_applied s src u : valid_state s -> settled_update s src u -> applied s src u.
Proof.
  intros Hv [(source & n & target & Hs & Hl & Ht & Hc & Ha) [Hb Hlen]]. unfold applied, apply_update.
  rewrite request_lookup by done. cbn beta iota. rewrite Hs, Hl, Ht. cbn [orb].
  rewrite bool_decide_eq_false_2 by auto. rewrite Hb, (proj2 (Z.ltb_ge _ _) Hlen). cbn [orb].
  by rewrite Ha.
Qed.

(** An update only appends to a context and marks its key. *)
Lemma apply_update_form src s u s' source :
  valid_state s -> st_Requests s !! src = Some source -> apply_update src s u = Ok s' ->
  exists n target, lookup_request s (up_Seq u) = Some (n, target) /\ terminal (req_Status target) = false /\
    ev_ChannelID (req_Event target) = ev_ChannelID (req_Event source) /\
    blank (up_Context u) = false /\ len (up_Context u) <= 4000 /\
    (s' = s /\ req_AppliedUpdates source !! update_key source (up_Seq u) = Some true \/
     exists text mid, mid = <[n := set_Context text target]> (st_Requests s) /\
       s' = set_Requests (alter (fun r => set_Applied
              (<[update_key source (up_Seq u) := true]> (req_AppliedUpdates r)) r) src mid) s).
Proof.
  intros Hv Hs H. unfold apply_update in H. rewrite request_lookup in H by done. cbn beta iota in H.
  rewrite Hs in H. destruct (lookup_request s (up_Seq u)) as [[n target]|] eqn:El; [|done].
  exists n, target. split; [done|].
  destruct (terminal (req_Status target)) eqn:Ht; [done|].
  destruct (bool_decide_reflect (ev_ChannelID (req_Event target) <> ev_ChannelID (req_Event source)))
    as [|Hc]; [done|]. apply dec_stable in Hc. cbn [orb] in H.
  destruct (blank (up_Context u)) eqn:Hb; [done|]. cbn [orb] in H.
  destruct (Z.ltb_spec 4000 (len (up_Context u))) as [|Hlen]; [done|].
  split_and!; try done.
  destruct (req_AppliedUpdates source !! update_key source (up_Seq u)) as [[]|] eqn:Ha; simpl in H.
  - left. by simplify_eq.
  - right. case_match; [done|]. simplify_eq. by eexists _, _.
  - right. case_match; [done|]. simplify_eq. by eexists _, _.
Qed.

(** Two versions of a request between which only contexts grew and keys were marked. *)
Record same_update_target (x y : inboxRequest) : Prop := {
  sut_event : req_Event y = req_Event x;
  sut_status : req_Status y = req_Status x;
  sut_attempt : req_Attempt y = req_Attempt x;
  sut_claim : req_Claim y = req_Claim x;
  sut_applied key : req_AppliedUpdates x !! key = Some true -> req_AppliedUpdates y !! key = Some true }.

#[export] Instance same_update_target_preorder : PreOrder same_update_target.
Proof.
  split; [by intros x; split|]. intros x y z [X1 X2 X3 X4 X5] [Y1 Y2 Y3 Y4 Y5].
  split; [congruence..|auto].
Qed.

Lemma Forall2_insert_r {A} (R : A -> A -> Prop) `{!Reflexive R} (l : list A) n x y :
  l !! n = Some x -> R x y -> Forall2 R l (<[n:=y]> l).
Proof.
  intros Hx Hr. apply Forall2_same_length_lookup_2; [by rewrite length_insert|].
  intros m a b Ha Hb. destruct (decide (m = n)) as [->|Hne].
  - rewrite list_lookup_insert_eq in Hb by by eapply lookup_lt_Some. by simplify_eq.
  - rewrite list_lookup_insert_ne in Hb by done. by simplify_eq.
Qed.

(** Seen from the source, after an update: the update is settled, and settled ones stay so. *)
Lemma settled_keep s s' src u :
  valid_state s' -> Forall2 same_update_target (st_Requests s) (st_Requests s') ->
  settled_update s src u -> settled_update s' src u.
Proof.
  intros Hv Hf [(source & n & target & Hs & Hl & Ht & Hc & Ha) Htext]. split; [|done].
  apply lookup_request_Some in Hl as [Hn Hseq].
  destruct (Forall2_lookup_l _ _ _ _ _ Hf Hs) as (source' & Hs' & [E1 E2 E3 E5 E4]).
  destruct (Forall2_lookup_l _ _ _ _ _ Hf Hn) as (target' & Hn' & [F1 F2 F3 F5 F4]).
  exists source', n, target'. unfold update_key in *. split_and!; [done| |congruence|congruence|].
  - rewrite <- Hseq. replace (req_Seq target) with (req_Seq target') by (unfold req_Seq; by rewrite F1).
    apply lookup_request_intro; [by apply vs_nodup|done].
  - rewrite E3. auto.
Qed.

Lemma apply_update_settles src s u s' source :
  valid_state s -> valid_state s' -> st_Requests s !! src = Some source -> apply_update src s u = Ok s' ->
  Forall2 same_update_target (st_Requests s) (st_Requests s') /\ settled_update s' src u.
Proof.
  intros Hv Hv' Hs H.
  destruct (apply_update_form _ _ _ _ _ Hv Hs H)
    as (n & target & Hl & Ht & Hc & Hb & Hlen & [[-> Ha]|(text & mid & Hmid & Heq)]).
  { split; [reflexivity|]. split; [|done]. by exists source, n, target. }
  apply lookup_request_Some in Hl as [Hn Hseq].
  assert (Forall2 same_update_target (st_Requests s) mid) as H1.
  { subst mid. by apply (Forall2_insert_r _ _ _ target). }
  destruct (Forall2_lookup_l _ _ _ _ _ H1 Hs) as (source1 & Hs1 & [E1 E2 E3 E5 E4]).
  rewrite (alter_insert _ _ _ _ Hs1) in Heq.
  assert (Forall2 same_update_target mid (st_Requests s')) as H2.
  { subst s'. simpl. apply (Forall2_insert_r _ _ _ source1); [done|]. split; try done. simpl.
    intros key Hk. destruct (decide (key = update_key source (up_Seq u))) as [->|Hne].
    - by rewrite lookup_insert_eq.
    - by rewrite lookup_insert_ne. }
  assert (Forall2 same_update_target (st_Requests s) (st_Requests s')) as H3.
  { etransitivity; [exact H1|exact H2]. }
  split; [done|]. split; [|done].
  destruct (Forall2_lookup_l _ _ _ _ _ H3 Hn) as (target' & Hn' & [F1 F2 F3 F5 F4]).
  eexists _, n, target'. split_and!.
  - subst s'. simpl. by apply list_lookup_insert_eq; eapply lookup_lt_Some.
  - rewrite <- Hseq. replace (req_Seq target) with (req_Seq target') by (unfold req_Seq; by rewrite F1).
    apply lookup_request_intro; [by apply vs_nodup|done].
  - congruence.
  - simpl. congruence.
  - cbn [req_AppliedUpdates set_Applied].
    replace (update_key (set_Applied _ source1) (up_Seq u)) with (update_key source (up_Seq u))
      by (unfold update_key; cbn [req_Attempt set_Applied]; by rewrite E3).
    apply lookup_insert_eq.
Qed.

Lemma apply_updates_settle l src s s' source :
  inv s -> req_Claim source <> None -> st_Requests s !! src = Some source -> apply_updates src s l = Ok s' ->
  Forall2 same_update_target (st_Requests s) (st_Requests s') /\ valid_state s' /\
  Forall (settled_update s' src) l.
Proof.
  revert s source. induction l as [|u l IH]; intros s source Hi Hcl Hs H; simpl in H.
  { simplify_eq. split_and!; [reflexivity|by apply inv_valid|done]. }
  apply bind_ok in H as (s1 & Hu & H).
  destruct (apply_update_steps Host src s u s1 Hi) as [Hsteps (source1 & Hs1 & Hc1)]; [by exists source|done|].
  destruct (lsteps_inv _ _ _ Hsteps Hi) as [Hi1 _].
  destruct (apply_update_settles _ _ _ _ _ (inv_valid _ Hi) (inv_valid _ Hi1) Hs Hu) as [Hf Hset].
  destruct (IH s1 source1 Hi1 Hc1 Hs1 H) as (Hf' & Hv' & Hall).
  split_and!; [by etransitivity|done|]. constructor; [|done]. by eapply settled_keep.
Qed.

Lemma apply_updates_applied l src s :
  valid_state s -> Forall (settled_update s src) l -> apply_updates src s l = Ok s.
Proof.
  intros Hv. induction 1 as [|u l Hu Hl IH]; [done|]. simpl. 
  by rewrite (settled_applied s src u Hv Hu).
Qed.

(** Clarifications are sent once. When a worker's clarifications to other requests were
    accepted, sending the same ones again under the same token succeeds and changes no
    request: no context receives the same text twice, even when a worker retries its report. *)
Theorem clarifications_once i seq token l i' :
  inv (ib_state i) -> contextUpdates None i seq token l = (None, i') ->
  (contextUpdates None i' seq token l).1 = None /\
  st_Requests (ib_state (contextUpdates None i' seq token l).2) = st_Requests (ib_state i').
Proof.
  intros Hi H. pose proof (inv_valid _ Hi) as Hv. unfold contextUpdates in H.
  destruct (20 <? Z.of_nat (length l)) eqn:Hlen; [done|].
  rewrite copy_request_lookup in H by done.
  destruct (lookup_request (ib_state i) seq) as [[n r]|] eqn:El; [|done].
  destruct (match req_Claim r with Some c => bool_decide (cl_Token c <> token) | None => true end) eqn:Hc.
  { destruct (_ && _) eqn:Hlast in H; simplify_eq.
    unfold contextUpdates. rewrite Hlen, copy_request_lookup, El by done. by rewrite Hc, Hlast. }
  destruct (apply_updates n (ib_state i) l) as [s'|e] eqn:Eu; [|done].
  pose proof El as [Hn Hseq]%lookup_request_Some.
  assert (req_Claim r <> None) as Hcl by by destruct (req_Claim r).
  destruct (apply_updates_settle l n _ _ r Hi Hcl Hn Eu) as (Hf & Hv' & Hset).
  rewrite save_spec in H by done. simplify_eq.
  pose proof (installed_valid i s' Hv') as Hvi. pose proof (installed_requests i s' Hv') as Hri.
  destruct (Forall2_lookup_l _ _ _ _ _ Hf Hn) as (r' & Hn' & [E1 E2 E3 E5 E4]).
  unfold contextUpdates. rewrite Hlen, copy_request_lookup by done.
  replace (lookup_request (ib_state (installed i s')) (req_Seq r)) with (Some (n, r')); cycle 1.
  { replace (req_Seq r) with (req_Seq r') by (unfold req_Seq; by rewrite E1).
    symmetry. apply lookup_request_intro; [by apply vs_nodup|by rewrite Hri]. }
  rewrite E5, Hc, apply_updates_applied; [|done|].
  - rewrite save_spec by done. cbn [fst snd]. split; [done|]. by rewrite installed_requests.
  - eapply Forall_impl; [exact Hset|]. intros u Hu. eapply settled_keep; [done| |exact Hu].
    by rewrite Hri.
Qed.

Definition demo_updates : option string * inbox :=
  contextUpdates None (sys_inbox (demo_run [(None, Claim "a" 1 "w1")])) 1 (demo_token "a")
    [mkUpdate 2 "the schema changed"; mkUpdate 3 "the schema changed"].

Lemma demo_updates_eq :
  contextUpdates None (sys_inbox (demo_run [(None, Claim "a" 1 "w1")])) 1 (demo_token "a")
    [mkUpdate 2 "the schema changed"; mkUpdate 3 "the schema changed"] = (None, demo_updates.2).
Proof. unfold demo_updates. apply none_eta. vm_compute. reflexivity. Qed.

Lemma clarifications_once_witness :
  (contextUpdates None demo_updates.2 1 (demo_token "a")
     [mkUpdate 2 "the schema changed"; mkUpdate 3 "the schema changed"]).1 = None /\
  st_Requests (ib_state (contextUpdates None demo_updates.2 1 (demo_token "a")
     [mkUpdate 2 "the schema changed"; mkUpdate 3 "the schema changed"]).2)
  = st_Requests (ib_state demo_updates.2).
Proof. exact (clarifications_once _ _ _ _ _ (demo_inbox_inv _) demo_updates_eq). Defined.

(** ** Old formats *)

(** Migration of a version-1 file. Its one pending event becomes the only request, with
    the reply and the claim it had and the status they imply, the cursor moves past it, and
    the result is a well-formed version-2 state. *)
Theorem migrate_version_1 s e :
  st_Version s < 2 -> st_Requests s = [] -> st_Pending s = Some e -> 0 <= st_After s < ev_Seq e ->
  shallow_event e ->
  (forall c, st_Claim s = Some c -> cl_WorkerID c <> "" /\ cl_Token c <> "") ->
  exists t r, migrate s = (None, t) /\ valid_state t /\ st_After t = ev_Seq e /\ st_Requests t = [r] /\
    req_Event r = e /\ req_Reply r = st_Reply s /\ req_Claim r = st_Claim s /\
    req_Status r = (match st_Reply s, st_Claim s with
                    | Some _, _ => "reply_pending"
                    | None, Some _ => "running"
                    | None, None => "ready"
                    end).
Proof.
  intros Hver Hreq Hp [Ha He] Hd Hc.
  set (status := match st_Reply s, st_Claim s with
                 | Some _, _ => "reply_pending" | None, Some _ => "running" | None, None => "ready" end).
  set (r := set_Reply (st_Reply s) (set_Claim (st_Claim s) (new_request e status))).
  set (t := set_Version 2 (set_After (ev_Seq e) (set_Requests [r] s))).
  assert (migrate_v1 s = Ok t) as H1.
  { unfold migrate_v1. rewrite (proj2 (Z.leb_gt _ _)) by lia. rewrite Hp.
    rewrite (bool_decide_eq_false_2 (Some e = None)) by done. rewrite andb_false_r, (proj2 (Z.leb_gt _ _)) by lia.
    cbn zeta. rewrite Hreq. unfold t, r, status.
    destruct (st_Claim s), (st_Reply s); done. }
  assert (valid_request (ev_Seq e) r) as Hr.
  { split.
    - unfold req_Seq. simpl. lia.
    - unfold r, status; simpl. destruct (st_Reply s), (st_Claim s); solve_status.
    - unfold r, status; simpl. destruct (st_Reply s), (st_Claim s); done.
    - unfold r, status; simpl. destruct (st_Reply s), (st_Claim s); done.
    - exact Hc. }
  assert (check_requests (st_After t) ∅ (st_Requests t) = None) as H2.
  { apply check_requests_None. split_and!.
    - exact (proj2 (Forall_singleton _ _) Hr).
    - exact (NoDup_singleton _).
    - constructor; [apply not_elem_of_empty|constructor]. }
  assert (migrate s = (None, t)) as Hm.
  { unfold migrate. rewrite (proj2 (Z.ltb_ge _ _)), (proj2 (Z.ltb_ge _ _)) by lia. cbn [orb].
    by rewrite H1, H2. }
  exists t, r. split_and!; try done. eapply migrate_valid; [done|].
  split; rewrite ?Hreq, ?Hp; [constructor|done].
Qed.

Definition demo_version_1 : inboxState :=
  mkState 0 1 [] None 4 (Some (demo_message 5 "m5")) None (Some (mkClaim "w1" "t")).

Lemma migrate_version_1_witness :
  exists t r, migrate demo_version_1 = (None, t) /\ valid_state t /\
    st_After t = ev_Seq (demo_message 5 "m5") /\ st_Requests t = [r] /\
    req_Event r = demo_message 5 "m5" /\ req_Reply r = None /\ req_Claim r = Some (mkClaim "w1" "t") /\
    req_Status r = "running".
Proof.
  apply (migrate_version_1 demo_version_1 (demo_message 5 "m5")).
  - vm_compute. reflexivity.
  - reflexivity.
  - reflexivity.
  - split; vm_compute; [discriminate|reflexivity].
  - vm_compute. discriminate.
  - intros c H. injection H as <-. split; discriminate.
Defined.

(** Downgrade protection. Whatever a save writes is a version-2 file that loads back to
    the same work; read by the version-1 rules, a claim without a pending event, it is
    rejected rather than silently emptied. *)
Theorem saved_file_is_guarded io i s i' :
  shallow s -> save io i s = (None, i') ->
  exists d, ib_file i' = Some d /\ migrate d = (None, d) /\ same_work d (ib_state i') /\
    forall v, v < 2 -> migrate (set_Version v d) = (Some "invalid inbox cursor", set_Version v d).
Proof.
  intros Hsh H. apply save_valid in H as (s' & Hm & ->). apply migrate_valid in Hm; [|done].
  exists (disk_form s'). split; [done|]. pose proof (valid_disk_form s' Hm) as Hd.
  split; [by apply migrate_fix|]. split.
  - destruct (installed_core i s' Hm) as (Hr & _ & Ha & _). by apply same_requests_work.
  - intros v Hv. unfold migrate. pose proof (vs_after _ Hd).
    cbn [st_Version set_Version]. rewrite (proj2 (Z.ltb_ge _ _)) by lia.
    rewrite (proj2 (Z.ltb_ge _ _)) by done. cbn [orb]. unfold migrate_v1. cbn [st_Version set_Version].
    rewrite (proj2 (Z.leb_gt _ _)) by lia. done.
Qed.

Lemma demo_save_eq :
  save None demo_open (sys_state (demo_run [])) =
  (None, (save None demo_open (sys_state (demo_run []))).2).
Proof. apply none_eta. vm_compute. reflexivity. Qed.

Lemma saved_file_is_guarded_witness :
  exists d, ib_file (save None demo_open (sys_state (demo_run []))).2 = Some d /\ migrate d = (None, d) /\
    same_work d (ib_state (save None demo_open (sys_state (demo_run []))).2) /\
    forall v, v < 2 -> migrate (set_Version v d) = (Some "invalid inbox cursor", set_Version v d).
Proof.
  exact (saved_file_is_guarded None demo_open (sys_state (demo_run [])) _
           (vs_shallow (sys_state (demo_run [])) (inv_valid _ (demo_inv []))) demo_save_eq).
Defined.

Lemma ack_error io i seq tokens e i' :
  valid_state (ib_state i) -> ack io i seq tokens = (Some e, i') -> i' = i.
Proof.
  intros Hv. unfold ack, ackLocked. rewrite live_request_lookup, copy_request_lookup by done. cbn beta iota.
  intros H. repeat (case_match; simplify_eq; try done);
    by match goal with E : save _ _ _ = (Some _, _) |- _ => apply save_error in E end.
Qed.

(** Peer work needs a claim. Through the MCP tools, a caller without a claim token can
    acknowledge only a connection notice or, on a creator's inbox, a join review, and it can
    reply to nothing; a refused call changes nothing. *)
Theorem tools_need_claim post meanwhile io io2 i seq text err i' :
  valid_state (ib_state i) -> tool_ack io i seq "" = (err, i') ->
  (err = None -> forall n r, lookup_request (ib_state i) seq = Some (n, r) ->
     is_lifecycle (req_Event r) = true \/ ib_creator i = true /\ ev_Kind (req_Event r) = "join_requested") /\
  (err <> None -> i' = i) /\
  (exists e, tool_reply post meanwhile io io2 i seq text "" = (Err e, i)).
Proof.
  intros Hv H. unfold tool_ack, isJoinReview, isConnectionNotice in H.
  rewrite live_request_lookup in H by done. cbn [snd] in H.
  split_and!; [| |by eexists].
  - intros -> n r Hl. rewrite Hl in H. simpl in H.
    destruct (ib_creator i); destruct (is_lifecycle (req_Event r)); simpl in H; try done; auto.
    destruct (bool_decide_reflect (ev_Kind (req_Event r) = "join_requested")); [auto|done].
  - intros Hne. destruct err as [e|]; [|done]. destruct (_ && _) in H; [by simplify_eq|].
    by eapply ack_error.
Qed.

Definition demo_unclaimed_ack : option string * inbox :=
  tool_ack None (sys_inbox (demo_run [])) 2 "".

Lemma pair_eta {A B} (p : A * B) : p = (p.1, p.2).
Proof. by destruct p. Qed.

Lemma demo_unclaimed_ack_eq :
  tool_ack None (sys_inbox (demo_run [])) 2 "" = (demo_unclaimed_ack.1, demo_unclaimed_ack.2).
Proof. unfold demo_unclaimed_ack. apply pair_eta. Qed.

Lemma tools_need_claim_witness :
  (demo_unclaimed_ack.1 = None -> forall n r,
     lookup_request (ib_state (sys_inbox (demo_run []))) 2 = Some (n, r) ->
     is_lifecycle (req_Event r) = true
     \/ ib_creator (sys_inbox (demo_run [])) = true /\ ev_Kind (req_Event r) = "join_requested") /\
  (demo_unclaimed_ack.1 <> None -> demo_unclaimed_ack.2 = sys_inbox (demo_run [])) /\
  (exists e, tool_reply (fun _ => Ok JNull) id None None (sys_inbox (demo_run [])) 2 "hello" ""
             = (Err e, sys_inbox (demo_run []))).
Proof.
  exact (tools_need_claim (fun _ => Ok JNull) id None None (sys_inbox (demo_run [])) 2 "hello" _ _
           (demo_valid _) demo_unclaimed_ack_eq).
Defined.
