(* ===== verification/Ledger.v ===== *)
(** * The durable inbox as a ledger of jobs: the contract and its refinement

    What a controller and the workers may rely on, without statuses, approvals, claims' history,
    files or crashes: a cursor, and for each message received a job in one of seven phases.
    Every operation of the inbox - whatever becomes of its file operation - is a sequence of steps
    of the ledger taken on the authority of the operation; a crash only interrupts taken jobs. *)
From S2P Require Import Prelude GoStrings Json Types InboxState Inbox InboxControl InboxFacts.
From S2P Require Import PlanFacts RequestMachine InboxSafety InboxSystem InboxTheorems.

(** ** The ledger *)
Inductive phase :=
| Open                           (* any worker may take it *)
| Taken (c : inboxClaim)         (* a worker holds it *)
| Interrupted (c : inboxClaim)   (* its worker's process is gone, or gave up for recovery *)
| Waiting                        (* for a decision of the user *)
| Failed
| Answering (text : string)      (* this reply is saved and will be posted *)
| Closed.

Record job := mkJob { job_channel : string; job_message : string; job_text : string; job_phase : phase }.
Definition content (j : job) : string * string * string := (job_channel j, job_message j, job_text j).
Record ledger := mkLedger { lg_cursor : Z; lg_jobs : gmap Z job }.

Definition claimed (c : inboxClaim) (p : phase) : Prop := p = Taken c \/ p = Interrupted c.
(** No worker holds it and no reply is under way. *)
Definition free (p : phase) : Prop := p = Open \/ p = Failed \/ p = Closed.
Definition unresolved (p : phase) : Prop := p = Open \/ p = Failed \/ p = Waiting.
Definition settled (p : phase) : Prop := p = Open \/ p = Closed.
Definition sendable (text : string) : Prop := blank text = false /\ len text <= 65536.

(** Who moves a job: the holder of an authority, or the restart of the inbox's process, which
    nobody asked for. *)
Inductive mover := By (l : actor) | Restart.

(** Who may move a job, and where to. *)
Inductive move (m : mover) : phase -> phase -> Prop :=
| mo_stay p : move m p p
| mo_take c : m = By Host -> cl_WorkerID c <> "" -> move m Open (Taken c)
| mo_revoke : m = By Host -> move m Open Closed
| mo_interrupt c : m = Restart -> move m (Taken c) (Interrupted c)
| mo_release c p : m = By (Worker (cl_Token c)) -> claimed c p -> move m p Open
| mo_finish c : m = By (Worker (cl_Token c)) -> move m (Taken c) Closed
| mo_answer c text : m = By (Worker (cl_Token c)) -> sendable text -> move m (Taken c) (Answering text)
| mo_suspend c p p' :
    m = By (Worker (cl_Token c)) -> claimed c p -> p' ∈ [Waiting; Failed; Interrupted c] -> move m p p'
| mo_finish_free token p : m = By (Worker token) -> free p -> move m p Closed
| mo_answer_free token text p : m = By (Worker token) -> free p -> sendable text -> move m p (Answering text)
| mo_deliver text : m = By Delivery -> move m (Answering text) Closed
| mo_decide stopped : m = By (Controller stopped) -> move m Waiting Open
| mo_decline stopped : m = By (Controller stopped) -> move m Waiting (Answering decline_reply)
| mo_resume stopped p p' : m = By (Controller stopped) -> unresolved p -> settled p' -> move m p p'
| mo_recover c p p' : m = By (Controller true) -> claimed c p -> settled p' -> move m p p'.

(** A step: jobs move, and the host may enter new ones past the cursor. A restart does nothing but
    interrupt. *)
Record ledger_step (m : mover) (L L' : ledger) : Prop := {
  le_cursor : lg_cursor L <= lg_cursor L';
  le_moved : forall n j, lg_jobs L !! n = Some j ->
    exists j', lg_jobs L' !! n = Some j' /\ content j' = content j /\ move m (job_phase j) (job_phase j');
  le_entered : forall n j', lg_jobs L !! n = None -> lg_jobs L' !! n = Some j' ->
    m = By Host /\ lg_cursor L < n <= lg_cursor L' /\ settled (job_phase j') }.

(** ** The abstraction *)
Definition phase_of (r : inboxRequest) : phase :=
  match req_Reply r, req_Claim r with
  | Some text, _ => Answering text
  | None, Some c => if bool_decide (req_Status r = "running") then Taken c else Interrupted c
  | None, None =>
      if bool_decide (req_Status r = "ready") then Open
      else if bool_decide (req_Status r = "failed") then Failed
      else if terminal (req_Status r) then Closed else Waiting
  end.
Definition job_of (r : inboxRequest) : job :=
  mkJob (ev_ChannelID (req_Event r)) (msg_ID (ev_Payload (req_Event r))) (msg_Text (ev_Payload (req_Event r)))
    (phase_of r).
Definition ledger_of (s : inboxState) : ledger :=
  mkLedger (st_After s) (list_to_map ((fun r => (req_Seq r, job_of r)) <$> st_Requests s)).

Lemma ledger_lookup s n j : NoDup (req_Seq <$> st_Requests s) ->
  lg_jobs (ledger_of s) !! n = Some j <-> exists r, r ∈ st_Requests s /\ req_Seq r = n /\ job_of r = j.
Proof.
  intros Hnd. simpl. rewrite <- elem_of_list_to_map.
  - rewrite list_elem_of_fmap. split; [intros (r & [= -> ->] & Hr)|intros (r & Hr & <- & <-)]; eauto.
  - by rewrite <- list_fmap_compose.
Qed.

(** ** Each request moves as the ledger says *)
Lemma phase_closed r : req_Reply r = None -> req_Claim r = None ->
  req_Status r = "completed" \/ req_Status r = "declined" \/ req_Status r = "cancelled" -> phase_of r = Closed.
Proof. intros Hr Hc Hs. unfold phase_of. rewrite Hr, Hc. by destruct Hs as [->|[->| ->]]. Qed.
Lemma phase_open r : req_Reply r = None -> req_Claim r = None -> req_Status r = "ready" -> phase_of r = Open.
Proof. intros Hr Hc Hs. unfold phase_of. by rewrite Hr, Hc, Hs. Qed.
Lemma phase_claimed r c : req_Reply r = None -> req_Claim r = Some c -> claimed c (phase_of r).
Proof. intros Hr Hc. unfold phase_of, claimed. rewrite Hr, Hc. case_bool_decide; auto. Qed.
Lemma phase_taken r c : sound_request r -> req_Reply r = None -> req_Claim r = Some c ->
  suspended (req_Status r) = false -> phase_of r = Taken c.
Proof.
  intros [Hcl Hrp _] Hr Hc Hs. unfold phase_of. rewrite Hr, Hc.
  assert (req_Claim r <> None) as Hne by congruence. apply Hcl in Hne.
  rewrite !elem_of_cons, elem_of_nil in Hne. destruct Hne as [->|[Hst|[Hst|[]]]]; [done|by rewrite Hst in Hs|].
  by apply Hrp in Hst.
Qed.
Lemma phase_free after r : valid_request after r -> sound_request r -> req_Reply r = None -> req_Claim r = None ->
  suspended (req_Status r) = false -> free (phase_of r).
Proof.
  intros [_ Hst Hrun _ _] [_ Hrp _] Hr Hc Hs. unfold phase_of, free. rewrite Hr, Hc.
  unfold statuses in Hst. rewrite !elem_of_cons, elem_of_nil in Hst.
  destruct Hst as [E|[E|[E|[E|[E|[E|[E|[E|[E|[E|[]]]]]]]]]]]; rewrite E in *; try done; auto.
  - by destruct Hrun.
  - by destruct (proj2 Hrp eq_refl).
Qed.
Lemma phase_unresolved r : req_Reply r = None -> req_Claim r = None -> terminal (req_Status r) = false ->
  unresolved (phase_of r).
Proof. intros Hr Hc Ht. unfold phase_of, unresolved. rewrite Hr, Hc, Ht. repeat case_bool_decide; auto. Qed.
Lemma phase_waiting after r : valid_request after r -> sound_request r -> awaiting (req_Status r) = true ->
  phase_of r = Waiting.
Proof.
  intros Hv Hs Ha. unfold phase_of. rewrite (awaiting_no_reply r Hs Ha), (awaiting_unclaimed _ _ Hv Ha).
  by apply awaiting_True in Ha as [-> | ->].
Qed.
Lemma phase_same r r' : req_Reply r' = req_Reply r -> req_Claim r' = req_Claim r -> req_Status r' = req_Status r ->
  phase_of r' = phase_of r.
Proof. intros Hr Hc Hs. unfold phase_of. by rewrite Hr, Hc, Hs. Qed.

Lemma decided_move source stopped after r r' : valid_request after r -> sound_request r ->
  decided source stopped r r' -> move (By (Controller stopped)) (phase_of r) (phase_of r').
Proof.
  intros Hv Hs Hd. destruct Hd as [a Ha|a text d Ha Hw|a text Ha Hw|text Ht|status text Hr Ht Hn Hst Hss].
  - apply mo_stay.
  - rewrite (phase_waiting _ _ Hv Hs Hw), phase_open; [by eapply mo_decide|..|done]; simpl.
    + by apply awaiting_no_reply. 
    + by eapply awaiting_unclaimed.
  - rewrite (phase_waiting _ _ Hv Hs Hw). by eapply mo_decline.
  - apply mo_stay.
  - assert (settled (phase_of (set_Decision source (set_Context text (set_Status status (set_Claim None r)))))) as Hp.
    { destruct Hss as [-> | ->]; [left; by apply phase_open|right; apply phase_closed; simpl; auto]. }
    destruct (req_Claim r) as [c|] eqn:Ec.
    + destruct Hst as [?| ->]; [done|]. eapply mo_recover; [done|by apply phase_claimed|done].
    + eapply mo_resume; [done|by apply phase_unresolved|done].
Qed.

Lemma worker_move token after r p : valid_request after r -> sound_request r -> req_Reply r = None ->
  holds token r -> suspended (req_Status r) = false ->
  (p = Closed \/ exists text, p = Answering text /\ sendable text) -> move (By (Worker token)) (phase_of r) p.
Proof.
  intros Hv Hs Hr Ht Hn Hp. destruct (req_Claim r) as [c|] eqn:Ec.
  - rewrite (phase_taken r c Hs Hr Ec Hn). rewrite <- (Ht c Ec).
    destruct Hp as [->|(text & -> & Htext)]; [by apply mo_finish|by apply mo_answer].
  - assert (free (phase_of r)) by (by eapply phase_free).
    destruct Hp as [->|(text & -> & Htext)]; [by eapply mo_finish_free|by eapply mo_answer_free].
Qed.

Lemma finish_closed r : phase_of (finish_request r) = Closed.
Proof. apply phase_closed; [apply finish_claim..|]. destruct (finish_status r); auto. Qed.

Lemma change_move l s r r' : valid_request (st_After s) r -> sound_request r -> valid_state s ->
  change l s r r' -> move (By l) (phase_of r) (phase_of r').
Proof.
  intros Hv Hs Hvs Hc.
  destruct Hc as [worker random r Hl Hw Hr Hc' He|c r Hl Hc Hr
              |token r Hl Htok Hr H1 H2 H3|r Hl Hr|token text r Hl Htok H1 H2 H3 H4 H5|r Hr|m r Hc'|text r Ht
              |random c o r Hl Hc Hr Ho|id action source context stopped r r' Hl Hb Hd]; try subst l.
  - apply eligible_iff in He as [Hst _]; [|done]. rewrite (phase_open r) by done.
    assert (phase_of (acquire worker random r) = Taken (mkClaim worker (ID "claim_" random))) as ->.
    { unfold phase_of, acquire. simpl. by rewrite Hr. }
    by apply mo_take.
  - rewrite (phase_open (set_Status _ _)) by done. eapply mo_release; [done|by apply phase_claimed].
  - rewrite finish_closed. eapply worker_move; eauto.
  - rewrite finish_closed. unfold phase_of. destruct (req_Reply r); [|done]. by apply mo_deliver.
  - assert (phase_of (set_Status "reply_pending" (set_Reply (Some text) r)) = Answering text) as -> by done.
    eapply worker_move; try done. right. exists text. by repeat split.
  - apply mo_stay.
  - apply mo_stay.
  - apply mo_stay.
  - destruct (check_outcome_None _ _ Ho) as (Hout & _).
    destruct (suspend_request_form random (cl_Token c) o r) as (Hst & Hr' & Hcl & _).
    eapply mo_suspend; [done|by apply phase_claimed|].
    unfold phase_of. rewrite Hr', Hr, Hcl, Hst, Hc. unfold outcome_statuses in Hout. simpl in Hout.
    rewrite !elem_of_cons, elem_of_nil in Hout.
    destruct Hout as [-> |[-> |[-> |[-> |[]]]]]; simpl; set_solver.
  - apply decide_request_decided in Hd. by eapply decided_move.
Qed.

Lemma moved_move l s r r' : valid_request (st_After s) r -> sound_request r -> valid_state s ->
  moved l s r r' -> content (job_of r') = content (job_of r) /\ move (By l) (phase_of r) (phase_of r').
Proof.
  intros Hv Hs Hvs [|r1 Hc|ds rs Hst|n Hh|g Hh]; try subst l.
  - split; [done|apply mo_stay].
  - split; [|by eapply change_move]. unfold content, job_of. simpl. by rewrite (change_event _ _ _ _ Hc).
  - split; [done|apply mo_stay].
  - unfold attach. case_match; split; try done; apply mo_stay.
  - unfold revoke. case_match; [|split; [done|apply mo_stay]]. bool_simpl. split; [done|].
    destruct (req_Reply r) eqn:Er; [unfold phase_of; simpl; rewrite Er; apply mo_stay|].
    destruct (req_Claim r) eqn:Ec.
    { exfalso. destruct Hs as [Hcl _ _]. assert (req_Claim r <> None) as Hne by congruence. apply Hcl in Hne.
      rewrite !elem_of_cons, elem_of_nil in Hne. naive_solver congruence. }
    rewrite (phase_open r), (phase_closed (set_Status _ _)); simpl; auto. by apply mo_revoke.
Qed.

(** ** The simulation *)
Lemma lstep_new l s t x : lstep l s t -> inv s -> x ∈ st_Requests t ->
  req_Seq x ∈ req_Seq <$> st_Requests s \/
  l = Host /\ st_After s < req_Seq x <= st_After t /\ settled (phase_of x).
Proof.
  intros Hst Hi Hx. pose proof (vs_nodup s (inv_valid s Hi)) as Hnd.
  destruct Hst as [n r r' v Hl Hc|n r ds rs v Hl Hst Hac|e Hh Hlt Hd|e Hh Hlt|n e Hh Hlt Hd|g Hh|p v].
  - left. apply (put_elem s n r r') in Hx as [->|[Hx _]]; [|by apply list_elem_of_fmap_2|done|done|by eapply change_seq].
    rewrite (change_seq _ _ _ _ Hc). by eapply list_elem_of_fmap_2, list_elem_of_lookup_2.
  - left. apply (put_elem s n r (set_Plan ds rs r)) in Hx as [->|[Hx _]]; [|by apply list_elem_of_fmap_2|done..].
    change (req_Seq (set_Plan ds rs r)) with (req_Seq r). by eapply list_elem_of_fmap_2, list_elem_of_lookup_2.
  - apply elem_arrive, elem_of_app in Hx as [Hx| ->%list_elem_of_singleton]; [left; by apply list_elem_of_fmap_2|].
    right. unfold req_Seq. simpl. split_and!; [done|done|lia|by left].
  - apply elem_arrive in Hx. left. by apply list_elem_of_fmap_2.
  - apply elem_arrive, elem_of_app in Hx as [(r & -> & Hr)%list_elem_of_fmap| ->%list_elem_of_singleton].
    + left. apply list_elem_of_fmap. exists r. split; [apply (mp_seq _ (mapping_attach n))|done].
    + right. unfold req_Seq. simpl. split_and!; [done|done|lia|by right].
  - apply list_elem_of_fmap in Hx as (r & -> & Hr). left. apply list_elem_of_fmap. exists r.
    split; [apply (mp_seq _ (mapping_revoke g))|done].
  - left. by apply list_elem_of_fmap_2.
Qed.

Lemma request_good s r : inv s -> r ∈ st_Requests s -> valid_request (st_After s) r /\ sound_request r.
Proof.
  intros Hi Hr. split; [eapply Forall_forall; [apply vs_requests, inv_valid, Hi|done]|].
  eapply Forall_forall; [by apply inv_sound|done].
Qed.

Lemma lstep_ledger l s t : lstep l s t -> inv s -> ledger_step (By l) (ledger_of s) (ledger_of t).
Proof.
  intros Hst Hi. pose proof (lstep_inv _ _ _ Hst Hi) as Hit. pose proof (lstep_evolves _ _ _ Hst Hi) as He.
  pose proof (vs_nodup s (inv_valid s Hi)) as Hnd. pose proof (vs_nodup t (inv_valid t Hit)) as Hndt.
  split; [apply (evo_after _ _ He)|..].
  - intros n j (r & Hr & <- & <-)%ledger_lookup; [|done].
    destruct (lstep_track _ _ _ _ Hst Hnd Hr) as (r' & Hr' & Hm). destruct (request_good s r Hi Hr) as [Hv Hs].
    exists (job_of r'). rewrite ledger_lookup by done. split.
    + exists r'. split_and!; [done|by eapply moved_seq|done].
    + exact (moved_move l s r r' Hv Hs (inv_valid s Hi) Hm).
  - intros n j' Hn (x & Hx & <- & <-)%ledger_lookup; [|done].
    destruct (lstep_new _ _ _ _ Hst Hi Hx) as [(r & Heq & Hr)%list_elem_of_fmap|(-> & Hnew)]; [|done].
    exfalso. assert (lg_jobs (ledger_of s) !! req_Seq x = Some (job_of r)) as Hr'; [|by rewrite Hn in Hr'].
    apply ledger_lookup; [done|]. by exists r.
Qed.

Lemma lsteps_ledger l s t : rtc (lstep l) s t -> inv s -> rtc (ledger_step (By l)) (ledger_of s) (ledger_of t).
Proof.
  induction 1 as [s|s u t Hst _ IH]; intros Hi; [done|].
  eapply rtc_l; [by apply lstep_ledger|]. apply IH. by eapply lstep_inv.
Qed.

(** The ledger depends on the work only. *)
Lemma same_requests_ledger s t : st_Requests t = st_Requests s -> st_After t = st_After s -> ledger_of t = ledger_of s.
Proof. intros Hr Ha. unfold ledger_of. by rewrite Hr, Ha. Qed.

Lemma updates_ledger l i i' : updates l i i' -> inv (ib_state i) ->
  rtc (ledger_step (By l)) (ledger_of (ib_state i)) (ledger_of (ib_state i')).
Proof.
  intros [_ [[-> _] | (t & Hst & Ht & _ & -> & _)]] Hi; [done|].
  destruct (disk_requests t Ht) as [Hr Ha]. rewrite (same_requests_ledger t (project (disk_form t))) by done. by apply lsteps_ledger.
Qed.

(** A crash interrupts what was running. *)
Lemma recover_job r r' : work_of r' = recover_work (work_of r) ->
  content (job_of r') = content (job_of r) /\ (sound_request r -> valid_request (req_Seq r) r ->
  move Restart (phase_of r) (phase_of r')).
Proof.
  unfold work_of, recover_work. intros [= H1 H2 H3 H4 H5 H6 H7 H8 H9 H10 H11]. split; [unfold content; simpl; congruence|].
  intros [Hcl Hrp _] [_ _ Hrun _ _]. unfold phase_of. rewrite H7, H8, H6.
  destruct (req_Reply r) eqn:Er; [apply mo_stay|]. destruct (bool_decide_reflect (req_Status r = "running")) as [E|E].
  - destruct (req_Claim r) as [c|] eqn:Ec; [|by destruct Hrun]. by apply mo_interrupt.
  - destruct (req_Claim r); rewrite ?bool_decide_eq_false_2 by done; apply mo_stay.
Qed.

Lemma recovered_ledger s t : recovered s t -> inv s -> inv t -> ledger_step Restart (ledger_of s) (ledger_of t).
Proof.
  intros Hrec Hi Hit. pose proof (recovered_evolves _ _ Hrec) as He.
  pose proof (vs_nodup s (inv_valid s Hi)) as Hnd. pose proof (vs_nodup t (inv_valid t Hit)) as Hndt.
  split; [apply (evo_after _ _ He)|..].
  - intros n j (r & Hr & <- & <-)%ledger_lookup; [|done].
    destruct (recovered_elem s t r Hrec Hr) as (r' & Hr' & Hw). destruct (request_good s r Hi Hr) as [Hv Hs].
    destruct (recover_job r r' Hw) as [Hcon Hmove]. exists (job_of r'). rewrite ledger_lookup by done.
    split_and!; [|done|apply Hmove; [done|]].
    + exists r'. split_and!; [done| |done]. by apply recover_work_keeps in Hw as [? _ _ _ _].
    + destruct Hv as [[? ?] ? ? ? ?]. by split.
  - intros n j' Hn (x & Hx & <- & <-)%ledger_lookup; [|done].
    exfalso. destruct Hrec as [_ Hp]. apply (list_elem_of_fmap_2 work_of) in Hx. rewrite Hp in Hx.
    apply list_elem_of_fmap in Hx as (r & Heq & Hr). assert (req_Seq x = req_Seq r) as Hxr.
    { unfold compose in Heq. rewrite recover_request_work in Heq. by apply recover_work_keeps in Heq as [? _ _ _ _]. }
    assert (lg_jobs (ledger_of s) !! req_Seq r = Some (job_of r)) as Hr'; [|by rewrite <- Hxr, Hn in Hr'].
    apply ledger_lookup; [done|]. by exists r.
Qed.

(** ** The refinement *)
Section Refinement.
Context `{!CryptoRoutes}.

Lemma first_open_ledger io c allowed path agent peers admin i :
  first_open io c allowed path agent peers admin = Ok i -> ledger_of (ib_state i) = mkLedger 0 ∅.
Proof.
  intros Ho. pose proof (first_open_inv _ _ _ _ _ _ _ _ Ho) as [_ Hf _]. unfold first_open in Ho.
  destruct (open_spec _ _ _ _ _ _ _ _ None i (set_Version 2 fresh_state) Ho) as [_ Hr Ha _ _].
  - done.
  - apply fresh_inv.
  - unfold ledger_of. by rewrite Hr, Ha.
Qed.

(** Who moves jobs in an operation of the inbox. *)
Definition mover_of (o : op) : mover :=
  match o with Crash _ _ _ _ => Restart | _ => By (authority o) end.

Lemma local_mover o : local o = true -> mover_of o = By (authority o).
Proof using Type. by destruct o. Qed.

Lemma exec_ledger io o x : bounded_op o -> sys_inv x ->
  rtc (ledger_step (mover_of o)) (ledger_of (sys_state x)) (ledger_of (sys_state (exec io o x))).
Proof.
  intros Hb Hx. pose proof Hx as [Hi Hf Hp]. destruct (local o) eqn:Hl.
  - rewrite local_mover by done. destruct (exec_local io o x Hl Hb Hi) as [Hu _]. by apply updates_ledger.
  - destruct o; try done.
    + destruct (exec_post io seq x Hx) as [He _]. unfold sys_state. by rewrite He.
    + eapply (updates_ledger (authority (Answer a))); [by apply exec_answer|done].
    + unfold exec. destruct (openInboxIdentity _ _ _ _ _ _ _ _ _ _ _) as [i'|e] eqn:Eo; [|done].
      destruct (crash_inv _ _ _ _ _ _ _ Eo Hi Hf) as (Hi' & _ & Hrec). by apply rtc_once, recovered_ledger.
Qed.

(** C9. The inbox implements the ledger, for events whose metadata is at most 9995 levels deep
    (deeper ones empty the inbox, see C4). A first opening is the empty ledger, and in every
    reachable state every operation - received event, claim, release, acknowledgement, reply,
    posting and its answer, clarification, suspension, decision, policy, plan, closing - with any
    outcome of its file operation is a sequence of ledger steps on the authority of that
    operation: content never changes, only the host enters jobs and only past the cursor, only
    the holder of the claim's token or a controller that confirms the worker stopped moves a job
    that is taken or interrupted, and an answer leaves its phase only by being delivered. A crash
    and reopening is a step of nobody's: it only marks the taken jobs as interrupted, each with
    its claim. *)
Theorem inbox_refines_ledger :
  (forall io c allowed path agent peers admin i,
     first_open io c allowed path agent peers admin = Ok i -> ledger_of (sys_state (mkSys i None)) = mkLedger 0 ∅) /\
  (forall x io o, reachable x ->
     match o with Ingest e _ => depth (msg_Metadata (ev_Payload e)) <= 9995 | _ => True end ->
     rtc (ledger_step (mover_of o)) (ledger_of (sys_state x)) (ledger_of (sys_state (exec io o x)))).
Proof.
  split; [intros; by eapply first_open_ledger|]. intros x io o Hx%reachable_inv Ho. by apply exec_ledger.
Qed.
End Refinement.

(** ** At a concrete run: two messages, of which a worker takes the first *)
Lemma inbox_refines_ledger_witness :
  rtc (ledger_step (By Host)) (ledger_of (sys_state (demo_run [])))
    (ledger_of (sys_state (@exec demo_routes None (Claim "a" 1 "w1") (demo_run [])))).
Proof. exact (proj2 (@inbox_refines_ledger demo_routes) (demo_run []) None (Claim "a" 1 "w1") (demo_reachable []) I). Defined.

Example ledger_of_run :
  (fun n => job_phase <$> lg_jobs (ledger_of (sys_state (@exec demo_routes None (Claim "a" 1 "w1") (demo_run [])))) !! n)
    <$> [1; 2] = [Some (Taken (mkClaim "w1" (demo_token "a"))); Some Open].
Proof. vm_compute. reflexivity. Qed.

(** A cancelled request can still be answered: [checkRequestClaim] lets an unclaimed request
    pass whatever its status, and [reply] turns only completed ones away. *)
Definition cancelled_then_answered : sys :=
  @run demo_routes [(None, Decide 2 "" "cancel" "user" "" false); (None, ReplyBegin 2 "hello" [""])] (demo_run []).
Example cancelled_request_answered :
  (job_phase <$> lg_jobs (ledger_of (sys_state (@exec demo_routes None (Decide 2 "" "cancel" "user" "" false) (demo_run [])))) !! 2,
   job_phase <$> lg_jobs (ledger_of (sys_state cancelled_then_answered)) !! 2) = (Some Closed, Some (Answering "hello")).
Proof. vm_compute. reflexivity. Qed.
