(* ===== verification/Stream.v ===== *)
(** * The event stream

    [inbox_stream.go] and the stream half of [next]: events are decrypted and verified, handed
    to protocol control, taken into the durable inbox and announced, one at a time and in
    order; a failure stops the stream at that event, and the next connection asks the server
    for everything past the saved cursor. The reading of a connection is given by its lines:
    what the scanner delivers before it ends. *)
From S2P Require Import Prelude GoStrings Json Types InboxState Inbox InboxControl Dispatch.

(** One line of an SSE body: not an event, or the decoding of its data. *)
Inductive sse_line :=
| Other
| Data (e : result inboxEvent).

Definition errEventStreamStalled : string := "event stream stalled; using bounded JSON delivery".
Definition EOF : string := "EOF".

(** The seconds of [eventStreamIdleTimeout]. *)
Definition eventStreamIdleTimeout : Z := 35.

Section Stream.
Context `{!CryptoRoutes}.

(** [decryptInboxEvent] decides whether an event is genuine and yields its plaintext; an
    error leaves the event for a later connection. [control] is the process's protocol work
    and [notify] the announcement, [None] when the caller passes nil. A run has an outcome
    [io seq] for the save of the event with the number [seq]: an event is saved at most once in a
    run, since a save that succeeds moves the cursor to it and one that fails ends the run. *)
Context (decryptInboxEvent : Config -> inboxEvent -> result (bool * inboxEvent)).
Context (control notify : option (inboxEvent -> option string)).

Definition call_hook (hook : option (inboxEvent -> option string)) (e : inboxEvent) : option string :=
  match hook with Some f => f e | None => None end.

(** [acceptStreamEvent]. *)
Definition acceptStreamEvent (io : option string) (i : inbox) (event : inboxEvent)
    : option string * inbox :=
  if ev_Seq event <=? st_After (ib_state i) then (None, i) else
  match decryptInboxEvent (ib_c i) event with
  | Err e => (Some e, i)
  | Ok (false, event) => let '(_, err, i) := ingest io i event false in (err, i)
  | Ok (true, event) =>
      match call_hook control event with
      | Some e => (Some e, i)
      | None =>
          let event := set_Mentioned (mentions (ib_agent i) event) event in
          let '(accepted, err, i) := ingest io i event true in
          match err with
          | Some e => (Some e, i)
          | None => if accepted then (call_hook notify event, i) else (None, i)
          end
      end
  end.

(** The loop of [consumeBatch] over the decoded events. *)
Fixpoint accept_events (io : Z -> option string) (i : inbox) (events : list inboxEvent)
    : option string * inbox :=
  match events with
  | [] => (None, i)
  | event :: rest =>
      let '(err, i) := acceptStreamEvent (io (ev_Seq event)) i event in
      match err with Some e => (Some e, i) | None => accept_events io i rest end
  end.

(** [consumeBatch]: [answer] is the HTTP exchange, down to the decoded array. *)
Definition consumeBatch (io : Z -> option string) (i : inbox) (answer : result (list inboxEvent))
    : option string * inbox :=
  let i := set_stream true "json_wait" i in
  let finish i := set_stream false (ib_streamTransport i) i in
  match answer with
  | Err e => (Some e, finish i)
  | Ok events =>
      let '(err, i) := accept_events io (set_streamError "" i) events in (err, finish i)
  end.

(** The scanner loop of [consumeSSE]. *)
Fixpoint accept_lines (io : Z -> option string) (i : inbox) (lines : list sse_line) : option string * inbox :=
  match lines with
  | [] => (None, i)
  | Other :: rest => accept_lines io i rest
  | Data (Err e) :: _ => (Some e, i)
  | Data (Ok event) :: rest =>
      let '(err, i) := acceptStreamEvent (io (ev_Seq event)) i event in
      match err with Some e => (Some e, i) | None => accept_lines io i rest end
  end.

(** The replay of saved work at the start of a connection. *)
Fixpoint replay (s : inboxState) (l : list inboxRequest) : option string :=
  match l with
  | [] => None
  | r :: rest =>
      if eligible s r then
        match call_hook notify (req_Event r) with Some e => Some e | None => replay s rest end
      else replay s rest
  end.

(** [consumeSSE]: [connect] is the outcome of the request up to a 200 answer, [stalled] whether
    the idle timer ended the body, [scan_error] the scanner's error. *)
Definition consumeSSE (io : Z -> option string) (i : inbox) (connect : result (list sse_line))
    (stalled : bool) (scan_error : option string) : option string * inbox :=
  let saved := copy (ib_state i) in
  match replay saved (st_Requests saved) with
  | Some e => (Some e, i)
  | None =>
      match connect with
      | Err e => (Some (if stalled then errEventStreamStalled else e), i)
      | Ok lines =>
          let i := set_streamError "" (set_stream true "sse" i) in
          let '(err, i) := accept_lines io i lines in
          let i := set_stream false (ib_streamTransport i) i in
          match err with
          | Some e => (Some e, i)
          | None =>
              if stalled then (Some errEventStreamStalled, i)
              else match scan_error with Some e => (Some e, i) | None => (Some EOF, i) end
          end
      end
  end.

(** The stream part of [next]: the first accepted event ends it. *)
Fixpoint next_lines (io : Z -> option string) (i : inbox) (lines : list sse_line) (scan_error : option string)
    : result (option inboxEvent) * inbox :=
  match lines with
  | [] => (Err (match scan_error with Some e => e | None => EOF end), i)
  | Other :: rest => next_lines io i rest scan_error
  | Data (Err e) :: _ => (Err e, i)
  | Data (Ok event) :: rest =>
      match decryptInboxEvent (ib_c i) event with
      | Err e => (Err e, i)
      | Ok (valid, event) =>
          let event := set_Mentioned (mentions (ib_agent i) event) event in
          let '(accepted, err, i) := ingest (io (ev_Seq event)) i event valid in
          match err with
          | Some e => (Err e, i)
          | None => if accepted then (Ok (Some event), i) else next_lines io i rest scan_error
          end
      end
  end.

(** [next]: [connect] is the HTTP exchange of its network part. *)
Definition next (post : SendInput -> result json) (meanwhile : inbox -> inbox)
    (io1 io2 : option string) (io3 : Z -> option string) (i : inbox) (connect : result (list sse_line))
    (scan_error : option string) : result (option inboxEvent) * inbox :=
  let '(v, i) := next_begin post meanwhile io1 io2 i in
  match v with
  | Some v => (v, i)
  | None =>
      match connect with
      | Err e => (Err e, i)
      | Ok lines => next_lines io3 i lines scan_error
      end
  end.

(** ** Reconnection ([streamWithIdleTimeout]) *)
Record stream_mode := mkMode { sm_delay : Z; sm_batch : bool }.
Definition stream_start : stream_mode := mkMode 1 false.

(** After one connection with error [err]: the next mode, and the delay to sleep, if any. *)
Definition stream_next (m : stream_mode) (err : option string) : stream_mode * option Z :=
  match err with
  | None => (mkMode 1 (sm_batch m), None)
  | Some e =>
      if bool_decide (e = errEventStreamStalled) then (mkMode (sm_delay m) true, None)
      else
        let delay := if sm_delay m <? 30
                     then (if 30 <? sm_delay m * 2 then 30 else sm_delay m * 2)
                     else sm_delay m in
        (mkMode delay (sm_batch m), Some (sm_delay m))
  end.

(** What one connection meets: the SSE body or the batch, as the mode asks. *)
Record connection := mkConnection {
  cn_sse : result (list sse_line); cn_stalled : bool; cn_scan : option string;
  cn_batch : result (list inboxEvent); cn_io : Z -> option string }.

(** One turn of the loop: the connection, then the recorded error and the new mode. *)
Definition stream_turn (m : stream_mode) (c : connection) (i : inbox) : stream_mode * option Z * inbox :=
  let '(err, i) := if sm_batch m then consumeBatch (cn_io c) i (cn_batch c)
                   else consumeSSE (cn_io c) i (cn_sse c) (cn_stalled c) (cn_scan c) in
  let '(m', sleep) := stream_next m err in
  (m', sleep, match sleep, err with Some _, Some e => set_streamError e i | _, _ => i end).
End Stream.
