(* ===== verification/DispatchTheorems.v ===== *)
(** * What dispatch and the stream guarantee

    Notices are complete, are sent once, and carry identifiers only; waiting observes and
    never takes work; a broken stream resumes without losing or repeating an event. *)
From S2P Require Import Prelude GoStrings Json Types InboxState Inbox InboxControl InboxFacts.
From S2P Require Import PlanFacts RequestMachine InboxSafety InboxSystem InboxTheorems Dispatch Stream.

(** ** The notice loop *)
Section Round.
Context (s : inboxState).

Lemma dispatch_sent seen live l j :
  NoDup (req_Seq <$> l) ->
  j ∈ (dispatch_requests s seen live l).1 <->
  exists r kind key, r ∈ l /\ notice_of s r = Some (kind, key) /\ seen !! req_Seq r <> Some key /\
                     j = notice_json r kind key.
Proof using Type.
  revert seen live. induction l as [|r l IH]; intros seen live Hnd; simpl.
  - split; [by intros ?%elem_of_nil|]. by intros (? & ? & ? & ?%elem_of_nil & _).
  - apply NoDup_cons in Hnd as [Hr Hnd].
    assert (forall x, x ∈ l -> req_Seq x <> req_Seq r) as Hne.
    { intros x Hx Heq. apply Hr. rewrite <- Heq. by apply list_elem_of_fmap_2. }
    assert (forall f, (exists x kind key, x ∈ r :: l /\ notice_of s x = Some (kind, key) /\ f x key /\
              j = notice_json x kind key) <->
            (exists kind key, notice_of s r = Some (kind, key) /\ f r key /\ j = notice_json r kind key) \/
            (exists x kind key, x ∈ l /\ notice_of s x = Some (kind, key) /\ f x key /\
              j = notice_json x kind key)) as Hsplit.
    { intros f. setoid_rewrite elem_of_cons. split.
      - intros (x & k & key & [->|Hx] & H); [left; eauto|right; exists x, k, key; tauto].
      - intros [(k & key & H)|(x & k & key & Hx & H)]; [exists r, k, key; tauto|exists x, k, key; tauto]. }
    rewrite (Hsplit (fun x key => seen !! req_Seq x <> Some key)).
    destruct (notice_of s r) as [[kind key]|] eqn:En.
    + destruct (bool_decide_reflect (seen !! req_Seq r = Some key)) as [Hs|Hs].
      * rewrite IH by done. split; [auto|]. intros [(k & key' & [= <- <-] & Hk & _)|H]; done.
      * destruct (dispatch_requests s (<[req_Seq r:=key]> seen) _ l) as [sent final] eqn:Ed.
        simpl. rewrite elem_of_cons.
        specialize (IH (<[req_Seq r:=key]> seen) (<[req_Seq r:=key]> live) Hnd). rewrite Ed in IH. simpl in IH.
        rewrite IH. clear IH Hsplit. split.
        -- intros [->|(x & k & key' & Hx & H1 & H2 & H3)]; [left; by exists kind, key|].
           right. exists x, k, key'. rewrite lookup_insert_ne in H2 by (symmetry; by apply Hne). done.
        -- intros [(k & key' & [= <- <-] & _ & ->)|(x & k & key' & Hx & H1 & H2 & H3)]; [by left|].
           right. exists x, k, key'. rewrite lookup_insert_ne by (symmetry; by apply Hne). done.
    + rewrite IH by done. split; [auto|]. intros [(k & key' & ? & _)|H]; done.
Qed.

(** The final [seen]: the current key of every request that has a notice. *)
Lemma dispatch_live seen live l :
  NoDup (req_Seq <$> l) ->
  (forall r kind key, r ∈ l -> notice_of s r = Some (kind, key) ->
     (dispatch_requests s seen live l).2 !! req_Seq r = Some key) /\
  (forall seq, (forall r, r ∈ l -> req_Seq r = seq -> notice_of s r = None) ->
     (dispatch_requests s seen live l).2 !! seq = live !! seq).
Proof using Type.
  revert seen live. induction l as [|r l IH]; intros seen live Hnd; simpl.
  - split; [by intros ? ? ? ?%elem_of_nil|done].
  - apply NoDup_cons in Hnd as [Hr Hnd].
    assert (forall x, x ∈ l -> req_Seq x <> req_Seq r) as Hne.
    { intros x Hx Heq. apply Hr. rewrite <- Heq. by apply list_elem_of_fmap_2. }
    destruct (notice_of s r) as [[kind key]|] eqn:En.
    + assert (exists seen', (match (if bool_decide (seen !! req_Seq r = Some key)
          then dispatch_requests s seen (<[req_Seq r:=key]> live) l
          else let '(sent, final) := dispatch_requests s (<[req_Seq r:=key]> seen) (<[req_Seq r:=key]> live) l
               in (notice_json r kind key :: sent, final)) with (_, f) => f end)
          = (dispatch_requests s seen' (<[req_Seq r:=key]> live) l).2) as [seen' Heq].
      { destruct (bool_decide _); [by exists seen|]. exists (<[req_Seq r:=key]> seen).
        by destruct (dispatch_requests s (<[req_Seq r:=key]> seen) _ l). }
      unfold snd. rewrite Heq. destruct (IH seen' (<[req_Seq r:=key]> live) Hnd) as [H1 H2]. split.
      * intros x k key' [->|Hx]%elem_of_cons Hn.
        -- rewrite H2; [rewrite lookup_insert_eq; congruence|]. intros y Hy Hs. by apply Hne in Hy.
        -- by apply (H1 x k).
      * intros seq Hseq. rewrite H2.
        -- apply lookup_insert_ne. intros Hs. rewrite (Hseq r) in En; [done|apply list_elem_of_here|done].
        -- intros x Hx. apply Hseq. by apply list_elem_of_further.
    + destruct (IH seen live Hnd) as [H1 H2]. split.
      * intros x k key' [->|Hx]%elem_of_cons Hn; [congruence|]. by apply (H1 x k).
      * intros seq Hseq. apply H2. intros x Hx. apply Hseq. by apply list_elem_of_further.
Qed.
End Round.

(** Every notice is sent exactly once. A round of the notice loop announces precisely
    the requests that deserve a notice under a key not announced before, and a second round
    on an unchanged inbox announces nothing. *)
Theorem dispatch_round_exact i seen :
  valid_state (ib_state i) ->
  (forall j, j ∈ (dispatch_round i seen).1 <->
     exists r kind key, r ∈ st_Requests (ib_state i) /\ notice_of (ib_state i) r = Some (kind, key) /\
       seen !! req_Seq r <> Some key /\ j = notice_json r kind key) /\
  (dispatch_round i (dispatch_round i seen).2).1 = [].
Proof.
  intros Hv. pose proof (vs_nodup _ Hv) as Hnd. unfold dispatch_round. rewrite copy_valid by done.
  split; [intros j; by apply dispatch_sent|].
  apply elem_of_nil_inv. intros j Hj. apply dispatch_sent in Hj as (r & k & key & Hr & Hn & Hne & _); [|done].
  apply Hne. by apply (proj1 (dispatch_live (ib_state i) seen ∅ (st_Requests (ib_state i)) Hnd) r k key).
Qed.

Lemma dispatch_round_exact_witness :
  let i := sys_inbox (demo_run [(None, Claim "a" 1 "w1")]) in
  (forall j, j ∈ (dispatch_round i ∅).1 <->
     exists r kind key, r ∈ st_Requests (ib_state i) /\ notice_of (ib_state i) r = Some (kind, key) /\
       (∅ : gmap Z string) !! req_Seq r <> Some key /\ j = notice_json r kind key) /\
  (dispatch_round i (dispatch_round i ∅).2).1 = [].
Proof. exact (dispatch_round_exact _ ∅ (demo_valid _)). Defined.

(** ** Peer content in notices *)

(** A message, an event and a request without what peers and workers wrote in them. *)
Definition erase_message (m : Message) : Message :=
  mkMessage "" None None None (msg_Seq m) (msg_ID m) (msg_ChannelID m) (msg_AgentID m) "" ""
    (msg_Metadata m) [] [] (msg_ReplyTo m) 0.
Definition erase_event (e : inboxEvent) : inboxEvent := set_Payload (erase_message (ev_Payload e)) e.
Definition erase_request (r : inboxRequest) : inboxRequest :=
  set_Summary "" (set_Context "" (map_Event erase_event r)).
Definition erase_state (s : inboxState) : inboxState :=
  set_Requests (erase_request <$> st_Requests s) s.

Lemma erase_valid s : valid_state s -> valid_state (erase_state s).
Proof.
  intros [Hv Ha Hr Hn Hs Hd]. split; simpl; [done|done| | | |].
  - apply Forall_fmap. eapply Forall_impl; [exact Hr|]. intros r []. by split.
  - by rewrite <- list_fmap_compose.
  - by apply desc_fmap.
  - destruct Hd as [Hd Hp]. split; [|done]. simpl. apply Forall_fmap. exact Hd.
Qed.

Lemma erase_lookup s seq :
  lookup_request (erase_state s) seq = prod_map id erase_request <$> lookup_request s seq.
Proof. unfold lookup_request, erase_state; simpl. by rewrite list_find_fmap. Qed.

Lemma erase_eligible s r :
  valid_state s -> eligible (erase_state s) (erase_request r) = eligible s r.
Proof.
  intros Hv. apply eq_true_iff_eq. rewrite !eligible_iff by auto using erase_valid.
  assert (is_lifecycle (req_Event (erase_request r)) = is_lifecycle (req_Event r)) as -> by done.
  assert (schedulable (erase_state s) (erase_request r) <-> schedulable s r) as Hs; [|by rewrite Hs].
  assert (running_count (erase_state s) = running_count s) as Hrun.
  { unfold running_count, erase_state; simpl. by rewrite length_filter_fmap. }
  assert (forall seq, dep_completed (erase_state s) seq <-> dep_completed s seq) as Hdep.
  { intros seq. unfold dep_completed. rewrite erase_lookup.
    destruct (lookup_request s seq) as [[n d]|]; simpl; [|by split; intros (? & ? & ? & _)].
    split; intros (n' & d' & Heq & Hd); simplify_eq; by eexists _, _. }
  split; intros [H1 H2 H3].
  - split; [by rewrite <- Hrun|eapply Forall_impl; [exact H2|]; intros; by apply Hdep|].
    intros a Ha. exact (H3 (erase_request a) (list_elem_of_fmap_2 erase_request _ _ Ha)).
  - split; [by rewrite Hrun|eapply Forall_impl; [exact H2|]; intros; by apply Hdep|].
    intros a (a0 & -> & Ha)%list_elem_of_fmap. exact (H3 a0 Ha).
Qed.

Lemma erase_dispatch s seen live l :
  valid_state s ->
  dispatch_requests (erase_state s) seen live (erase_request <$> l) = dispatch_requests s seen live l.
Proof.
  intros Hv. revert seen live. induction l as [|r l IH]; intros seen live; simpl; [done|].
  assert (notice_of (erase_state s) (erase_request r) = notice_of s r) as ->.
  { unfold notice_of. by rewrite erase_eligible. }
  change (req_Seq (erase_request r)) with (req_Seq r).
  destruct (notice_of s r) as [[kind key]|]; [|apply IH].
  case_match; [apply IH|]. by rewrite IH.
Qed.

(** Notices carry identifiers only. The wake-ups a host receives do not depend on the
    text, author name, attachments or reply previews of peer messages, nor on the context and
    summaries of the work: with all of them erased the notices are the same. *)
Theorem notices_hide_content i seen :
  valid_state (ib_state i) ->
  inboundNotification <$> (dispatch_round (set_state (erase_state (ib_state i)) i) seen).1 =
  inboundNotification <$> (dispatch_round i seen).1.
Proof.
  intros Hv. f_equal. unfold dispatch_round. cbn [ib_state set_state].
  rewrite !copy_valid by auto using erase_valid. cbn [st_Requests erase_state set_Requests].
  by rewrite erase_dispatch.
Qed.

Lemma notices_hide_content_witness :
  let i := sys_inbox (demo_run [(None, Claim "a" 1 "w1")]) in
  inboundNotification <$> (dispatch_round (set_state (erase_state (ib_state i)) i) ∅).1 =
  inboundNotification <$> (dispatch_round i ∅).1.
Proof. exact (notices_hide_content _ ∅ (demo_valid _)). Defined.

(** ** Waiting *)
Section Wait.
Context `{!CryptoRoutes}.

Definition review_event (r : inboxRequest) : bool :=
  bool_decide (ev_Kind (req_Event r) = "join_requested") || is_lifecycle (req_Event r).

Lemma find_candidate_spec i worker notices l :
  match (find_candidate i worker notices l).1 with
  | Some r => r ∈ l /\ eligible (ib_state i) r = true /\ accepts i (req_Event r) = true
  | None => forall r, r ∈ l -> eligible (ib_state i) r = true -> accepts i (req_Event r) = true ->
              review_event r = true /\ join_key worker r ∈ notices
  end.
Proof using Type.
  induction l as [|r l IH]; simpl; [by intros ? ?%elem_of_nil|].
  destruct (eligible (ib_state i) r) eqn:He; simpl; cycle 1.
  { destruct (find_candidate i worker notices l) as [[x|] n]; simpl in *.
    - destruct IH as (? & ? & ?). split_and!; [by apply list_elem_of_further|done..].
    - intros x [->|Hx]%elem_of_cons; [congruence|auto]. }
  destruct (accepts i (req_Event r)) eqn:Ha; simpl; cycle 1.
  { destruct (find_candidate i worker notices l) as [[x|] n]; simpl in *.
    - destruct IH as (? & ? & ?). split_and!; [by apply list_elem_of_further|done..].
    - intros x [->|Hx]%elem_of_cons; [congruence|auto]. }
  change (bool_decide (ev_Kind (req_Event r) = "join_requested") || is_lifecycle (req_Event r))
    with (review_event r).
  destruct (review_event r) eqn:Hrev; [|split_and!; [apply list_elem_of_here|done..]].
  destruct (bool_decide_reflect (join_key worker r ∈ notices)) as [Hk|Hk];
    [|split_and!; [apply list_elem_of_here|done..]].
  destruct (find_candidate i worker notices l) as [[x|] n]; simpl in *.
  - destruct IH as (? & ? & ?). split_and!; [by apply list_elem_of_further|done..].
  - intros x [->|Hx]%elem_of_cons; auto.
Qed.

Lemma find_question_spec worker notices l r :
  (find_question worker notices l).1 = Some r ->
  r ∈ l /\ exists a, req_Approval r = Some a /\ ap_Delivery a = "pending" /\
                     worker +:+ ":" +:+ ap_ID a ∉ notices.
Proof using Type.
  induction l as [|x l IH]; simpl; [done|].
  assert ((find_question worker notices l).1 = Some r -> r ∈ x :: l /\ exists a, req_Approval r = Some a
    /\ ap_Delivery a = "pending" /\ worker +:+ ":" +:+ ap_ID a ∉ notices) as Hrec.
  { intros [H1 H2]%IH. split; [by apply list_elem_of_further|done]. }
  destruct (req_Approval x) as [a|] eqn:Ea; [|done].
  destruct (bool_decide_reflect (ap_Delivery a <> "pending")) as [|Hd]; [done|]. apply dec_stable in Hd.
  destruct (bool_decide_reflect (worker +:+ ":" +:+ ap_ID a ∈ notices)) as [|Hk]; [done|].
  intros [= <-]. split; [apply list_elem_of_here|]. by exists a.
Qed.
End Wait.

(** Waiting only observes. A poll of the delegated listener leaves the durable state, the
    file and every claim as they are. What it returns is work that is claimable now and from
    an accepted sender, or else a question not yet handed to this worker; it blocks only when
    all claimable work is a join review or connection notice this worker was already shown. *)
Theorem wait_observes `{!CryptoRoutes} i worker res i' :
  valid_state (ib_state i) -> ib_closed i = false -> wait_poll None i worker = (res, i') ->
  ib_state i' = ib_state i /\ ib_file i' = ib_file i /\
  match res with
  | Some v =>
      (exists r, r ∈ st_Requests (ib_state i) /\ eligible (ib_state i) r = true /\
         accepts i (req_Event r) = true /\ v = Ok (candidate_result r)) \/
      (exists r a, r ∈ st_Requests (ib_state i) /\ req_Approval r = Some a /\ ap_Delivery a = "pending" /\
         v = Ok (question_result r))
  | None => forall r, r ∈ st_Requests (ib_state i) -> eligible (ib_state i) r = true ->
              accepts i (req_Event r) = true ->
              review_event r = true /\ join_key worker r ∈ ib_questionNotices i
  end.
Proof.
  intros Hv Hc Hw. unfold wait_poll in Hw. rewrite Hc, migrate_fix in Hw by done. cbn [snd] in Hw.
  replace (set_state (ib_state i) i) with i in Hw by by destruct i.
  pose proof (find_candidate_spec i worker (ib_questionNotices i) (st_Requests (ib_state i))) as Hcand.
  destruct (find_candidate i worker _ _) as [[r|] notices]; simpl in Hw, Hcand.
  - injection Hw as <- <-. split_and!; [done|done|]. left. exists r.
    destruct Hcand as (? & ? & ?). by split_and!.
  - pose proof (find_question_spec worker notices (st_Requests (ib_state i))) as Hq.
    destruct (find_question worker notices _) as [[r|] notices']; simpl in Hw, Hq; injection Hw as <- <-;
      (split_and!; [done|done|]); [|done].
    right. destruct (Hq r eq_refl) as (Hr & a & Ha & Hd & _). by exists r, a.
Qed.

Definition demo_poll : option (result json) * inbox :=
  @wait_poll demo_routes None (sys_inbox (demo_run [])) "listener".

Lemma demo_poll_eq :
  @wait_poll demo_routes None (sys_inbox (demo_run [])) "listener" = (demo_poll.1, demo_poll.2).
Proof. unfold demo_poll. apply pair_eta. Qed.

Lemma demo_poll_some : is_Some demo_poll.1.
Proof. vm_compute. by eexists. Qed.

Lemma wait_observes_witness :
  let i := sys_inbox (demo_run []) in
  ib_state demo_poll.2 = ib_state i /\ ib_file demo_poll.2 = ib_file i /\
  match demo_poll.1 with
  | Some v =>
      (exists r, r ∈ st_Requests (ib_state i) /\ eligible (ib_state i) r = true /\
         @accepts demo_routes i (req_Event r) = true /\ v = Ok (candidate_result r)) \/
      (exists r a, r ∈ st_Requests (ib_state i) /\ req_Approval r = Some a /\ ap_Delivery a = "pending" /\
         v = Ok (question_result r))
  | None => forall r, r ∈ st_Requests (ib_state i) -> eligible (ib_state i) r = true ->
              @accepts demo_routes i (req_Event r) = true ->
              review_event r = true /\ join_key "listener" r ∈ ib_questionNotices i
  end.
Proof.
  exact (@wait_observes demo_routes (sys_inbox (demo_run [])) "listener" demo_poll.1 demo_poll.2
           (demo_valid []) ltac:(vm_compute; reflexivity)
           demo_poll_eq).
Defined.

(** ** The stream *)
Section StreamFacts.
Context `{!CryptoRoutes}.
Context (decrypt : Config -> inboxEvent -> result (bool * inboxEvent)).
Context (decrypt_seq : forall c e b e', decrypt c e = Ok (b, e') -> ev_Seq e' = ev_Seq e).
Context (control notify : option (inboxEvent -> option string)).

(** The cursor of a version-2 inbox that [copy] keeps or, past its depth bound, resets. *)
Record cursor_ok (s : inboxState) : Prop := { co_version : st_Version s = 2; co_after : 0 <= st_After s }.

Lemma inv_cursor s : inv s -> cursor_ok s.
Proof using Type. intros [[Hv Ha _ _ _ _] _ _ _]. by split. Qed.

Lemma migrate_cursor s : st_Version s = 2 ->
  st_After (migrate s).2 = st_After s /\ st_Version (migrate s).2 = 2.
Proof using Type.
  intros Hv. unfold migrate, migrate_v1. rewrite Hv. simpl. by repeat case_match; simplify_eq/=.
Qed.

Lemma copy_cursor s : cursor_ok s ->
  st_Version (copy s) = 2 /\ (st_After (copy s) = st_After s \/ st_After (copy s) = 0).
Proof using Type.
  intros [Hv Ha]. unfold copy. destruct (too_deep s); [by split; [|right]|].
  destruct (migrate_cursor s Hv) as [-> ->]. auto.
Qed.

Lemma save_cursor io i s err i' : st_Version s = 2 -> save io i s = (err, i') ->
  (err <> None /\ i' = i) \/
  (err = None /\ st_Version (ib_state i') = 2 /\ st_After (ib_state i') = st_After s).
Proof using Type.
  intros Hv E. destruct err as [e|]; [left; by apply save_error in E as ->|right].
  apply save_valid in E as (s' & Hm & ->). destruct (migrate_cursor s Hv) as [Ha' Hv']. rewrite Hm in Ha', Hv'.
  simpl in Ha', Hv'. split; [done|]. unfold installed. cbn [ib_state set_state set_file signalUpdate].
  destruct (project_form (disk_form s')) as (e & y & c & -> & _).
  destruct (migrate_cursor (disk_form s') Hv') as [Ha2 Hv2]. split; [exact Hv2|]. rewrite <- Ha'. exact Ha2.
Qed.

(** One event past the cursor: taken, or the inbox is as it was. *)
Lemma ingest_cursor io i e valid work err i' :
  cursor_ok (ib_state i) -> st_After (ib_state i) < ev_Seq e -> ingest io i e valid = (work, err, i') ->
  cursor_ok (ib_state i') /\ (err = None -> st_After (ib_state i') = ev_Seq e) /\ (err <> None -> i' = i).
Proof using Type.
  intros Hc Hlt E. pose proof (co_after _ Hc). unfold ingest in E. destruct (copy_cursor _ Hc) as [Hv Ha].
  rewrite (proj2 (Z.leb_gt _ _)) in E by lia. cbn zeta in E.
  assert (forall rs b, (let '(err, i) := save io i (set_Requests rs (set_After (ev_Seq e) (copy (ib_state i)))) in (b, err, i))
      = (work, err, i') ->
    cursor_ok (ib_state i') /\ (err = None -> st_After (ib_state i') = ev_Seq e) /\ (err <> None -> i' = i)) as Hsave.
  { intros rs b Hs. destruct (save io i (set_Requests rs _)) as [err1 i1] eqn:Es. injection Hs as <- <- <-.
    destruct (save_cursor _ _ (set_Requests rs (set_After (ev_Seq e) (copy (ib_state i)))) _ _ Hv Es) as [[Hne ->]|(-> & Hv' & Ha')]; [by split_and!|].
    split_and!; [|done|done]. split; [done|]. rewrite Ha'. simpl. lia. }
  change (ev_Seq (set_Mentioned _ e)) with (ev_Seq e) in E.
  destruct (valid && accepts i (set_Mentioned (mentions (ib_agent i) e) e)); [destruct (classification _)|].
  - exact (Hsave _ _ E).
  - exact (Hsave _ _ E).
  - exact (Hsave (st_Requests (copy (ib_state i))) _ E).
Qed.

(** One event of the stream: the cursor stays or reaches it, and reaches it without an error. *)
Lemma accept_cursor io i e err i' :
  cursor_ok (ib_state i) -> acceptStreamEvent decrypt control notify io i e = (err, i') ->
  cursor_ok (ib_state i') /\
  (err = None -> st_After (ib_state i') = Z.max (st_After (ib_state i)) (ev_Seq e)) /\
  (st_After (ib_state i') = st_After (ib_state i) \/
   st_After (ib_state i') = Z.max (st_After (ib_state i)) (ev_Seq e)).
Proof using decrypt_seq.
  intros Hi. unfold acceptStreamEvent.
  destruct (Z.leb_spec (ev_Seq e) (st_After (ib_state i))) as [Hle|Hlt].
  { intros [= <- <-]. split_and!; [done|lia|lia]. }
  destruct (decrypt (ib_c i) e) as [[valid e1]|derr] eqn:Ed; cycle 1.
  { intros [= <- <-]. split_and!; [done|done|lia]. }
  pose proof (decrypt_seq _ _ _ _ Ed) as Hseq. rewrite <- Hseq in Hlt |- *.
  destruct valid.
  - destruct (call_hook control e1) as [cerr|].
    { intros [= <- <-]. split_and!; [done|done|lia]. }
    destruct (ingest io i _ true) as [[acc e2] i2] eqn:Ei.
    apply ingest_cursor in Ei as (H1 & H2 & H3); [|done|done]. cbn [ev_Seq set_Mentioned] in H2.
    destruct e2 as [x|].
    + intros [= <- <-]. rewrite H3 by done. split_and!; [done|done|lia].
    + specialize (H2 eq_refl). destruct acc; intros [= <- <-]; (split_and!; [done|lia|lia]).
  - destruct (ingest io i e1 false) as [[acc e2] i2] eqn:Ei.
    apply ingest_cursor in Ei as (H1 & H2 & H3); [|done|done]. intros [= <- <-].
    split_and!; [done|intros ->; rewrite H2; [lia|done]|]. destruct e2; [rewrite H3 by done; lia|rewrite H2 by done; lia].
Qed.

Lemma accept_mono io i es err i' :
  cursor_ok (ib_state i) -> accept_events decrypt control notify io i es = (err, i') ->
  st_After (ib_state i) <= st_After (ib_state i').
Proof using decrypt_seq.
  revert i. induction es as [|y l IH]; intros i Hi Hrun; simpl in Hrun; [simplify_eq; lia|].
  destruct (acceptStreamEvent decrypt control notify _ i y) as [e1 i2] eqn:E.
  destruct (accept_cursor _ _ _ _ _ Hi E) as (Hi2 & _ & Hor).
  destruct e1; [simplify_eq; lia|]. specialize (IH i2 Hi2 Hrun). lia.
Qed.

Lemma accept_skip io i es :
  Forall (fun e => ev_Seq e <= st_After (ib_state i)) es ->
  forall rest, accept_events decrypt control notify io i (es ++ rest)
             = accept_events decrypt control notify io i rest.
Proof using Type.
  induction 1 as [|e es He _ IH]; intros rest; [done|]. simpl. unfold acceptStreamEvent.
  rewrite (proj2 (Z.leb_le _ _)) by done. apply IH.
Qed.
End StreamFacts.

(** C37. A broken stream resumes. Events arrive in increasing order; when their processing
    stops, at an error or at the end, they split into those taken, all at or below the new
    cursor, and the rest, all past it; without an error nothing is left. Processing the same
    list again, under any later outcomes of the saves, is processing the rest: none is lost and
    none is handled twice. Each save has an outcome of its own. *)
Theorem stream_resumes `{!CryptoRoutes} decrypt control notify io i es err i' :
  (forall c e b e', decrypt c e = Ok (b, e') -> ev_Seq e' = ev_Seq e) ->
  inv (ib_state i) -> StronglySorted (fun a b => ev_Seq a < ev_Seq b) es ->
  accept_events decrypt control notify io i es = (err, i') ->
  exists taken rest, es = taken ++ rest /\
    Forall (fun e => ev_Seq e <= st_After (ib_state i')) taken /\
    Forall (fun e => st_After (ib_state i') < ev_Seq e) rest /\
    (err = None -> rest = []) /\
    forall io', accept_events decrypt control notify io' i' es
              = accept_events decrypt control notify io' i' rest.
Proof.
  intros Hseq Hi Hs Hrun.
  assert (exists taken rest, es = taken ++ rest /\
    Forall (fun e => ev_Seq e <= st_After (ib_state i')) taken /\
    Forall (fun e => st_After (ib_state i') < ev_Seq e) rest /\ (err = None -> rest = []))
    as (taken & rest & -> & H1 & H2 & H3); cycle 1.
  { exists taken, rest. split_and!; try done. intros io'. by apply accept_skip. }
  apply inv_cursor in Hi.
  revert i Hi Hrun. induction Hs as [|e es Hs IH Hall]; intros i Hi Hrun; simpl in Hrun.
  { simplify_eq. by exists [], []. }
  destruct (acceptStreamEvent decrypt control notify _ i e) as [err1 i1] eqn:E.
  destruct (accept_cursor decrypt Hseq control notify _ _ _ _ _ Hi E) as (Hi1 & Hok & Hor).
  destruct err1 as [x|].
  - simplify_eq. destruct (Z.leb_spec (ev_Seq e) (st_After (ib_state i'))) as [Hle|Hgt].
    + exists [e], es. split_and!; [done|by apply Forall_singleton| |done].
      eapply Forall_impl; [exact Hall|]. intros b Hb. simpl in Hb.
      assert (st_After (ib_state i) < ev_Seq e) as Hlt; [|lia].
      unfold acceptStreamEvent in E.
      destruct (Z.leb_spec (ev_Seq e) (st_After (ib_state i))); [by simplify_eq|done].
    + exists [], (e :: es). split_and!; [done|done| |done]. constructor; [done|].
      eapply Forall_impl; [exact Hall|]. intros b Hb. simpl in Hb. lia.
  - specialize (Hok eq_refl).
    destruct (IH i1 Hi1 Hrun) as (taken & rest & -> & H1 & H2 & H3).
    exists (e :: taken), rest. split_and!; try done. constructor; [|done].
    pose proof (accept_mono decrypt Hseq control notify _ _ _ _ _ Hi1 Hrun). lia.
Qed.

Definition demo_decrypt (c : Config) (e : inboxEvent) : result (bool * inboxEvent) :=
  if ev_Seq e =? 6 then Err "decryption state busy" else Ok (true, e).

Definition demo_events : list inboxEvent := [demo_message 5 "m5"; demo_message 6 "m6"; demo_message 7 "m7"].

Definition demo_accept : option string * inbox :=
  @accept_events demo_routes demo_decrypt None None (fun _ => None) (sys_inbox (demo_run [])) demo_events.

Lemma demo_accept_eq :
  @accept_events demo_routes demo_decrypt None None (fun _ => None) (sys_inbox (demo_run [])) demo_events
  = (demo_accept.1, demo_accept.2).
Proof. unfold demo_accept. apply pair_eta. Qed.

Lemma demo_decrypt_seq c e b e' : demo_decrypt c e = Ok (b, e') -> ev_Seq e' = ev_Seq e.
Proof. unfold demo_decrypt. case_match; [done|]. by intros [= _ <-]. Qed.

Lemma stream_resumes_witness :
  exists taken rest, demo_events = taken ++ rest /\
    Forall (fun e => ev_Seq e <= st_After (ib_state demo_accept.2)) taken /\
    Forall (fun e => st_After (ib_state demo_accept.2) < ev_Seq e) rest /\
    (demo_accept.1 = None -> rest = []) /\
    forall io', @accept_events demo_routes demo_decrypt None None io' demo_accept.2 demo_events
              = @accept_events demo_routes demo_decrypt None None io' demo_accept.2 rest.
Proof.
  exact (@stream_resumes demo_routes demo_decrypt None None (fun _ => None) (sys_inbox (demo_run [])) demo_events
           demo_accept.1 demo_accept.2 demo_decrypt_seq (demo_inbox_inv []) ltac:(repeat constructor) demo_accept_eq).
Defined.

(** A forged event is no work. An event that fails verification advances the cursor, so
    it cannot hold the stream, but it creates no request and reaches neither the process's
    control nor any host. *)
Theorem forged_event_is_no_work `{!CryptoRoutes} decrypt control notify i e e' :
  inv (ib_state i) -> shallow_event e' -> st_After (ib_state i) < ev_Seq e -> ev_Seq e' = ev_Seq e ->
  decrypt (ib_c i) e = Ok (false, e') ->
  exists i', (forall control' notify', acceptStreamEvent decrypt control' notify' None i e = (None, i')) /\
    acceptStreamEvent decrypt control notify None i e = (None, i') /\
    st_After (ib_state i') = ev_Seq e /\ st_Requests (ib_state i') ≡ₚ st_Requests (ib_state i).
Proof.
  intros Hi Hsh Hlt Hs Hd. destruct (ingest None i e' false) as [[work err] i'] eqn:E.
  rewrite <- Hs in Hlt. destruct (ingest_effect i e' false work err i' Hi Hsh Hlt E) as (-> & _ & Ha & _ & Hr).
  assert (forall control' notify', acceptStreamEvent decrypt control' notify' None i e = (None, i')) as Hall.
  { intros control' notify'. unfold acceptStreamEvent. rewrite <- Hs, (proj2 (Z.leb_gt _ _)) by done.
    by rewrite Hd, E. }
  exists i'. split; [exact Hall|]. split; [apply Hall|]. split; [congruence|exact Hr].
Qed.

Definition demo_forged (c : Config) (e : inboxEvent) : result (bool * inboxEvent) := Ok (false, e).

Lemma forged_event_is_no_work_witness :
  exists i', (forall control' notify', @acceptStreamEvent demo_routes demo_forged control' notify' None
                (sys_inbox (demo_run [])) (demo_message 8 "m8") = (None, i')) /\
    @acceptStreamEvent demo_routes demo_forged None None None (sys_inbox (demo_run [])) (demo_message 8 "m8")
      = (None, i') /\
    st_After (ib_state i') = ev_Seq (demo_message 8 "m8") /\
    st_Requests (ib_state i') ≡ₚ st_Requests (ib_state (sys_inbox (demo_run []))).
Proof.
  exact (@forged_event_is_no_work demo_routes demo_forged None None (sys_inbox (demo_run []))
           (demo_message 8 "m8") (demo_message 8 "m8") (demo_inbox_inv []) ltac:(vm_compute; discriminate) ltac:(vm_compute; reflexivity) eq_refl eq_refl).
Defined.

(** ** Retry delays *)
Definition stream_modes (errs : list (option string)) : stream_mode :=
  fold_left (fun m e => (stream_next m e).1) errs stream_start.
Definition outbox_delays (failures : list bool) : Z := fold_left (fun d f => outbox_delay f d) failures 1.

Lemma stream_next_bounds m e :
  1 <= sm_delay m <= 30 ->
  1 <= sm_delay (stream_next m e).1 <= 30 /\
  (forall sleep, (stream_next m e).2 = Some sleep -> 1 <= sleep <= 30) /\
  (sm_batch m = true -> sm_batch (stream_next m e).1 = true).
Proof.
  intros Hm. unfold stream_next. destruct e as [e|]; simpl; [|split_and!; [lia|lia|done|done]].
  destruct (bool_decide _); simpl; [split_and!; [lia|lia|done|done]|].
  split; [repeat case_match; bool_simpl; lia|]. split; [intros sleep [= <-]; lia|done].
Qed.

Lemma stream_modes_bounds errs m :
  1 <= sm_delay m <= 30 ->
  1 <= sm_delay (fold_left (fun m e => (stream_next m e).1) errs m) <= 30 /\
  (sm_batch m = true -> sm_batch (fold_left (fun m e => (stream_next m e).1) errs m) = true).
Proof.
  revert m. induction errs as [|e errs IH]; intros m Hm; [done|]. simpl.
  destruct (stream_next_bounds m e Hm) as (H1 & _ & H3). destruct (IH _ H1). auto.
Qed.

Lemma outbox_delays_powers failures d :
  d ∈ [1; 2; 4; 8; 16; 32] -> fold_left (fun d f => outbox_delay f d) failures d ∈ [1; 2; 4; 8; 16; 32].
Proof.
  revert d. induction failures as [|f failures IH]; intros d Hd; [done|]. simpl. apply IH.
  rewrite !elem_of_cons, elem_of_nil in *. unfold outbox_delay. destruct f; [|lia].
  case_match; lia.
Qed.

(** Retries are bounded. Whatever the history of failures, the event stream reconnects
    after one to thirty seconds and, once it fell back to bounded batches, stays with them;
    the outbox retries after one to thirty-two seconds, and a success resets the delay. *)
Theorem retries_bounded errs failures :
  1 <= sm_delay (stream_modes errs) <= 30 /\
  (forall e sleep, (stream_next (stream_modes errs) e).2 = Some sleep -> 1 <= sleep <= 30) /\
  (forall more, sm_batch (stream_modes errs) = true -> sm_batch (stream_modes (errs ++ more)) = true) /\
  1 <= outbox_delays failures <= 32 /\ outbox_delays (failures ++ [false]) = 1.
Proof.
  assert (1 <= sm_delay (stream_modes errs) <= 30) as Hd by by apply stream_modes_bounds.
  split; [done|]. split; [|split; [|split]].
  - intros e sleep. by apply stream_next_bounds.
  - intros more Hb. unfold stream_modes in *. rewrite fold_left_app. by apply stream_modes_bounds.
  - assert (outbox_delays failures ∈ [1; 2; 4; 8; 16; 32]) as Hin.
    { apply outbox_delays_powers. apply list_elem_of_here. }
    rewrite !elem_of_cons, elem_of_nil in Hin. lia.
  - unfold outbox_delays. by rewrite fold_left_app.
Qed.
