(* ===== verification/Metadata.v ===== *)
(** * Agent metadata and profiles

    [internal/core/agent_metadata.go], [internal/core/profiles.go] and
    [cmd/tincan/agent_metadata.go]: the allowlisted analytics snapshot of an agent, its strict
    decoding and its normal form, and the profile text. An error is its message. *)
From stdpp Require Import sorting.
From S2P Require Import Prelude GoStrings Json.

(** ** Data *)
Record HarnessMetadata := mkHarness { ha_Name : string; ha_Version : string }.
Record ModelMetadata := mkModel {
  mo_Provider : string; mo_ID : string; mo_Version : string; mo_IDKind : string;
  mo_ReasoningEffort : string }.
Record TincanMetadata := mkTincan { tm_Version : string }.
Record RuntimeMetadata := mkRuntime { rt_OS : string; rt_Arch : string }.
Record AgentMetadata := mkAgentMetadata {
  am_SchemaVersion : Z; am_Harness : option HarnessMetadata; am_Model : option ModelMetadata;
  am_Tincan : option TincanMetadata; am_Runtime : option RuntimeMetadata;
  am_ExecutionMode : string; am_Capabilities : list string }.

#[export] Instance HarnessMetadata_eq_dec : EqDecision HarnessMetadata.
Proof. solve_decision. Defined.
#[export] Instance ModelMetadata_eq_dec : EqDecision ModelMetadata.
Proof. solve_decision. Defined.
#[export] Instance TincanMetadata_eq_dec : EqDecision TincanMetadata.
Proof. solve_decision. Defined.
#[export] Instance RuntimeMetadata_eq_dec : EqDecision RuntimeMetadata.
Proof. solve_decision. Defined.

(** ** [json.Marshal] of the snapshot, for its size *)
Definition ascii_str (codes : list nat) : list ascii := ascii_of_nat <$> codes.
Definition quote_char : ascii := ascii_of_nat 34.
Definition backslash : ascii := ascii_of_nat 92.

(** [\u00xy] *)
Definition unicode_escape (a : ascii) : list ascii :=
  [backslash; "u"%char; "0"%char; "0"%char; hex_digit (N_of_ascii a / 16); hex_digit (N_of_ascii a mod 16)].

(** One byte below 0x80, with HTML escaping. *)
Definition quote_ascii (a : ascii) : list ascii :=
  if (code a =? 34) || (code a =? 92) then [backslash; a]
  else if code a =? 8 then [backslash; "b"%char]
  else if code a =? 12 then [backslash; "f"%char]
  else if code a =? 10 then [backslash; "n"%char]
  else if code a =? 13 then [backslash; "r"%char]
  else if code a =? 9 then [backslash; "t"%char]
  else if (code a <? 32) || (code a =? 60) || (code a =? 62) || (code a =? 38) then unicode_escape a
  else [a].

(** The replacement of an invalid byte, and of U+2028 and U+2029. *)
Definition replacement : list ascii := bytes "\ufffd".

Fixpoint quote_bytes (l : list ascii) : list ascii :=
  match l with
  | [] => []
  | a :: r =>
      if code a <? 128 then quote_ascii a ++ quote_bytes r else
      match r with
      | b :: r2 =>
          if byte_in 194 223 a && cont b then a :: b :: quote_bytes r2 else
          match r2 with
          | c :: r3 =>
              if lead3 a b && cont c then
                (if (code a =? 226) && (code b =? 128) && byte_in 168 169 c
                 then bytes "\u202" ++ [ascii_of_N (N_of_ascii c - 168 + 56)] else [a; b; c])
                ++ quote_bytes r3
              else match r3 with
              | d :: r4 => if lead4 a b && cont c && cont d then a :: b :: c :: d :: quote_bytes r4
                           else replacement ++ quote_bytes r
              | [] => replacement ++ quote_bytes r
              end
          | [] => replacement ++ quote_bytes r
          end
      | [] => replacement
      end
  end.

Definition quoted (s : string) : string :=
  of_bytes ([quote_char] ++ quote_bytes (bytes s) ++ [quote_char]).

(** Concatenation with commas. *)
Fixpoint joined (l : list string) : string :=
  match l with
  | [] => ""
  | [x] => x
  | x :: r => x +:+ "," +:+ joined r
  end.

Definition encode_object (fields : list (option (string * string))) : string :=
  "{" +:+ joined ((fun kv => quoted kv.1 +:+ ":" +:+ kv.2) <$> omap id fields) +:+ "}".

(** Fields with [omitempty]. *)
Definition string_field (key v : string) : option (string * string) :=
  if bool_decide (v = "") then None else Some (key, quoted v).
Definition pointer_field {A} (key : string) (encode : A -> string) (v : option A)
    : option (string * string) := (fun a => (key, encode a)) <$> v.

Definition encode_harness (h : HarnessMetadata) : string :=
  encode_object [string_field "name" (ha_Name h); string_field "version" (ha_Version h)].
Definition encode_model (m : ModelMetadata) : string :=
  encode_object [string_field "provider" (mo_Provider m); string_field "id" (mo_ID m);
                 string_field "version" (mo_Version m); string_field "id_kind" (mo_IDKind m);
                 string_field "reasoning_effort" (mo_ReasoningEffort m)].
Definition encode_tincan (t : TincanMetadata) : string :=
  encode_object [string_field "version" (tm_Version t)].
Definition encode_runtime (r : RuntimeMetadata) : string :=
  encode_object [string_field "os" (rt_OS r); string_field "arch" (rt_Arch r)].

Definition encode_metadata (m : AgentMetadata) : string :=
  encode_object
    [ (if bool_decide (am_SchemaVersion m = 0) then None
       else Some ("metadata_schema_version", Itoa (am_SchemaVersion m)));
      pointer_field "harness" encode_harness (am_Harness m);
      pointer_field "model" encode_model (am_Model m);
      pointer_field "tincan" encode_tincan (am_Tincan m);
      pointer_field "runtime" encode_runtime (am_Runtime m);
      string_field "execution_mode" (am_ExecutionMode m);
      (if bool_decide (am_Capabilities m = []) then None
       else Some ("capabilities", "[" +:+ joined (quoted <$> am_Capabilities m) +:+ "]")) ].

Example encode_metadata_ex :
  len (encode_metadata (mkAgentMetadata 1 (Some (mkHarness "codex" "1.2")) None None None "ci" ["a"; "b"]))
  = 119.
Proof. vm_compute. reflexivity. Qed.

(** ** Normalization ([NormalizeAgentMetadata]) *)
Definition label_error : string :=
  "Metadata values must be short text labels of at most 128 bytes, without control characters.".

(** The loop body over the collected fields: the trimmed value, or the error. *)
Definition norm_field (s : string) : result string :=
  let s := TrimSpace s in
  if negb (ValidString s) || (128 <? len s) || ContainsControl s then Err label_error else Ok s.

Definition norm_harness (h : HarnessMetadata) : result HarnessMetadata :=
  n ← norm_field (ha_Name h); v ← norm_field (ha_Version h); mret (mkHarness n v).
Definition norm_model (m : ModelMetadata) : result ModelMetadata :=
  p ← norm_field (mo_Provider m); i ← norm_field (mo_ID m); v ← norm_field (mo_Version m);
  k ← norm_field (mo_IDKind m); e ← norm_field (mo_ReasoningEffort m); mret (mkModel p i v k e).
Definition norm_tincan (t : TincanMetadata) : result TincanMetadata :=
  v ← norm_field (tm_Version t); mret (mkTincan v).
Definition norm_runtime (r : RuntimeMetadata) : result RuntimeMetadata :=
  o ← norm_field (rt_OS r); a ← norm_field (rt_Arch r); mret (mkRuntime o a).

(** A pointer field: nil is skipped. *)
Definition norm_pointer {A} (f : A -> result A) (v : option A) : result (option A) :=
  match v with Some a => a ← f a; mret (Some a) | None => mret None end.

(** [strings.Trim] by a set of ASCII characters. *)
Fixpoint drop_set (chars l : list ascii) : list ascii :=
  match l with
  | a :: r => if existsb (Ascii.eqb a) chars then drop_set chars r else l
  | [] => []
  end.
Definition Trim (s chars : string) : string :=
  of_bytes (rev (drop_set (bytes chars) (rev (drop_set (bytes chars) (bytes s))))).

Definition capability_chars : string :=
  "abcdefghijklmnopqrstuvwxyzABCDEFGHIJKLMNOPQRSTUVWXYZ0123456789_.-".

Definition capability_error : string :=
  "Capabilities must be labels of at most 64 letters, digits, dots, underscores or hyphens.".

(** The loop over the capabilities: [seen] is [caps] as a set, so only [caps] is kept. *)
Fixpoint collect_caps (caps : list string) (l : list string) : result (list string) :=
  match l with
  | [] => Ok caps
  | capability :: rest =>
      let capability := TrimSpace capability in
      if (64 <? len capability) || bool_decide (Trim capability capability_chars <> "")
      then Err capability_error
      else if bool_decide (capability <> "") && bool_decide (capability ∉ caps)
      then collect_caps (caps ++ [capability]) rest
      else collect_caps caps rest
  end.

(** [sort.Strings]: by bytes. Equal strings are indistinguishable. *)
Definition sort_strings (l : list string) : list string := merge_sort String.le l.

(** [if p != nil && *p == (T{}) { p = nil }]. *)
Definition drop_empty {A} `{EqDecision A} (zero : A) (v : option A) : option A :=
  match v with Some a => if bool_decide (a = zero) then None else Some a | None => None end.

Definition NormalizeAgentMetadata (input : option AgentMetadata) : result AgentMetadata :=
  match input with
  | None => Ok (mkAgentMetadata 1 None None None None "" [])
  | Some m =>
      if 8192 <? len (encode_metadata m) then Err "Agent metadata must fit within 8 KB." else
      let version := if bool_decide (am_SchemaVersion m = 0) then 1 else am_SchemaVersion m in
      if bool_decide (version <> 1) then Err "Supported metadata_schema_version is 1." else
      mode ← norm_field (am_ExecutionMode m);
      harness ← norm_pointer norm_harness (am_Harness m);
      model ← norm_pointer norm_model (am_Model m);
      tincan ← norm_pointer norm_tincan (am_Tincan m);
      runtime ← norm_pointer norm_runtime (am_Runtime m);
      if bool_decide (mode ∉ [""; "interactive"; "unattended"; "ci"])
      then Err "execution_mode must be interactive, unattended, or ci." else
      if match model with
         | Some m => bool_decide (mo_IDKind m ∉ [""; "alias"; "snapshot"])
         | None => false
         end
      then Err "model.id_kind must be alias or snapshot when known." else
      if 32 <? Z.of_nat (length (am_Capabilities m)) then Err "Report at most 32 capabilities." else
      caps ← collect_caps [] (am_Capabilities m);
      mret (mkAgentMetadata version (drop_empty (mkHarness "" "") harness)
              (drop_empty (mkModel "" "" "" "" "") model) (drop_empty (mkTincan "") tincan)
              (drop_empty (mkRuntime "" "") runtime) mode (sort_strings caps))
  end.

(** ** Strict decoding ([UnmarshalJSON]) *)

(** Integers: the literal must be one, in range. *)
Fixpoint parse_digits (acc : Z) (l : list ascii) : option Z :=
  match l with
  | [] => Some acc
  | a :: r => if byte_in 48 57 a then parse_digits (acc * 10 + (code a - 48)) r else None
  end.
Definition parse_int (literal : string) : option Z :=
  let signed sign l :=
    match l with
    | [] => None
    | _ => match parse_digits 0 l with
           | Some z => let z := sign * z in
                       if (- 2 ^ 63 <=? z) && (z <? 2 ^ 63) then Some z else None
           | None => None
           end
    end in
  match bytes literal with
  | a :: r => if code a =? 45 then signed (-1) r else signed 1 (a :: r)
  | [] => None
  end.

(** Decoding one field's value over the old one; [None] is an error. (A repeated
    [capabilities] key with null elements, which Go decodes over the old elements, is read as
    empty strings.) *)
Definition decode_string (v : json) (old : string) : option string :=
  match v with JStr s => Some s | JNull => Some old | _ => None end.
Definition decode_int (v : json) (old : Z) : option Z :=
  match v with JNum l => parse_int l | JNull => Some old | _ => None end.
Fixpoint decode_strings (l : list json) : option (list string) :=
  match l with
  | [] => Some []
  | v :: r => s ← decode_string v ""; rest ← decode_strings r; Some (s :: rest)
  end.
Definition decode_pointer {A} (zero : A) (f : json -> A -> option A) (v : json) (old : option A)
    : option (option A) :=
  match v with JNull => Some None | _ => a ← f v (default zero old); Some (Some a) end.

(** An object into a struct: every key must name a field. *)
Fixpoint decode_fields {A} (field : string -> option (json -> A -> option A))
    (members : list (string * json)) (a : A) : option A :=
  match members with
  | [] => Some a
  | (k, v) :: rest => f ← field k; a ← f v a; decode_fields field rest a
  end.
Definition decode_struct {A} (field : string -> option (json -> A -> option A)) (v : json) (a : A)
    : option A :=
  match v with JObj members => decode_fields field members a | JNull => Some a | _ => None end.

(** The first field of the list whose name matches, exactly or under case folding. *)
Definition field_table {A} (fields : list (string * (json -> A -> option A))) (key : string)
    : option (json -> A -> option A) :=
  match List.find (fun f => bool_decide (f.1 = key)) fields with
  | Some f => Some f.2
  | None => snd <$> List.find (fun f => field_match f.1 key) fields
  end.

(** An object into a struct that ignores the keys it does not know. *)
Fixpoint decode_known {A} (field : string -> option (json -> A -> option A))
    (members : list (string * json)) (a : A) : option A :=
  match members with
  | [] => Some a
  | (k, v) :: rest =>
      a ← match field k with Some f => f v a | None => Some a end; decode_known field rest a
  end.
Definition decode_object {A} (fields : list (string * (json -> A -> option A))) (v : json) (a : A) : option A :=
  match v with JObj members => decode_known (field_table fields) members a | JNull => Some a | _ => None end.

Definition decode_harness : json -> HarnessMetadata -> option HarnessMetadata :=
  decode_struct (field_table
    [("name", fun v h => s ← decode_string v (ha_Name h); Some (mkHarness s (ha_Version h)));
     ("version", fun v h => s ← decode_string v (ha_Version h); Some (mkHarness (ha_Name h) s))]).
Definition decode_model : json -> ModelMetadata -> option ModelMetadata :=
  decode_struct (field_table
    [("provider", fun v m => s ← decode_string v (mo_Provider m);
        Some (mkModel s (mo_ID m) (mo_Version m) (mo_IDKind m) (mo_ReasoningEffort m)));
     ("id", fun v m => s ← decode_string v (mo_ID m);
        Some (mkModel (mo_Provider m) s (mo_Version m) (mo_IDKind m) (mo_ReasoningEffort m)));
     ("version", fun v m => s ← decode_string v (mo_Version m);
        Some (mkModel (mo_Provider m) (mo_ID m) s (mo_IDKind m) (mo_ReasoningEffort m)));
     ("id_kind", fun v m => s ← decode_string v (mo_IDKind m);
        Some (mkModel (mo_Provider m) (mo_ID m) (mo_Version m) s (mo_ReasoningEffort m)));
     ("reasoning_effort", fun v m => s ← decode_string v (mo_ReasoningEffort m);
        Some (mkModel (mo_Provider m) (mo_ID m) (mo_Version m) (mo_IDKind m) s))]).
Definition decode_tincan : json -> TincanMetadata -> option TincanMetadata :=
  decode_struct (field_table
    [("version", fun v t => s ← decode_string v (tm_Version t); Some (mkTincan s))]).
Definition decode_runtime : json -> RuntimeMetadata -> option RuntimeMetadata :=
  decode_struct (field_table
    [("os", fun v r => s ← decode_string v (rt_OS r); Some (mkRuntime s (rt_Arch r)));
     ("arch", fun v r => s ← decode_string v (rt_Arch r); Some (mkRuntime (rt_OS r) s))]).

Definition zero_metadata : AgentMetadata := mkAgentMetadata 0 None None None None "" [].

Definition metadata_fields : list (string * (json -> AgentMetadata -> option AgentMetadata)) :=
  [("metadata_schema_version", fun v m => z ← decode_int v (am_SchemaVersion m);
      Some (mkAgentMetadata z (am_Harness m) (am_Model m) (am_Tincan m) (am_Runtime m)
              (am_ExecutionMode m) (am_Capabilities m)));
   ("harness", fun v m => h ← decode_pointer (mkHarness "" "") decode_harness v (am_Harness m);
      Some (mkAgentMetadata (am_SchemaVersion m) h (am_Model m) (am_Tincan m) (am_Runtime m)
              (am_ExecutionMode m) (am_Capabilities m)));
   ("model", fun v m => x ← decode_pointer (mkModel "" "" "" "" "") decode_model v (am_Model m);
      Some (mkAgentMetadata (am_SchemaVersion m) (am_Harness m) x (am_Tincan m) (am_Runtime m)
              (am_ExecutionMode m) (am_Capabilities m)));
   ("tincan", fun v m => x ← decode_pointer (mkTincan "") decode_tincan v (am_Tincan m);
      Some (mkAgentMetadata (am_SchemaVersion m) (am_Harness m) (am_Model m) x (am_Runtime m)
              (am_ExecutionMode m) (am_Capabilities m)));
   ("runtime", fun v m => x ← decode_pointer (mkRuntime "" "") decode_runtime v (am_Runtime m);
      Some (mkAgentMetadata (am_SchemaVersion m) (am_Harness m) (am_Model m) (am_Tincan m) x
              (am_ExecutionMode m) (am_Capabilities m)));
   ("execution_mode", fun v m => s ← decode_string v (am_ExecutionMode m);
      Some (mkAgentMetadata (am_SchemaVersion m) (am_Harness m) (am_Model m) (am_Tincan m)
              (am_Runtime m) s (am_Capabilities m)));
   ("capabilities", fun v m =>
      l ← match v with JArr l => decode_strings l | JNull => Some [] | _ => None end;
      Some (mkAgentMetadata (am_SchemaVersion m) (am_Harness m) (am_Model m) (am_Tincan m)
              (am_Runtime m) (am_ExecutionMode m) l))].

(** [UnmarshalJSON] of the text [data], whose first JSON value is [v]. *)
Definition UnmarshalJSON (data : string) (v : json) : result AgentMetadata :=
  match decode_struct (field_table metadata_fields) v zero_metadata with
  | Some m => if (8192 <? len data) || negb (ValidString data)
              then Err "Use only the documented agent metadata fields, within 8 KB." else Ok m
  | None => Err "Use only the documented agent metadata fields, within 8 KB."
  end.

(** ** The local snapshot ([localAgentMetadata]) *)
Definition localAgentMetadata (version goos goarch : string) (input : option AgentMetadata)
    : result AgentMetadata :=
  m ← NormalizeAgentMetadata input;
  mret (mkAgentMetadata (am_SchemaVersion m) (am_Harness m) (am_Model m)
          (Some (default (mkTincan version) (am_Tincan m)))
          (Some (default (mkRuntime goos goarch) (am_Runtime m)))
          (am_ExecutionMode m) (am_Capabilities m)).

(** The whitespace of JSON: the decoder hands [UnmarshalJSON] the text of the value alone. *)
Definition json_space : string := of_bytes (ascii_str [9; 10; 13; 32]%nat).

(** [parseAgentMetadata]: [raw] parses as [v], [None] for text that is not JSON. *)
Definition parseAgentMetadata (version goos goarch raw : string) (v : option json) : result AgentMetadata :=
  if bool_decide (raw = "") then localAgentMetadata version goos goarch None else
  match v with
  | None => Err "invalid JSON"
  | Some JNull => localAgentMetadata version goos goarch None
  | Some v => m ← UnmarshalJSON (Trim raw json_space) v; localAgentMetadata version goos goarch (Some m)
  end.

(** ** Profiles ([NormalizeProfile]) *)
Definition NormalizeProfile (profile : string) : result string :=
  let profile := TrimSpace profile in
  if negb (ValidString profile) || (2000 <? RuneCountInString profile)
  then Err "Use an agent profile of at most 2000 characters." else Ok profile.

(** ** Trimming twice is trimming once *)
Fixpoint starts_space (l : list ascii) : bool :=
  match l with
  | [] => false
  | a :: r => space1 a || match r with
                          | [] => false
                          | b :: r2 => space2 a b || match r2 with
                                                     | [] => false
                                                     | c :: _ => space3 a b c
                                                     end
                          end
  end.

Lemma trim_left_fix l : starts_space l = false -> trim_left l = l.
Proof.
  destruct l as [|a [|b [|c r]]]; simpl; try done; intros H; bool_simpl;
    repeat match goal with H : _ = false |- _ => rewrite H end; done.
Qed.

Lemma trim_left_trimmed l : starts_space (trim_left l) = false.
Proof.
  assert (forall n l, (length l <= n)%nat -> starts_space (trim_left l) = false) as Hn;
    [|by eapply Hn].
  clear l. induction n as [|n IH]; intros l Hl; [by destruct l; simpl in Hl; [|lia]|].
  destruct l as [|a [|b [|c r]]]; simpl in *; [done| | |].
  - destruct (space1 a) eqn:E1; simpl; [done|by rewrite E1].
  - destruct (space1 a) eqn:E1; [apply (IH [b]); simpl; lia|].
    destruct (space2 a b) eqn:E2; [done|]. simpl. by rewrite E1, E2.
  - destruct (space1 a) eqn:E1; [apply (IH (b :: c :: r)); simpl; lia|].
    destruct (space2 a b) eqn:E2; [apply (IH (c :: r)); simpl; lia|].
    destruct (space3 a b c) eqn:E3; [apply (IH r); simpl; lia|]. simpl. by rewrite E1, E2, E3.
Qed.

(** The same on the reversed bytes. *)
Fixpoint ends_space (l : list ascii) : bool :=
  match l with
  | [] => false
  | a :: r => space1 a || match r with
                          | [] => false
                          | b :: r2 => space2 b a || match r2 with
                                                     | [] => false
                                                     | c :: _ => space3 c b a
                                                     end
                          end
  end.

Lemma trim_right_fix l : ends_space l = false -> trim_right_rev l = l.
Proof.
  destruct l as [|a [|b [|c r]]]; simpl; try done; intros H; bool_simpl;
    repeat match goal with H : _ = false |- _ => rewrite H end; done.
Qed.

Lemma trim_right_trimmed l : ends_space (trim_right_rev l) = false /\ exists p, l = p ++ trim_right_rev l.
Proof.
  assert (forall n l, (length l <= n)%nat ->
    ends_space (trim_right_rev l) = false /\ exists p, l = p ++ trim_right_rev l) as Hn; [|by eapply Hn].
  clear l. induction n as [|n IH]; intros l Hl.
  { destruct l; simpl in Hl; [|lia]. split; [done|by exists []]. }
  assert (forall p l', (length l' <= n)%nat -> 
    ends_space (trim_right_rev l') = false /\ exists q, p ++ l' = q ++ trim_right_rev l') as Hrec.
  { intros p l' Hl'. destruct (IH l' Hl') as [H1 [q Hq]]. split; [done|]. exists (p ++ q).
    by rewrite <- app_assoc, <- Hq. }
  destruct l as [|a [|b [|c r]]]; simpl in *; [by split; [|exists []]| | |].
  - destruct (space1 a) eqn:E1; simpl; [split; [done|by exists [a]]|].
    rewrite E1. split; [done|by exists []].
  - destruct (space1 a) eqn:E1; [apply (Hrec [a] [b]); simpl; lia|].
    destruct (space2 b a) eqn:E2; [apply (Hrec [a; b] []); simpl; lia|].
    simpl. rewrite E1, E2. split; [done|by exists []].
  - destruct (space1 a) eqn:E1; [apply (Hrec [a] (b :: c :: r)); simpl; lia|].
    destruct (space2 b a) eqn:E2; [apply (Hrec [a; b] (c :: r)); simpl; lia|].
    destruct (space3 c b a) eqn:E3; [apply (Hrec [a; b; c] r); simpl; lia|].
    simpl. rewrite E1, E2, E3. split; [done|by exists []].
Qed.

Lemma starts_space_prefix l q : starts_space l = true -> starts_space (l ++ q) = true.
Proof.
  destruct l as [|a [|b [|c r]]]; simpl; try done; intros Hs.
  all: destruct q; simpl; rewrite ?orb_true_iff in *; intuition congruence.
Qed.

Lemma TrimSpace_idem s : TrimSpace (TrimSpace s) = TrimSpace s.
Proof.
  unfold TrimSpace. rewrite bytes_of_bytes. f_equal.
  set (l := trim_left (bytes s)).
  destruct (trim_right_trimmed (rev l)) as [He [p Hp]].
  rewrite (trim_left_fix (rev (trim_right_rev (rev l)))).
  - rewrite rev_involutive. by rewrite trim_right_fix.
  - apply not_true_iff_false. intros Hs. apply (starts_space_prefix _ (rev p)) in Hs.
    rewrite <- rev_app_distr, <- Hp, rev_involutive in Hs. subst l. by rewrite trim_left_trimmed in Hs.
Qed.

(** ** Labels: the fields a normalized snapshot holds *)
Definition label (s : string) : Prop :=
  TrimSpace s = s /\ ValidString s = true /\ len s <= 128 /\ ContainsControl s = false.

Lemma norm_field_label s t : norm_field s = Ok t -> label t.
Proof.
  unfold norm_field, label. intros Hn. destruct (_ || _) eqn:E in Hn; [done|]. simplify_eq.
  rewrite TrimSpace_idem. bool_simpl. destruct (ValidString _); naive_solver lia.
Qed.

Lemma label_norm_field s : label s -> norm_field s = Ok s.
Proof.
  unfold norm_field, label. intros (-> & -> & Hl & ->). simpl.
  by rewrite (proj2 (Z.ltb_ge _ _)).
Qed.

Definition harness_labels (h : HarnessMetadata) := [ha_Name h; ha_Version h].
Definition model_labels (m : ModelMetadata) :=
  [mo_Provider m; mo_ID m; mo_Version m; mo_IDKind m; mo_ReasoningEffort m].
Definition tincan_labels (t : TincanMetadata) := [tm_Version t].
Definition runtime_labels (r : RuntimeMetadata) := [rt_OS r; rt_Arch r].
Definition labels_of {A} (f : A -> list string) (v : option A) : list string :=
  match v with Some a => f a | None => [] end.
Definition labels (m : AgentMetadata) : list string :=
  am_ExecutionMode m :: labels_of harness_labels (am_Harness m) ++ labels_of model_labels (am_Model m)
    ++ labels_of tincan_labels (am_Tincan m) ++ labels_of runtime_labels (am_Runtime m).

(** What one group of fields promises: [f] normalizes to labels, and keeps labels. *)
Definition normalizer {A} (f : A -> result A) (g : A -> list string) : Prop :=
  (forall a b, f a = Ok b -> Forall label (g b)) /\ (forall a, Forall label (g a) -> f a = Ok a).

Ltac solve_normalizer f g :=
  split;
  [ unfold f, g; intros a b Hf;
    repeat (apply bind_ok in Hf as (? & ?%norm_field_label & Hf)); injection Hf as <-; simpl; by decompose_Forall
  | intros []; unfold f, g; simpl; rewrite ?Forall_cons; intros;
    destruct_and?; by rewrite !label_norm_field ].

Lemma norm_harness_labels : normalizer norm_harness harness_labels.
Proof. solve_normalizer norm_harness harness_labels. Qed.
Lemma norm_model_labels : normalizer norm_model model_labels.
Proof. solve_normalizer norm_model model_labels. Qed.
Lemma norm_tincan_labels : normalizer norm_tincan tincan_labels.
Proof. solve_normalizer norm_tincan tincan_labels. Qed.
Lemma norm_runtime_labels : normalizer norm_runtime runtime_labels.
Proof. solve_normalizer norm_runtime runtime_labels. Qed.

Lemma norm_pointer_labels {A} (f : A -> result A) g :
  normalizer f g -> normalizer (norm_pointer f) (labels_of g).
Proof.
  intros [Hf Hg]. split.
  - intros [a|] b; simpl; [|intros [= <-]; constructor].
    intros (c & Hc & [= <-])%bind_ok. by eapply Hf.
  - intros [a|] Hl; simpl in *; [|done]. by rewrite Hg.
Qed.

Lemma drop_empty_labels {A} `{EqDecision A} (zero : A) g v :
  Forall label (labels_of g v) -> Forall label (labels_of g (drop_empty zero v)).
Proof. destruct v as [a|]; simpl; [|done]. by case_bool_decide; [constructor|]. Qed.

Lemma drop_empty_nonzero {A} `{EqDecision A} (zero : A) v : drop_empty zero v <> Some zero.
Proof. destruct v as [a|]; simpl; [|done]. case_bool_decide; naive_solver. Qed.

Lemma drop_empty_id {A} `{EqDecision A} (zero : A) v : v <> Some zero -> drop_empty zero v = v.
Proof. destruct v as [a|]; simpl; [|done]. case_bool_decide; naive_solver. Qed.
