(* ===== verification/PrivateFiles.v ===== *)
(** * Private files

    Writing the files of an identity: [encryption_storage.go], [encryption_replace_*.go],
    [inbox_lock_*.go], the writers of [encryption.go], [plugin_hook.go], [plugin.go], [inbox.go] and
    [main.go], over a directory that other processes share, whose calls fail, and that a crash or a
    loss of power leaves as it is at that moment. The modules that use these files take the outcome
    of a write as an argument; here it is computed. *)
From stdpp Require Import sorting.
From S2P Require Import Prelude GoStrings Metadata.

(** ** A directory

    An inode has the bytes that are read, and whether those survive a loss of power ([Sync]). The
    entries are those of now, before the directories since its last sync: after a loss of power,
    each name is what it was in one of them. *)
Record inode := mkInode { in_Regular : bool; in_Perm : Z; in_Data : string; in_Safe : bool }.
Record disk := mkDisk { dk_Inodes : gmap Z inode; dk_Names : gmap string Z; dk_Earlier : list (gmap string Z) }.
Definition dirs (d : disk) : list (gmap string Z) := dk_Names d :: dk_Earlier d.

(** What reading [name] in the directory [s] gives: nothing when there is no such file, and any
    bytes at all when its bytes may be lost. *)
Definition reads (d : disk) (s : gmap string Z) (name : string) (r : option string) : Prop :=
  match s !! name with
  | None => r = None
  | Some k => exists i, dk_Inodes d !! k = Some i /\ (in_Safe i = true -> r = Some (in_Data i)) /\ (in_Safe i = false -> r <> None)
  end.
Definition after_power_loss (d : disk) (name : string) (r : option string) : Prop := exists s, s ∈ dirs d /\ reads d s name r.
(** What a process that starts after a crash reads. *)
Definition now_reads (d : disk) (name : string) : option string := dk_Names d !! name ≫= fun k => in_Data <$> dk_Inodes d !! k.

Definition next_inode (d : disk) : Z := 1 + foldr Z.max 0%Z (map_to_list (dk_Inodes d)).*1.
Definition set_names (f : gmap string Z -> gmap string Z) (d : disk) : disk := mkDisk (dk_Inodes d) (f (dk_Names d)) (dirs d).
Definition set_inode (k : Z) (f : inode -> inode) (d : disk) : disk := mkDisk (alter f k (dk_Inodes d)) (dk_Names d) (dk_Earlier d).
Definition new_file (name : string) (d : disk) : disk :=
  set_names (insert name (next_inode d)) (mkDisk (<[next_inode d := mkInode true 384 "" false]> (dk_Inodes d)) (dk_Names d) (dk_Earlier d)).
Definition append_data (b : string) (i : inode) : inode := mkInode (in_Regular i) (in_Perm i) (in_Data i +:+ b) false.
Definition truncate_data (i : inode) : inode := mkInode (in_Regular i) (in_Perm i) "" false.
Definition keep_data (i : inode) : inode := mkInode (in_Regular i) (in_Perm i) (in_Data i) true.
Definition set_perm (p : Z) (i : inode) : inode := mkInode (in_Regular i) p (in_Data i) (in_Safe i).

(** ** Calls of the system

    Before each call, other processes do [se_others]; the call fails with [se_error], having got
    [se_part] bytes through. The run keeps every directory there was on the way. *)
Record sys_event := mkSysEvent { se_others : disk -> disk; se_error : option string; se_part : nat }.
Record machine := mkMachine { mc_Disk : disk; mc_Seen : list disk; mc_Script : list sys_event }.
Definition quiet : sys_event := mkSysEvent id None 0.

Definition F (A : Type) : Type := machine -> result A * machine.
#[export] Instance F_ret : MRet F := fun _ a m => (Ok a, m).
#[export] Instance F_bind : MBind F := fun _ _ f x m =>
  match x m with (Ok a, m) => f a m | (Err e, m) => (Err e, m) end.
Definition raise {A} (e : string) : F A := fun m => (Err e, m).
Definition give {A} (r : result A) : F A := fun m => (r, m).
Definition tried {A} (x : F A) : F (result A) := fun m => let '(r, m) := x m in (Ok r, m).

Definition syscall {A} (op : disk -> result A * disk) (failed : string -> nat -> disk -> result A * disk) : F A := fun m =>
  let ev := default quiet (head (mc_Script m)) in
  let d := se_others ev (mc_Disk m) in
  let '(r, d') := match se_error ev with Some e => failed e (se_part ev) d | None => op d end in
  (r, mkMachine d' (d' :: d :: mc_Seen m) (tail (mc_Script m))).
Definition nothing {A} : string -> nat -> disk -> result A * disk := fun e _ d => (Err e, d).

Definition errNotExist : string := "file does not exist".
Definition errExist : string := "file exists".
Definition errInput : string := "input/output error".

Definition MkdirAll : F unit := syscall (fun d => (Ok tt, d)) nothing.
Definition ReadDir : F (list string) := syscall (fun d => (Ok (merge_sort String.le (elements (dom (dk_Names d)))), d)) nothing.
(** The first of the random suffixes that makes a new name. *)
Definition CreateTemp (prefix : string) (suffixes : list string) : F (string * Z) :=
  syscall (fun d =>
    match List.find (fun s => bool_decide (dk_Names d !! (prefix +:+ s) = None)) suffixes with
    | Some s => (Ok (prefix +:+ s, next_inode d), new_file (prefix +:+ s) d)
    | None => (Err errExist, d)
    end) nothing.
(** [O_CREATE|O_EXCL]. *)
Definition CreateNew (name : string) : F Z :=
  syscall (fun d => if bool_decide (dk_Names d !! name = None) then (Ok (next_inode d), new_file name d) else (Err errExist, d)) nothing.
(** [O_CREATE], and with [O_TRUNC]. *)
Definition OpenCreate (f : inode -> inode) (name : string) : F Z :=
  syscall (fun d => match dk_Names d !! name with Some k => (Ok k, set_inode k f d) | None => (Ok (next_inode d), new_file name d) end) nothing.
Definition Write (k : Z) (b : string) : F unit :=
  syscall (fun d => (Ok tt, set_inode k (append_data b) d)) (fun e n d => (Err e, set_inode k (append_data (take_str n b)) d)).
Definition Sync (k : Z) : F unit := syscall (fun d => (Ok tt, set_inode k keep_data d)) nothing.
Definition Close (k : Z) : F unit := syscall (fun d => (Ok tt, d)) nothing.
Definition Chmod (name : string) (p : Z) : F unit :=
  syscall (fun d => match dk_Names d !! name with Some k => (Ok tt, set_inode k (set_perm p) d) | None => (Err errNotExist, d) end) nothing.
Definition Remove (name : string) : F unit :=
  syscall (fun d => if bool_decide (dk_Names d !! name = None) then (Err errNotExist, d) else (Ok tt, set_names (delete name) d)) nothing.
Definition renamed (from to : string) (k : Z) (s : gmap string Z) : gmap string Z := <[to := k]> (delete from s).
Definition Rename (from to : string) : F unit :=
  syscall (fun d => match dk_Names d !! from with Some k => (Ok tt, set_names (renamed from to k) d) | None => (Err errNotExist, d) end) nothing.
Definition OpenDir : F unit := syscall (fun d => (Ok tt, d)) nothing.
Definition SyncDir : F unit := syscall (fun d => (Ok tt, mkDisk (dk_Inodes d) (dk_Names d) [])) nothing.
(** [MOVEFILE_REPLACE_EXISTING|MOVEFILE_WRITE_THROUGH]: the move is on the disk when it returns. *)
Definition MoveFileEx (from to : string) : F unit :=
  syscall (fun d => match dk_Names d !! from with
                | Some k => (Ok tt, mkDisk (dk_Inodes d) (renamed from to k (dk_Names d)) (renamed from to k <$> dk_Earlier d))
                | None => (Err errNotExist, d) end) nothing.
Definition Lstat (name : string) : F (Z * inode) :=
  syscall (fun d => (match dk_Names d !! name with
                 | Some k => match dk_Inodes d !! k with Some i => Ok (k, i) | None => Err errInput end
                 | None => Err errNotExist end, d)) nothing.
Definition Open (name : string) : F Z :=
  syscall (fun d => (match dk_Names d !! name with Some k => Ok k | None => Err errNotExist end, d)) nothing.
Definition Stat (k : Z) : F Z := syscall (fun d => (Ok k, d)) nothing.
(** What a reader of at most [n] bytes gets: a failing one gets a part. *)
Definition Read (k : Z) (n : nat) : F string :=
  let data d := default "" (in_Data <$> dk_Inodes d !! k) in
  syscall (fun d => (Ok (take_str n (data d)), d)) (fun _ p d => (Ok (take_str (Nat.min p n) (data d)), d)).

(** [defer]: [later] runs whatever comes of [x]. *)
Definition deferred {A} (later : F unit) (x : F A) : F A := r ← tried x; tried later;; give r.

(** ** Attribution of an old temporary file ([legacyTempIdentity]) *)
(** A string of JSON after its opening quote ([encoding/json]: [unquote]), and what follows it. *)
Definition utf8 (r : Z) : list ascii :=
  let b z := ascii_of_N (Z.to_N z) in
  let low s := b (128 + Z.land (Z.shiftr r s) 63) in
  if r <? 128 then [b r]
  else if r <? 2048 then [b (192 + Z.shiftr r 6); low 0]
  else if r <? 65536 then [b (224 + Z.shiftr r 12); low 6; low 0]
  else [b (240 + Z.shiftr r 18); low 12; low 6; low 0].
Definition bad_rune : list ascii := utf8 65533.
Definition hex_value (a : ascii) : option Z :=
  if byte_in 48 57 a then Some (code a - 48) else if byte_in 97 102 a then Some (code a - 87)
  else if byte_in 65 70 a then Some (code a - 55) else None.
Definition hex4 (l : list ascii) : option (Z * list ascii) :=
  match l with
  | a :: b :: c :: d :: r =>
      a ← hex_value a; b ← hex_value b; c ← hex_value c; d ← hex_value d; Some (a * 4096 + b * 256 + c * 16 + d, r)
  | _ => None
  end.
Definition escaped (a : ascii) : option ascii :=
  match code a with
  | 34 | 92 | 47 => Some a
  | 98 => Some (ascii_of_N 8) | 102 => Some (ascii_of_N 12) | 110 => Some (ascii_of_N 10)
  | 114 => Some (ascii_of_N 13) | 116 => Some (ascii_of_N 9) | _ => None
  end.
(** The second half of a surrogate pair, when it follows. *)
Definition low_half (l : list ascii) : option (Z * list ascii) :=
  match l with
  | a :: b :: r => if (code a =? 92) && (code b =? 117) then '(z, r) ← hex4 r; if (56320 <=? z) && (z <=? 57343) then Some (z, r) else None else None
  | _ => None
  end.
(** The bytes of the first rune, the replacement character for an invalid byte, and the rest. *)
Definition first_rune (a : ascii) (r : list ascii) : list ascii * list ascii :=
  match r with
  | b :: r2 =>
      if byte_in 194 223 a && cont b then ([a; b], r2) else
      match r2 with
      | c :: r3 =>
          if lead3 a b && cont c then ([a; b; c], r3) else
          match r3 with
          | d :: r4 => if lead4 a b && cont c && cont d then ([a; b; c; d], r4) else (bad_rune, r)
          | [] => (bad_rune, r)
          end
      | [] => (bad_rune, r)
      end
  | [] => (bad_rune, r)
  end.
Fixpoint json_string (fuel : nat) (l out : list ascii) : option (list ascii * list ascii) :=
  match fuel, l with
  | S fuel, a :: r =>
      if code a =? 34 then Some (out, r)
      else if code a =? 92 then
        match r with
        | b :: r =>
            if code b =? 117 then
              '(z, r) ← hex4 r;
              if (55296 <=? z) && (z <=? 57343) then
                match (if z <? 56320 then low_half r else None) with
                | Some (z2, r) => json_string fuel r (out ++ utf8 (65536 + (z - 55296) * 1024 + (z2 - 56320)))
                | None => json_string fuel r (out ++ bad_rune)
                end
              else json_string fuel r (out ++ utf8 z)
            else c ← escaped b; json_string fuel r (out ++ [c])
        | [] => None
        end
      else if code a <? 32 then None
      else if code a <? 128 then json_string fuel r (out ++ [a])
      else let '(c, r) := first_rune a r in json_string fuel r (out ++ c)
  | _, _ => None
  end.
Definition stream_space (a : ascii) : bool := (code a =? 32) || (code a =? 9) || (code a =? 10) || (code a =? 13).
Fixpoint skip_space (l : list ascii) : list ascii :=
  match l with a :: r => if stream_space a then skip_space r else l | [] => [] end.
Definition delim (c : ascii) (l : list ascii) : option (list ascii) :=
  match skip_space l with a :: r => if Ascii.eqb a c then Some r else None | [] => None end.
Definition token_string (l : list ascii) : option (string * list ascii) :=
  r ← delim (ascii_of_N 34) l; '(s, r) ← json_string (length r) r []; Some (of_bytes s, r).
(** The tokens [{], [identity], [{], [age], and the string [age]. *)
Definition legacyTempIdentity (data age : string) : bool :=
  negb (bool_decide (age = "")) &&
  bool_decide ((l ← delim "{" (bytes data); '(k, l) ← token_string l; if bool_decide (k = "identity") then
                l ← delim ":" l; l ← delim "{" l; '(k, l) ← token_string l; if bool_decide (k = "age") then
                l ← delim ":" l; fst <$> token_string l else None else None) = Some age).

Definition quoted (s : string) : string := of_bytes (concat ((fun a => if Ascii.eqb a "'" then [ascii_of_N 34] else [a]) <$> bytes s)).
Example legacy_ex :
  legacyTempIdentity (quoted "{'identity':{'age':'AGE-1','signing_key") "AGE-1" = true /\
  legacyTempIdentity (quoted " { '\u0069dentity' : {'age': 'AGE-1'") "AGE-1" = true /\
  legacyTempIdentity (quoted "{'identity':{'age':'AGE-12'") "AGE-1" = false /\
  legacyTempIdentity (quoted "{'identity':{'age':'AGE-1") "AGE-1" = false.
Proof. repeat split; vm_compute; reflexivity. Qed.

(** ** Writing the state of an identity *)
Section Private.
Variables (sha256 : string -> string) (windows : bool).

(** [base]: the name of the target in its directory. *)
Definition privateTempPrefix (base : string) : string := ".e2ee-" +:+ hex (sha256 base) +:+ "-".
Definition syncPrivateDirectory : F unit :=
  if windows then mret tt else OpenDir;; SyncDir.
Definition replacePrivate (from to : string) : F unit :=
  if windows then MoveFileEx from to else Rename from to;; syncPrivateDirectory.

Definition older_name (name : string) : bool :=
  let legacy := TrimPrefix name ".e2ee-" in
  negb (bool_decide (legacy = name)) && negb (bool_decide (legacy = "")) && bool_decide (Trim legacy "0123456789" = "").
(** [None]: the file is gone. *)
Definition older_is_ours (name age : string) (k : Z) : F (option bool) :=
  f ← tried (Open name);
  match f with
  | Err e => if bool_decide (e = errNotExist) then mret None else raise e
  | Ok f =>
      opened ← tried (Stat f);
      match opened with
      | Ok o => if bool_decide (o = k) then data ← Read f 1024; mret (Some (legacyTempIdentity data age))
                else raise "encryption temporary file changed during recovery"
      | Err _ => raise "encryption temporary file changed during recovery"
      end
  end.
(** One entry; whether it was removed. *)
Definition clean_entry (base : string) (identity : option string) (name : string) : F bool :=
  let owned := HasPrefix name (privateTempPrefix base) in
  if negb owned && (bool_decide (identity = None) || negb (older_name name)) then mret false else
  info ← tried (Lstat name);
  match info with
  | Err e => if bool_decide (e = errNotExist) then mret false else raise e
  | Ok (k, i) =>
      if negb (in_Regular i) || negb (Z.land (in_Perm i) 63 =? 0) then
        if owned then raise "insecure encryption temporary file" else mret false
      else
        ours ← (if owned then mret (Some true) else older_is_ours name (default "" identity) k);
        match ours with
        | Some true =>
            r ← tried (Remove name);
            match r with
            | Ok _ => mret true
            | Err e => if bool_decide (e = errNotExist) then mret true else raise e
            end
        | _ => mret false
        end
  end.
Fixpoint clean_entries (base : string) (identity : option string) (names : list string) (removed : bool) : F bool :=
  match names with
  | [] => mret removed
  | name :: names => r ← clean_entry base identity name; clean_entries base identity names (removed || r)
  end.
(** [identity]: its [Age] string; [None] for [nil]. *)
Definition cleanupPrivateTemps (base : string) (identity : option string) : F unit :=
  entries ← ReadDir;
  removed ← clean_entries base identity entries false;
  if removed : bool then syncPrivateDirectory else mret tt.

Definition write_and_close (sync : bool) (k : Z) (b : string) : F unit :=
  r ← tried (Write k b;; if sync then Sync k else mret tt);
  c ← tried (Close k);
  match r, c with Err e, _ => raise e | Ok _, Err e => raise e | Ok _, Ok _ => mret tt end.

(** [b]: the marshalled value. *)
Definition privateJSONWithReplacement (replace : string -> string -> F unit) (base : string) (b : result string)
    (suffixes : list string) : F unit :=
  MkdirAll;;
  b ← give b;
  cleanupPrivateTemps base None;;
  '(temp, k) ← CreateTemp (privateTempPrefix base) suffixes;
  deferred (Remove temp) (write_and_close true k b;; replace temp base).
Definition privateJSON : string -> result string -> list string -> F unit := privateJSONWithReplacement replacePrivate.

(** ** The keys of a new identity ([newCrypto])

    [made]: the key of the history and the state, or the error of making them. The lock is a file
    beside the state. *)
Definition lock_file (name : string) : F Z := OpenCreate id name.
Definition newCrypto_files (base : string) (made : result (string * string)) (suffixes : list string) : F unit :=
  MkdirAll;;
  lock_file (base +:+ ".lock");;
  there ← tried (Lstat base);
  if negb (bool_decide (fst <$> there = Err errNotExist)) then raise "encryption identity already exists; resume the saved connection" else
  '(key, state) ← give made;
  MkdirAll;;
  k ← CreateNew (base +:+ ".history.key");
  write_and_close true k key;;
  privateJSON base (Ok state) suffixes.
End Private.

(** ** The other writers

    [writePrivateJSON], and the writes of a connection ([pluginBroker.save]), of the inbox
    ([inbox.save]) and of the owner of an inbox, which is not synced. *)
Definition replace_file (prefix : string) (sync : bool) (base b : string) (suffixes : list string) : F unit :=
  '(temp, k) ← CreateTemp prefix suffixes;
  deferred (Remove temp) (write_and_close sync k b;; Rename temp base).
Definition writePrivateJSON (base : string) (b : result string) (suffixes : list string) : F unit :=
  b ← give b; replace_file ".state-" true base b suffixes.
Definition save_connection_file (base : string) (b : result string) (suffixes : list string) : F unit :=
  MkdirAll;; b ← give b; replace_file ".connection-" true base b suffixes.
Definition save_inbox_file (base : string) (b : result string) (suffixes : list string) : F unit :=
  b ← give b; replace_file ".inbox-" true base b suffixes.
Definition save_owner_file (base : string) (b : result string) (suffixes : list string) : F unit :=
  b ← give b; replace_file ".inbox-owner-" false (base +:+ ".owner") b suffixes.

(** The configuration of the command line ([save] of [main.go]): [os.WriteFile], which truncates,
    and no sync. *)
Definition WriteFile (name b : string) : F unit :=
  k ← OpenCreate truncate_data name; write_and_close false k b.
Definition save_config_file (base b : string) : F unit :=
  MkdirAll;;
  WriteFile (base +:+ ".tmp") b;;
  Chmod (base +:+ ".tmp") 384;;
  Rename (base +:+ ".tmp") base.

(** ** Locks ([lockInbox], [unlockInbox])

    The processes, and the name each lock file is locked under; a process that ends, ends its locks.
    [None]: somebody has it ([isWakeLockBusy]). *)
Definition locks := gmap string Z.
Definition lockInbox (l : locks) (name : string) (process : Z) : option locks :=
  match l !! name with None => Some (<[name := process]> l) | Some _ => None end.
Definition unlockInbox (l : locks) (name : string) : locks := delete name l.
Definition process_ends (l : locks) (process : Z) : locks := filter (fun kv => kv.2 <> process) l.
(** [withCrypto] until it has the lock: the locks at each try, and whether the context ended meanwhile. *)
Fixpoint await_lock (tries : list (locks * bool)) (name : string) (process : Z) : option (result locks) :=
  match tries with
  | [] => None
  | (l, ended) :: tries =>
      match lockInbox l name process with
      | Some l => Some (Ok l)
      | None => if ended : bool then Some (Err "context canceled") else await_lock tries name process
      end
  end.
