(* ===== verification/PrivateFilesTheorems.v ===== *)
(** * Private files: theorems

    A state file is the old one or the new one at every moment, after a crash as after a loss of
    power; what a write removes belongs to the identity that writes; and what an interrupted
    creation of keys leaves behind. Processes that share the directory are arbitrary, as far as
    they leave the files of this identity alone. *)
From stdpp Require Import sorting.
From S2P Require Import Prelude GoStrings Metadata PrivateFiles.

#[local] Existing Instance F_ret.
#[local] Existing Instance F_bind.

(** ** The directory *)
Lemma next_inode_fresh d : dk_Inodes d !! next_inode d = None.
Proof.
  apply eq_None_not_Some. intros [i Hi]. apply elem_of_map_to_list in Hi.
  assert (Hm : forall (l : list (Z * inode)) k j, (k, j) ∈ l -> k <= foldr Z.max 0 l.*1).
  { induction l as [|[k' j'] l IH]; intros k j Hin; [by apply elem_of_nil in Hin|].
    apply elem_of_cons in Hin as [[= -> ->]|Hin]; cbn; [lia|]. specialize (IH _ _ Hin). lia. }
  specialize (Hm _ _ _ Hi). unfold next_inode in Hm. lia.
Qed.

(** ** Rely and guarantee

    What other processes do between two calls is in [R]; a call that fails does not say that a file
    is missing. *)
Section Logic.
Variable R : disk -> disk -> Prop.
Definition respects (l : list sys_event) : Prop := Forall (fun ev => (forall d, R d (se_others ev d)) /\ se_error ev <> Some errNotExist) l.
Definition steady (P : disk -> Prop) : Prop := forall d d', R d d' -> P d -> P d'.

(** From [Pre], [x] keeps [Inv] at every moment and ends in [Post]. *)
Definition spec {A} (Inv Pre : disk -> Prop) (x : F A) (Post : result A -> disk -> Prop) : Prop :=
  forall m, respects (mc_Script m) -> Forall Inv (mc_Seen m) -> Pre (mc_Disk m) ->
    let '(r, m') := x m in respects (mc_Script m') /\ Forall Inv (mc_Seen m') /\ Post r (mc_Disk m').

Lemma spec_ret {A} Inv Pre (a : A) Post : (forall d, Pre d -> Post (Ok a) d) -> spec Inv Pre (mret a) Post.
Proof. intros Hp m Hs Hi Hd. split_and!; [done..|]. by apply Hp. Qed.
Lemma spec_pass {A} Inv Pre (r : result A) Post : (forall d, Pre d -> Post r d) -> spec Inv Pre (give r) Post.
Proof. intros Hp m Hs Hi Hd. split_and!; [done..|]. by apply Hp. Qed.
Lemma spec_raise {A} Inv Pre e (Post : result A -> disk -> Prop) : (forall d, Pre d -> Post (Err e) d) -> spec Inv Pre (raise e) Post.
Proof. intros Hp m Hs Hi Hd. split_and!; [done..|]. by apply Hp. Qed.
Lemma spec_bind {A B} Inv Pre (x : F A) (f : A -> F B) Q Post :
  spec Inv Pre x Q -> (forall a, spec Inv (Q (Ok a)) (f a) Post) -> (forall e d, Q (Err e) d -> Post (Err e) d) ->
  spec Inv Pre (x ≫= f) Post.
Proof.
  intros Hx Hf He m Hs Hi Hd. specialize (Hx m Hs Hi Hd). unfold mbind, F_bind.
  destruct (x m) as [[a|e] m'], Hx as (Hs' & Hi' & Hq); [by apply Hf | split_and!; [done..|by apply He]].
Qed.
Lemma spec_try {A} Inv Pre (x : F A) Q : spec Inv Pre x Q -> spec Inv Pre (tried x) (fun r d => match r with Ok r => Q r d | Err _ => False end).
Proof. intros Hx m Hs Hi Hd. specialize (Hx m Hs Hi Hd). unfold tried. by destruct (x m) as [r m']. Qed.
Lemma spec_weaken {A} Inv (Pre Pre' : disk -> Prop) (x : F A) (Post Post' : result A -> disk -> Prop) :
  spec Inv Pre x Post -> (forall d, Pre' d -> Pre d) -> (forall r d, Post r d -> Post' r d) -> spec Inv Pre' x Post'.
Proof.
  intros Hx Hp Hq m Hs Hi Hd. specialize (Hx m Hs Hi (Hp _ Hd)). destruct (x m) as [r m'], Hx as (?&?&?). by eauto.
Qed.
Lemma spec_known {A} (known : Prop) Inv Pre (x : F A) Post : (known -> spec Inv Pre x Post) -> spec Inv (fun d => known /\ Pre d) x Post.
Proof. intros Hx m Hs Hi [Hk Hd]. by apply Hx. Qed.
Lemma spec_deferred {A} Inv Pre (x : F A) later Q Post :
  spec Inv Pre x Q -> (forall r, spec Inv (Q r) later (fun _ d => Post r d)) -> spec Inv Pre (deferred later x) Post.
Proof.
  intros Hx Hl. eapply spec_bind; [by eapply spec_try| |done]. intros r.
  eapply spec_bind; [eapply spec_try, Hl| |done]. intros ?. by apply spec_pass.
Qed.
(** A call of the system: before it, after others; and after it, or after its failure. *)
Lemma spec_syscall {A} (Inv Pre : disk -> Prop) (op : disk -> result A * disk) failed Post :
  steady Pre ->
  (forall d, Pre d -> Inv d /\ Inv (op d).2 /\ Post (op d).1 (op d).2) ->
  (forall d e n, e <> errNotExist -> Pre d -> Inv (failed e n d).2 /\ Post (failed e n d).1 (failed e n d).2) ->
  spec Inv Pre (syscall op failed) Post.
Proof.
  intros Hst Hop Hf m Hs Hi Hd. unfold syscall. set (ev := default quiet (head (mc_Script m))).
  assert (Pre (se_others ev (mc_Disk m)) /\ se_error ev <> Some errNotExist) as [Hd' He].
  { unfold ev. destruct (mc_Script m) as [|x l]; cbn; [done|]. apply Forall_cons_1 in Hs as [[Hx ?] _]. split; [by eapply Hst|done]. }
  assert (Hs' : respects (tail (mc_Script m))) by (destruct (mc_Script m); [done|by apply Forall_cons_1 in Hs as [_ ?]]).
  destruct (Hop _ Hd') as (H0 & H1 & H2).
  destruct (se_error ev) as [e|].
  - destruct (Hf _ e (se_part ev) ltac:(congruence) Hd') as (H3 & H4). destruct (failed _ _ _) as [r d']. cbn in *. by split_and!; [|repeat constructor|].
  - destruct (op _) as [r d']. cbn in *. by split_and!; [|repeat constructor|].
Qed.
(** A call that changes nothing, or can fail only so. *)
Lemma spec_look {A} (Inv Pre : disk -> Prop) (f : disk -> result A) failed (Post : result A -> disk -> Prop) :
  steady Pre -> (forall d, Pre d -> Inv d) -> (forall d, Pre d -> Post (f d) d) ->
  (forall d e n, e <> errNotExist -> Pre d -> (failed e n d).2 = d /\ Post (failed e n d).1 d) -> spec Inv Pre (syscall (fun d => (f d, d)) failed) Post.
Proof.
  intros Hst Hi Hp Hf. apply spec_syscall; [done| |]; intros; cbn; [by eauto 6|].
  destruct (Hf d e n) as [-> ?]; [done..|]. by eauto.
Qed.

End Logic.

(** ** The files of an identity

    [base] is the state, [prefix] that of its temporary files. Another process is foreign when it
    touches neither: the names keep their entries and these their inodes. *)
Section Files.
Variables (base prefix : string).
Definition own (n : string) : Prop := n = base \/ HasPrefix n prefix = true.
Record foreign (d d' : disk) : Prop := {
  fs_now : forall n, own n -> dk_Names d' !! n = dk_Names d !! n;
  fs_dirs : forall n s', own n -> s' ∈ dirs d' -> exists s, s ∈ dirs d /\ s' !! n = s !! n;
  fs_inodes : forall n s k i, own n -> s ∈ dirs d -> s !! n = Some k -> dk_Inodes d !! k = Some i -> dk_Inodes d' !! k = Some i }.

(** ** What the file may be read as

    In every directory that a loss of power may bring back, the file is one of [V], and its bytes
    are safe. *)
Definition safe_reads (d : disk) (s : gmap string Z) (r : option string) : Prop :=
  match s !! base with
  | None => r = None
  | Some k => exists i, dk_Inodes d !! k = Some i /\ in_Safe i = true /\ r = Some (in_Data i)
  end.
Definition all (V : option string -> Prop) (d : disk) : Prop := forall s, s ∈ dirs d -> exists r, V r /\ safe_reads d s r.

Lemma all_after_power_loss V d r : all V d -> after_power_loss d base r -> V r.
Proof.
  intros Ha (s & Hs & Hr). destruct (Ha s Hs) as (r' & Hv & Hr'). unfold reads, safe_reads in *.
  destruct (s !! base) as [k|]; [|by subst].
  destruct Hr as (i & Hi & Hsafe & _), Hr' as (i' & Hi' & Hsafe' & ->). simplify_eq. by rewrite (Hsafe Hsafe').
Qed.
Lemma all_now V d : all V d -> V (now_reads d base).
Proof.
  intros Ha. destruct (Ha (dk_Names d)) as (r & Hv & Hr); [by left|]. unfold now_reads, safe_reads in *.
  destruct (dk_Names d !! base) as [k|]; cbn; [|by subst]. destruct Hr as (i & -> & _ & ->). done.
Qed.
Lemma all_weaken (V W : option string -> Prop) d : (forall r, V r -> W r) -> all V d -> all W d.
Proof. intros Hvw Ha s Hs. destruct (Ha s Hs) as (r & Hr & ?). eauto. Qed.

Lemma safe_reads_same d d' s s' r :
  s' !! base = s !! base -> (forall k, s !! base = Some k -> is_Some (dk_Inodes d !! k) -> dk_Inodes d' !! k = dk_Inodes d !! k) ->
  safe_reads d s r -> safe_reads d' s' r.
Proof.
  intros Hs Hk. unfold safe_reads. rewrite Hs. destruct (s !! base) as [k|]; [|done].
  intros (i & Hi & ?). exists i. rewrite Hk by eauto. done.
Qed.
Lemma all_steady V : steady foreign (all V).
Proof.
  intros d d' Hf Ha s' Hs'. destruct (fs_dirs _ _ Hf base s') as (s & Hs & Heq); [by left|done|].
  destruct (Ha s Hs) as (r & Hv & Hr). exists r. split; [done|]. eapply safe_reads_same; [done| |done].
  intros k Hk [i Hi]. rewrite Hi. eapply fs_inodes; [done| |done|done|done]. by left.
Qed.
(** A directory with another name added or removed. *)
Lemma all_names V d (f : gmap string Z -> gmap string Z) :
  f (dk_Names d) !! base = dk_Names d !! base -> all V d -> all V (set_names f d).
Proof.
  intros Hf Ha s' Hs'. assert (exists s, s ∈ dirs d /\ s' !! base = s !! base) as (s & Hs & Heq).
  { apply elem_of_cons in Hs' as [->|Hs']; [exists (dk_Names d); split; [by left|done] | by exists s']. }
  destruct (Ha s Hs) as (r & Hv & Hr). exists r. split; [done|]. by eapply safe_reads_same.
Qed.
Lemma all_delete V d n : n <> base -> all V d -> all V (set_names (delete n) d).
Proof. intros Hn. apply all_names. by rewrite lookup_delete_ne. Qed.
(** [k] is not the inode of the file, in any directory. *)
Definition apart (k : Z) (d : disk) : Prop := forall s, s ∈ dirs d -> s !! base <> Some k.
Lemma all_inode V d k f : apart k d -> all V d -> all V (set_inode k f d).
Proof.
  intros Hk Ha s Hs. destruct (Ha s Hs) as (r & Hv & Hr). exists r. split; [done|]. eapply safe_reads_same; [done| |done].
  intros k' Hk' _. unfold set_inode. cbn. rewrite lookup_alter_ne; [done|]. intros ->. by apply (Hk s Hs).
Qed.
Lemma all_new V d n : n <> base -> all V d -> all V (new_file n d) /\ apart (next_inode d) (new_file n d).
Proof.
  intros Hn Ha. assert (Hb : forall s, s ∈ dirs (new_file n d) -> exists s0, s0 ∈ dirs d /\ s !! base = s0 !! base).
  { intros s Hs. apply elem_of_cons in Hs as [->|Hs]; [|by exists s]. exists (dk_Names d). split; [by left|].
    unfold set_names. cbn. by rewrite lookup_insert_ne. }
  split; intros s Hs; destruct (Hb s Hs) as (s0 & Hs0 & Heq); destruct (Ha s0 Hs0) as (r & Hv & Hr).
  - exists r. split; [done|]. eapply safe_reads_same; [done| |done].
    intros k _ [i Hi]. cbn. rewrite lookup_insert_ne; [done|]. intros <-. by rewrite next_inode_fresh in Hi.
  - rewrite Heq. intros Hk. unfold safe_reads in Hr. rewrite Hk in Hr. destruct Hr as (i & Hi & _). by rewrite next_inode_fresh in Hi.
Qed.
Lemma all_synced V d : all V d -> all V (mkDisk (dk_Inodes d) (dk_Names d) []).
Proof. intros Ha s Hs%list_elem_of_singleton. subst s. apply Ha. by left. Qed.
End Files.

(** ** Writing through a temporary file *)
Section Writes.
Variables (base prefix : string) (V : option string -> Prop) (b : string).
Hypothesis base_plain : HasPrefix base prefix = false.
Definition or_new (r : option string) : Prop := V r \/ r = Some b.
Notation W := or_new.

Lemma temp_ne n : HasPrefix n prefix = true -> n <> base.
Proof using base_plain. intros Hn ->. by rewrite base_plain in Hn. Qed.

(** The temporary file [temp] has the inode [k], and nobody else has. *)
Record holds_temp (temp : string) (k : Z) (data : string) (safe : bool) (d : disk) : Prop := {
  ht_name : dk_Names d !! temp = Some k;
  ht_inode : dk_Inodes d !! k = Some (mkInode true 384 data safe);
  ht_apart : apart base k d;
  ht_all : all base V d }.
(** The only temporary names now are in [l]. *)
Definition only (l : list string) (d : disk) : Prop := forall n, HasPrefix n prefix = true -> is_Some (dk_Names d !! n) -> n ∈ l.

Lemma all_W d : all base V d -> all base W d.
Proof. apply all_weaken. by left. Qed.
Lemma only_steady l : steady (foreign base prefix) (only l).
Proof. intros d d' Hf Ho n Hn. rewrite (fs_now _ _ _ _ Hf n) by by right. by apply Ho. Qed.
Lemma and_steady P Q : steady (foreign base prefix) P -> steady (foreign base prefix) Q -> steady (foreign base prefix) (fun d => P d /\ Q d).
Proof. intros HP HQ d d' Hf [? ?]. split; [by eapply HP | by eapply HQ]. Qed.
Lemma holds_temp_steady temp k data safe : HasPrefix temp prefix = true -> steady (foreign base prefix) (holds_temp temp k data safe).
Proof.
  intros Ht d d' Hf [Hn Hi Hk Ha]. split.
  - rewrite (fs_now _ _ _ _ Hf temp) by by right. done.
  - eapply (fs_inodes _ _ _ _ Hf temp (dk_Names d) k); [by right|by left|done|done].
  - intros s' Hs'. destruct (fs_dirs _ _ _ _ Hf base s') as (s & Hs & ->); [by left|done|]. by apply Hk.
  - by eapply all_steady.
Qed.
Lemma holds_temp_inode temp k data safe f data' safe' d :
  f (mkInode true 384 data safe) = mkInode true 384 data' safe' -> holds_temp temp k data safe d -> holds_temp temp k data' safe' (set_inode k f d).
Proof.
  intros Hf [Hn Hi Hk Ha]. split; [done| |done|by apply all_inode]. cbn. by rewrite lookup_alter_eq, Hi, <- Hf.
Qed.
Lemma only_cons n l d : only l d -> only (n :: l) d.
Proof. intros Ho n' Hn' Hs. right. by apply Ho. Qed.

Notation spec := (spec (foreign base prefix)).
Notation steady := (steady (foreign base prefix)).
Hint Resolve only_steady and_steady holds_temp_steady all_steady all_W : core.

Lemma CreateTemp_spec suffixes :
  spec (all base W) (fun d => all base V d /\ only [] d) (CreateTemp prefix suffixes)
    (fun r d => match r with Ok (temp, k) => HasPrefix temp prefix = true /\ holds_temp temp k "" false d /\ only [temp] d | Err _ => all base V d end).
Proof using base_plain.
  apply spec_syscall; [by auto| |].
  - intros d [Ha Ho]. destruct (List.find _ _) as [x|] eqn:Hx; cbn; [|by auto].
    assert (Hp := HasPrefix_app x prefix). destruct (all_new base V d (prefix +:+ x)) as [Ha' Hk]; [by apply temp_ne|done|].
    split_and!; [by auto..| |].
    + split; [by apply lookup_insert_eq | by apply lookup_insert_eq | done..].
    + intros n Hn Hs. cbn in Hs. destruct (decide (n = prefix +:+ x)) as [->|Hne]; [by left|].
      rewrite lookup_insert_ne in Hs by done. by destruct (not_elem_of_nil n (Ho n Hn Hs)).
  - cbn. intros d _ _ _ [Ha Ho]. by auto.
Qed.

Lemma write_and_close_spec temp k :
  HasPrefix temp prefix = true ->
  spec (all base W) (fun d => holds_temp temp k "" false d /\ only [temp] d) (write_and_close true k b)
    (fun r d => all base V d /\ only [temp] d /\ (r = Ok tt -> holds_temp temp k b true d)).
Proof using base_plain.
  intros Ht.
  set (Q (r : result unit) d := all base V d /\ only [temp] d /\ (r = Ok tt -> holds_temp temp k b true d)).
  unfold write_and_close. eapply spec_bind.
  { apply (spec_try _ _ _ _ Q). eapply (spec_bind _ _ _ _ _ (fun r d => only [temp] d /\ exists data, holds_temp temp k data false d /\ (r = Ok tt -> data = b))).
    - apply spec_syscall; [by auto| |].
      + intros d [Hh Ho]. assert (Hh' : holds_temp temp k b false (set_inode k (append_data b) d)) by by apply (holds_temp_inode temp k "" false).
        cbn. split_and!; [apply all_W, Hh | apply all_W, Hh' | done |]. by exists b.
      + intros d e n _ [Hh Ho]. cbn. assert (Hh' : holds_temp temp k (take_str n b) false (set_inode k (append_data (take_str n b)) d)) by by apply (holds_temp_inode temp k "" false).
        split_and!; [apply all_W, Hh' | done |]. by eexists.
    - intros [] . apply (spec_weaken _ _ (fun d => holds_temp temp k b false d /\ only [temp] d) _ _ Q).
      + apply spec_syscall; [by auto| |].
        * intros d [Hh Ho]. assert (Hh' : holds_temp temp k b true (set_inode k keep_data d)) by by apply (holds_temp_inode temp k b false).
          cbn. split_and!; [apply all_W, Hh | apply all_W, Hh' |]. split_and!; [apply Hh'|done|done].
        * intros d e n _ [Hh Ho]. cbn. split_and!; [apply all_W, Hh|]. by split_and!; [apply Hh| |].
      + intros d (Ho & data & Hh & Hd). by rewrite Hd in Hh.
      + done.
    - intros e d (Ho & data & Hh & _). by split_and!; [apply Hh| |]. }
  2:{ intros e d Hd. by destruct Hd. }
  intros r. eapply (spec_bind _ _ _ _ _ (fun c d => match c with Ok _ => Q r d | Err _ => False end)).
  - eapply (spec_weaken _ _ (Q r)); [apply spec_try, (spec_look _ _ (Q r) (fun _ => Ok tt) _ (fun _ => Q r)) | done | by intros [[|]|]].
    + destruct r as [[]|e].
      * intros d d' Hf (Ha & Ho & Hh). split_and!; [by eapply all_steady | by eapply only_steady|]. intros _. eapply holds_temp_steady; eauto.
      * intros d d' Hf (Ha & Ho & Hh). by split_and!; [eapply all_steady | eapply only_steady|].
    + intros d (Ha & _). by apply all_W.
    + done.
    + done.
  - intros c. destruct r as [[]|e], c as [c|e']; [by apply spec_ret|by apply spec_raise; intros d (?&?&?)|by apply spec_raise..].
  - done.
Qed.

(** Moving it: from then on the file may be the new one, and once the move is durable it is. *)
Definition new_now (d : disk) : Prop := all base W d /\ safe_reads base d (dk_Names d) (Some b) /\ only [] d.
Definition replaced (d : disk) : Prop := all base (eq (Some b)) d /\ only [] d.

Lemma moved_at temp k s n : temp <> base -> renamed temp base k s !! n = if bool_decide (n = base) then Some k else if bool_decide (n = temp) then None else s !! n.
Proof.
  intros Hne. unfold renamed. case_bool_decide; [subst; by apply lookup_insert_eq|]. rewrite lookup_insert_ne by done.
  case_bool_decide; [subst; by apply lookup_delete_eq|]. by apply lookup_delete_ne.
Qed.
Lemma only_moved temp k d d' : HasPrefix temp prefix = true -> dk_Names d' = renamed temp base k (dk_Names d) -> only [temp] d -> only [] d'.
Proof using base_plain.
  intros Ht Hd Ho n Hn Hs. rewrite Hd, moved_at in Hs by by apply temp_ne. rewrite bool_decide_eq_false_2 in Hs by by apply temp_ne.
  case_bool_decide as Hnt; [by destruct Hs|]. destruct Hnt. by apply list_elem_of_singleton, Ho.
Qed.
Lemma moved_reads temp k d s :
  HasPrefix temp prefix = true -> dk_Inodes d !! k = Some (mkInode true 384 b true) -> safe_reads base d (renamed temp base k s) (Some b).
Proof using base_plain.
  intros Ht Hi. unfold safe_reads. rewrite moved_at by (by apply temp_ne). rewrite bool_decide_eq_true_2 by done. by eexists.
Qed.
Lemma new_now_steady : steady new_now.
Proof.
  intros d d' Hf (Ha & Hr & Ho). split_and!; [by eapply all_steady| |by eapply only_steady].
  eapply safe_reads_same; [|..|exact Hr].
  - apply (fs_now _ _ _ _ Hf). by left.
  - intros k Hk [i Hi]. rewrite Hi. eapply fs_inodes; [done| |by left|done|done]. by left.
Qed.
Lemma replaced_steady : steady replaced.
Proof. intros d d' Hf [Ha Ho]. split; [by eapply all_steady | by eapply only_steady]. Qed.
Lemma replaced_W d : replaced d -> all base W d.
Proof. intros [Ha _]. eapply all_weaken; [|done]. by intros ? <-; right. Qed.

Lemma Rename_spec temp k :
  HasPrefix temp prefix = true ->
  spec (all base W) (fun d => holds_temp temp k b true d /\ only [temp] d) (Rename temp base)
    (fun r d => match r with Ok _ => new_now d | Err _ => all base W d end).
Proof using base_plain.
  intros Ht. apply spec_syscall; [by auto| |].
  - intros d [[Hn Hi Hk Ha] Ho]. rewrite Hn. cbn. assert (Hr := moved_reads temp k (set_names (renamed temp base k) d) (dk_Names d) Ht Hi).
    assert (Ha' : all base W (set_names (renamed temp base k) d)).
    { intros s Hs. apply elem_of_cons in Hs as [->|Hs]; [exists (Some b); split; [by right|done]|].
      destruct (Ha s Hs) as (r & Hv & ?). exists r. split; [by left|done]. }
    split_and!; [by apply all_W|done|]. split_and!; [done..|]. by eapply only_moved.
  - intros d e n _ [Hh Ho]. cbn. split; apply all_W, Hh.
Qed.
Lemma MoveFileEx_spec temp k :
  HasPrefix temp prefix = true ->
  spec (all base W) (fun d => holds_temp temp k b true d /\ only [temp] d) (MoveFileEx temp base)
    (fun r d => match r with Ok _ => replaced d | Err _ => all base W d end).
Proof using base_plain.
  intros Ht. apply spec_syscall; [by auto| |].
  - intros d [[Hn Hi Hk Ha] Ho]. rewrite Hn. cbn.
    assert (Hr : replaced (mkDisk (dk_Inodes d) (renamed temp base k (dk_Names d)) (renamed temp base k <$> dk_Earlier d))).
    { split; [|by eapply (only_moved temp k d)]. intros s Hs. exists (Some b). split; [done|].
      apply elem_of_cons in Hs as [->|(s0 & -> & _)%list_elem_of_fmap]; by apply (moved_reads temp k d). }
    split_and!; [by apply all_W | by apply replaced_W | done].
  - intros d e n _ [Hh Ho]. cbn. split; apply all_W, Hh.
Qed.
Lemma replacePrivate_spec windows temp k :
  HasPrefix temp prefix = true ->
  spec (all base W) (fun d => holds_temp temp k b true d /\ only [temp] d) (replacePrivate windows temp base)
    (fun r d => match r with Ok _ => replaced d | Err _ => all base W d end).
Proof using base_plain.
  intros Ht. unfold replacePrivate. destruct windows; [by apply MoveFileEx_spec|].
  eapply spec_bind; [by apply Rename_spec| |done]. intros []. unfold syncPrivateDirectory.
  eapply (spec_bind _ _ _ _ _ (fun r d => new_now d)); [|intros []|by intros e d (?&?&?)].
  - apply spec_look; [apply new_now_steady | by intros d (?&?&?) | done | done].
  - apply spec_syscall; [apply new_now_steady| |].
    + intros d (Ha & Hr & Ho). cbn. split_and!; [done | by apply all_synced |]. split; [|done].
      intros s Hs%list_elem_of_singleton. subst s. by exists (Some b).
    + intros d e n _ (Ha & Hr & Ho). done.
Qed.
Lemma Remove_spec n (Q : disk -> Prop) (P : disk -> Prop) :
  n <> base -> steady P -> (forall d, P d -> all base W d) -> (forall d, P d -> Q d /\ Q (set_names (delete n) d)) ->
  spec (all base W) P (Remove n) (fun _ => Q).
Proof.
  intros Hn Hs Hw Hq. apply spec_syscall; [done| |].
  - intros d Hd. destruct (Hq d Hd), (bool_decide _); cbn; split_and!; try by apply Hw. done. apply all_delete; [done|by apply Hw]. done.
  - intros d e m _ Hd. cbn. destruct (Hq d Hd). split; [by apply Hw|done].
Qed.
Lemma only_delete l n d : only l d -> only l (set_names (delete n) d).
Proof.
  intros Ho m Hm Hs. cbn in Hs. destruct (decide (m = n)) as [->|Hne]; [by rewrite lookup_delete_eq in Hs; destruct Hs|].
  rewrite lookup_delete_ne in Hs by done. by apply Ho.
Qed.
End Writes.

(** ** Removing what earlier writes left *)
Section Cleanup.
Variables (sha256 : string -> string) (windows : bool) (base : string) (V W : option string -> Prop).
Notation prefix := (privateTempPrefix sha256 base).
Hypothesis base_plain : HasPrefix base prefix = false.
Hypothesis V_W : forall r, V r -> W r.
Notation spec := (spec (foreign base prefix)).
Notation steady := (steady (foreign base prefix)).
Notation only := (only prefix).
Definition tidy (l : list string) (d : disk) : Prop := all base V d /\ only l d.

Lemma tidy_steady l : steady (tidy l).
Proof. intros d d' Hf [Ha Ho]. split; [by eapply all_steady | by eapply only_steady]. Qed.
Lemma tidy_W l d : tidy l d -> all base W d.
Proof using V_W. intros [Ha _]. by eapply all_weaken. Qed.
Hint Resolve tidy_steady tidy_W : core.

Lemma not_owned name l d : HasPrefix name prefix = false -> only (name :: l) d -> only l d.
Proof. intros Hn Ho n Hp Hs. specialize (Ho n Hp Hs). apply elem_of_cons in Ho as [->|?]; [congruence|done]. Qed.
Lemma not_there name l d : dk_Names d !! name = None -> only (name :: l) d -> only l d.
Proof. intros Hn Ho n Hp Hs. specialize (Ho n Hp Hs). apply elem_of_cons in Ho as [->|?]; [rewrite Hn in Hs; by destruct Hs|done]. Qed.
Lemma tidy_look {A} l (f : disk -> result A) :
  spec (all base W) (tidy l) (syscall (fun d => (f d, d)) nothing) (fun r d => tidy l d).
Proof using V_W. apply spec_look; eauto. Qed.
Lemma older_is_ours_spec l name age k : spec (all base W) (tidy l) (older_is_ours name age k) (fun r d => tidy l d).
Proof using V_W.
  unfold older_is_ours. eapply (spec_bind _ _ _ _ _ (fun r d => tidy l d)); [|intros [f|e]|by intros ? ?].
  - eapply spec_weaken; [apply spec_try, tidy_look | done | by intros [|]].
  - eapply (spec_bind _ _ _ _ _ (fun r d => tidy l d)); [|intros [o|e]|by intros ? ?].
    + eapply spec_weaken; [apply spec_try, tidy_look | done | by intros [|]].
    + case_bool_decide; [|by apply spec_raise]. eapply (spec_bind _ _ _ _ _ (fun r d => tidy l d)); [|intros ?; by apply spec_ret|by intros ? ?].
      apply spec_look; eauto.
    + by apply spec_raise.
  - case_bool_decide; [by apply spec_ret | by apply spec_raise].
Qed.
Lemma Remove_keeps name l : name <> base -> spec (all base W) (tidy l) (Remove name) (fun _ => tidy l).
Proof using V_W.
  intros Hn. apply spec_syscall; [by auto| |].
  - intros d Hd. assert (Hd' : tidy l (set_names (delete name) d)) by (split; [by apply all_delete, Hd | by apply only_delete, Hd]).
    destruct (bool_decide _); cbn; eauto.
  - intros d e n _ Hd. cbn. eauto.
Qed.
(** Removing one entry: it was there and is not, or it was not there. *)
Lemma Remove_tidy name l :
  name <> base ->
  spec (all base W) (tidy (name :: l)) (Remove name)
    (fun r d => tidy (name :: l) d /\ (r = Ok tt \/ r = Err errNotExist -> only l d)).
Proof using V_W.
  intros Hn. apply spec_syscall; [by auto| |].
  - intros d Hd. destruct (bool_decide_reflect (dk_Names d !! name = None)) as [E|E]; cbn.
    + split_and!; [eauto..|intros _]. by eapply not_there, Hd.
    + assert (Hd' : tidy (name :: l) (set_names (delete name) d)).
      { split; [by apply all_delete, Hd | by apply only_delete, Hd]. }
      split_and!; [eauto..|intros _]. eapply not_there, Hd'. cbn. by rewrite lookup_delete_eq.
  - intros d e n He Hd. cbn. split_and!; [eauto|done|intros [?|?]; congruence].
Qed.

Lemma clean_entry_spec identity name l :
  identity = None \/ older_name base = false ->
  spec (all base W) (tidy (name :: l)) (clean_entry sha256 base identity name)
    (fun r d => all base V d /\ (is_ok r = true -> only l d)).
Proof using base_plain V_W.
  intros Hi. unfold clean_entry. destruct (HasPrefix name prefix) eqn:Hp.
  - cbn [negb andb]. assert (Hne : name <> base) by (intros ->; congruence).
    eapply (spec_bind _ _ _ _ _ (fun r d => tidy (name :: l) d /\ (r = Ok (Err errNotExist) -> only l d) /\ is_ok r = true)); [|intros [[k i]|e]|intros e d [[??] [??]]; done].
    + eapply spec_weaken; [apply spec_try, (spec_look _ _ (tidy (name :: l)) _ _ (fun r d => tidy (name :: l) d /\ (r = Err errNotExist -> only l d))) | done | intros [r|e] d Hd; [|done]].
      * auto.
      * eauto.
      * intros d Hd. split; [done|]. intros E. eapply not_there, Hd. destruct (dk_Names d !! name); [|done]. by destruct (dk_Inodes d !! _).
      * cbn. intros d e n He Hd. split_and!; [done..|]. congruence.
      * split_and!; [apply Hd| |done]. intros [= ->]. by apply Hd.
    + destruct (negb (in_Regular i) || _); [apply spec_raise; by intros d [[??] ?]|].
      eapply (spec_bind _ _ _ _ _ (fun r d => r = Ok (Some true) /\ tidy (name :: l) d)); [apply spec_ret; by intros d (?&?)|intros r|intros e d (? & ? & ?); by split].
      eapply (spec_weaken _ _ (fun d => r = Some true /\ tidy (name :: l) d)); [|intros d ([= ->] & ?); by split|intros ? ? E; exact E].
      apply spec_known. intros ->.
      eapply (spec_bind _ _ _ _ _ (fun r d => tidy (name :: l) d /\ (r = Ok (Ok tt) \/ r = Ok (Err errNotExist) -> only l d))); [|intros [[]|e]|intros e d [[??] ?]; by split].
      * eapply spec_weaken; [apply spec_try, Remove_tidy; done | done | intros [r|e] d Hd; [|done]]. split; [apply Hd|].
        intros [[= ->]|[= ->]]; apply Hd; auto.
      * apply spec_ret. intros d [[??] Ho]. split; [done|]. intros _. by apply Ho; left.
      * case_bool_decide; [subst|apply spec_raise; intros d [[??] ?]; by split].
        apply spec_ret. intros d [[??] Ho]. split; [done|]. intros _. by apply Ho; right.
    + case_bool_decide; [subst; apply spec_ret|apply spec_raise]; intros d [[??] [Ho _]]; (split; [done|]); [intros _; by apply Ho|done].
  - assert (Hl : forall (r : result bool) d, tidy l d -> all base V d /\ (is_ok r = true -> only l d)) by by intros ?? [??].
    eapply (spec_weaken _ _ (tidy l) _ _ (fun _ => tidy l)); [|intros d [? ?]; split; [done|by eapply not_owned]|intros r d; apply Hl].
    cbn [negb andb]. destruct (_ || negb (older_name name)) eqn:Hk; [by apply spec_ret|].
    assert (name <> base). { intros ->. bool_simpl. by destruct Hi; [|congruence]. }
    eapply (spec_bind _ _ _ _ _ (fun r d => tidy l d)); [|intros [[k i]|e]|by intros ? ?].
    + eapply spec_weaken; [apply spec_try, tidy_look | done | by intros [|]].
    + destruct (negb (in_Regular i) || _); [by apply spec_ret|].
      eapply (spec_bind _ _ _ _ _ (fun r d => tidy l d)); [apply older_is_ours_spec|intros [[|]|]; [|by apply spec_ret..]|by intros ? ?].
      eapply (spec_bind _ _ _ _ _ (fun r d => tidy l d)); [|intros [?|e]; [by apply spec_ret|destruct (bool_decide (e = errNotExist)); [by apply spec_ret|by apply spec_raise]]|by intros ? ?].
      eapply spec_weaken; [by apply spec_try, Remove_keeps | done | by intros [|]].
    + destruct (bool_decide (e = errNotExist)); [by apply spec_ret | by apply spec_raise].
Qed.

Definition tidied {A} (r : result A) (d : disk) : Prop := all base V d /\ (is_ok r = true -> only [] d).
Lemma clean_entries_spec identity l removed :
  identity = None \/ older_name base = false ->
  spec (all base W) (tidy l) (clean_entries sha256 base identity l removed) tidied.
Proof using base_plain V_W.
  intros Hi. revert removed. induction l as [|name l IH]; intros removed; cbn; [apply spec_ret; by intros d [??]|].
  eapply spec_bind; [by apply clean_entry_spec|intros r|intros e d [??]; by split].
  eapply spec_weaken; [apply IH | intros d [? Ho]; split; [done|by apply Ho] | intros ? ? E; exact E].
Qed.
Lemma cleanup_spec identity :
  identity = None \/ older_name base = false ->
  spec (all base W) (all base V) (cleanupPrivateTemps sha256 windows base identity) tidied.
Proof using base_plain V_W.
  intros Hi. unfold cleanupPrivateTemps.
  eapply (spec_bind _ _ _ _ _ (fun r d => match r with Ok l => tidy l d | Err _ => all base V d end)); [|intros l|by intros].
  - apply spec_look; [apply all_steady | intros d; by apply all_weaken | | done]. intros d Hd. split; [done|].
    intros n _ Hn. rewrite merge_sort_Permutation. by apply elem_of_elements, elem_of_dom.
  - eapply spec_bind; [by apply clean_entries_spec|intros removed|intros e d [??]; by split].
    eapply (spec_weaken _ _ (tidy []) _ _ (fun _ => tidy [])); [|intros d [? Ho]; split; [done|by apply Ho]|by intros ? ? [??]].
    destruct removed; [|by apply spec_ret]. unfold syncPrivateDirectory. destruct windows; [by apply spec_ret|].
    eapply (spec_bind _ _ _ _ _ (fun r d => tidy [] d)); [|intros []|done].
    + apply spec_look; eauto.
    + apply spec_syscall; [auto| |intros d e n _ Hd; cbn; eauto].
      intros d Hd. assert (Hd' : tidy [] (mkDisk (dk_Inodes d) (dk_Names d) [])) by (split; [by apply all_synced, Hd|apply Hd]). cbn. eauto.
Qed.
End Cleanup.

(** ** Saving the state of an identity *)
Section Save.
Variables (sha256 : string -> string) (windows : bool) (base : string).
Notation prefix := (privateTempPrefix sha256 base).

Definition state_saved (V : option string -> Prop) (b : string) (r : result unit) (d : disk) : Prop :=
  all base (or_new V b) d /\ (r = Ok tt -> replaced base prefix b d).
Lemma saved_steady V b r : steady (foreign base prefix) (state_saved V b r).
Proof. intros d d' Hf [Ha Hr]. split; [by eapply all_steady | intros E; by eapply replaced_steady, Hr]. Qed.
Lemma write_temp_spec V b temp k :
  HasPrefix base prefix = false -> HasPrefix temp prefix = true ->
  spec (foreign base prefix) (all base (or_new V b)) (fun d => holds_temp base V temp k "" false d /\ only prefix [temp] d)
    (deferred (Remove temp) (write_and_close true k b;; replacePrivate windows temp base)) (state_saved V b).
Proof.
  intros Hp Ht. eapply (spec_deferred _ _ _ _ _ (state_saved V b)).
  - eapply spec_bind; [by apply write_and_close_spec|intros []|intros e d (Ha & _)].
    + eapply (spec_weaken _ _ (fun d => holds_temp base V temp k b true d /\ only prefix [temp] d)); [by eapply replacePrivate_spec|intros d (? & ? & Hh); split; [by apply Hh|done]|].
      intros [[]|e] d Hd; (split; [|done]); [by eapply replaced_W|done].
    + split; [by apply all_W|done].
  - intros r. eapply Remove_spec; [by eapply temp_ne|apply saved_steady|by intros d [??]|].
    intros d [Ha Hr]. split; [done|]. split; [apply all_delete; [by eapply temp_ne|done]|]. intros E. destruct (Hr E) as [Hb Ho].
    split; [apply all_delete; [by eapply temp_ne|done] | by apply only_delete].
Qed.
Lemma privateJSON_spec V b suffixes :
  HasPrefix base prefix = false ->
  spec (foreign base prefix) (all base (or_new V b)) (all base V) (privateJSON sha256 windows base (Ok b) suffixes) (state_saved V b).
Proof.
  intros Hp. assert (Herr : forall e d, all base V d -> state_saved V b (Err e) d) by (intros e d Hd; split; [by apply all_W|done]).
  unfold privateJSON, privateJSONWithReplacement.
  eapply (spec_bind _ _ _ _ _ (fun r d => all base V d)); [|intros []|by apply Herr].
  { apply spec_look; [apply all_steady | intros d; by apply all_W | done | done]. }
  eapply (spec_bind _ _ _ _ _ (fun r d => r = Ok b /\ all base V d)); [by apply spec_pass|intros b'|intros e d [_ ?]; by apply Herr].
  apply spec_known. intros [= ->].
  eapply spec_bind; [by apply (cleanup_spec _ _ _ V); [|by left|left]|intros []|intros e d [??]; by apply Herr].
  eapply (spec_bind _ _ _ _ _ (fun r d => match r with Ok (temp, k) => HasPrefix temp prefix = true /\ holds_temp base V temp k "" false d /\ only prefix [temp] d | Err _ => all base V d end)); [|intros [temp k]|by apply Herr].
  - eapply spec_weaken; [by apply CreateTemp_spec|intros d [? Ho]; split; [done|by apply Ho]|by intros [[??]|]].
  - apply spec_known. intros Ht. by apply write_temp_spec.
Qed.

(** C12. A state is saved whole or not at all, and what is saved is on the disk. Let every directory a
    loss of power may bring back hold the state file as one of [V], and save [b] over it, with any
    calls that fail, after any of their work, and any processes that share the directory and leave
    this identity's files alone. At every moment of the save, a process that starts then - after a
    crash or after a loss of power - reads one of [V] or [b], never a part of either. When the save
    reports success it is [b] that is read, loss of power or not, and no temporary file of this
    identity is left, from this save or from one that was interrupted. *)
Theorem state_survives V b suffixes m r m' :
  HasPrefix base prefix = false -> respects (foreign base prefix) (mc_Script m) ->
  mc_Seen m = [] -> all base V (mc_Disk m) ->
  privateJSON sha256 windows base (Ok b) suffixes m = (r, m') ->
  (forall d, d ∈ mc_Disk m' :: mc_Seen m' ->
     (V (now_reads d base) \/ now_reads d base = Some b) /\ forall x, after_power_loss d base x -> V x \/ x = Some b) /\
  (r = Ok tt ->
     now_reads (mc_Disk m') base = Some b /\ (forall x, after_power_loss (mc_Disk m') base x -> x = Some b) /\
     forall n, HasPrefix n prefix = true -> dk_Names (mc_Disk m') !! n = None).
Proof using Type.
  intros Hp Hs Hseen Ha Hr. pose proof (privateJSON_spec V b suffixes Hp) as Hsp.
  specialize (Hsp m Hs). rewrite Hseen, Hr in Hsp. destruct Hsp as (_ & Hall & Hnow & Hok); [constructor|done|]. split.
  - assert (Hd : Forall (all base (or_new V b)) (mc_Disk m' :: mc_Seen m')) by by constructor. rewrite Forall_forall in Hd.
    intros d Hin. specialize (Hd d Hin). split; [exact (all_now _ _ _ Hd) | intros x; by apply (all_after_power_loss _ _ _ _ Hd)].
  - intros Hr'. destruct (Hok Hr') as [Hb Ho]. split_and!; [symmetry; exact (all_now _ _ _ Hb) | intros x Hx; symmetry; exact (all_after_power_loss _ _ _ _ Hb Hx)|].
    intros n Hn. destruct (dk_Names (mc_Disk m') !! n) eqn:E; [|done]. exfalso. eapply not_elem_of_nil, (Ho n Hn). eauto.
Qed.
End Save.

(** ** What a recovery leaves alone *)
Section Spared.
Variables (sha256 : string -> string) (windows : bool) (base : string) (identity : option string) (n : string) (k : Z) (i : inode).
Notation prefix := (privateTempPrefix sha256 base).
(** The file [n]. *)
Definition there (d : disk) : Prop := dk_Names d !! n = Some k /\ dk_Inodes d !! k = Some i.
Definition leaves_it (d d' : disk) : Prop := there d -> there d'.
Hypothesis not_temp : HasPrefix n prefix = false.
Hypothesis not_ours : forall age part, identity = Some age -> older_name n = true -> legacyTempIdentity (take_str part (in_Data i)) age = false.
Notation spec := (spec leaves_it there).

Lemma there_steady P : (forall d, P d <-> there d) -> steady leaves_it P.
Proof. intros Hp d d' Hl Hd. apply Hp, Hl, Hp, Hd. Qed.
Lemma there_look {A} (f : disk -> result A) failed (Post : result A -> Prop) :
  (forall d, there d -> Post (f d)) -> (forall d e n, (failed e n d).2 = d /\ (there d -> Post (failed e n d).1)) ->
  spec there (syscall (fun d => (f d, d)) failed) (fun r d => there d /\ Post r).
Proof.
  intros Hf Hfail. apply spec_look; [by apply there_steady | done | by auto |]. intros d e m _ Hd. destruct (Hfail d e m) as [? ?]. auto.
Qed.
Lemma there_any {A} (f : disk -> result A) : spec there (syscall (fun d => (f d, d)) nothing) (fun r d => there d).
Proof. eapply spec_weaken; [by apply (there_look _ _ (fun _ => True)) | done | by intros ? ? [??]]. Qed.
Lemma there_remove name : name <> n -> spec there (Remove name) (fun _ => there).
Proof.
  intros Hne. apply spec_syscall; [by apply there_steady| |done]. intros d Hd. split; [done|].
  assert (there (set_names (delete name) d)) by (split; [cbn; rewrite lookup_delete_ne by done; apply Hd | apply Hd]).
  by destruct (bool_decide _).
Qed.
Lemma there_try {A} (x : F A) : spec there x (fun _ => there) -> spec there (tried x) (fun _ => there).
Proof. intros Hx. eapply spec_weaken; [by apply spec_try | done | by intros [|]]. Qed.
Lemma there_bind {A B} (x : F A) (f : A -> F B) : spec there x (fun _ => there) -> (forall a, spec there (f a) (fun _ => there)) -> spec there (x ≫= f) (fun _ => there).
Proof. intros Hx Hf. by eapply spec_bind. Qed.
Lemma there_or {A} (c : bool) (x y : F A) : spec there x (fun _ => there) -> spec there y (fun _ => there) -> spec there (if c then x else y) (fun _ => there).
Proof. by destruct c. Qed.

Lemma older_is_ours_any name age k' : spec there (older_is_ours name age k') (fun _ => there).
Proof.
  unfold older_is_ours. apply there_bind; [by apply there_try, there_any|]. intros [f|e].
  - apply there_bind; [by apply there_try, there_any|]. intros [o|e]; [|by apply spec_raise]. apply there_or; [|by apply spec_raise].
    apply there_bind; [|intros ?; by apply spec_ret]. eapply spec_weaken; [by apply (there_look _ _ (fun _ => True))|done|by intros ? ? [??]].
  - apply there_or; [by apply spec_ret | by apply spec_raise].
Qed.
(** The file itself is read, and is not of this identity. *)
Lemma older_is_ours_not age :
  (forall part, legacyTempIdentity (take_str part (in_Data i)) age = false) ->
  spec there (older_is_ours n age k) (fun r d => there d /\ r <> Ok (Some true)).
Proof.
  intros Hage. unfold older_is_ours.
  eapply (spec_bind _ _ _ _ _ (fun r d => there d /\ (forall f, r = Ok (Ok f) -> f = k))); [|intros [f|e]|intros e d [??]; by split].
  - eapply spec_weaken; [apply spec_try, (there_look _ _ (fun r => forall f, r = Ok f -> f = k)) | done | intros [r|e] d Hd; [|done]].
    + intros d [Hn _] f. rewrite Hn. by intros [= ->].
    + done.
    + destruct Hd as [Hd Hr]. split; [done|]. intros f [= ->]. by apply Hr.
  - eapply (spec_weaken _ _ (fun d => f = k /\ there d)); [apply spec_known; intros -> | intros d [? Hf]; split; [by apply Hf|done] | intros ? ? E; exact E].
    eapply (spec_bind _ _ _ _ _ (fun r d => there d)); [by apply there_try, there_any | intros [o|e] | by intros].
    + destruct (bool_decide (o = k)); [|by apply spec_raise].
      eapply (spec_bind _ _ _ _ _ (fun r d => there d /\ forall data, r = Ok data -> exists part, data = take_str part (in_Data i))); [|intros data|intros e d [??]; by split].
      * apply there_look; [intros d|intros d e m; split; [done|]]; intros [_ Hi] data; cbn; rewrite Hi; cbn; intros [= <-]; eauto.
      * apply spec_ret. intros d [Hd Hdata]. split; [done|]. destruct (Hdata data eq_refl) as [part ->]. by rewrite Hage.
    + by apply spec_raise.
  - destruct (bool_decide _); [apply spec_ret | apply spec_raise]; by intros d [??].
Qed.
Lemma clean_entry_spares name : spec there (clean_entry sha256 base identity name) (fun _ => there).
Proof using not_temp not_ours.
  unfold clean_entry. destruct (decide (name = n)) as [->|Hne].
  - rewrite not_temp. cbn [negb andb]. destruct (_ || negb (older_name n)) eqn:Hk; [by apply spec_ret|]. bool_simpl.
    eapply (spec_bind _ _ _ _ _ (fun r d => there d /\ (forall x, r = Ok (Ok x) -> x.1 = k))); [|intros [[k' i']|e]|by intros e d [??]].
    + eapply spec_weaken; [apply spec_try, (there_look _ _ (fun r => forall x, r = Ok x -> x.1 = k)) | done | intros [r|e] d Hd; [|done]].
      * intros d [Hn Hi] x. rewrite Hn, Hi. by intros [= <-].
      * done.
      * destruct Hd as [Hd Hr]. split; [done|]. intros x [= ->]. by apply Hr.
    + eapply (spec_weaken _ _ (fun d => k' = k /\ there d)); [apply spec_known; intros -> | intros d [? Hx]; split; [by apply (Hx (k', i'))|done] | intros ? ? E; exact E].
      destruct (negb (in_Regular i') || _); [by apply spec_ret|].
      assert (identity = Some (default "" identity)) as Hid by (revert H; by case identity).
      eapply spec_bind; [by apply older_is_ours_not; intros part; apply not_ours|intros ours|by intros e d [??]].
      eapply (spec_weaken _ _ (fun d => ours <> Some true /\ there d)); [apply spec_known; intros Ho | intros d [? Hx]; split; [congruence|done] | intros ? ? E; exact E].
      destruct ours as [[|]|]; [done|by apply spec_ret..].
    + destruct (bool_decide (e = errNotExist)); [apply spec_ret | apply spec_raise]; by intros d [??].
  - apply there_or; [by apply spec_ret|]. apply there_bind; [by apply there_try, there_any|]. intros [[k' i']|e].
    + apply there_or; [apply there_or; [by apply spec_raise|by apply spec_ret]|].
      apply there_bind; [apply there_or; [by apply spec_ret|apply older_is_ours_any]|]. intros [[|]|]; [|by apply spec_ret..].
      apply there_bind; [by apply there_try, there_remove|]. intros [?|e]; [by apply spec_ret|].
      apply there_or; [by apply spec_ret|by apply spec_raise].
    + apply there_or; [by apply spec_ret|by apply spec_raise].
Qed.
Lemma cleanup_spares : spec there (cleanupPrivateTemps sha256 windows base identity) (fun _ => there).
Proof using not_temp not_ours.
  unfold cleanupPrivateTemps. apply there_bind; [by apply there_any|]. intros l. apply there_bind.
  - generalize false. induction l as [|name l IH]; intros removed; cbn; [by apply spec_ret|].
    apply there_bind; [apply clean_entry_spares|]. intros r. apply IH.
  - intros removed. apply there_or; [|by apply spec_ret]. unfold syncPrivateDirectory. apply there_or; [by apply spec_ret|].
    apply there_bind; [by apply there_any|]. intros []. apply spec_syscall; [by apply there_steady|done|done].
Qed.
End Spared.

Lemma drop_set_keeps cut l c : c ∈ l -> existsb (Ascii.eqb c) cut = false -> c ∈ drop_set cut l.
Proof.
  intros Hin Hc. induction l as [|a l IH]; [done|]. cbn. destruct (existsb (Ascii.eqb a) cut) eqn:Ha; [|done].
  apply elem_of_cons in Hin as [->|Hin]; [congruence|by apply IH].
Qed.
Lemma Trim_keeps s cut c : c ∈ bytes s -> existsb (Ascii.eqb c) (bytes cut) = false -> Trim s cut <> "".
Proof.
  intros Hin Hc He. apply (f_equal bytes) in He. unfold Trim in He. rewrite bytes_of_bytes in He.
  assert (Hx : c ∈ rev (drop_set (bytes cut) (rev (drop_set (bytes cut) (bytes s))))).
  { rewrite !rev_alt. apply elem_of_reverse, drop_set_keeps; [|done]. apply elem_of_reverse. by apply drop_set_keeps. }
  rewrite He in Hx. by apply elem_of_nil in Hx.
Qed.

Lemma app_str_assoc (s t u : string) : (s +:+ t) +:+ u = s +:+ t +:+ u.
Proof. induction s as [|a s IH]; [done|]. exact (f_equal (String a) IH). Qed.
Lemma prefix_len (p q s t : string) : String.length p = String.length q -> p +:+ s = q +:+ t -> p = q.
Proof.
  revert q. induction p as [|a p IH]; intros [|b q] Hl He; try discriminate; [done|].
  injection He as -> He. f_equal. by apply IH; [injection Hl|].
Qed.
(** The temporary files of another state are neither this one's nor older ones. *)
Lemma other_temp sha256 base other suffix :
  (forall x, len (sha256 x) = 32) -> sha256 other <> sha256 base ->
  HasPrefix (privateTempPrefix sha256 other +:+ suffix) (privateTempPrefix sha256 base) = false /\
  older_name (privateTempPrefix sha256 other +:+ suffix) = false.
Proof.
  intros Hsha Hne. split.
  - apply not_true_is_false. intros (t & Ht)%HasPrefix_spec. apply Hne. apply prefix_len in Ht.
    + unfold privateTempPrefix in Ht. apply app_str_inj_l in Ht. apply hex_inj. eapply prefix_len, Ht.
      pose proof (len_hex (sha256 other)). pose proof (len_hex (sha256 base)). rewrite !Hsha in *. unfold len in *. lia.
    + assert (Hl : forall x, len (privateTempPrefix sha256 x) = 71) by (intros x; unfold privateTempPrefix; by rewrite !len_app, len_hex, Hsha).
      pose proof (Hl other). pose proof (Hl base). unfold len in *. lia.
  - unfold older_name, privateTempPrefix. rewrite app_str_assoc, TrimPrefix_app.
    rewrite (bool_decide_eq_false_2 (Trim _ _ = "")), andb_false_r; [done|].
    apply (Trim_keeps _ _ "-"%char); [|done]. rewrite app_str_assoc, !bytes_app.
    apply elem_of_app. right. by left.
Qed.

(** C28. A recovery leaves other identities' files alone. Let a directory have a temporary file of
    another state - the names have another hash - or a file whose contents, as much of them as is
    read, do not begin with this identity. Cleaning up after this identity, whichever calls fail
    and whatever other processes do that leave the file alone, has it there, with its contents, at
    every moment, whether it reports success or not. *)
Theorem recovery_spares_others sha256 windows base identity n k i m r m' :
  (forall x, len (sha256 x) = 32) ->
  (exists other suffix, sha256 other <> sha256 base /\ n = privateTempPrefix sha256 other +:+ suffix) \/
  (HasPrefix n (privateTempPrefix sha256 base) = false /\ forall age part, identity = Some age -> legacyTempIdentity (take_str part (in_Data i)) age = false) ->
  respects (leaves_it n k i) (mc_Script m) -> mc_Seen m = [] -> there n k i (mc_Disk m) ->
  cleanupPrivateTemps sha256 windows base identity m = (r, m') ->
  forall d, d ∈ mc_Disk m' :: mc_Seen m' -> there n k i d.
Proof.
  intros Hsha Hn Hs Hseen Ht Hr.
  assert (HasPrefix n (privateTempPrefix sha256 base) = false /\
    forall age part, identity = Some age -> older_name n = true -> legacyTempIdentity (take_str part (in_Data i)) age = false) as [Hp Ho].
  { destruct Hn as [(other & suffix & Hne & ->)|[Hp Ho]]; [|by eauto].
    destruct (other_temp sha256 base other suffix Hsha Hne) as [Hp Hold]. split; [done|]. intros ? ? _ E. congruence. }
  pose proof (cleanup_spares sha256 windows base identity n k i Hp Ho m Hs) as Hc. rewrite Hseen, Hr in Hc.
  destruct Hc as (_ & Hall & Hnow); [constructor|done|]. intros d [->|Hd]%elem_of_cons; [done|]. rewrite Forall_forall in Hall. by apply Hall.
Qed.

(** ** An interrupted creation of keys *)
Section Interrupted.
Variables (sha256 : string -> string) (windows : bool) (base : string).
(** The key of the history is there, and the state is not. *)
Definition half_made (d : disk) : Prop := dk_Names d !! base = None /\ is_Some (dk_Names d !! (base +:+ ".history.key")).
Definition leaves_half (d d' : disk) : Prop := half_made d -> half_made d'.
Lemma half_made_steady : steady leaves_half half_made.
Proof. intros d d' Hl. apply Hl. Qed.
Lemma app_longer (s t : string) : t <> "" -> s +:+ t <> s.
Proof.
  intros Ht He. apply (f_equal len) in He. rewrite len_app in He. destruct t; [done|]. pose proof (len_nonneg t). unfold len in *. cbn in He. lia.
Qed.
Lemma half_made_new n : n <> base -> forall d, half_made d -> half_made (new_file n d).
Proof.
  intros Hn d [Hb Hk]. split; cbn; [by rewrite lookup_insert_ne|]. by apply lookup_insert_is_Some'; right.
Qed.

(** An interrupted creation of keys blocks its path. [newCrypto] writes the key of the history as
    a new file before it writes the state, and removes nothing when the state cannot be written, or
    the process ends in between. From then on every attempt to make keys for that path fails,
    whatever the system and other processes do - as long as nobody else makes or removes the two
    files -, and leaves the path without keys. *)
Theorem interrupted_keys_block made suffixes m r m' :
  respects leaves_half (mc_Script m) -> half_made (mc_Disk m) ->
  newCrypto_files sha256 windows base made suffixes m = (r, m') ->
  is_ok r = false /\ half_made (mc_Disk m').
Proof using Type.
  intros Hs Hh Hr.
  assert (Hst := half_made_steady).
  assert (Hsp : spec leaves_half (fun _ => True) half_made (newCrypto_files sha256 windows base made suffixes) (fun r d => half_made d /\ is_ok r = false)).
  { unfold newCrypto_files.
    eapply (spec_bind _ _ _ _ _ (fun _ => half_made)); [by apply spec_look|intros []|done].
    eapply (spec_bind _ _ _ _ _ (fun _ => half_made)); [|intros _|done].
    { apply spec_syscall; [done| |done]. intros d Hd. split_and!; [done..|]. destruct (dk_Names d !! (base +:+ ".lock")); cbn; [done|].
      by apply half_made_new; [apply app_longer|]. }
    eapply (spec_bind _ _ _ _ _ (fun _ => half_made)); [eapply spec_weaken; [by apply spec_try, (spec_look _ _ half_made _ _ (fun _ => half_made))|done|by intros [|]]|intros there|done].
    destruct (negb _); [by apply spec_raise|].
    eapply (spec_bind _ _ _ _ _ (fun _ => half_made)); [by apply spec_pass|intros [key state]|done].
    eapply (spec_bind _ _ _ _ _ (fun _ => half_made)); [by apply spec_look|intros []|done].
    eapply (spec_bind _ _ _ _ _ (fun r d => half_made d /\ is_ok r = false)); [|intros k|by intros e d [??]].
    - apply spec_syscall; [done| |done]. intros d Hd. rewrite bool_decide_eq_false_2; [done|]. by destruct Hd as [_ [k ->]].
    - intros ? ? ? [_ [=]]. }
  specialize (Hsp m Hs). rewrite Hr in Hsp. destruct Hsp as (_ & _ & ? & ?); [by apply Forall_true|done|done].
Qed.
End Interrupted.

(** The configuration of the command line is replaced at once for a process that reads it, but its
    bytes are never synced: after a loss of power it may hold anything. *)
Definition first_config : machine := (save_config_file "config.json" "token" (mkMachine (mkDisk ∅ ∅ []) [] [])).2.
Lemma config_not_durable x :
  now_reads (mc_Disk first_config) "config.json" = Some "token" /\ after_power_loss (mc_Disk first_config) "config.json" (Some x).
Proof.
  split; [vm_compute; reflexivity|]. exists (dk_Names (mc_Disk first_config)). split; [by left|].
  unfold reads. replace (dk_Names (mc_Disk first_config) !! "config.json") with (Some 1) by (vm_compute; reflexivity).
  exists (mkInode true 384 "token" false). split_and!; [vm_compute; reflexivity|done|done].
Qed.

(** ** At concrete inputs *)
Notation hash := (fun _ : string => "0123456789abcdef0123456789abcdef").
Notation state_name := "agent.e2ee.json".
Notation stale := ".e2ee-3031323334353637383961626364656630313233343536373839616263646566-7".
(** A state, and what an interrupted save left beside it. *)
Notation before := (mkDisk {[ 1 := mkInode true 384 "old" true; 2 := mkInode true 384 "o" false ]} {[ state_name := 1; stale := 2 ]} []).

Lemma new_notes_foreign d : foreign state_name (privateTempPrefix hash state_name) d (new_file "notes" d).
Proof.
  assert (Hn : forall n, own state_name (privateTempPrefix hash state_name) n -> n <> "notes").
  { intros n [->|Hn] E; [done|]. subst n. by vm_compute in Hn. }
  split; cbn.
  - intros n Ho. apply lookup_insert_ne. intros E. by apply (Hn n).
  - intros n s' Ho [->|Hs]%elem_of_cons; [|by exists s']. exists (dk_Names d). split; [by left|]. apply lookup_insert_ne. intros E. by apply (Hn n).
  - intros n s k i _ _ _ Hi. rewrite lookup_insert_ne; [done|]. intros <-. by rewrite next_inode_fresh in Hi.
Qed.
Notation busy := (mkSysEvent (new_file "notes") None 0).
Example save_runs :
  (privateJSON hash false state_name (Ok "new") ["7"; "8"] (mkMachine before [] [quiet; busy])).1 = Ok tt /\
  now_reads (mc_Disk (privateJSON hash false state_name (Ok "new") ["7"; "8"] (mkMachine before [] [quiet; busy])).2) state_name = Some "new".
Proof. split; vm_compute; reflexivity. Qed.

Lemma state_survives_witness :
  exists m', privateJSON hash false state_name (Ok "new") ["7"; "8"] (mkMachine before [] [quiet; busy]) = (Ok tt, m') /\
    (forall d, d ∈ mc_Disk m' :: mc_Seen m' ->
       (Some "old" = now_reads d state_name \/ now_reads d state_name = Some "new") /\
       forall x, after_power_loss d state_name x -> Some "old" = x \/ x = Some "new") /\
    (@Ok unit tt = Ok tt ->
       now_reads (mc_Disk m') state_name = Some "new" /\ (forall x, after_power_loss (mc_Disk m') state_name x -> x = Some "new") /\
       forall n, HasPrefix n (privateTempPrefix hash state_name) = true -> dk_Names (mc_Disk m') !! n = None).
Proof.
  destruct (privateJSON hash false state_name (Ok "new") ["7"; "8"] (mkMachine before [] [quiet; busy])) as [r m'] eqn:E.
  assert (r = Ok tt) as -> by (apply (f_equal fst) in E; cbn [fst] in E; rewrite <- E; vm_compute; reflexivity).
  exists m'. split; [done|]. eapply (state_survives hash false state_name (eq (Some "old")) "new" ["7"; "8"]); [..|exact E].
  - vm_compute. reflexivity.
  - constructor; [split; [split; eauto|done]|]. constructor; [split; [apply new_notes_foreign|done]|constructor].
  - done.
  - intros s Hs%list_elem_of_singleton. subst s. exists (Some "old"). split; [done|]. unfold safe_reads. cbn. eexists. split_and!; reflexivity.
Defined.

(** A temporary file of another agent beside it. *)
Notation hash2 := (fun s : string => if bool_decide (s = "agent.e2ee.json") then "0123456789abcdef0123456789abcdef" else "fedcba9876543210fedcba9876543210").
Notation theirs := ".e2ee-66656463626139383736353433323130666564636261393837363534333231302d-1".
Lemma recovery_spares_others_witness :
  let n := privateTempPrefix hash2 "other.e2ee.json" +:+ "1" in
  let m := mkMachine (mkDisk {[ 1 := mkInode true 384 "theirs" false; 2 := mkInode true 384 "o" false ]} {[ n := 1; stale := 2 ]} []) [] [] in
  fst (cleanupPrivateTemps hash2 false state_name (Some "age1") m) = Ok tt /\
  dk_Names (mc_Disk (cleanupPrivateTemps hash2 false state_name (Some "age1") m).2) !! stale = None /\
  forall d, d ∈ mc_Disk (cleanupPrivateTemps hash2 false state_name (Some "age1") m).2 :: mc_Seen (cleanupPrivateTemps hash2 false state_name (Some "age1") m).2 ->
    there n 1 (mkInode true 384 "theirs" false) d.
Proof.
  split_and!; [vm_compute; reflexivity..|].
  eapply (recovery_spares_others hash2 false state_name (Some "age1") _ 1 (mkInode true 384 "theirs" false)); [..|apply surjective_pairing].
  - intros x. cbn. by destruct (bool_decide _).
  - left. exists "other.e2ee.json", "1". split; [vm_compute; discriminate|reflexivity].
  - constructor.
  - done.
  - split; vm_compute; reflexivity.
Defined.

(** The disk is full when the state is written: the first attempt fails, and so does every other. *)
Notation full := (mkSysEvent id (Some "no space left on device") 0).
Notation first_attempt := (newCrypto_files hash false state_name (Ok ("key", "state")) ["1"] (mkMachine (mkDisk ∅ ∅ []) [] [quiet; quiet; quiet; quiet; quiet; quiet; quiet; quiet; quiet; quiet; quiet; full])).
Lemma interrupted_keys_block_witness :
  fst first_attempt = Err "no space left on device" /\
  fst (newCrypto_files hash false state_name (Ok ("key", "state")) ["1"] (mkMachine (mc_Disk (snd first_attempt)) [] [])) = Err errExist /\
  is_ok (fst (newCrypto_files hash false state_name (Ok ("key", "state")) ["1"] (mkMachine (mc_Disk (snd first_attempt)) [] []))) = false /\
  half_made state_name (mc_Disk (snd (newCrypto_files hash false state_name (Ok ("key", "state")) ["1"] (mkMachine (mc_Disk (snd first_attempt)) [] [])))).
Proof.
  split_and!; [vm_compute; reflexivity..|]. eapply (interrupted_keys_block hash false state_name (Ok ("key", "state")) ["1"]); [| |apply surjective_pairing].
  - constructor.
  - split; [vm_compute; reflexivity|]. vm_compute. eexists. reflexivity.
Defined.
