(* ===== verification/MetadataTheorems.v ===== *)
(** * Metadata and profiles: properties

    What [Metadata.NormalizeAgentMetadata] lets through: a snapshot in normal form, with exactly
    the caller's capabilities, on which it is the identity; and the snapshot a local agent
    reports. *)
From stdpp Require Import sorting.
From S2P Require Import Prelude GoStrings Json Metadata.

(** ** Capabilities *)
Definition good_cap (c : string) : Prop :=
  c <> "" /\ TrimSpace c = c /\ len c <= 64 /\ Trim c capability_chars = "".

Lemma collect_caps_spec l : forall caps out,
  collect_caps caps l = Ok out -> NoDup caps -> Forall good_cap caps ->
  NoDup out /\ Forall good_cap out /\
  (forall c, c ∈ out <-> c ∈ caps \/ c <> "" /\ c ∈ TrimSpace <$> l) /\
  (length out <= length caps + length l)%nat.
Proof.
  induction l as [|x l IH]; intros caps out Hc Hn Hf; simpl in Hc.
  { simplify_eq. split_and!; [done|done| |simpl; lia]. intros c. simpl. set_solver. }
  destruct (_ || _) eqn:E in Hc; [done|]. bool_simpl.
  destruct (_ && _) eqn:E3 in Hc; bool_simpl.
  - apply IH in Hc as (? & ? & Hi & Hl).
    + split_and!; [done|done| |rewrite length_app in Hl; simpl in *; lia].
      intros c. rewrite Hi, fmap_cons. set_solver.
    + apply NoDup_app. split_and!; [done|set_solver|apply NoDup_singleton].
    + apply Forall_app. split; [done|]. constructor; [|constructor].
      unfold good_cap. rewrite TrimSpace_idem. split_and!; [done|done|lia|by apply dec_stable].
  - apply IH in Hc as (? & ? & Hi & Hl); [|done|done].
    split_and!; [done|done| |simpl; lia].
    intros c. rewrite Hi, fmap_cons. rewrite elem_of_cons.
    destruct E3 as [E3|E3]; bool_simpl; apply dec_stable in E3; naive_solver.
Qed.

Lemma collect_caps_id l : forall caps,
  NoDup (caps ++ l) -> Forall good_cap l -> collect_caps caps l = Ok (caps ++ l).
Proof.
  induction l as [|x l IH]; intros caps Hn Hf; simpl; [by rewrite app_nil_r|].
  apply Forall_cons in Hf as [(Hx & Ht & Hl & Hc) Hf]. rewrite Ht, Hc.
  rewrite (proj2 (Z.ltb_ge _ _)), (bool_decide_eq_true_2 (x <> "")) by done. simpl.
  rewrite bool_decide_eq_true_2; [|apply NoDup_app in Hn; set_solver].
  rewrite IH; by rewrite <- ?app_assoc.
Qed.

(** ** Normal form *)
Record normal (m : AgentMetadata) : Prop := {
  nm_version : am_SchemaVersion m = 1;
  nm_labels : Forall label (labels m);
  nm_mode : am_ExecutionMode m ∈ ["" ; "interactive"; "unattended"; "ci"];
  nm_kind : forall k, am_Model m = Some k -> mo_IDKind k ∈ [""; "alias"; "snapshot"];
  nm_count : (length (am_Capabilities m) <= 32)%nat;
  nm_caps : Forall good_cap (am_Capabilities m);
  nm_nodup : NoDup (am_Capabilities m);
  nm_sorted : Sorted String.le (am_Capabilities m);
  nm_harness : am_Harness m <> Some (mkHarness "" "");
  nm_model : am_Model m <> Some (mkModel "" "" "" "" "");
  nm_tincan : am_Tincan m <> Some (mkTincan "");
  nm_runtime : am_Runtime m <> Some (mkRuntime "" "") }.

(** What a successful normalization did. *)
Lemma normalize_ok m n : NormalizeAgentMetadata (Some m) = Ok n ->
  normal n /\ forall c, c ∈ am_Capabilities n <-> c <> "" /\ c ∈ TrimSpace <$> am_Capabilities m.
Proof.
  unfold NormalizeAgentMetadata. intros Hn.
  destruct (_ <? _) eqn:E in Hn; [done|]. clear E.
  destruct (bool_decide (_ <> 1)) eqn:Ev in Hn; [done|].
  apply bind_ok in Hn as (mode & Hmode%norm_field_label & Hn).
  apply bind_ok in Hn as (ha & Hha & Hn). apply bind_ok in Hn as (mo & Hmo & Hn).
  apply bind_ok in Hn as (ti & Hti & Hn). apply bind_ok in Hn as (ru & Hru & Hn).
  apply (proj1 (norm_pointer_labels _ _ norm_harness_labels)) in Hha.
  apply (proj1 (norm_pointer_labels _ _ norm_model_labels)) in Hmo.
  apply (proj1 (norm_pointer_labels _ _ norm_tincan_labels)) in Hti.
  apply (proj1 (norm_pointer_labels _ _ norm_runtime_labels)) in Hru.
  case_bool_decide as Hk; [done|]. destruct (match mo with Some _ => _ | None => _ end) eqn:Em in Hn; [done|].
  destruct (32 <? _) eqn:Ec in Hn; [done|].
  apply bind_ok in Hn as (caps & Hc & [= <-]).
  apply collect_caps_spec in Hc as (Hd & Hg & Hi & Hl); [|constructor|constructor].
  pose proof (merge_sort_Permutation String.le caps) as Hp.
  split.
  - constructor; simpl; unfold sort_strings; try apply drop_empty_nonzero.
    + by apply bool_decide_eq_false, dec_stable in Ev.
    + unfold labels; simpl. rewrite Forall_cons, !Forall_app.
      split_and!; [done|by apply drop_empty_labels..].
    + done.
    + intros k Hd'. destruct mo as [k'|]; simpl in *; [|done]. case_bool_decide; simplify_eq.
      by apply bool_decide_eq_false, dec_stable in Em.
    + rewrite Hp. simpl in Hl. bool_simpl. lia.
    + by rewrite Hp.
    + by rewrite Hp.
    + apply (Sorted_merge_sort String.le).
  - intros c. simpl. unfold sort_strings. rewrite Hp, Hi. set_solver.
Qed.

(** A snapshot in normal form is left alone. *)
Lemma normalize_normal m : normal m -> len (encode_metadata m) <= 8192 ->
  NormalizeAgentMetadata (Some m) = Ok m.
Proof.
  intros [Hv Hl Hm Hk Hc Hg Hd Hs H1 H2 H3 H4] Hlen. unfold NormalizeAgentMetadata.
  rewrite (proj2 (Z.ltb_ge _ _)) by done. rewrite Hv. simpl.
  unfold labels in Hl. rewrite Forall_cons, !Forall_app in Hl. destruct Hl as (L0 & L1 & L2 & L3 & L4).
  rewrite (label_norm_field _ L0). simpl.
  rewrite (proj2 (norm_pointer_labels _ _ norm_harness_labels) _ L1). simpl.
  rewrite (proj2 (norm_pointer_labels _ _ norm_model_labels) _ L2). simpl.
  rewrite (proj2 (norm_pointer_labels _ _ norm_tincan_labels) _ L3). simpl.
  rewrite (proj2 (norm_pointer_labels _ _ norm_runtime_labels) _ L4). simpl.
  rewrite bool_decide_eq_false_2 by (by intros Hn; apply Hn).
  assert ((match am_Model m with
           | Some k => bool_decide (mo_IDKind k ∉ [""; "alias"; "snapshot"])
           | None => false end) = false) as ->.
  { destruct (am_Model m) as [k|]; [|done]. apply bool_decide_eq_false_2. intros Hn. by apply Hn, Hk. }
  rewrite (proj2 (Z.ltb_ge _ _)) by lia.
  rewrite (collect_caps_id _ []) by done. simpl.
  rewrite !drop_empty_id by done. unfold sort_strings.
  rewrite (Sorted_unique String.le (merge_sort String.le (am_Capabilities m)) (am_Capabilities m));
    [by destruct m; simpl in *; subst| |done|apply merge_sort_Permutation].
  apply (Sorted_merge_sort String.le).
Qed.

(** ** Strict decoding *)
Definition allowed (names : list string) (v : json) : Prop :=
  forall members k x, v = JObj members -> (k, x) ∈ members ->
  exists n, n ∈ names /\ field_match n k = true.

Definition metadata_names : list string :=
  ["metadata_schema_version"; "harness"; "model"; "tincan"; "runtime"; "execution_mode"; "capabilities"].
Definition metadata_groups : list (string * list string) :=
  [("harness", ["name"; "version"]);
   ("model", ["provider"; "id"; "version"; "id_kind"; "reasoning_effort"]);
   ("tincan", ["version"]); ("runtime", ["os"; "arch"])].

Section Strict.
Context {A : Type}.
Implicit Types (fields : list (string * (json -> A -> option A))).

Lemma field_table_match fields k f : field_table fields k = Some f ->
  exists e, e ∈ fields /\ field_match e.1 k = true /\ f = e.2.
Proof.
  unfold field_table. intros Hf. destruct (List.find _ _) as [e|] eqn:E in Hf.
  - apply List.find_some in E as [He%list_elem_of_In Hk]. simplify_eq. bool_simpl.
    exists e. split_and!; [done| |done]. unfold field_match. apply bool_decide_eq_true. by subst.
  - apply fmap_Some in Hf as (e & E' & ->). apply List.find_some in E' as [He%list_elem_of_In Hk].
    by exists e.
Qed.

Lemma decode_fields_each field members (a b : A) : decode_fields field members a = Some b ->
  forall k x, (k, x) ∈ members -> exists f c d, field k = Some f /\ f x c = Some d.
Proof.
  revert a. induction members as [|[k' v] members IH]; intros a Hd k x Hk; [by apply not_elem_of_nil in Hk|].
  simpl in Hd. destruct (field k') as [f|] eqn:Ef; [|done]. simpl in Hd.
  destruct (f v a) as [a'|] eqn:Ea; [|done]. simpl in Hd.
  apply elem_of_cons in Hk as [[= -> ->]|Hk]; [by exists f, a, a'|by eapply IH].
Qed.

Lemma decode_struct_each fields v (a b : A) : decode_struct (field_table fields) v a = Some b ->
  forall members k x, v = JObj members -> (k, x) ∈ members ->
  exists e c d, e ∈ fields /\ field_match e.1 k = true /\ e.2 x c = Some d.
Proof.
  intros Hd members k x -> Hk. simpl in Hd.
  destruct (decode_fields_each _ _ _ _ Hd _ _ Hk) as (f & c & d & Hf & Hx).
  apply field_table_match in Hf as (e & He & Hm & ->). by exists e, c, d.
Qed.

Lemma decode_struct_allowed fields v (a b : A) :
  decode_struct (field_table fields) v a = Some b -> allowed fields.*1 v.
Proof.
  intros Hd members k x Hv Hk. destruct (decode_struct_each _ _ _ _ Hd _ _ _ Hv Hk) as (e & _ & _ & He & Hm & _).
  exists e.1. split; [by apply list_elem_of_fmap_2|done].
Qed.
End Strict.

Lemma decode_pointer_allowed {A} (zero : A) f v old r names :
  (forall w a b, f w a = Some b -> allowed names w) ->
  decode_pointer zero f v old = Some r -> allowed names v.
Proof.
  intros Hf Hd. destruct v; try (by intros ? ? ? ?); simpl in Hd.
  destruct (f _ _) as [b|] eqn:E in Hd; [|done]. by eapply Hf.
Qed.

(** The fields with a group of their own. *)
Definition group_of (name : string) : option (list string) :=
  snd <$> List.find (fun g => bool_decide (g.1 = name)) metadata_groups.

Lemma metadata_field_allowed e x m n names :
  e ∈ metadata_fields -> e.2 x m = Some n -> group_of e.1 = Some names -> allowed names x.
Proof.
  unfold metadata_fields. rewrite !elem_of_cons, elem_of_nil. intros He.
  destruct_or! He; subst e; simpl; intros Hd Hg; try discriminate Hg; injection Hg as <-;
    apply bind_Some in Hd as (y & Hd & _); (eapply decode_pointer_allowed; [|exact Hd]);
    intros w a b Hw; exact (decode_struct_allowed _ _ _ _ Hw).
Qed.

Lemma group_unique e name names k :
  e ∈ metadata_names -> (name, names) ∈ metadata_groups ->
  field_match e k = true -> field_match name k = true -> group_of e = Some names.
Proof.
  unfold field_match. intros He Hn Hk%bool_decide_eq_true Hk'%bool_decide_eq_true.
  rewrite Hk in Hk'. clear Hk k. unfold metadata_names, metadata_groups in *.
  rewrite !elem_of_cons, elem_of_nil in He. rewrite !elem_of_cons, elem_of_nil in Hn.
  destruct_or! He; destruct_or! Hn; subst; simplify_eq; try done; exfalso; revert Hk'; vm_compute; done.
Qed.

(** normalization produces the canonical snapshot. A successful [NormalizeAgentMetadata]
    returns one whose every label is trimmed, valid, control-free text of at most 128 bytes,
    with a known execution mode and model kind, at most 32 well-formed capabilities in strictly
    sorted order and no empty group; the capabilities are exactly the caller's non-blank ones;
    and normalizing the result again (when it fits the size limit) returns it unchanged. *)
Theorem metadata_canonical (m n : AgentMetadata) :
  NormalizeAgentMetadata (Some m) = Ok n ->
  normal n /\
  (forall c, c ∈ am_Capabilities n <-> c <> "" /\ c ∈ TrimSpace <$> am_Capabilities m) /\
  (len (encode_metadata n) <= 8192 -> NormalizeAgentMetadata (Some n) = Ok n).
Proof.
  intros [Hn Hc]%normalize_ok. split_and!; [done|done|]. by apply normalize_normal.
Qed.

Definition demo_metadata : AgentMetadata :=
  mkAgentMetadata 0 (Some (mkHarness " codex " "1.2")) (Some (mkModel "" "" "" "" "")) None None
    "ci " ["tools.web"; " shell"; "shell "; ""].
Definition demo_normal : AgentMetadata :=
  mkAgentMetadata 1 (Some (mkHarness "codex" "1.2")) None None None "ci" ["shell"; "tools.web"].

Lemma metadata_canonical_witness :
  normal demo_normal /\ NormalizeAgentMetadata (Some demo_normal) = Ok demo_normal.
Proof.
  destruct (metadata_canonical demo_metadata demo_normal ltac:(vm_compute; reflexivity)) as (Hn & _ & Hf).
  split; [exact Hn|]. apply Hf. vm_compute. discriminate.
Defined.

(** decoding is strict. A snapshot that [UnmarshalJSON] accepts is a document of at most 8 KB
    in which every key, and every key inside [harness], [model], [tincan] and [runtime], names a
    documented field (up to case folding): no other key gets through at any level. *)
Theorem metadata_decoding_strict (data : string) (v : json) (m : AgentMetadata) :
  UnmarshalJSON data v = Ok m ->
  len data <= 8192 /\ allowed metadata_names v /\
  (forall members name names k x, v = JObj members -> (k, x) ∈ members ->
     (name, names) ∈ metadata_groups -> field_match name k = true -> allowed names x).
Proof.
  unfold UnmarshalJSON. intros Hu. destruct (decode_struct _ _ _) as [m'|] eqn:Hd; [|done].
  destruct (_ || _) eqn:E in Hu; [done|]. bool_simpl.
  split_and!; [done|exact (decode_struct_allowed _ _ _ _ Hd)|].
  intros members name names k x Hv Hk Hg Hm.
  destruct (decode_struct_each _ _ _ _ Hd _ _ _ Hv Hk) as (e & c & d & He & Hek & Hx).
  eapply metadata_field_allowed; [exact He|exact Hx|].
  eapply group_unique; [|exact Hg|exact Hek|exact Hm]. by apply (list_elem_of_fmap_2 fst) in He.
Qed.

Definition demo_document : json :=
  JObj [("execution_mode", JStr "ci"); ("Harness", JObj [("name", JStr "codex")])].

Lemma metadata_decoding_strict_witness :
  (exists m, UnmarshalJSON "{}" demo_document = Ok m) /\ allowed ["name"; "version"] (JObj [("name", JStr "codex")]).
Proof.
  split; [eexists; vm_compute; reflexivity|].
  exact (proj2 (proj2 (metadata_decoding_strict "{}" demo_document
    (mkAgentMetadata 0 (Some (mkHarness "codex" "")) None None None "ci" []) ltac:(vm_compute; reflexivity)))
    _ "harness" ["name"; "version"] "Harness" (JObj [("name", JStr "codex")]) eq_refl
    ltac:(apply list_elem_of_In; simpl; tauto) ltac:(apply list_elem_of_In; simpl; tauto)
    ltac:(vm_compute; reflexivity)).
Defined.
