(* ===== verification/Protocol.v ===== *)
(** * Discovery and negotiation

    [internal/protocol/protocol.go], [cmd/tincan/protocol.go] and [validateServer]
    ([cmd/tincan/main.go]): the server's descriptor, what a client requires of it, and the
    checks before a server tool is called. HTTP enters as the outcome of the request. *)
From S2P Require Import Prelude GoStrings Json Types.

(** ** The descriptor ([internal/protocol]); a slice is [None] when it is nil *)
Definition Version : string := "0.1".
Definition Profile : string := "tincan-plugin/0.1".
Definition CoreProfile : string := "tincan-core/0.1".

Definition RequiredTools : list string :=
  ["workspace_info"; "rooms_list"; "channels_list"; "agents_list"; "room_members"; "room_create";
   "channel_create"; "room_member_update"; "message_send"; "messages_search"; "invite_create";
   "events_wait"].

Record Descriptor := mkDescriptor {
  de_Protocol : string; de_Versions : list string; de_Profiles : list string;
  de_Capabilities : option (list string); de_Tools : option (list string) }.

Definition Contains (l : list string) (s : string) : bool := bool_decide (s ∈ l).
Definition nil_slice (v : option (list string)) : list string := default [] v.

Fixpoint missing_tool (tools : list string) (required : list string) : option string :=
  match required with
  | [] => None
  | tool :: rest => if Contains tools tool then missing_tool tools rest else Some tool
  end.

Definition Validate (d : Descriptor) : option string :=
  if bool_decide (de_Protocol d <> "tincan") || negb (Contains (de_Versions d) Version)
     || negb (Contains (de_Profiles d) Profile) || negb (Contains (de_Profiles d) CoreProfile)
  then Some "server does not support Tincan 0.1 with profile tincan-plugin/0.1"
  else if bool_decide (de_Capabilities d = None) || bool_decide (de_Tools d = None)
  then Some "Tincan discovery requires capabilities and tools arrays"
  else (fun tool => "Tincan plugin profile requires server tool " +:+ tool)
         <$> missing_tool (nil_slice (de_Tools d)) RequiredTools.

(** Methods on a nil descriptor: a legacy server is taken to support everything. *)
Definition Supports (d : option Descriptor) (capability : string) : bool :=
  match d with None => true | Some d => Contains (nil_slice (de_Capabilities d)) capability end.
Definition SupportsTool (d : option Descriptor) (name : string) : bool :=
  match d with None => true | Some d => Contains (nil_slice (de_Tools d)) name end.

(** ** Server addresses ([validateServer]): what [url.Parse] returned *)
Record url := mkURL {
  u_Scheme : string; u_Host : string; u_Hostname : string; u_User : bool; u_Path : string;
  u_RawQuery : string; u_ForceQuery : bool; u_Fragment : string }.

Definition loopback (hostname : string) : bool :=
  bool_decide (hostname ∈ ["localhost"; "127.0.0.1"; "::1"]).

Definition validateServer (parsed : option url) : option string :=
  match parsed with
  | None => Some "server must use HTTPS except on localhost, without embedded credentials, query, or fragment"
  | Some u =>
      if bool_decide (u_Host u = "") || u_User u || bool_decide (u_RawQuery u <> "")
         || u_ForceQuery u || bool_decide (u_Fragment u <> "")
         || (bool_decide (u_Scheme u <> "https")
             && negb (bool_decide (u_Scheme u = "http") && loopback (u_Hostname u)))
      then Some "server must use HTTPS except on localhost, without embedded credentials, query, or fragment"
      else None
  end.

(** ** Discovery ([discoverProtocol]) *)
(** The response: its status, and the body's length with what it decodes to. *)
Record response := mkResponse {
  rs_Status : Z; rs_Body : result Z; rs_Document : option Descriptor }.

Definition discoverProtocol (parsed : option url) (answer : result response)
    : result (option Descriptor) :=
  match validateServer parsed with
  | Some e => Err e
  | None =>
      if match parsed with Some u => bool_decide (u_Path u <> "") && bool_decide (u_Path u <> "/")
                         | None => false end
      then Err "Tincan protocol servers must be origins without a path" else
      match answer with
      | Err _ => Err "could not discover Tincan server capabilities; check the server address and connectivity"
      | Ok res =>
          if rs_Status res =? 404 then Ok None
          else if negb (rs_Status res =? 200)
          then Err ("Tincan discovery returned HTTP " +:+ Itoa (rs_Status res))
          else match rs_Body res with
               | Err _ => Err "invalid or oversized Tincan discovery document"
               | Ok n =>
                   if 128 * 1024 <? n then Err "invalid or oversized Tincan discovery document" else
                   match rs_Document res with
                   | None => Err "invalid Tincan discovery document"
                   | Some d => match Validate d with Some e => Err e | None => Ok (Some d) end
                   end
               end
      end
  end.

(** The part of a connection that negotiation reads and writes: [Config.CryptoPath] and
    [Protocol]. *)
Record negotiation := mkNegotiation { ng_CryptoPath : string; ng_Protocol : option Descriptor }.

Definition refreshProtocol (parsed : option url) (answer : result response) (c : negotiation)
    : option string * negotiation :=
  match discoverProtocol parsed answer with
  | Err e => (Some e, c)
  | Ok d =>
      if bool_decide (ng_Protocol c <> None) && bool_decide (d = None)
      then (Some "server no longer advertises the negotiated Tincan protocol; refusing a legacy downgrade", c)
      else if bool_decide (ng_CryptoPath c <> "") && negb (Supports d "e2ee")
      then (Some "this server does not support encrypted rooms", c)
      else (None, mkNegotiation (ng_CryptoPath c) d)
  end.

(** ** Tools ([localCryptoTools], [isLocalCryptoTool], [checkServerTool]) *)
Definition localCryptoTools : list string :=
  ["encryption_join_room"; "encryption_rejections"; "encryption_rotate"; "encryption_history_backup";
   "encryption_history_restore"; "encryption_admission_policy"; "encryption_requests";
   "encryption_approve"; "encryption_deny"; "encryption_revoke"; "attachment_download"].

Definition isLocalCryptoTool (name : string) : bool := Contains localCryptoTools name.

(** [e2ee] is [args["e2ee"] == true]. *)
Definition checkServerTool (protocol : option Descriptor) (name : string) (e2ee : bool) : option string :=
  let crypto := isLocalCryptoTool name || (bool_decide (name = "room_create") && e2ee) in
  if crypto && negb (Supports protocol "e2ee") then Some "this server does not support encrypted rooms"
  else if crypto && isLocalCryptoTool name then None
  else if negb (SupportsTool protocol name)
  then Some ("this server does not support " +:+ name +:+ "; inspect tincan_status for available server tools")
  else None.

(** ** Facts *)
Lemma missing_tool_none tools required : missing_tool tools required = None ->
  forall tool, tool ∈ required -> tool ∈ tools.
Proof.
  induction required as [|t rest IH]; simpl; intros Hm tool Ht; [set_solver|].
  destruct (Contains tools t) eqn:E; [|done]. unfold Contains in E. bool_simpl.
  apply elem_of_cons in Ht as [->|Ht]; [done|by apply IH].
Qed.

Lemma missing_tool_complete tools required :
  (forall tool, tool ∈ required -> tool ∈ tools) -> missing_tool tools required = None.
Proof.
  induction required as [|t rest IH]; simpl; intros Hm; [done|].
  unfold Contains. rewrite bool_decide_eq_true_2 by set_solver. apply IH. set_solver.
Qed.

(** What a validated descriptor provides. *)
Record conformant (d : Descriptor) : Prop := {
  cf_protocol : de_Protocol d = "tincan";
  cf_version : Version ∈ de_Versions d;
  cf_profile : Profile ∈ de_Profiles d;
  cf_core : CoreProfile ∈ de_Profiles d;
  cf_capabilities : is_Some (de_Capabilities d);
  cf_tools : exists tools, de_Tools d = Some tools /\ forall tool, tool ∈ RequiredTools -> tool ∈ tools }.

Lemma Validate_conformant d : Validate d = None <-> conformant d.
Proof.
  unfold Validate. split.
  - case_match eqn:E1; [done|]. case_match eqn:E2; [done|]. intros Hm%fmap_None. unfold Contains in *. bool_simpl. destruct d as [p v pr [c|] [t|]]; simpl in *; try done.
    constructor; simpl; try first [done | by apply dec_stable | by eexists].
    exists t. split; [done|]. exact (missing_tool_none t RequiredTools Hm).
  - intros [-> Hv Hp Hc [caps Hcap] (tools & Ht & Hr)]. rewrite Hcap, Ht. unfold Contains.
    rewrite (bool_decide_eq_false_2 ("tincan" <> "tincan")) by (by intros Hn; apply Hn).
    rewrite (bool_decide_eq_true_2 (Version ∈ _)), (bool_decide_eq_true_2 (Profile ∈ _)),
      (bool_decide_eq_true_2 (CoreProfile ∈ _)) by done.
    change (nil_slice (Some tools)) with tools.
    by rewrite (missing_tool_complete tools RequiredTools Hr).
Qed.

Lemma discover_conformant parsed answer d :
  discoverProtocol parsed answer = Ok (Some d) -> conformant d.
Proof.
  unfold discoverProtocol. intros Hd. repeat (case_match; try done); simplify_eq.
  by apply Validate_conformant.
Qed.

(** ** Negotiation: properties

    What negotiation guarantees whatever the server answers over time: no downgrade, and a
    connection whose required tools are always allowed. *)

(** A history of refreshes of one connection, each with its own address and answer. *)
Definition refreshes (l : list (option url * result response)) (c : negotiation) : negotiation :=
  fold_left (fun c a => (refreshProtocol a.1 a.2 c).2) l c.

(** What holds of a connection: its negotiated descriptor conforms, and supports encryption
    when the connection has keys. *)
Definition negotiated (c : negotiation) : Prop :=
  forall d, ng_Protocol c = Some d ->
  conformant d /\ (ng_CryptoPath c <> "" -> Supports (Some d) "e2ee" = true).

Lemma refresh_cases parsed answer c :
  (refreshProtocol parsed answer c).2 = c \/
  exists d, discoverProtocol parsed answer = Ok d /\
    (refreshProtocol parsed answer c).2 = mkNegotiation (ng_CryptoPath c) d /\
    (ng_Protocol c <> None -> d <> None) /\ (ng_CryptoPath c <> "" -> Supports d "e2ee" = true).
Proof.
  unfold refreshProtocol. destruct (discoverProtocol parsed answer) as [d|e]; [|by left].
  destruct (bool_decide _ && _) eqn:E1; [by left|].
  destruct (bool_decide _ && _) eqn:E2 in |- *; [by left|]. right. exists d.
  split_and!; [done|done| |]; intros Hn; bool_simpl.
  - intros ->. rewrite bool_decide_eq_true_2 in E1 by done.
    destruct E1 as [E1|E1]; [done|]. by apply bool_decide_eq_false in E1.
  - rewrite bool_decide_eq_true_2 in E2 by done. destruct E2 as [E2|E2]; [done|].
    by apply negb_false_iff in E2.
Qed.

Lemma refresh_negotiated parsed answer c :
  negotiated c -> negotiated (refreshProtocol parsed answer c).2.
Proof.
  intros Hc. destruct (refresh_cases parsed answer c) as [->|(d & Hd & -> & _ & He)]; [done|].
  intros d' Hd'. simpl in *. subst d. split; [by eapply discover_conformant|done].
Qed.

Lemma refreshes_negotiated l : forall c, negotiated c -> negotiated (refreshes l c).
Proof. induction l as [|a l IH]; intros c Hc; [done|]. by apply IH, refresh_negotiated. Qed.

Lemma refreshes_crypto l : forall c, ng_CryptoPath (refreshes l c) = ng_CryptoPath c.
Proof.
  induction l as [|a l IH]; intros c; [done|]. simpl. unfold refreshes in IH. rewrite IH.
  by destruct (refresh_cases a.1 a.2 c) as [->|(d & _ & -> & _)].
Qed.

Lemma refreshes_some l : forall c, ng_Protocol c <> None -> ng_Protocol (refreshes l c) <> None.
Proof.
  induction l as [|a l IH]; intros c Hc; [done|]. apply IH.
  destruct (refresh_cases a.1 a.2 c) as [->|(d & _ & -> & Hd & _)]; [done|by apply Hd].
Qed.

Lemma required_not_local name : name ∈ RequiredTools -> isLocalCryptoTool name = false.
Proof.
  unfold RequiredTools, isLocalCryptoTool, Contains. rewrite !elem_of_cons, elem_of_nil.
  intros Hn. destruct_or! Hn; subst; done.
Qed.

(** No downgrade. Once a connection negotiated the protocol, whatever the server answers to
    any further refreshes (errors, missing documents, other documents), the connection keeps a
    conformant descriptor: each required tool passes [checkServerTool], and when the connection
    has encryption keys its local encryption tools and encrypted room creation do too. *)
Theorem negotiation_never_downgrades (l : list (option url * result response)) (c : negotiation) :
  negotiated c -> ng_Protocol c <> None ->
  exists d, ng_Protocol (refreshes l c) = Some d /\ conformant d /\
    (forall name, name ∈ RequiredTools -> checkServerTool (Some d) name false = None) /\
    (ng_CryptoPath c <> "" ->
     (forall name, isLocalCryptoTool name = true -> checkServerTool (Some d) name false = None) /\
     checkServerTool (Some d) "room_create" true = None).
Proof.
  intros Hc Hs. apply (refreshes_some l) in Hs. apply (refreshes_negotiated l) in Hc.
  destruct (ng_Protocol (refreshes l c)) as [d|] eqn:E; [|done]. exists d.
  destruct (Hc d E) as [Hd He]. rewrite refreshes_crypto in He. destruct (cf_tools d Hd) as (tools & Ht & Hr).
  assert (forall name, name ∈ RequiredTools -> SupportsTool (Some d) name = true) as Hst.
  { intros name Hn. simpl. rewrite Ht. apply bool_decide_eq_true. by apply Hr. }
  split_and!; [done|done| |].
  - intros name Hn. unfold checkServerTool. rewrite (required_not_local name Hn), andb_false_r, Hst by done.
    done.
  - intros Hk. specialize (He Hk). unfold checkServerTool. split.
    + intros name Hn. by rewrite Hn, He.
    + rewrite He. rewrite (Hst "room_create") by (by unfold RequiredTools; set_solver). done.
Qed.

Definition demo_url : url := mkURL "https" "tincan.example" "tincan.example" false "" "" false "".
Definition demo_descriptor : Descriptor :=
  mkDescriptor "tincan" [Version] [CoreProfile; Profile] (Some ["e2ee"]) (Some RequiredTools).
Definition demo_negotiation : negotiation :=
  (refreshProtocol (Some demo_url) (Ok (mkResponse 200 (Ok 512) (Some demo_descriptor)))
     (mkNegotiation "keys.json" None)).2.

Lemma demo_negotiated : negotiated demo_negotiation.
Proof. apply refresh_negotiated. intros d. discriminate. Qed.

Lemma negotiation_never_downgrades_witness :
  exists d, ng_Protocol (refreshes [(Some demo_url, Ok (mkResponse 404 (Ok 0) None));
                                    (Some demo_url, Err "offline")] demo_negotiation) = Some d.
Proof.
  destruct (negotiation_never_downgrades [(Some demo_url, Ok (mkResponse 404 (Ok 0) None));
    (Some demo_url, Err "offline")] demo_negotiation demo_negotiated ltac:(vm_compute; discriminate))
    as (d & Hd & _).
  exists d. exact Hd.
Defined.
