(* ===== verification/Crypto.v ===== *)
(** * Cryptographic primitives and encodings

    The primitives that [internal/e2ee] calls (SHA-256, Ed25519, HMAC, AES-GCM, age, the MLS
    module) as the operations of a class; the JSON values that are hashed and signed, with the
    proof that the encodings lose nothing; [hash], [sign], [verify], devices and admission
    proofs. Byte slices are strings, and nil is the empty one. *)
From stdpp Require Import sorting.
From S2P Require Import Prelude GoStrings Json Types.

(** ** The MLS module's pipe ([MLSRequest], [MLSResponse] in [internal/e2ee/mls.go]) *)
Record MLSRequest := mkMLSRequest {
  rq_Op : string; rq_State : string; rq_SigningKey : string; rq_Group : string;
  rq_Data : string; rq_AAD : string; rq_Member : string }.
Record MLSResponse := mkMLSResponse {
  rp_State : string; rp_Data : string; rp_Welcome : string; rp_Sender : string; rp_AAD : string;
  rp_Epoch : Z; rp_Members : list string }.

(** [errors.New("invalid MLS application message")]. *)
Definition ErrMLSApplicationRejected : string := "invalid MLS application message".

(** Randomness is an argument. *)
Class Primitives := {
  json_text : json -> string;                      (* [json.Marshal] *)
  json_parse : string -> option json;              (* [json.Unmarshal] *)
  sha256_hex : string -> string;                   (* hexadecimal SHA-256 *)
  ed_sign : string -> string -> string;            (* Ed25519 by private key *)
  ed_verify : string -> string -> string -> bool;
  seed_matches : string -> bool;                   (* the public half belongs to the seed *)
  hmac : string -> string -> string;               (* HMAC-SHA-256 *)
  age_recipient : string -> option string;         (* the recipient of an identity, parsed *)
  age_parse : string -> bool;                      (* the recipient parses *)
  age_encrypt : list string -> string -> string -> result string;
  age_decrypt : string -> string -> result string;
  aead_seal : string -> string -> string -> string -> string; (* key, nonce, data, context *)
  aead_open : string -> string -> string -> result string;    (* key, sealed, context *)
  mls : string -> MLSRequest -> result MLSResponse            (* randomness, request *)
}.

(** ** Objects with optional fields *)
Definition omit_string (s : string) : option json := if bool_decide (s = "") then None else Some (JStr s).
Definition omit_int (z : Z) : option json := if bool_decide (z = 0) then None else Some (JInt z).
Definition omit_bool (b : bool) : option json := if b then Some (JBool true) else None.
Definition omit_list (l : list string) : option json :=
  if bool_decide (l = []) then None else Some (JArr (JStr <$> l)).
(** A byte slice: its bytes stand for their base64 text, and nil is [null]. *)
Definition bytes_json (s : string) : json := if bool_decide (s = "") then JNull else JStr s.
Definition pointer_json (o : option string) : json := default JNull (JStr <$> o).

Definition field_json (kv : string * option json) : option (string * json) := (kv.1,.) <$> kv.2.
Definition object (fields : list (string * option json)) : json := JObj (omap field_json fields).

Lemma omap_key k v fields : (k, v) ∈ omap field_json fields -> k ∈ fields.*1.
Proof.
  intros ([k' o] & Hin & Hf)%list_elem_of_omap. unfold field_json in Hf. simpl in Hf.
  apply fmap_Some in Hf as (w & _ & [= -> ->]). by apply (list_elem_of_fmap_2 fst) in Hin.
Qed.

(** Fields under distinct keys are recovered from the object. *)
Lemma object_inj (f g : list (string * option json)) :
  f.*1 = g.*1 -> NoDup f.*1 -> object f = object g -> f = g.
Proof.
  unfold object. intros Hk Hn [= Ho]. revert g Hk Ho.
  induction f as [|[k v] f IH]; intros [|[k' v'] g] Hk Ho; try done.
  rewrite fmap_cons, NoDup_cons in Hn. destruct Hn as [Hni Hn]. simpl in Hk, Ho.
  assert (k = k' /\ f.*1 = g.*1) as [<- Hfg] by (by simplify_eq). clear Hk.
  destruct v as [v|], v' as [v'|]; simpl in Ho.
  - assert (v = v' /\ omap field_json f = omap field_json g) as [<- Ho'] by (by injection Ho).
    f_equal. by apply IH.
  - exfalso. apply Hni. rewrite Hfg. apply (omap_key k v g).
    change (omap field_json g) with (list_omap _ _ field_json g). rewrite <- Ho. apply elem_of_cons. by left.
  - exfalso. apply Hni. apply (omap_key k v' f).
    change (omap field_json f) with (list_omap _ _ field_json f). rewrite Ho. apply elem_of_cons. by left.
  - f_equal. by apply IH.
Qed.

(** The value at one position. *)
Lemma nth_value (f g : list (string * option json)) (n : nat) k v v' :
  f = g -> f !! n = Some (k, Some v) -> g !! n = Some (k, Some v') -> v = v'.
Proof. intros ->. congruence. Qed.
Lemma nth_option (f g : list (string * option json)) (n : nat) k v v' :
  f = g -> f !! n = Some (k, v) -> g !! n = Some (k, v') -> v = v'.
Proof. intros ->. congruence. Qed.

#[export] Instance JInt_inj : Inj (=) (=) JInt.
Proof. intros a b Hab. injection Hab as Hab. by apply (inj Itoa). Qed.
#[export] Instance omit_string_inj : Inj (=) (=) omit_string.
Proof. intros a b. unfold omit_string. repeat case_bool_decide; naive_solver. Qed.
#[export] Instance omit_int_inj : Inj (=) (=) omit_int.
Proof.
  intros a b. unfold omit_int. repeat case_bool_decide; subst; try done.
  intros Hab. injection Hab as Hab. by apply (inj Itoa) in Hab.
Qed.
#[export] Instance omit_bool_inj : Inj (=) (=) omit_bool.
Proof. by intros [] []. Qed.
#[export] Instance JStr_inj : Inj (=) (=) JStr.
Proof. by intros a b [=]. Qed.
#[export] Instance bytes_json_inj : Inj (=) (=) bytes_json.
Proof. intros a b. unfold bytes_json. repeat case_bool_decide; naive_solver. Qed.
#[export] Instance pointer_json_inj : Inj (=) (=) pointer_json.
Proof. intros [a|] [b|]; simpl; naive_solver. Qed.
#[export] Instance strings_json_inj : Inj (=) (=) (fun l : list string => JArr (JStr <$> l)).
Proof. intros a b Hab. injection Hab as Hab. by apply (inj (fmap JStr)) in Hab. Qed.
#[export] Instance omit_list_inj : Inj (=) (=) omit_list.
Proof.
  intros a b. unfold omit_list. repeat case_bool_decide; subst; try done.
  intros Hab. injection Hab as Hab. by apply (inj (fmap JStr)) in Hab.
Qed.

(** Maps are encoded with sorted keys. *)
Definition key_le (a b : string * json) : Prop := String.le a.1 b.1.
#[export] Instance key_le_dec : RelDecision key_le.
Proof. intros a b. unfold key_le. apply _. Defined.

Definition map_json {A} (f : A -> json) (m : gmap string A) : json :=
  JObj (merge_sort key_le (map_to_list (f <$> m))).

#[export] Instance map_json_inj {A} (f : A -> json) `{!Inj (=) (=) f} : Inj (=) (=) (map_json f).
Proof.
  intros a b [= H]. apply (inj (fmap f : gmap string A -> gmap string json)).
  apply map_to_list_inj. by rewrite <- (merge_sort_Permutation key_le (map_to_list (f <$> a))), H,
    merge_sort_Permutation.
Qed.

(** ** Devices ([Device], [Identity]) *)
Record Identity := mkIdentity { id_Age : string; id_SigningKey : string }.

Definition device_fields (d : Device) : list (string * option json) :=
  [("agent_id", Some (JStr (dev_AgentID d))); ("recipient", Some (JStr (dev_Recipient d)));
   ("signing_key", Some (bytes_json (dev_SigningKey d))); ("protocol", omit_int (dev_Protocol d));
   ("key_package", omit_string (dev_KeyPackage d))].
Definition device_json (d : Device) : json := object (device_fields d).

#[export] Instance device_json_inj : Inj (=) (=) device_json.
Proof.
  intros [a b c p k] [a' b' c' p' k'] H. apply object_inj in H; [|done|by vm_compute; repeat constructor; set_solver].
  unfold device_fields in H. simpl in H. injection H as -> -> Hc Hp Hk.
  apply (inj bytes_json) in Hc. apply (inj omit_int) in Hp. apply (inj omit_string) in Hk. congruence.
Qed.

Definition PrivateKeySize : Z := 64.
Definition PublicKeySize : Z := 32.
(** [key.Public()], [SigningKey[32:]]. *)
Definition public_half (key : string) : string := drop_str 32 key.

Section Crypto.
Context `{!Primitives}.

Definition hash (v : json) : string := sha256_hex (json_text v).

Definition identity_device (i : Identity) (id : string) : result Device :=
  match age_recipient (id_Age i) with
  | None => Err "invalid encryption identity"
  | Some recipient =>
      if negb (len (id_SigningKey i) =? PrivateKeySize) then Err "invalid encryption identity"
      else if negb (seed_matches (id_SigningKey i)) then Err "invalid signing identity"
      else Ok (mkDevice id recipient (public_half (id_SigningKey i)) 0 "")
  end.

Definition Device_Validate (d : Device) : option string :=
  if (negb (dev_Protocol d =? 0) && negb (dev_Protocol d =? 2))
     || ((dev_Protocol d =? 2) && ((len (dev_KeyPackage d) <? 64) || (8192 <? len (dev_KeyPackage d))))
  then Some "invalid encryption protocol or key package"
  else if negb (len (dev_SigningKey d) =? PublicKeySize) then Some "invalid signing public key"
  else if age_parse (dev_Recipient d) then None else Some "invalid recipient".

(** The identity of a device, whatever agent it serves and whatever its key package. *)
Definition anonymous (d : Device) : Device :=
  mkDevice "" (dev_Recipient d) (dev_SigningKey d) (dev_Protocol d) "".
Definition Fingerprint (d : Device) : string := hash (device_json (anonymous d)).

Definition NUL : string := of_bytes [ascii_of_nat 0].
(** What is signed: the domain, a zero byte and the JSON text. *)
Definition signed_text (domain : string) (v : json) : string := domain +:+ NUL +:+ json_text v.

Definition sign (key domain : string) (v : json) : result string :=
  if negb (len key =? PrivateKeySize) then Err "missing signing key"
  else Ok (ed_sign key (signed_text domain v)).
Definition verify (key domain : string) (v : json) (signature : string) : bool :=
  (len key =? PublicKeySize) && ed_verify key (signed_text domain v) signature.

(** ** Joining ([JoinProof], [VerifyJoin]) *)
Definition join_statement (invite : string) (d : Device) : json :=
  object [("Invite", Some (JStr invite)); ("Device", Some (device_json d))].
Definition JoinProof (i : Identity) (invite : string) (d : Device) : result string :=
  sign (id_SigningKey i) "tincan-join-v1" (join_statement invite d).
Definition VerifyJoin (invite : string) (d : Device) (proof : string) : bool :=
  bool_decide (Device_Validate d = None) && bool_decide (dev_AgentID d = "")
  && verify (dev_SigningKey d) "tincan-join-v1" (join_statement invite d) proof.

(** ** Admission ([internal/e2ee/admission.go]) *)
Record AdmissionProof := mkAdmissionProof { ap_InviteHash : string; ap_WorkspaceID : string; ap_MAC : string }.

Definition admission_statement (root workspace inviteHash : string) (d : Device) : json :=
  object [("Domain", Some (JStr "tincan-invite-admission-v1")); ("Root", Some (bytes_json root));
          ("Workspace", Some (JStr workspace)); ("InviteHash", Some (JStr inviteHash));
          ("Device", Some (device_json d))].
Definition AdmissionMAC (secret root workspace inviteHash : string) (d : Device) : string :=
  hmac secret (json_text (admission_statement root workspace inviteHash d)).

Definition VerifyAdmission (secret root workspace inviteHash : string) (d : Device)
    (proof : option AdmissionProof) : bool :=
  (len secret =? 32) && (len root =? 32) && bool_decide (workspace <> "") && bool_decide (inviteHash <> "")
  && bool_decide (dev_AgentID d = "") && bool_decide (Device_Validate d = None)
  && match proof with
     | None => false
     | Some p => bool_decide (ap_WorkspaceID p = workspace) && bool_decide (ap_InviteHash p = inviteHash)
                 && bool_decide (ap_MAC p = AdmissionMAC secret root workspace inviteHash d)
     end.

(** ** Local sealing ([SealLocal], [OpenLocal], [PayloadHash]) *)
Definition SealLocal (key nonce data context : string) : result string :=
  if negb (len key =? 32) then Err "invalid encryption key" else Ok (aead_seal key nonce data context).
Definition OpenLocal (key data context : string) : result string :=
  if negb (len key =? 32) then Err "invalid encryption key"
  else if len data <? 12 + 16 then Err "invalid encrypted payload"
  else aead_open key data context.
Definition PayloadHash (data : string) : string := sha256_hex data.

(** The statements bind every argument. *)
Lemma join_statement_inj i d i' d' :
  join_statement i d = join_statement i' d' -> i = i' /\ d = d'.
Proof.
  intros Hs. apply object_inj in Hs; [|done|by vm_compute; repeat constructor; set_solver].
  pose proof (nth_value _ _ 0 _ _ _ Hs eq_refl eq_refl) as Hi.
  pose proof (nth_value _ _ 1 _ _ _ Hs eq_refl eq_refl) as Hd.
  split; [by injection Hi|]. by apply (inj device_json) in Hd.
Qed.

Lemma admission_statement_inj r w h d r' w' h' d' :
  admission_statement r w h d = admission_statement r' w' h' d' -> r = r' /\ w = w' /\ h = h' /\ d = d'.
Proof.
  intros Hs. apply object_inj in Hs; [|done|by vm_compute; repeat constructor; set_solver].
  pose proof (nth_value _ _ 1 _ _ _ Hs eq_refl eq_refl) as Hr.
  pose proof (nth_value _ _ 2 _ _ _ Hs eq_refl eq_refl) as Hw.
  pose proof (nth_value _ _ 3 _ _ _ Hs eq_refl eq_refl) as Hh.
  pose proof (nth_value _ _ 4 _ _ _ Hs eq_refl eq_refl) as Hd.
  apply (inj bytes_json) in Hr. apply (inj device_json) in Hd. apply (inj JStr) in Hw, Hh. done.
Qed.
End Crypto.

(** ** Values as [any]; [number] prints a literal as a float64 *)
Section Any.
Variable number : string -> string.

(** What [json.Unmarshal] into [any] keeps, as [json.Marshal] prints it: numbers as float64,
    the last of duplicate keys, keys sorted. *)
Fixpoint decoded (v : json) : json :=
  match v with
  | JNum l => JNum (number l)
  | JArr l => JArr (map decoded l)
  | JObj m => map_json id (list_to_map (rev (map (fun kv => (kv.1, decoded kv.2)) m)) : gmap string json)
  | _ => v
  end.

End Any.
