(* ===== verification/Toy.v ===== *)
(** * A concrete instance of the primitives

    Transparent stand-ins that satisfy the hypotheses of the security theorems (digests and
    signatures that determine what they are of), used to instantiate them. They are not
    cryptography. *)
From S2P Require Import Prelude GoStrings Json Types Crypto.

(** ** A text for JSON values, and its parser *)
Definition mark : ascii := ascii_of_nat 39.
Definition stop : ascii := ascii_of_nat 46.
Definition close_mark : ascii := ascii_of_nat 125.

(** A string, with a mark before each mark and stop in it, and a stop. *)
Definition special (a : ascii) : bool := Ascii.eqb a mark || Ascii.eqb a stop || Ascii.eqb a close_mark.
Fixpoint put_string (l : list ascii) : list ascii :=
  match l with [] => [stop] | a :: r => if special a then mark :: a :: put_string r else a :: put_string r end.
Fixpoint get_string (l : list ascii) : option (list ascii * list ascii) :=
  match l with
  | [] => None
  | m :: r =>
      if Ascii.eqb m stop then Some ([], r)
      else if Ascii.eqb m mark then
        match r with [] => None | a :: r => p ← get_string r; Some (a :: p.1, p.2) end
      else p ← get_string r; Some (m :: p.1, p.2)
  end.

Fixpoint put (v : json) : list ascii :=
  match v with
  | JNull => ["n"%char]
  | JBool b => [if b then "t"%char else "f"%char]
  | JNum l => "#"%char :: put_string (bytes l)
  | JStr s => "s"%char :: put_string (bytes s)
  | JArr l => "["%char :: flat_map put l ++ [close_mark]
  | JObj members => "{"%char :: flat_map (fun kv => put_string (bytes kv.1) ++ put kv.2) members ++ [close_mark]
  end.

(** Items up to the closing mark. *)
Fixpoint get_many {A} (item : list ascii -> option (A * list ascii)) (fuel : nat) (l : list ascii)
    : option (list A * list ascii) :=
  match fuel with
  | O => None
  | S n =>
      match l with
      | [] => None
      | a :: r => if Ascii.eqb a close_mark then Some ([], r)
                  else x ← item l; xs ← get_many item n x.2; Some (x.1 :: xs.1, xs.2)
      end
  end.

Fixpoint get (fuel : nat) (l : list ascii) : option (json * list ascii) :=
  match fuel, l with
  | S n, "n"%char :: r => Some (JNull, r)
  | S n, "t"%char :: r => Some (JBool true, r)
  | S n, "f"%char :: r => Some (JBool false, r)
  | S n, "#"%char :: r => p ← get_string r; Some (JNum (of_bytes p.1), p.2)
  | S n, "s"%char :: r => p ← get_string r; Some (JStr (of_bytes p.1), p.2)
  | S n, "["%char :: r => p ← get_many (get n) n r; Some (JArr p.1, p.2)
  | S n, "{"%char :: r =>
      p ← get_many (fun l => k ← get_string l; v ← get n k.2; Some ((of_bytes k.1, v.1), v.2)) n r;
      Some (JObj p.1, p.2)
  | _, _ => None
  end.

Definition json_string (v : json) : string := of_bytes (put v).
Definition toy_parse (s : string) : option json :=
  match get (length (bytes s)) (bytes s) with Some (v, []) => Some v | _ => None end.

Lemma get_put_string l r : get_string (put_string l ++ r) = Some (l, r).
Proof.
  induction l as [|a l IH]; [done|]. simpl. unfold special.
  destruct (Ascii.eqb_spec a mark) as [->|Hm]; [simpl; by rewrite IH|].
  destruct (Ascii.eqb_spec a stop) as [->|Hs]; [simpl; by rewrite IH|].
  destruct (Ascii.eqb_spec a close_mark) as [->|Hc]; simpl; [by rewrite IH|].
  destruct (Ascii.eqb_spec a stop); [done|]. destruct (Ascii.eqb_spec a mark); [done|]. by rewrite IH.
Qed.

Lemma get_many_flat {A} (enc : A -> list ascii) item l : forall fuel r,
  (length l < fuel)%nat ->
  (forall x, x ∈ l -> forall r, item (enc x ++ r) = Some (x, r)) ->
  (forall x, x ∈ l -> exists a t, enc x = a :: t /\ a <> close_mark) ->
  get_many item fuel (flat_map enc l ++ close_mark :: r) = Some (l, r).
Proof.
  induction l as [|x l IH]; intros [|fuel] r Hf Hi Hc; simpl in Hf; try lia; [done|].
  destruct (Hc x) as (a & t & Hx & Ha); [set_solver|].
  cbn [flat_map]. rewrite <- app_assoc. set (tail := flat_map enc l ++ close_mark :: r).
  assert (get_many item (S fuel) (enc x ++ tail) =
          y ← item (enc x ++ tail); ys ← get_many item fuel y.2; Some (y.1 :: ys.1, ys.2)) as ->.
  { rewrite Hx. simpl. by destruct (Ascii.eqb_spec a close_mark). }
  unfold tail. rewrite (Hi x) by set_solver. simpl. rewrite IH; [done|lia|set_solver..].
Qed.

Lemma put_length_pos v : (1 <= length (put v))%nat.
Proof. destruct v; simpl; lia. Qed.

Lemma flat_map_elem {A} (f : A -> list ascii) (x : A) l :
  x ∈ l -> (length (f x) <= length (flat_map f l))%nat.
Proof. induction 1 as [l|x y l Hl IH]; simpl; rewrite length_app; lia. Qed.

Lemma flat_map_count {A} (f : A -> list ascii) (l : list A) :
  (forall x, 1 <= length (f x))%nat -> (length l <= length (flat_map f l))%nat.
Proof. intros Hf. induction l as [|x l IH]; simpl; [lia|]. rewrite length_app. specialize (Hf x). lia. Qed.

Lemma put_string_head l : exists a t, put_string l = a :: t /\ a <> close_mark.
Proof.
  destruct l as [|b l]; simpl; [by eexists _, _|]. destruct (special b) eqn:Hb; [by eexists _, _|].
  eexists _, _. split; [reflexivity|]. intros ->. by vm_compute in Hb.
Qed.
Lemma put_head v : exists a t, put v = a :: t /\ a <> close_mark.
Proof. destruct v as [|[]| | | |]; simpl; eexists _, _; by split. Qed.

Lemma get_put n : forall v r, (length (put v) <= n)%nat -> get n (put v ++ r) = Some (v, r).
Proof.
  induction n as [|n IH]; intros v r Hn; [pose proof (put_length_pos v); lia|].
  destruct v as [|[]|l|s|l|m]; simpl in Hn |- *; try done.
  - by rewrite get_put_string; simpl; rewrite of_bytes_bytes.
  - by rewrite get_put_string; simpl; rewrite of_bytes_bytes.
  - rewrite <- app_assoc. simpl. rewrite length_app in Hn. simpl in Hn.
    pose proof (flat_map_count put l put_length_pos).
    rewrite (get_many_flat put (get n) l n r); [done|lia| |intros; apply put_head].
    intros x Hx r'. apply IH. pose proof (flat_map_elem put x l Hx). lia.
  - rewrite <- app_assoc. simpl. rewrite length_app in Hn. simpl in Hn.
    set (enc := fun kv : string * json => put_string (bytes kv.1) ++ put kv.2) in *.
    assert (forall x, 1 <= length (enc x))%nat as He.
    { intros [k v]. unfold enc. rewrite length_app. pose proof (put_length_pos v). simpl. lia. }
    pose proof (flat_map_count enc m He).
    rewrite (get_many_flat enc _ m n r); [done|lia| |].
    + intros [k v] Hx r'. unfold enc. simpl. rewrite <- app_assoc, get_put_string. simpl.
      pose proof (flat_map_elem enc (k, v) m Hx) as Hl. unfold enc at 1 in Hl. simpl in Hl.
      rewrite length_app in Hl. rewrite IH by lia. simpl. by rewrite of_bytes_bytes.
    + intros [k v] _. unfold enc. simpl. destruct (put_string_head (bytes k)) as (a & t & -> & Ha).
      by exists a, (t ++ put v).
Qed.

Lemma toy_parse_text v : toy_parse (json_string v) = Some v.
Proof.
  unfold toy_parse, json_string. rewrite bytes_of_bytes.
  rewrite <- (app_nil_r (put v)) at 2. by rewrite get_put.
Qed.

#[export] Instance json_string_inj : Inj (=) (=) json_string.
Proof. intros v w Hv. apply (f_equal toy_parse) in Hv. rewrite !toy_parse_text in Hv. by injection Hv. Qed.

(** ** The instance. A private key is a seed followed by the same bytes as public half. *)
Definition toy_signature (public message : string) : string :=
  json_string (JArr [JStr public; JStr message]).

(** As long as a nonce and a tag. *)
Definition toy_header : string := "nonce and tag of 28 bytes...".

Definition toy_with (digest : string -> string) (module : string -> MLSRequest -> result MLSResponse) : Primitives := {|
  json_text := json_string;
  json_parse := toy_parse;
  sha256_hex := digest;
  ed_sign := fun key message => toy_signature (public_half key) message;
  ed_verify := fun public message s => bool_decide (s = toy_signature public message);
  seed_matches := fun key => bool_decide (take_str 32 key = drop_str 32 key);
  hmac := fun key v => json_string (JArr [JStr key; JStr v]);
  age_recipient := fun s => Some s;
  age_parse := fun _ => true;
  age_encrypt := fun _ _ data => Ok ("age:" +:+ data);
  age_decrypt := fun _ data => if HasPrefix data "age:" then Ok (TrimPrefix data "age:") else Err "age";
  aead_seal := fun _ _ data _ => toy_header +:+ data;
  aead_open := fun _ data _ => Ok (drop_str 28 data);
  mls := module |}.

Definition toy := toy_with (fun s => s).

Definition no_module (random : string) (rq : MLSRequest) : result MLSResponse := Err "no module".

(** A digest of 64 characters, the last ones of the text. *)
Definition digest64 (s : string) : string :=
  take_str 64 (of_bytes (rev (bytes s)) +:+ "0000000000000000000000000000000000000000000000000000000000000000").

(** A group module without secrets: a capsule shows who encrypted what. *)
Definition toy_capsule (sender data aad : string) : string :=
  json_string (JArr [JStr sender; JStr data; JStr aad]).
Definition toy_group (random : string) (rq : MLSRequest) : result MLSResponse :=
  if bool_decide (rq_Op rq = "encrypt") then
    Ok (mkMLSResponse (rq_State rq) (toy_capsule (public_half (rq_SigningKey rq)) (rq_Data rq) (rq_AAD rq)) "" "" "" 0 [])
  else if bool_decide (rq_Op rq = "decrypt") then
    match toy_parse (rq_Data rq) with
    | Some (JArr [JStr sender; JStr data; JStr aad]) => Ok (mkMLSResponse (rq_State rq) data "" sender aad 0 [])
    | _ => Err ErrMLSApplicationRejected
    end
  else Err "unsupported".

Lemma toy_group_delivers random rq out : rq_Op rq = "encrypt" -> toy_group random rq = Ok out ->
  forall random' state key group,
  exists out', toy_group random' (mkMLSRequest "decrypt" state key group (rp_Data out) "" "") = Ok out' /\
    rp_Data out' = rq_Data rq /\ rp_AAD out' = rq_AAD rq /\ rp_Sender out' = public_half (rq_SigningKey rq).
Proof.
  unfold toy_group. intros -> [= <-] random' state key group. simpl. unfold toy_capsule.
  rewrite toy_parse_text. by eexists.
Qed.
