(* ===== verification/Roster.v ===== *)
(** * Rosters and envelopes

    [internal/e2ee/crypto.go] and the envelope half of [internal/e2ee/mls.go]: the signed
    membership of a group and its verification, and the signed message envelopes. *)
From stdpp Require Import sorting.
From S2P Require Import Prelude GoStrings Json Types Crypto.

Definition e2ee_Version : Z := 1.
Definition MaxMembers : Z := 256.
Definition MaxEnvelopeBytes : Z := 256 * 1024.
Definition MaxPlaintextBytes : Z := 96 * 1024.
Definition MaxFileBytes : Z := 10 * 1024 * 1024.
Definition MaxFileEnvelopeBytes : Z := 16 * 1024 * 1024.

(** ** Rosters. A map is [None] when it is nil. *)
Record Roster := mkRoster {
  ro_RoomID : string; ro_RoomMembers : option (gmap string (list string));
  ro_RoomChannels : option (gmap string string); ro_PlainChannels : list string;
  ro_Version : Z; ro_WorkspaceID : string; ro_Epoch : Z; ro_Previous : string;
  ro_Members : list Device; ro_Signature : string; ro_Protocol : Z; ro_Commit : string;
  ro_Welcome : string }.

Definition set_Signature (v : string) (r : Roster) : Roster :=
  mkRoster (ro_RoomID r) (ro_RoomMembers r) (ro_RoomChannels r) (ro_PlainChannels r) (ro_Version r)
    (ro_WorkspaceID r) (ro_Epoch r) (ro_Previous r) (ro_Members r) v (ro_Protocol r) (ro_Commit r)
    (ro_Welcome r).
Definition set_Members (v : list Device) (r : Roster) : Roster :=
  mkRoster (ro_RoomID r) (ro_RoomMembers r) (ro_RoomChannels r) (ro_PlainChannels r) (ro_Version r)
    (ro_WorkspaceID r) (ro_Epoch r) (ro_Previous r) v (ro_Signature r) (ro_Protocol r) (ro_Commit r)
    (ro_Welcome r).
Definition set_RosterVersion (v : Z) (r : Roster) : Roster :=
  mkRoster (ro_RoomID r) (ro_RoomMembers r) (ro_RoomChannels r) (ro_PlainChannels r) v
    (ro_WorkspaceID r) (ro_Epoch r) (ro_Previous r) (ro_Members r) (ro_Signature r) (ro_Protocol r)
    (ro_Commit r) (ro_Welcome r).
(** [next.Epoch = e; next.Previous = p]. *)
Definition set_Link (e : Z) (p : string) (r : Roster) : Roster :=
  mkRoster (ro_RoomID r) (ro_RoomMembers r) (ro_RoomChannels r) (ro_PlainChannels r) (ro_Version r)
    (ro_WorkspaceID r) e p (ro_Members r) (ro_Signature r) (ro_Protocol r) (ro_Commit r) (ro_Welcome r).
Definition set_Rooms (m : option (gmap string (list string))) (c : option (gmap string string))
    (r : Roster) : Roster :=
  mkRoster (ro_RoomID r) m c (ro_PlainChannels r) (ro_Version r)
    (ro_WorkspaceID r) (ro_Epoch r) (ro_Previous r) (ro_Members r) (ro_Signature r) (ro_Protocol r)
    (ro_Commit r) (ro_Welcome r).
(** [next.Commit, next.Welcome = c, w]. *)
Definition set_Commit (c w : string) (r : Roster) : Roster :=
  mkRoster (ro_RoomID r) (ro_RoomMembers r) (ro_RoomChannels r) (ro_PlainChannels r) (ro_Version r)
    (ro_WorkspaceID r) (ro_Epoch r) (ro_Previous r) (ro_Members r) (ro_Signature r) (ro_Protocol r) c w.

Definition zero_roster : Roster := mkRoster "" None None [] 0 "" 0 "" [] "" 0 "" "".

(** ** JSON, with [omitempty]: an empty map is left out like a nil one *)
Definition omit_map {A} (f : A -> json) (m : option (gmap string A)) : option json :=
  let m := default ∅ m in if bool_decide (map_to_list m = []) then None else Some (map_json f m).
Definition strings_json (l : list string) : json := JArr (JStr <$> l).

Definition roster_fields (r : Roster) : list (string * option json) :=
  [("room_id", omit_string (ro_RoomID r)); ("room_members", omit_map strings_json (ro_RoomMembers r));
   ("room_channels", omit_map JStr (ro_RoomChannels r)); ("plain_channels", omit_list (ro_PlainChannels r));
   ("version", Some (JInt (ro_Version r))); ("workspace_id", Some (JStr (ro_WorkspaceID r)));
   ("epoch", Some (JInt (ro_Epoch r))); ("previous", Some (JStr (ro_Previous r)));
   ("members", Some (JArr (device_json <$> ro_Members r))); ("signature", Some (bytes_json (ro_Signature r)));
   ("protocol", omit_int (ro_Protocol r)); ("commit", omit_string (ro_Commit r));
   ("welcome", omit_string (ro_Welcome r))].
Definition roster_json (r : Roster) : json := object (roster_fields r).

Definition envelope_fields (e : Envelope) : list (string * option json) :=
  [("room_group", omit_bool (env_RoomGroup e)); ("room_id", omit_string (env_RoomID e));
   ("kind", Some (JStr (env_Kind e))); ("version", Some (JInt (env_Version e)));
   ("workspace_id", Some (JStr (env_WorkspaceID e))); ("channel_id", Some (JStr (env_ChannelID e)));
   ("sender_id", Some (JStr (env_SenderID e))); ("key", Some (JStr (env_Key e)));
   ("mentions", Some (strings_json (env_Mentions e))); ("reply_to", Some (pointer_json (env_ReplyTo e)));
   ("attachment_ids", Some (strings_json (env_AttachmentIDs e))); ("epoch", Some (JInt (env_Epoch e)));
   ("roster_hash", Some (JStr (env_RosterHash e))); ("ciphertext", Some (bytes_json (env_Ciphertext e)));
   ("signature", Some (bytes_json (env_Signature e))); ("capsule", omit_string (env_Capsule e));
   ("payload_hash", omit_string (env_PayloadHash e))].
Definition envelope_json (e : Envelope) : json := object (envelope_fields e).

Definition set_Sealed (c s : string) (e : Envelope) : Envelope :=
  mkEnvelope (env_RoomGroup e) (env_RoomID e) (env_Kind e) (env_Version e) (env_WorkspaceID e)
    (env_ChannelID e) (env_SenderID e) (env_Key e) (env_Mentions e) (env_ReplyTo e) (env_AttachmentIDs e)
    (env_Epoch e) (env_RosterHash e) c s (env_Capsule e) (env_PayloadHash e).
Definition set_Capsule (v : string) (e : Envelope) : Envelope :=
  mkEnvelope (env_RoomGroup e) (env_RoomID e) (env_Kind e) (env_Version e) (env_WorkspaceID e)
    (env_ChannelID e) (env_SenderID e) (env_Key e) (env_Mentions e) (env_ReplyTo e) (env_AttachmentIDs e)
    (env_Epoch e) (env_RosterHash e) (env_Ciphertext e) (env_Signature e) v (env_PayloadHash e).
Definition set_Room (group : bool) (room : string) (e : Envelope) : Envelope :=
  mkEnvelope group room (env_Kind e) (env_Version e) (env_WorkspaceID e)
    (env_ChannelID e) (env_SenderID e) (env_Key e) (env_Mentions e) (env_ReplyTo e) (env_AttachmentIDs e)
    (env_Epoch e) (env_RosterHash e) (env_Ciphertext e) (env_Signature e) (env_Capsule e) (env_PayloadHash e).
(** [e.Kind = kind; e.Version, e.Epoch, e.RosterHash = v, epoch, hash]. *)
Definition set_Binding (kind : string) (v epoch : Z) (h : string) (e : Envelope) : Envelope :=
  mkEnvelope (env_RoomGroup e) (env_RoomID e) kind v (env_WorkspaceID e)
    (env_ChannelID e) (env_SenderID e) (env_Key e) (env_Mentions e) (env_ReplyTo e) (env_AttachmentIDs e)
    epoch h (env_Ciphertext e) (env_Signature e) (env_Capsule e) (env_PayloadHash e).
Definition set_PayloadHash (v : string) (e : Envelope) : Envelope :=
  mkEnvelope (env_RoomGroup e) (env_RoomID e) (env_Kind e) (env_Version e) (env_WorkspaceID e)
    (env_ChannelID e) (env_SenderID e) (env_Key e) (env_Mentions e) (env_ReplyTo e) (env_AttachmentIDs e)
    (env_Epoch e) (env_RosterHash e) (env_Ciphertext e) (env_Signature e) (env_Capsule e) v.

(** The routing fields; mentions, reply and attachments. *)
Definition set_Route (workspace channel sender key : string) (e : Envelope) : Envelope :=
  mkEnvelope (env_RoomGroup e) (env_RoomID e) (env_Kind e) (env_Version e) workspace
    channel sender key (env_Mentions e) (env_ReplyTo e) (env_AttachmentIDs e)
    (env_Epoch e) (env_RosterHash e) (env_Ciphertext e) (env_Signature e) (env_Capsule e) (env_PayloadHash e).
Definition set_Refs (mentions : list string) (reply : option string) (attachments : list string)
    (e : Envelope) : Envelope :=
  mkEnvelope (env_RoomGroup e) (env_RoomID e) (env_Kind e) (env_Version e) (env_WorkspaceID e)
    (env_ChannelID e) (env_SenderID e) (env_Key e) mentions reply attachments
    (env_Epoch e) (env_RosterHash e) (env_Ciphertext e) (env_Signature e) (env_Capsule e) (env_PayloadHash e).

(** ** Rooms *)
(** [strings.LastIndex(s, "_")]: the length of what precedes the last underscore. *)
Fixpoint last_index (c : ascii) (l : list ascii) : option nat :=
  match l with
  | [] => None
  | a :: r => match last_index c r with
              | Some n => Some (S n)
              | None => if Ascii.eqb a c then Some 0%nat else None
              end
  end.

Definition RoomForChannel (channel : string) : string :=
  if negb (HasPrefix channel "ch_room_") then "" else
  let tail := TrimPrefix channel "ch_room_" in
  match last_index "_" (bytes tail) with
  | Some i => if (i <? 1)%nat then "" else take_str i tail
  | None => ""
  end.

Definition Roster_Device (r : Roster) (id : string) : option Device :=
  List.find (fun d => bool_decide (dev_AgentID d = id)) (ro_Members r).
Definition ChannelRoom (r : Roster) (channel : string) : string :=
  let room := RoomForChannel channel in
  if bool_decide (room <> "") then room
  else default "" (default ∅ (ro_RoomChannels r) !! channel).
Definition room_members (r : Roster) (room : string) : list string :=
  default [] (default ∅ (ro_RoomMembers r) !! room).
Definition RoomDevices (r : Roster) (room : string) : list Device :=
  if bool_decide (ro_RoomID r = room) then ro_Members r
  else omap (Roster_Device r) (room_members r room).
Definition RoomHas (r : Roster) (room id : string) : bool :=
  if bool_decide (ro_RoomID r = room) then bool_decide (is_Some (Roster_Device r id))
  else bool_decide (id ∈ room_members r room).

Definition agent_le (a b : Device) : Prop := String.le (dev_AgentID a) (dev_AgentID b).
#[export] Instance agent_le_dec : RelDecision agent_le.
Proof. intros a b. unfold agent_le. apply _. Defined.

Section Roster.
Context `{!Primitives}.

Definition Roster_Hash (r : Roster) : string := hash (roster_json r).

(** [Roster.Sign]: members sorted by agent. (Agents with the same id, which [sort.Slice] may
    leave in any order, fail verification.) *)
Definition Roster_Sign (r : Roster) (i : Identity) : result Roster :=
  let r := set_Signature "" (set_RosterVersion e2ee_Version
             (set_Members (merge_sort agent_le (ro_Members r)) r)) in
  s ← sign (id_SigningKey i) "tincan-roster-v1" (roster_json r); mret (set_Signature s r).

(** The loop of [Roster.Verify]: [previous] is the member before, [seen] is [seenKeys]. *)
Fixpoint check_members (protocol : Z) (previous : option string) (seen : gset string) (l : list Device) : bool :=
  match l with
  | [] => true
  | d :: rest =>
      if negb (dev_Protocol d =? protocol) || bool_decide (dev_AgentID d = "")
         || bool_decide (Device_Validate d <> None)
         || match previous with Some p => String.leb (dev_AgentID d) p | None => false end
         || bool_decide (Fingerprint d ∈ seen)
      then false
      else check_members protocol (Some (dev_AgentID d)) (seen ∪ {[Fingerprint d]}) rest
  end.

Definition Roster_Verify (r : Roster) (root workspace : string) : option string :=
  if negb (ro_Version r =? e2ee_Version) || bool_decide (ro_WorkspaceID r <> workspace)
     || bool_decide (workspace = "") || (ro_Epoch r <? 1) || bool_decide (ro_Members r = [])
     || (MaxMembers <? Z.of_nat (length (ro_Members r)))
     || negb (verify root "tincan-roster-v1" (roster_json (set_Signature "" r)) (ro_Signature r))
  then Some "untrusted encryption membership"
  else if (negb (ro_Protocol r =? 0) && negb (ro_Protocol r =? 2))
          || (256 * 1024 <? len (ro_Commit r)) || (512 * 1024 <? len (ro_Welcome r))
  then Some "invalid encryption protocol"
  else if check_members (ro_Protocol r) None ∅ (ro_Members r) then None
  else Some "invalid encryption membership".

(** ** age payloads ([Encrypt], [Decrypt]) *)
Definition Encrypt (random data : string) (devices : list Device) : result string :=
  if bool_decide (devices = []) || (MaxMembers <? Z.of_nat (length devices))
  then Err "invalid recipient count"
  else if negb (forallb (fun d => age_parse (dev_Recipient d)) devices) then Err "invalid recipient"
  else age_encrypt (dev_Recipient <$> devices) random data.

Definition Decrypt (i : Identity) (data : string) (limit : Z) : result string :=
  match age_recipient (id_Age i) with
  | None => Err "missing encryption identity"
  | Some _ =>
      match age_decrypt (id_Age i) data with
      | Err _ => Err "message cannot be decrypted by this device"
      | Ok b => if limit <? len b then Err "invalid encrypted payload" else Ok b
      end
  end.

(** ** Envelopes *)
Definition MessageID (e : Envelope) : string :=
  "msg_" +:+ take_str 32 (sha256_hex (env_WorkspaceID e +:+ NUL +:+ env_SenderID e +:+ NUL +:+ env_Key e)).

Definition MLSContext (e : Envelope) : string :=
  json_text (envelope_json (set_Capsule "" (set_Sealed "" "" e))).

Definition Seal (i : Identity) (r : Roster) (recipients : list Device) (random data : string)
    (e : Envelope) : result Envelope :=
  let room := ChannelRoom r (env_ChannelID e) in
  let '(e, recipients) := if bool_decide (room <> "") then (set_Room (env_RoomGroup e) room e, RoomDevices r room)
                          else (e, recipients) in
  let file := bool_decide (env_Kind e = "file") in
  let limit := if file then MaxFileBytes + 1024 else MaxPlaintextBytes in
  if limit <? len data then Err "encrypted payload is too large" else
  let e := set_Binding (if file then "file" else "message") e2ee_Version (ro_Epoch r) (Roster_Hash r) e in
  c ← Encrypt random data recipients;
  let e := set_Sealed c "" e in
  s ← sign (id_SigningKey i) "tincan-message-v1" (envelope_json e); mret (set_Sealed c s e).

Definition SignMLS (i : Identity) (e : Envelope) : result Envelope :=
  s ← sign (id_SigningKey i) "tincan-message-v2" (envelope_json (set_Sealed "" "" e));
  mret (set_Sealed (env_Ciphertext e) s e).

Definition verifyMLS (e : Envelope) (r : Roster) (d : option Device) (sig : string) : option string :=
  if negb (bool_decide (env_Kind e = "file")) && negb (bool_decide (env_Kind e = "message"))
  then Some "unknown encrypted payload kind" else
  let limit := if bool_decide (env_Kind e = "file") then MaxFileBytes + 2048 else MaxPlaintextBytes + 64 in
  match d with
  | None => Some "invalid MLS envelope context"
  | Some d =>
      if negb (ro_Protocol r =? 2) || bool_decide (env_WorkspaceID e <> ro_WorkspaceID r)
         || negb (env_Epoch e =? ro_Epoch r) || bool_decide (env_RosterHash e <> Roster_Hash r)
         || bool_decide (env_ChannelID e = "") || (len (env_Key e) <? 1) || (128 <? len (env_Key e))
         || (len (env_Capsule e) <? 32) || (128 * 1024 <? len (env_Capsule e))
         || negb (len (env_PayloadHash e) =? 64) || (limit <? len (env_Ciphertext e))
      then Some "invalid MLS envelope context"
      else if (0 <? len (env_Ciphertext e))
              && bool_decide (PayloadHash (env_Ciphertext e) <> env_PayloadHash e)
      then Some "encrypted payload hash mismatch"
      else if verify (dev_SigningKey d) "tincan-message-v2" (envelope_json (set_Sealed "" "" e)) sig
      then None else Some "invalid MLS envelope signature"
  end.

(** [Envelope.Verify], version 1: the whole envelope is signed. *)
Definition verifyAge (e : Envelope) (r : Roster) (d : option Device) (sig : string) : option string :=
  if negb (bool_decide (env_Kind e = "file")) && negb (bool_decide (env_Kind e = "message"))
  then Some "unknown encrypted payload kind" else
  let limit := if bool_decide (env_Kind e = "file") then MaxFileBytes + 128 * 1024 else MaxEnvelopeBytes in
  if negb (ro_Protocol r =? 0) || bool_decide (d = None) || negb (env_Version e =? e2ee_Version)
     || bool_decide (env_WorkspaceID e <> ro_WorkspaceID r) || negb (env_Epoch e =? ro_Epoch r)
     || bool_decide (env_RosterHash e <> Roster_Hash r) || bool_decide (env_ChannelID e = "")
     || (len (env_Key e) <? 1) || (128 <? len (env_Key e)) || (len (env_Ciphertext e) =? 0)
     || (limit <? len (env_Ciphertext e))
     || negb (verify (default "" (dev_SigningKey <$> d)) "tincan-message-v1"
                (envelope_json (set_Sealed (env_Ciphertext e) "" e)) sig)
  then Some "invalid encrypted message signature or context" else None.

Definition scope_mismatch (e : Envelope) (r : Roster) : bool :=
  negb (Bool.eqb (env_RoomGroup e) (bool_decide (ro_RoomID r <> "")))
  || (bool_decide (ro_RoomID r <> "")
      && (bool_decide (env_RoomID e <> ro_RoomID r) || bool_decide (ChannelRoom r (env_ChannelID e) <> ro_RoomID r))).

Definition Envelope_Verify (e : Envelope) (r : Roster) : option string :=
  let room := ChannelRoom r (env_ChannelID e) in
  if scope_mismatch e r then Some "encryption group scope mismatch"
  else if bool_decide (room <> "")
          && (bool_decide (env_RoomID e <> room) || negb (RoomHas r room (env_SenderID e)))
  then Some "encrypted room membership mismatch"
  else if bool_decide (env_RoomID e <> "") && bool_decide (room <> env_RoomID e)
  then Some "untrusted encrypted room binding"
  else
    let d := Roster_Device r (env_SenderID e) in
    if env_Version e =? 2 then verifyMLS e r d (env_Signature e) else verifyAge e r d (env_Signature e).
End Roster.

(** ** Encodings lose nothing but the nil/empty distinction of maps *)
#[export] Instance strings_json_inj' : Inj (=) (=) strings_json.
Proof. exact strings_json_inj. Qed.

Definition same_map {A} (m n : option (gmap string A)) : Prop := default ∅ m = default ∅ n.

Lemma omit_map_inj {A} (f : A -> json) `{!Inj (=) (=) f} m n :
  omit_map f m = omit_map f n -> same_map m n.
Proof.
  unfold omit_map, same_map. generalize (default ∅ m) (default ∅ n). clear m n. intros m n.
  destruct (bool_decide (map_to_list m = [])) eqn:Em, (bool_decide (map_to_list n = [])) eqn:En;
    intros He; try done.
  - apply bool_decide_eq_true, map_to_list_empty_iff in Em, En. by subst.
  - apply (inj Some) in He. by apply (inj (map_json f)) in He.
Qed.

(** Rosters that differ at most in nil against empty maps. *)
Definition same_roster (r s : Roster) : Prop :=
  same_map (ro_RoomMembers r) (ro_RoomMembers s) /\ same_map (ro_RoomChannels r) (ro_RoomChannels s) /\
  set_Rooms None None r = set_Rooms None None s.

Lemma roster_json_inj r s : roster_json r = roster_json s -> same_roster r s.
Proof.
  intros He. apply object_inj in He; [|done|by vm_compute; repeat constructor; set_solver].
  pose proof (fun n k v v' => nth_option _ _ n k v v' He) as Hn.
  pose proof (inj omit_string _ _ (Hn 0%nat _ _ _ eq_refl eq_refl)).
  pose proof (omit_map_inj strings_json _ _ (Hn 1%nat _ _ _ eq_refl eq_refl)).
  pose proof (omit_map_inj JStr _ _ (Hn 2%nat _ _ _ eq_refl eq_refl)).
  pose proof (inj omit_list _ _ (Hn 3%nat _ _ _ eq_refl eq_refl)).
  pose proof (inj JInt _ _ (inj Some _ _ (Hn 4%nat _ _ _ eq_refl eq_refl))).
  pose proof (inj JStr _ _ (inj Some _ _ (Hn 5%nat _ _ _ eq_refl eq_refl))).
  pose proof (inj JInt _ _ (inj Some _ _ (Hn 6%nat _ _ _ eq_refl eq_refl))).
  pose proof (inj JStr _ _ (inj Some _ _ (Hn 7%nat _ _ _ eq_refl eq_refl))).
  assert (ro_Members r = ro_Members s).
  { pose proof (inj Some _ _ (Hn 8%nat _ _ _ eq_refl eq_refl)) as Hm. injection Hm as Hm.
    by apply (inj (fmap device_json)). }
  pose proof (inj bytes_json _ _ (inj Some _ _ (Hn 9%nat _ _ _ eq_refl eq_refl))).
  pose proof (inj omit_int _ _ (Hn 10%nat _ _ _ eq_refl eq_refl)).
  pose proof (inj omit_string _ _ (Hn 11%nat _ _ _ eq_refl eq_refl)).
  pose proof (inj omit_string _ _ (Hn 12%nat _ _ _ eq_refl eq_refl)).
  split_and!; [done|done|]. unfold set_Rooms. congruence.
Qed.

Lemma envelope_json_inj e f : envelope_json e = envelope_json f -> e = f.
Proof.
  intros He. apply object_inj in He; [|done|by vm_compute; repeat constructor; set_solver].
  pose proof (fun n k v v' => nth_option _ _ n k v v' He) as Hn.
  pose proof (inj omit_bool _ _ (Hn 0%nat _ _ _ eq_refl eq_refl)).
  pose proof (inj omit_string _ _ (Hn 1%nat _ _ _ eq_refl eq_refl)).
  pose proof (inj JStr _ _ (inj Some _ _ (Hn 2%nat _ _ _ eq_refl eq_refl))).
  pose proof (inj JInt _ _ (inj Some _ _ (Hn 3%nat _ _ _ eq_refl eq_refl))).
  pose proof (inj JStr _ _ (inj Some _ _ (Hn 4%nat _ _ _ eq_refl eq_refl))).
  pose proof (inj JStr _ _ (inj Some _ _ (Hn 5%nat _ _ _ eq_refl eq_refl))).
  pose proof (inj JStr _ _ (inj Some _ _ (Hn 6%nat _ _ _ eq_refl eq_refl))).
  pose proof (inj JStr _ _ (inj Some _ _ (Hn 7%nat _ _ _ eq_refl eq_refl))).
  pose proof (inj strings_json _ _ (inj Some _ _ (Hn 8%nat _ _ _ eq_refl eq_refl))).
  pose proof (inj pointer_json _ _ (inj Some _ _ (Hn 9%nat _ _ _ eq_refl eq_refl))).
  pose proof (inj strings_json _ _ (inj Some _ _ (Hn 10%nat _ _ _ eq_refl eq_refl))).
  pose proof (inj JInt _ _ (inj Some _ _ (Hn 11%nat _ _ _ eq_refl eq_refl))).
  pose proof (inj JStr _ _ (inj Some _ _ (Hn 12%nat _ _ _ eq_refl eq_refl))).
  pose proof (inj bytes_json _ _ (inj Some _ _ (Hn 13%nat _ _ _ eq_refl eq_refl))).
  pose proof (inj bytes_json _ _ (inj Some _ _ (Hn 14%nat _ _ _ eq_refl eq_refl))).
  pose proof (inj omit_string _ _ (Hn 15%nat _ _ _ eq_refl eq_refl)).
  pose proof (inj omit_string _ _ (Hn 16%nat _ _ _ eq_refl eq_refl)).
  clear He Hn. destruct e, f; simpl in *; subst; done.
Qed.
