(* ===== verification/RosterTheorems.v ===== *)
(** * Membership, envelopes and admission proofs: properties

    What a device learns from a roster, an envelope or an admission proof that verifies. The
    primitives stay parameters; what is assumed of them is a hypothesis of each section:
    correctness of signatures, that nobody else can produce them, and that digests and MACs of
    different values differ. *)
From stdpp Require Import sorting.
From S2P Require Import Prelude GoStrings Json Types Crypto Toy Roster.

Section Verified.
Context `{!Primitives}.

(** ** Members *)
Definition agent_lt (a b : Device) : Prop := String.leb (dev_AgentID b) (dev_AgentID a) = false.

Lemma leb_false_lt a b : String.leb b a = false -> String.leb a b = true /\ a <> b.
Proof.
  intros Hl. destruct (String.leb_total a b) as [Ha|Hb]; [|congruence].
  split; [done|]. intros ->. congruence.
Qed.

Lemma agent_lt_trans a b c : agent_lt a b -> agent_lt b c -> agent_lt a c.
Proof.
  unfold agent_lt. intros H1 H2. apply leb_false_lt in H1 as [H1 N1]. apply leb_false_lt in H2 as [H2 N2].
  destruct (String.leb (dev_AgentID c) (dev_AgentID a)) eqn:E; [|done]. exfalso.
  assert (String.le (dev_AgentID c) (dev_AgentID b)) as H3.
  { transitivity (dev_AgentID a); by apply Is_true_true. }
  apply N2, String.leb_antisym; [done|by apply Is_true_true in H3].
Qed.

(** What the membership of a verified roster looks like. *)
Record good_members (protocol : Z) (l : list Device) : Prop := {
  gm_sorted : StronglySorted agent_lt l;
  gm_each : forall d, d ∈ l -> dev_Protocol d = protocol /\ dev_AgentID d <> "" /\ Device_Validate d = None;
  gm_fingerprints : NoDup (Fingerprint <$> l) }.

Lemma check_members_spec protocol l : forall previous seen,
  check_members protocol previous seen l = true <->
  good_members protocol l /\
  (forall d, d ∈ l -> Fingerprint d ∉ seen) /\
  (forall p d, previous = Some p -> d ∈ l -> String.leb (dev_AgentID d) p = false).
Proof.
  induction l as [|d l IH]; intros previous seen; simpl.
  { split; [|done]. intros _. split_and!; [|set_solver..].
    constructor; [constructor|set_solver|constructor]. }
  split.
  - intros Hc. case_match eqn:E; [done|]. apply IH in Hc as ([Hs He Hf] & Hseen & Hp). bool_simpl.
    assert (forall d', d' ∈ l -> agent_lt d d') as Hlt by (intros d' Hd'; by apply (Hp (dev_AgentID d) d')).
    split_and!.
    + constructor.
      * constructor; [done|]. by apply Forall_forall.
      * intros d' [->|Hd']%elem_of_cons; [|by apply He].
        split_and!; [lia|done|]. by apply dec_stable.
      * constructor; [|done]. intros (d' & Hd & Hd')%list_elem_of_fmap. apply (Hseen d' Hd'). set_solver.
    + intros d' [->|Hd']%elem_of_cons; [done|]. specialize (Hseen d' Hd'). set_solver.
    + intros p d' -> [->|Hd']%elem_of_cons; [done|]. specialize (Hlt d' Hd').
      by apply (agent_lt_trans (mkDevice p "" "" 0 "") d d').
  - intros ([Hs He Hf] & Hseen & Hp). apply StronglySorted_inv in Hs as [Hs Hlt].
    rewrite fmap_cons, NoDup_cons in Hf. destruct Hf as [Hni Hf].
    destruct (He d) as (Hpr & Hid & Hv); [set_solver|].
    rewrite (proj2 (Z.eqb_eq _ _) Hpr), (bool_decide_eq_false_2 (dev_AgentID d = "")) by done.
    rewrite (bool_decide_eq_false_2 (Device_Validate d <> None)) by (by intros Hn).
    rewrite (bool_decide_eq_false_2 (Fingerprint d ∈ seen)) by (apply Hseen; set_solver).
    assert ((match previous with Some p => String.leb (dev_AgentID d) p | None => false end) = false) as ->.
    { destruct previous as [p|]; [|done]. apply (Hp p d); [done|set_solver]. }
    simpl. apply IH. split_and!.
    + constructor; [done| |done]. intros d' Hd'. apply He. set_solver.
    + intros d' Hd' [Hin|Hin%elem_of_singleton]%elem_of_union; [by apply (Hseen d'); [set_solver|]|].
      apply Hni. rewrite <- Hin. by apply list_elem_of_fmap_2.
    + intros p d' [= <-] Hd'. rewrite Forall_forall in Hlt. by apply Hlt.
Qed.

Lemma check_members_good protocol l :
  check_members protocol None ∅ l = true <-> good_members protocol l.
Proof. rewrite check_members_spec. set_solver. Qed.

Lemma sorted_agents_unique l a b :
  StronglySorted agent_lt l -> a ∈ l -> b ∈ l -> dev_AgentID a = dev_AgentID b -> a = b.
Proof.
  intros Hs. induction Hs as [|d l Hs IH Hf]; [set_solver|].
  rewrite Forall_forall in Hf. rewrite !elem_of_cons. intros [->|Ha] [->|Hb] He; try done; [| |by apply IH].
  - specialize (Hf b Hb). unfold agent_lt in Hf. rewrite He in Hf. by apply leb_false_lt in Hf as [_ ?].
  - specialize (Hf a Ha). unfold agent_lt in Hf. rewrite He in Hf. by apply leb_false_lt in Hf as [_ ?].
Qed.

Lemma Roster_Device_member r id d :
  Roster_Device r id = Some d -> d ∈ ro_Members r /\ dev_AgentID d = id.
Proof.
  unfold Roster_Device. intros [Hd%list_elem_of_In Hi]%List.find_some. by bool_simpl.
Qed.

Lemma find_device l d :
  StronglySorted agent_lt l -> d ∈ l -> List.find (fun x => bool_decide (dev_AgentID x = dev_AgentID d)) l = Some d.
Proof.
  intros Hs Hd. destruct (List.find _ l) as [x|] eqn:E.
  - apply List.find_some in E as [Hx%list_elem_of_In Hi]. bool_simpl.
    f_equal. by eapply sorted_agents_unique.
  - apply list_elem_of_In in Hd. eapply List.find_none in E; [|exact Hd]. by bool_simpl.
Qed.

(** What [Roster.Verify] establishes. *)
Record verified (r : Roster) (root workspace : string) : Prop := {
  vr_members : good_members (ro_Protocol r) (ro_Members r);
  vr_size : 1 <= Z.of_nat (length (ro_Members r)) <= MaxMembers;
  vr_epoch : 1 <= ro_Epoch r;
  vr_version : ro_Version r = e2ee_Version;
  vr_workspace : ro_WorkspaceID r = workspace /\ workspace <> "";
  vr_protocol : ro_Protocol r = 0 \/ ro_Protocol r = 2;
  vr_sizes : len (ro_Commit r) <= 256 * 1024 /\ len (ro_Welcome r) <= 512 * 1024;
  vr_signature : verify root "tincan-roster-v1" (roster_json (set_Signature "" r)) (ro_Signature r) = true }.

Lemma Roster_Verify_iff r root workspace :
  Roster_Verify r root workspace = None <-> verified r root workspace.
Proof.
  unfold Roster_Verify. split.
  - intros Hv. case_match eqn:E1; [done|]. case_match eqn:E2; [done|]. case_match eqn:E3; [|done].
    apply check_members_good in E3.
    assert (ro_Protocol r = 0 \/ ro_Protocol r = 2) as Hp.
    { destruct (Z.eqb_spec (ro_Protocol r) 0); [by left|].
      destruct (Z.eqb_spec (ro_Protocol r) 2); [by right|done]. }
    bool_simpl. constructor; try done.
    + split; [|done]. destruct (ro_Members r); [done|]. simpl. lia.
    + split; [by apply dec_stable|done].
  - intros [Hm [Hs1 Hs2] He Hv [Hw1 Hw2] Hp [Hc Hwl] Hsig].
    rewrite Hv, Hsig. rewrite (bool_decide_eq_false_2 (_ <> workspace)) by (by intros Hn).
    rewrite (bool_decide_eq_false_2 (workspace = "")) by done.
    rewrite (proj2 (Z.ltb_ge (ro_Epoch r) 1)) by done.
    rewrite (bool_decide_eq_false_2 (ro_Members r = [])) by (intros Hn; rewrite Hn in Hs1; simpl in Hs1; lia).
    rewrite (proj2 (Z.ltb_ge MaxMembers _)) by done. simpl.
    rewrite (proj2 (Z.ltb_ge (256 * 1024) _)), (proj2 (Z.ltb_ge (512 * 1024) _)) by done.
    rewrite (proj2 (check_members_good _ _) Hm).
    by destruct Hp as [-> | ->].
Qed.
End Verified.

(** ** Signing *)
Lemma len_public_half key : len key = PrivateKeySize -> len (public_half key) = PublicKeySize.
Proof.
  unfold len, public_half, drop_str, PrivateKeySize, PublicKeySize. intros Hl.
  rewrite length_of_bytes, length_drop, length_bytes. lia.
Qed.

#[export] Instance agent_le_total : Total agent_le.
Proof. intros a b. unfold agent_le. apply (total String.le). Qed.
#[export] Instance agent_le_trans : Transitive agent_le.
Proof. intros a b c. unfold agent_le. apply (transitivity (R := String.le)). Qed.

Lemma sorted_agents_lt l :
  StronglySorted agent_le l -> NoDup (dev_AgentID <$> l) -> StronglySorted agent_lt l.
Proof.
  intros Hs. induction Hs as [|d l Hs IH Hf]; [constructor|].
  rewrite fmap_cons, NoDup_cons. intros [Hni Hn]. constructor; [by apply IH|].
  apply Forall_forall. intros x Hx. rewrite Forall_forall in Hf. specialize (Hf x Hx).
  unfold agent_lt. destruct (String.leb (dev_AgentID x) (dev_AgentID d)) eqn:E; [|done]. exfalso.
  apply Hni. rewrite (String.leb_antisym (dev_AgentID d) (dev_AgentID x)); [by apply list_elem_of_fmap_2| |done].
  by apply Is_true_true.
Qed.

Section Signing.
Context `{!Primitives}.
Hypothesis ed_correct : forall key message, len key = PrivateKeySize -> seed_matches key = true ->
  ed_verify (public_half key) message (ed_sign key message) = true.

Lemma sign_verify i id d domain v : identity_device i id = Ok d ->
  exists s, sign (id_SigningKey i) domain v = Ok s /\ verify (dev_SigningKey d) domain v s = true.
Proof using All.
  unfold identity_device, sign, verify. intros Hd. destruct (age_recipient _); [|done].
  destruct (len (id_SigningKey i) =? PrivateKeySize) eqn:E; [|done]. simpl in Hd.
  destruct (seed_matches _) eqn:Es; [|done]. simplify_eq/=. bool_simpl. eexists. split; [done|].
  rewrite len_public_half, Z.eqb_refl by done. simpl. by apply ed_correct.
Qed.

(** A membership list that [Roster.Verify] can accept once it is sorted. *)
Record signable (r : Roster) (workspace : string) : Prop := {
  sg_workspace : ro_WorkspaceID r = workspace /\ workspace <> "";
  sg_epoch : 1 <= ro_Epoch r;
  sg_size : 1 <= Z.of_nat (length (ro_Members r)) <= MaxMembers;
  sg_protocol : ro_Protocol r = 0 \/ ro_Protocol r = 2;
  sg_sizes : len (ro_Commit r) <= 256 * 1024 /\ len (ro_Welcome r) <= 512 * 1024;
  sg_each : forall d, d ∈ ro_Members r ->
    dev_Protocol d = ro_Protocol r /\ dev_AgentID d <> "" /\ Device_Validate d = None;
  sg_agents : NoDup (dev_AgentID <$> ro_Members r);
  sg_fingerprints : NoDup (Fingerprint <$> ro_Members r) }.

(** Signing and verifying agree. A membership list with valid, distinct devices, signed by
    the group's owner in any order, verifies under the owner's public key: the signature covers
    the sorted list, whose members are the given ones, and everything else is unchanged. *)
Theorem roster_sign_verify (r : Roster) (i : Identity) (owner : Device) (workspace : string) :
  identity_device i "" = Ok owner -> signable r workspace ->
  exists r', Roster_Sign r i = Ok r' /\ Roster_Verify r' (dev_SigningKey owner) workspace = None /\
    ro_Members r' ≡ₚ ro_Members r /\
    set_Signature "" (set_Members [] r') = set_Signature "" (set_RosterVersion e2ee_Version (set_Members [] r)).
Proof using All.
  intros Hi [Hw He Hs Hp Hz Hd Ha Hf]. unfold Roster_Sign.
  set (r1 := set_Signature "" _).
  destruct (sign_verify i "" owner "tincan-roster-v1" (roster_json r1) Hi) as (s & Hsign & Hv).
  exists (set_Signature s r1). rewrite Hsign.
  pose proof (merge_sort_Permutation agent_le (ro_Members r)) as Hperm.
  split_and!; [done| |exact Hperm|done].
  apply Roster_Verify_iff. constructor; simpl; try done.
  - constructor.
    + apply sorted_agents_lt; [apply (StronglySorted_merge_sort agent_le)|by rewrite Hperm].
    + intros d. rewrite Hperm. apply Hd.
    + by rewrite Hperm.
  - by rewrite Hperm.
Qed.
End Signing.

(** ** Envelopes *)
(** What the signature of an envelope covers, and its domain. *)
Definition envelope_domain (version : Z) : string :=
  if version =? 2 then "tincan-message-v2" else "tincan-message-v1".
Definition statement (e : Envelope) : Envelope :=
  if env_Version e =? 2 then set_Sealed "" "" e else set_Sealed (env_Ciphertext e) "" e.

Lemma statement_version e : env_Version (statement e) = env_Version e.
Proof. unfold statement. by destruct (_ =? _). Qed.

Section Authentic.
Context `{!Primitives}.

(** Envelopes that the owner of a key signed: a signature on an envelope's statement is one
    the owner made, on that statement. *)
Variable sealed : string -> Envelope -> Prop.
Hypothesis unforgeable : forall key e s,
  ed_verify key (signed_text (envelope_domain (env_Version e)) (envelope_json (statement e))) s = true ->
  exists e0, sealed key e0 /\ envelope_json (statement e) = envelope_json (statement e0).
Hypothesis sha256_collisions : forall a b, sha256_hex a = sha256_hex b -> a = b.

Lemma verify_sealed key e s : verify key (envelope_domain (env_Version e)) (envelope_json (statement e)) s = true ->
  exists e0, sealed key e0 /\ statement e = statement e0.
Proof using unforgeable.
  unfold verify. intros Hv. bool_simpl.
  match goal with Hs : ed_verify _ _ _ = true |- _ => apply unforgeable in Hs as (e0 & He & Hj) end.
  exists e0. split; [done|]. by apply envelope_json_inj in Hj.
Qed.

(** The checks of [Envelope.Verify] before the signature. *)
Record in_scope (e : Envelope) (r : Roster) : Prop := {
  is_group : env_RoomGroup e = bool_decide (ro_RoomID r <> "");
  is_room : ro_RoomID r <> "" -> env_RoomID e = ro_RoomID r /\ ChannelRoom r (env_ChannelID e) = ro_RoomID r;
  is_channel : env_RoomID e = ChannelRoom r (env_ChannelID e);
  is_member : env_RoomID e <> "" -> RoomHas r (env_RoomID e) (env_SenderID e) = true }.

Lemma Envelope_Verify_scope e r : Envelope_Verify e r = None ->
  in_scope e r /\
  (if env_Version e =? 2 then verifyMLS e r (Roster_Device r (env_SenderID e)) (env_Signature e)
   else verifyAge e r (Roster_Device r (env_SenderID e)) (env_Signature e)) = None.
Proof.
  unfold Envelope_Verify, scope_mismatch. intros Hv. case_match eqn:E1; [done|].
  case_match eqn:E2; [done|]. case_match eqn:E3; [done|]. split; [|done].
  apply orb_false_iff in E1 as [E1 E1']. apply negb_false_iff, Bool.eqb_prop in E1.
  assert (env_RoomID e = ChannelRoom r (env_ChannelID e)) as Hc.
  { destruct (decide (env_RoomID e = "")) as [Hn|Hn].
    - destruct (decide (ChannelRoom r (env_ChannelID e) = "")) as [->|Hc]; [done|].
      rewrite (bool_decide_eq_true_2 _ Hc) in E2. simpl in E2. bool_simpl. by apply dec_stable.
    - rewrite (bool_decide_eq_true_2 _ Hn) in E3. simpl in E3. bool_simpl. symmetry. by apply dec_stable. }
  constructor; [done| |done|].
  - intros Hr. rewrite (bool_decide_eq_true_2 _ Hr) in E1'. simpl in E1'. bool_simpl.
    split; by apply dec_stable.
  - intros Hr. rewrite <- Hc in E2. rewrite (bool_decide_eq_true_2 _ Hr) in E2. simpl in E2. by bool_simpl.
Qed.

(** The facts a valid envelope states about its roster. *)
Record bound_to (e : Envelope) (r : Roster) : Prop := {
  bt_workspace : env_WorkspaceID e = ro_WorkspaceID r;
  bt_epoch : env_Epoch e = ro_Epoch r;
  bt_hash : env_RosterHash e = Roster_Hash r;
  bt_protocol : ro_Protocol r = if env_Version e =? 2 then 2 else 0;
  bt_kind : env_Kind e = "file" \/ env_Kind e = "message" }.

Lemma kind_cases (kind : string) :
  negb (bool_decide (kind = "file")) && negb (bool_decide (kind = "message")) = false ->
  kind = "file" \/ kind = "message".
Proof. repeat case_bool_decide; naive_solver. Qed.

Lemma verifyMLS_bound e r d sig : env_Version e = 2 -> verifyMLS e r d sig = None ->
  bound_to e r /\ exists dev, d = Some dev /\
  (env_Ciphertext e <> "" -> PayloadHash (env_Ciphertext e) = env_PayloadHash e) /\
  verify (dev_SigningKey dev) (envelope_domain (env_Version e)) (envelope_json (statement e)) sig = true.
Proof.
  unfold verifyMLS, statement, envelope_domain. intros H2 Hv. rewrite H2. simpl.
  case_match eqn:Ek; [done|]. apply kind_cases in Ek. destruct d as [d|]; [|done].
  case_match eqn:E1; [done|]. case_match eqn:E2; [done|]. case_match eqn:E3; [|done]. bool_simpl.
  split; [constructor; first [done | by apply dec_stable | by rewrite H2]|].
  exists d. split_and!; [done| |done]. intros Hc. destruct E2 as [E2|E2]; bool_simpl; [|by apply dec_stable].
  exfalso. apply Hc. destruct (env_Ciphertext e); [done|]. unfold len in E2. simpl in E2. lia.
Qed.

Lemma verifyAge_bound e r d sig : env_Version e <> 2 -> verifyAge e r d sig = None ->
  bound_to e r /\ exists dev, d = Some dev /\
  verify (dev_SigningKey dev) (envelope_domain (env_Version e)) (envelope_json (statement e)) sig = true.
Proof.
  unfold verifyAge, statement, envelope_domain. intros H2 Hv. rewrite (proj2 (Z.eqb_neq _ _) H2).
  case_match eqn:Ek; [done|]. apply kind_cases in Ek. case_match eqn:E1; [done|].
  destruct d as [d|]; bool_simpl; [|done].
  split; [constructor; first [done | by apply dec_stable | by rewrite (proj2 (Z.eqb_neq _ _) H2)]|].
  exists d. by split.
Qed.

(** A verified envelope is what its sender signed. If [Envelope.Verify] accepts an envelope
    for a verified roster, then its sender is a member of that roster (and of the room the
    channel belongs to), the envelope names exactly this roster, and the sender signed an
    envelope with the same workspace, channel, room, key, mentions, reply, attachments, epoch,
    capsule and payload hash. Its ciphertext, when the sender hashed its own, is the sender's. *)
Theorem envelope_authentic (e : Envelope) (r : Roster) :
  Envelope_Verify e r = None ->
  in_scope e r /\ bound_to e r /\
  exists d e0, Roster_Device r (env_SenderID e) = Some d /\ sealed (dev_SigningKey d) e0 /\
    statement e = statement e0 /\
    (env_PayloadHash e0 = PayloadHash (env_Ciphertext e0) -> env_Ciphertext e <> "" ->
     env_Ciphertext e = env_Ciphertext e0).
Proof using All.
  intros [Hs Hv]%Envelope_Verify_scope. split; [done|]. destruct (Z.eqb_spec (env_Version e) 2) as [E|E].
  - apply verifyMLS_bound in Hv as (Hb & d & Hd & Hc & Hv); [|done]. split; [done|].
    apply verify_sealed in Hv as (e0 & He & Hst). exists d, e0. split_and!; [done..|].
    intros Hh Hn. apply sha256_collisions. unfold PayloadHash in *. rewrite <- Hh, Hc by done.
    apply (f_equal env_PayloadHash) in Hst. revert Hst. unfold statement. by repeat destruct (_ =? _).
  - apply verifyAge_bound in Hv as (Hb & d & Hd & Hv); [|done]. split; [done|].
    apply verify_sealed in Hv as (e0 & He & Hst). exists d, e0. split_and!; [done..|]. intros _ _.
    pose proof (f_equal env_Version Hst) as Hver. rewrite !statement_version in Hver.
    apply (f_equal env_Ciphertext) in Hst. revert Hst. unfold statement. rewrite <- Hver.
    by rewrite (proj2 (Z.eqb_neq _ _) E).
Qed.
End Authentic.

(** ** Admission proofs *)
Section Admission.
Context `{!Primitives}.
Hypothesis text_injective : forall v w, json_text v = json_text w -> v = w.
Hypothesis hmac_collisions : forall k v k' v', hmac k v = hmac k' v' -> k = k' /\ v = v'.

(** An admission proof admits one device to one group under one invitation. A proof made by
    a joining device with the invitation's secret verifies exactly for the same secret, owner,
    workspace, invitation and device, all well formed: it is useless for any other. *)
Theorem admission_proof_binds (s r w h s' r' w' h' : string) (d d' : Device) :
  VerifyAdmission s' r' w' h' d' (Some (mkAdmissionProof h w (AdmissionMAC s r w h d))) = true <->
  (s' = s /\ r' = r /\ w' = w /\ h' = h /\ d' = d) /\
  len s = 32 /\ len r = 32 /\ w <> "" /\ h <> "" /\ dev_AgentID d = "" /\ Device_Validate d = None.
Proof using All.
  unfold VerifyAdmission, AdmissionMAC. simpl. split.
  - intros Hv. bool_simpl. subst.
    match goal with Hm : hmac _ _ = hmac _ _ |- _ => apply hmac_collisions in Hm as [-> Hst%text_injective] end.
    apply admission_statement_inj in Hst as (-> & _ & _ & ->). done.
  - intros [(-> & -> & -> & -> & ->) (-> & -> & Hw & Hh & -> & ->)].
    by rewrite !bool_decide_eq_true_2.
Qed.
End Admission.

(** ** Channels name their rooms *)
Lemma last_index_app c l r : c ∉ r -> last_index c (l ++ c :: r) = Some (length l).
Proof.
  intros Hr. assert (last_index c r = None) as Hn.
  { induction r as [|a r IH]; [done|]. simpl. rewrite IH by set_solver.
    destruct (Ascii.eqb_spec a c) as [->|]; [set_solver|done]. }
  induction l as [|a l IH]; simpl; [by rewrite Hn, Ascii.eqb_refl|by rewrite IH].
Qed.

(** A channel identifier pins its room. For every non-empty room and every suffix without an
    underscore, the identifier [ch_room_<room>_<suffix>] is read back as that room, so the
    roster, whatever channel labels it carries, cannot move the channel to another room. *)
Theorem room_channel_roundtrip (room suffix : string) (r : Roster) :
  room <> "" -> "_"%char ∉ bytes suffix ->
  RoomForChannel ("ch_room_" +:+ room +:+ "_" +:+ suffix) = room /\
  ChannelRoom r ("ch_room_" +:+ room +:+ "_" +:+ suffix) = room.
Proof.
  intros Hr Hs. assert (RoomForChannel ("ch_room_" +:+ room +:+ "_" +:+ suffix) = room) as Hroom.
  { unfold RoomForChannel. rewrite HasPrefix_app, TrimPrefix_app. simpl.
    rewrite !bytes_app. change (bytes "_") with ["_"%char]. simpl.
    rewrite last_index_app by done. destruct (_ <? _)%nat eqn:E.
    - apply Nat.ltb_lt in E. exfalso. apply Hr. rewrite <- (of_bytes_bytes room).
      destruct (bytes room); [done|]. simpl in E. lia.
    - unfold take_str. rewrite !bytes_app, take_app_length. apply of_bytes_bytes. }
  split; [done|]. unfold ChannelRoom. rewrite Hroom. by rewrite bool_decide_eq_true_2.
Qed.

(** ** The theorems at concrete inputs *)
Definition demo_key : string := "abcdefghijklmnopqrstuvwxyz012345".
Definition demo_identity : Identity := mkIdentity "age-owner" (demo_key +:+ demo_key).
Definition demo_device (id key : string) : Device := mkDevice id ("age-" +:+ id) key 2 (demo_key +:+ demo_key).
Definition demo_owner : Device := mkDevice "" "age-owner" demo_key 0 "".
Definition demo_roster : Roster :=
  mkRoster "rm_mls_1" None None [] 0 "ws" 1 ""
    [demo_device "b" "012345abcdefghijklmnopqrstuvwxyz"; demo_device "a" demo_key] "" 2 "" "".

#[export] Instance demo_primitives : Primitives := toy no_module.

Lemma toy_correct key message : len key = PrivateKeySize -> seed_matches key = true ->
  ed_verify (public_half key) message (ed_sign key message) = true.
Proof. intros _ _. by apply bool_decide_eq_true. Qed.

Lemma demo_signable : signable demo_roster "ws".
Proof.
  constructor; try (vm_compute; intuition (done || congruence)).
  - intros d. unfold demo_roster. simpl. rewrite !elem_of_cons, elem_of_nil.
    intros [->|[->|[]]]; vm_compute; intuition congruence.
  - apply (bool_decide_eq_true_1 _). vm_compute. reflexivity.
  - apply (bool_decide_eq_true_1 _). vm_compute. reflexivity.
Qed.

Lemma roster_sign_verify_witness :
  exists r', Roster_Sign demo_roster demo_identity = Ok r' /\ Roster_Verify r' demo_key "ws" = None.
Proof.
  destruct (roster_sign_verify toy_correct demo_roster demo_identity demo_owner "ws"
    ltac:(vm_compute; reflexivity) demo_signable) as (r' & Hs & Hv & _).
  exists r'. split; [exact Hs|exact Hv].
Defined.

(** The owner's envelopes under the toy signatures carry them. *)
Definition toy_sealed (key : string) (e : Envelope) : Prop :=
  env_Signature e =
  toy_signature key (signed_text (envelope_domain (env_Version e)) (envelope_json (statement e))).

Lemma statement_signature e s : statement (set_Sealed (env_Ciphertext e) s e) = statement e.
Proof. unfold statement. simpl. by destruct (_ =? _). Qed.

Lemma toy_unforgeable key e s :
  ed_verify key (signed_text (envelope_domain (env_Version e)) (envelope_json (statement e))) s = true ->
  exists e0, toy_sealed key e0 /\ envelope_json (statement e) = envelope_json (statement e0).
Proof.
  intros Hs%bool_decide_eq_true. exists (set_Sealed (env_Ciphertext e) s e).
  split; [|by rewrite statement_signature]. unfold toy_sealed. by rewrite statement_signature.
Qed.

Definition demo_signed : Roster := match Roster_Sign demo_roster demo_identity with Ok r => r | Err _ => demo_roster end.
Definition demo_unsigned_envelope : Envelope :=
  mkEnvelope true "rm_mls_1" "message" 2 "ws" "ch_room_rm_mls_1_general" "a" "k1" [] None [] 1
    (Roster_Hash demo_signed) (demo_key +:+ demo_key) "" demo_key (demo_key +:+ demo_key).
Definition demo_envelope : Envelope :=
  match SignMLS demo_identity demo_unsigned_envelope with Ok e => e | Err _ => demo_unsigned_envelope end.

Lemma envelope_authentic_witness :
  exists d, Roster_Device demo_signed "a" = Some d /\ in_scope demo_envelope demo_signed.
Proof.
  destruct (envelope_authentic toy_sealed toy_unforgeable (fun a b (Hab : a = b) => Hab)
    demo_envelope demo_signed ltac:(vm_compute; reflexivity)) as (Hs & _ & d & _ & Hd & _).
  exists d. split; [exact Hd|exact Hs].
Defined.

Lemma toy_hmac k v k' v' : hmac k v = hmac k' v' -> k = k' /\ v = v'.
Proof. intros Hh%(inj json_string). by injection Hh. Qed.

Definition joining : Device := demo_device "" demo_key.

Lemma admission_proof_binds_witness :
  VerifyAdmission demo_key demo_key "ws" "invite" joining
    (Some (mkAdmissionProof "invite" "ws" (AdmissionMAC demo_key demo_key "ws" "invite" joining))) = true.
Proof.
  apply (admission_proof_binds (inj json_string) toy_hmac demo_key demo_key "ws" "invite" demo_key demo_key "ws" "invite" joining joining).
  vm_compute. intuition congruence.
Defined.

Lemma room_channel_roundtrip_witness :
  RoomForChannel "ch_room_rm_mls_1_general" = "rm_mls_1".
Proof.
  exact (proj1 (room_channel_roundtrip "rm_mls_1" "general" demo_roster ltac:(discriminate)
    ltac:(vm_compute; intros Hin; apply list_elem_of_In in Hin; simpl in Hin; intuition discriminate))).
Defined.
