(* ===== verification/History.v ===== *)
(** * The history search index

    The keyed trigram Bloom filter of [cmd/tincan/encryption_history.go] ([historyIndex],
    [historyIndexMayMatch]): an index of 256 bytes per archived message. [strings.ToLower] is a
    parameter (its Unicode tables are not modelled); what the search relies on is that it is
    idempotent. *)
From S2P Require Import Prelude GoStrings Json Types Crypto.
From S2P Require Import Toy.

Section History.
Context `{!Primitives}.
Variable ToLower : string -> string.

Definition byte_at (n : nat) (s : string) : Z := default 0 (code <$> bytes s !! n).
(** [binary.BigEndian.Uint16(sum[n:n+2])]. *)
Definition Uint16 (n : nat) (s : string) : Z := Z.lor (Z.shiftl (byte_at n s) 8) (byte_at (S n) s).

Definition historyIndexPositions (key token : string) : list Z :=
  let sum := hmac key ("tincan-history-search-v2" +:+ NUL +:+ token) in
  [Uint16 0 sum mod 2048; Uint16 2 sum mod 2048; Uint16 4 sum mod 2048].

(** The tokens [text[i:i+3]]. *)
Fixpoint trigrams (l : list ascii) : list string :=
  match l with
  | a :: r => match r with
              | b :: c :: _ => of_bytes [a; b; c] :: trigrams r
              | _ => []
              end
  | [] => []
  end.

(** [filter[p/8] |= 1 << (p % 8)]. *)
Definition set_bit (filter : list Z) (p : Z) : list Z :=
  <[Z.to_nat (p / 8) := Z.lor (default 0 (filter !! Z.to_nat (p / 8))) (Z.shiftl 1 (p mod 8))]> filter.
(** [filter[p/8]&(1<<(p%8)) != 0]. *)
Definition has_bit (filter : list Z) (p : Z) : bool :=
  negb (Z.land (default 0 (filter !! Z.to_nat (p / 8))) (Z.shiftl 1 (p mod 8)) =? 0).

(** [make([]byte, 256)]. *)
Definition empty_filter : list Z := repeat 0 256.
Lemma empty_filter_length : length empty_filter = 256%nat.
Proof. reflexivity. Qed.
#[local] Opaque empty_filter.

Definition historyIndex (key text : string) : list Z :=
  fold_left (fun filter token => fold_left set_bit (historyIndexPositions key token) filter)
    (trigrams (bytes (ToLower text))) empty_filter.

Definition historyIndexMayMatch (filter : list Z) (key query : string) : bool :=
  negb (Z.of_nat (length filter) =? 256)
  || forallb (fun token => forallb (has_bit filter) (historyIndexPositions key token))
       (trigrams (bytes (ToLower query))).

(** ** The filter only gains bits *)
Definition position (p : Z) : Prop := 0 <= p < 2048.

Lemma positions_range key token p : p ∈ historyIndexPositions key token -> position p.
Proof.
  unfold historyIndexPositions, position. rewrite !elem_of_cons, elem_of_nil.
  intros [->|[->|[->|[]]]]; apply Z.mod_pos_bound; lia.
Qed.

Lemma set_bit_length filter p : length (set_bit filter p) = length filter.
Proof. unfold set_bit. by rewrite length_insert. Qed.

Lemma has_bit_testbit filter p :
  has_bit filter p = Z.testbit (default 0 (filter !! Z.to_nat (p / 8))) (p mod 8).
Proof.
  unfold has_bit. pose proof (Z.mod_pos_bound p 8 ltac:(lia)) as Hp.
  set (b := default 0 _). rewrite Z.shiftl_1_l.
  destruct (Z.testbit b (p mod 8)) eqn:E.
  - apply negb_true_iff, Z.eqb_neq. intros Hz. apply (f_equal (fun z => Z.testbit z (p mod 8))) in Hz.
    rewrite Z.land_spec, E, Z.pow2_bits_true, Z.bits_0 in Hz by lia. done.
  - apply negb_false_iff, Z.eqb_eq. apply Z.bits_inj'. intros n Hn.
    rewrite Z.land_spec, Z.bits_0. destruct (decide (n = p mod 8)) as [->|Hne]; [by rewrite E|].
    rewrite Z.pow2_bits_false by lia. apply andb_false_r.
Qed.

Lemma set_bit_same filter p : position p -> length filter = 256%nat -> has_bit (set_bit filter p) p = true.
Proof.
  unfold position. intros Hp Hl. rewrite has_bit_testbit. unfold set_bit.
  assert (Z.to_nat (p / 8) < length filter)%nat by (pose proof (Z.div_lt_upper_bound p 8 256); lia).
  rewrite list_lookup_insert_eq by done. simpl. rewrite Z.lor_spec, Z.shiftl_1_l, Z.pow2_bits_true.
  - apply orb_true_r.
  - pose proof (Z.mod_pos_bound p 8). lia.
Qed.

Lemma set_bit_keeps filter p q : has_bit filter p = true -> has_bit (set_bit filter q) p = true.
Proof.
  rewrite !has_bit_testbit. unfold set_bit. intros Hb.
  destruct (decide (Z.to_nat (p / 8) = Z.to_nat (q / 8))) as [E|E].
  - rewrite <- E. destruct (filter !! Z.to_nat (p / 8)) as [b|] eqn:Eb; simpl in Hb; [|by rewrite Z.bits_0 in Hb].
    rewrite list_lookup_insert_eq by (by eapply lookup_lt_Some). simpl. rewrite Z.lor_spec. simpl in Hb. by rewrite Hb.
  - by rewrite list_lookup_insert_ne.
Qed.

Lemma set_bits_spec ps : forall filter, Forall position ps -> length filter = 256%nat ->
  length (fold_left set_bit ps filter) = 256%nat /\
  (forall p, has_bit filter p = true \/ p ∈ ps -> has_bit (fold_left set_bit ps filter) p = true).
Proof.
  induction ps as [|q ps IH]; intros filter Hp Hl; simpl; [split; [done|set_solver]|].
  apply Forall_cons in Hp as [Hq Hp].
  destruct (IH (set_bit filter q) Hp ltac:(by rewrite set_bit_length)) as [IHl IHb].
  split; [done|]. intros p. rewrite elem_of_cons. intros [Hb|[->|Hb]]; apply IHb.
  - left. by apply set_bit_keeps.
  - left. by apply set_bit_same.
  - by right.
Qed.

Lemma positions_forall key token : Forall position (historyIndexPositions key token).
Proof. apply Forall_forall. intros p. apply positions_range. Qed.

Lemma index_spec key tokens : forall filter, length filter = 256%nat ->
  let filter' := fold_left (fun f token => fold_left set_bit (historyIndexPositions key token) f) tokens filter in
  length filter' = 256%nat /\
  (forall p, has_bit filter p = true -> has_bit filter' p = true) /\
  (forall token p, token ∈ tokens -> p ∈ historyIndexPositions key token -> has_bit filter' p = true).
Proof.
  induction tokens as [|t tokens IH]; intros filter Hl; simpl; [split_and!; [done|done|set_solver]|].
  destruct (set_bits_spec (historyIndexPositions key t) filter (positions_forall key t) Hl) as [Hl' Hb].
  destruct (IH _ Hl') as (IHl & IHk & IHt). split_and!; [done| |].
  - intros p Hp. apply IHk, Hb. by left.
  - intros token p. rewrite elem_of_cons. intros [->|Hin] Hp; [|by eapply IHt].
    apply IHk, Hb. by right.
Qed.

Lemma historyIndex_length key text : length (historyIndex key text) = 256%nat.
Proof. exact (proj1 (index_spec key _ empty_filter empty_filter_length)). Qed.

(** ** Substrings have the trigrams *)
Lemma trigrams_prefix l r t : t ∈ trigrams l -> t ∈ trigrams (l ++ r).
Proof.
  clear ToLower.
  induction l as [|a l IH]; [set_solver|]. destruct l as [|b l]; [set_solver|].
  destruct l as [|c l]; [set_solver|]. simpl in *. rewrite !elem_of_cons in *. naive_solver.
Qed.

Lemma trigrams_app l r t : t ∈ trigrams r -> t ∈ trigrams (l ++ r).
Proof.
  clear ToLower.
  intros Ht. induction l as [|a l IH]; [done|]. simpl.
  destruct (l ++ r) as [|b [|c z]]; [set_solver|set_solver|]. apply elem_of_cons. by right.
Qed.

(** [strings.Contains]. *)
Definition is_substring (s q : string) : Prop := exists l r, bytes s = l ++ bytes q ++ r.

(** The index has no false negatives. If the query occurs in the message (both in lower
    case), the message's index does not exclude it, so the accelerated search finds every
    message that the full scan would find. *)
Theorem index_no_false_negatives (key text query : string) :
  (forall s, ToLower (ToLower s) = ToLower s) ->
  is_substring (ToLower text) (ToLower query) ->
  length (historyIndex key text) = 256%nat /\
  historyIndexMayMatch (historyIndex key text) key (ToLower query) = true.
Proof.
  intros Hlow (l & r & Hs). split; [apply historyIndex_length|].
  unfold historyIndexMayMatch. rewrite historyIndex_length.
  change (negb (Z.of_nat 256 =? 256)) with false. rewrite orb_false_l.
  apply forallb_forall. intros token Ht%list_elem_of_In. rewrite Hlow in Ht.
  apply (proj2 (forallb_forall _ (historyIndexPositions key token))). intros p Hp%list_elem_of_In.
  unfold historyIndex. eapply (proj2 (proj2 (index_spec key _ empty_filter empty_filter_length))); [|exact Hp].
  rewrite Hs. apply trigrams_app, trigrams_prefix. exact Ht.
Qed.
End History.

(** An instance: ASCII lower case, and an HMAC. *)
Definition ascii_lower (s : string) : string :=
  of_bytes ((fun a => if byte_in 65 90 a then ascii_of_N (N_of_ascii a + 32) else a) <$> bytes s).

Lemma ascii_lower_idem s : ascii_lower (ascii_lower s) = ascii_lower s.
Proof.
  unfold ascii_lower. rewrite bytes_of_bytes. f_equal. rewrite <- list_fmap_compose. apply list_fmap_ext.
  intros _ a _. simpl. destruct a as [[] [] [] [] [] [] [] []]; reflexivity.
Qed.

(** ** The history search index at a concrete input *)

#[local] Instance demo_primitives : Primitives := toy no_module.

Lemma index_no_false_negatives_witness :
  historyIndexMayMatch ascii_lower (historyIndex ascii_lower "k" "Deploy FRIDAY at noon") "k" (ascii_lower "Friday") = true.
Proof.
  exact (proj2 (index_no_false_negatives ascii_lower "k" "Deploy FRIDAY at noon" "Friday" ascii_lower_idem
    ltac:(exists (bytes "deploy "), (bytes " at noon"); vm_compute; reflexivity))).
Defined.
