(* ===== verification/Encryption.v ===== *)
(** * Encryption state and effects

    The saved state of an encrypted group ([cryptoState] in [cmd/tincan/encryption.go]) and a
    small monad for the code that runs under [withCrypto]: the state in memory and on disk, and
    as scripts the outcomes of saving, the server's answers and the random bytes; the files
    beside the state and the states of the other groups of the connection. Each request is
    logged. *)
From S2P Require Import Prelude GoStrings Json Types Crypto Roster Metadata.

(** ** Data *)
Record pendingMLSRoster := mkPendingRoster { pr_Roster : Roster; pr_RequestID : string }.
Record archiveEntry := mkArchiveEntry { ae_Key : string; ae_Payload : string }.
Record rejectedMLSMessage := mkRejected {
  rj_MessageID : string; rj_SenderID : string; rj_Epoch : Z; rj_Seq : Z; rj_Reason : string }.
Record savedAdmissionInvite := mkInvite {
  in_RoomID : string; in_Secret : string; in_ExpiresAt : Z; in_RequestID : string; in_Fingerprint : string }.
Record savedSend := mkSavedSend { sv_Digest : string; sv_Input : SendInput }.
Record encryptedBody := mkBody { bd_Text : string; bd_Metadata : json; bd_Attachments : list Attachment }.

(** A map to [true] is the set of its keys; times are nanoseconds, the zero time is 0. *)
Record cryptoState := mkCrypto {
  cs_RoomJoinReceipt : string; cs_RoomID : string; cs_PendingRoom : string;
  cs_InitialPlainChannels : list string; cs_CommittedAdmissions : gset string;
  cs_AdmittedDevices : gmap string string; cs_AutomaticInvites : bool;
  cs_AdmissionInvites : gmap string savedAdmissionInvite; cs_JoinAdmission : option AdmissionProof;
  cs_Identity : Identity; cs_Root : string; cs_Server : string; cs_WorkspaceID : string;
  cs_AgentID : string; cs_Epoch : Z; cs_RosterHash : string; cs_Protocol : Z;
  cs_KeyPackage : string; cs_MLS : string; cs_PrivateMLS : string; cs_MLSEpoch : Z; cs_SyncSeq : Z;
  cs_ActiveRoster : Roster; cs_PendingRoster : option pendingMLSRoster;
  cs_Outbox : gmap string savedSend; cs_Archive : gmap string string;
  cs_SearchIndex : gmap string (list Z); cs_Consumed : gset string;
  cs_Rejected : gmap string rejectedMLSMessage; cs_MessagesSinceUpdate : Z; cs_LastMLSUpdate : Z }.

Definition put_RoomJoinReceipt (v : string) (s : cryptoState) : cryptoState :=
  mkCrypto v (cs_RoomID s) (cs_PendingRoom s) (cs_InitialPlainChannels s)
  (cs_CommittedAdmissions s) (cs_AdmittedDevices s) (cs_AutomaticInvites s) (cs_AdmissionInvites s)
  (cs_JoinAdmission s) (cs_Identity s) (cs_Root s) (cs_Server s) (cs_WorkspaceID s) (cs_AgentID s)
  (cs_Epoch s) (cs_RosterHash s) (cs_Protocol s) (cs_KeyPackage s) (cs_MLS s) (cs_PrivateMLS s)
  (cs_MLSEpoch s) (cs_SyncSeq s) (cs_ActiveRoster s) (cs_PendingRoster s) (cs_Outbox s)
  (cs_Archive s) (cs_SearchIndex s) (cs_Consumed s) (cs_Rejected s) (cs_MessagesSinceUpdate s)
  (cs_LastMLSUpdate s).
Definition put_RoomID (v : string) (s : cryptoState) : cryptoState :=
  mkCrypto (cs_RoomJoinReceipt s) v (cs_PendingRoom s) (cs_InitialPlainChannels s)
  (cs_CommittedAdmissions s) (cs_AdmittedDevices s) (cs_AutomaticInvites s) (cs_AdmissionInvites s)
  (cs_JoinAdmission s) (cs_Identity s) (cs_Root s) (cs_Server s) (cs_WorkspaceID s) (cs_AgentID s)
  (cs_Epoch s) (cs_RosterHash s) (cs_Protocol s) (cs_KeyPackage s) (cs_MLS s) (cs_PrivateMLS s)
  (cs_MLSEpoch s) (cs_SyncSeq s) (cs_ActiveRoster s) (cs_PendingRoster s) (cs_Outbox s)
  (cs_Archive s) (cs_SearchIndex s) (cs_Consumed s) (cs_Rejected s) (cs_MessagesSinceUpdate s)
  (cs_LastMLSUpdate s).
Definition put_PendingRoom (v : string) (s : cryptoState) : cryptoState :=
  mkCrypto (cs_RoomJoinReceipt s) (cs_RoomID s) v (cs_InitialPlainChannels s)
  (cs_CommittedAdmissions s) (cs_AdmittedDevices s) (cs_AutomaticInvites s) (cs_AdmissionInvites s)
  (cs_JoinAdmission s) (cs_Identity s) (cs_Root s) (cs_Server s) (cs_WorkspaceID s) (cs_AgentID s)
  (cs_Epoch s) (cs_RosterHash s) (cs_Protocol s) (cs_KeyPackage s) (cs_MLS s) (cs_PrivateMLS s)
  (cs_MLSEpoch s) (cs_SyncSeq s) (cs_ActiveRoster s) (cs_PendingRoster s) (cs_Outbox s)
  (cs_Archive s) (cs_SearchIndex s) (cs_Consumed s) (cs_Rejected s) (cs_MessagesSinceUpdate s)
  (cs_LastMLSUpdate s).
Definition put_InitialPlainChannels (v : list string) (s : cryptoState) : cryptoState :=
  mkCrypto (cs_RoomJoinReceipt s) (cs_RoomID s) (cs_PendingRoom s) v (cs_CommittedAdmissions s)
  (cs_AdmittedDevices s) (cs_AutomaticInvites s) (cs_AdmissionInvites s) (cs_JoinAdmission s)
  (cs_Identity s) (cs_Root s) (cs_Server s) (cs_WorkspaceID s) (cs_AgentID s) (cs_Epoch s)
  (cs_RosterHash s) (cs_Protocol s) (cs_KeyPackage s) (cs_MLS s) (cs_PrivateMLS s) (cs_MLSEpoch s)
  (cs_SyncSeq s) (cs_ActiveRoster s) (cs_PendingRoster s) (cs_Outbox s) (cs_Archive s)
  (cs_SearchIndex s) (cs_Consumed s) (cs_Rejected s) (cs_MessagesSinceUpdate s)
  (cs_LastMLSUpdate s).
Definition put_CommittedAdmissions (v : gset string) (s : cryptoState) : cryptoState :=
  mkCrypto (cs_RoomJoinReceipt s) (cs_RoomID s) (cs_PendingRoom s) (cs_InitialPlainChannels s) v
  (cs_AdmittedDevices s) (cs_AutomaticInvites s) (cs_AdmissionInvites s) (cs_JoinAdmission s)
  (cs_Identity s) (cs_Root s) (cs_Server s) (cs_WorkspaceID s) (cs_AgentID s) (cs_Epoch s)
  (cs_RosterHash s) (cs_Protocol s) (cs_KeyPackage s) (cs_MLS s) (cs_PrivateMLS s) (cs_MLSEpoch s)
  (cs_SyncSeq s) (cs_ActiveRoster s) (cs_PendingRoster s) (cs_Outbox s) (cs_Archive s)
  (cs_SearchIndex s) (cs_Consumed s) (cs_Rejected s) (cs_MessagesSinceUpdate s)
  (cs_LastMLSUpdate s).
Definition put_AdmittedDevices (v : gmap string string) (s : cryptoState) : cryptoState :=
  mkCrypto (cs_RoomJoinReceipt s) (cs_RoomID s) (cs_PendingRoom s) (cs_InitialPlainChannels s)
  (cs_CommittedAdmissions s) v (cs_AutomaticInvites s) (cs_AdmissionInvites s) (cs_JoinAdmission s)
  (cs_Identity s) (cs_Root s) (cs_Server s) (cs_WorkspaceID s) (cs_AgentID s) (cs_Epoch s)
  (cs_RosterHash s) (cs_Protocol s) (cs_KeyPackage s) (cs_MLS s) (cs_PrivateMLS s) (cs_MLSEpoch s)
  (cs_SyncSeq s) (cs_ActiveRoster s) (cs_PendingRoster s) (cs_Outbox s) (cs_Archive s)
  (cs_SearchIndex s) (cs_Consumed s) (cs_Rejected s) (cs_MessagesSinceUpdate s)
  (cs_LastMLSUpdate s).
Definition put_AutomaticInvites (v : bool) (s : cryptoState) : cryptoState :=
  mkCrypto (cs_RoomJoinReceipt s) (cs_RoomID s) (cs_PendingRoom s) (cs_InitialPlainChannels s)
  (cs_CommittedAdmissions s) (cs_AdmittedDevices s) v (cs_AdmissionInvites s) (cs_JoinAdmission s)
  (cs_Identity s) (cs_Root s) (cs_Server s) (cs_WorkspaceID s) (cs_AgentID s) (cs_Epoch s)
  (cs_RosterHash s) (cs_Protocol s) (cs_KeyPackage s) (cs_MLS s) (cs_PrivateMLS s) (cs_MLSEpoch s)
  (cs_SyncSeq s) (cs_ActiveRoster s) (cs_PendingRoster s) (cs_Outbox s) (cs_Archive s)
  (cs_SearchIndex s) (cs_Consumed s) (cs_Rejected s) (cs_MessagesSinceUpdate s)
  (cs_LastMLSUpdate s).
Definition put_AdmissionInvites (v : gmap string savedAdmissionInvite) (s : cryptoState) : cryptoState :=
  mkCrypto (cs_RoomJoinReceipt s) (cs_RoomID s) (cs_PendingRoom s) (cs_InitialPlainChannels s)
  (cs_CommittedAdmissions s) (cs_AdmittedDevices s) (cs_AutomaticInvites s) v (cs_JoinAdmission s)
  (cs_Identity s) (cs_Root s) (cs_Server s) (cs_WorkspaceID s) (cs_AgentID s) (cs_Epoch s)
  (cs_RosterHash s) (cs_Protocol s) (cs_KeyPackage s) (cs_MLS s) (cs_PrivateMLS s) (cs_MLSEpoch s)
  (cs_SyncSeq s) (cs_ActiveRoster s) (cs_PendingRoster s) (cs_Outbox s) (cs_Archive s)
  (cs_SearchIndex s) (cs_Consumed s) (cs_Rejected s) (cs_MessagesSinceUpdate s)
  (cs_LastMLSUpdate s).
Definition put_JoinAdmission (v : option AdmissionProof) (s : cryptoState) : cryptoState :=
  mkCrypto (cs_RoomJoinReceipt s) (cs_RoomID s) (cs_PendingRoom s) (cs_InitialPlainChannels s)
  (cs_CommittedAdmissions s) (cs_AdmittedDevices s) (cs_AutomaticInvites s) (cs_AdmissionInvites s)
  v (cs_Identity s) (cs_Root s) (cs_Server s) (cs_WorkspaceID s) (cs_AgentID s) (cs_Epoch s)
  (cs_RosterHash s) (cs_Protocol s) (cs_KeyPackage s) (cs_MLS s) (cs_PrivateMLS s) (cs_MLSEpoch s)
  (cs_SyncSeq s) (cs_ActiveRoster s) (cs_PendingRoster s) (cs_Outbox s) (cs_Archive s)
  (cs_SearchIndex s) (cs_Consumed s) (cs_Rejected s) (cs_MessagesSinceUpdate s)
  (cs_LastMLSUpdate s).
Definition put_MLS (v : string) (s : cryptoState) : cryptoState :=
  mkCrypto (cs_RoomJoinReceipt s) (cs_RoomID s) (cs_PendingRoom s) (cs_InitialPlainChannels s)
  (cs_CommittedAdmissions s) (cs_AdmittedDevices s) (cs_AutomaticInvites s) (cs_AdmissionInvites s)
  (cs_JoinAdmission s) (cs_Identity s) (cs_Root s) (cs_Server s) (cs_WorkspaceID s) (cs_AgentID s)
  (cs_Epoch s) (cs_RosterHash s) (cs_Protocol s) (cs_KeyPackage s) v (cs_PrivateMLS s)
  (cs_MLSEpoch s) (cs_SyncSeq s) (cs_ActiveRoster s) (cs_PendingRoster s) (cs_Outbox s)
  (cs_Archive s) (cs_SearchIndex s) (cs_Consumed s) (cs_Rejected s) (cs_MessagesSinceUpdate s)
  (cs_LastMLSUpdate s).
Definition put_PrivateMLS (v : string) (s : cryptoState) : cryptoState :=
  mkCrypto (cs_RoomJoinReceipt s) (cs_RoomID s) (cs_PendingRoom s) (cs_InitialPlainChannels s)
  (cs_CommittedAdmissions s) (cs_AdmittedDevices s) (cs_AutomaticInvites s) (cs_AdmissionInvites s)
  (cs_JoinAdmission s) (cs_Identity s) (cs_Root s) (cs_Server s) (cs_WorkspaceID s) (cs_AgentID s)
  (cs_Epoch s) (cs_RosterHash s) (cs_Protocol s) (cs_KeyPackage s) (cs_MLS s) v (cs_MLSEpoch s)
  (cs_SyncSeq s) (cs_ActiveRoster s) (cs_PendingRoster s) (cs_Outbox s) (cs_Archive s)
  (cs_SearchIndex s) (cs_Consumed s) (cs_Rejected s) (cs_MessagesSinceUpdate s)
  (cs_LastMLSUpdate s).
Definition put_SyncSeq (v : Z) (s : cryptoState) : cryptoState :=
  mkCrypto (cs_RoomJoinReceipt s) (cs_RoomID s) (cs_PendingRoom s) (cs_InitialPlainChannels s)
  (cs_CommittedAdmissions s) (cs_AdmittedDevices s) (cs_AutomaticInvites s) (cs_AdmissionInvites s)
  (cs_JoinAdmission s) (cs_Identity s) (cs_Root s) (cs_Server s) (cs_WorkspaceID s) (cs_AgentID s)
  (cs_Epoch s) (cs_RosterHash s) (cs_Protocol s) (cs_KeyPackage s) (cs_MLS s) (cs_PrivateMLS s)
  (cs_MLSEpoch s) v (cs_ActiveRoster s) (cs_PendingRoster s) (cs_Outbox s) (cs_Archive s)
  (cs_SearchIndex s) (cs_Consumed s) (cs_Rejected s) (cs_MessagesSinceUpdate s)
  (cs_LastMLSUpdate s).
Definition put_ActiveRoster (v : Roster) (s : cryptoState) : cryptoState :=
  mkCrypto (cs_RoomJoinReceipt s) (cs_RoomID s) (cs_PendingRoom s) (cs_InitialPlainChannels s)
  (cs_CommittedAdmissions s) (cs_AdmittedDevices s) (cs_AutomaticInvites s) (cs_AdmissionInvites s)
  (cs_JoinAdmission s) (cs_Identity s) (cs_Root s) (cs_Server s) (cs_WorkspaceID s) (cs_AgentID s)
  (cs_Epoch s) (cs_RosterHash s) (cs_Protocol s) (cs_KeyPackage s) (cs_MLS s) (cs_PrivateMLS s)
  (cs_MLSEpoch s) (cs_SyncSeq s) v (cs_PendingRoster s) (cs_Outbox s) (cs_Archive s)
  (cs_SearchIndex s) (cs_Consumed s) (cs_Rejected s) (cs_MessagesSinceUpdate s)
  (cs_LastMLSUpdate s).
Definition put_PendingRoster (v : option pendingMLSRoster) (s : cryptoState) : cryptoState :=
  mkCrypto (cs_RoomJoinReceipt s) (cs_RoomID s) (cs_PendingRoom s) (cs_InitialPlainChannels s)
  (cs_CommittedAdmissions s) (cs_AdmittedDevices s) (cs_AutomaticInvites s) (cs_AdmissionInvites s)
  (cs_JoinAdmission s) (cs_Identity s) (cs_Root s) (cs_Server s) (cs_WorkspaceID s) (cs_AgentID s)
  (cs_Epoch s) (cs_RosterHash s) (cs_Protocol s) (cs_KeyPackage s) (cs_MLS s) (cs_PrivateMLS s)
  (cs_MLSEpoch s) (cs_SyncSeq s) (cs_ActiveRoster s) v (cs_Outbox s) (cs_Archive s)
  (cs_SearchIndex s) (cs_Consumed s) (cs_Rejected s) (cs_MessagesSinceUpdate s)
  (cs_LastMLSUpdate s).
Definition put_Outbox (v : gmap string savedSend) (s : cryptoState) : cryptoState :=
  mkCrypto (cs_RoomJoinReceipt s) (cs_RoomID s) (cs_PendingRoom s) (cs_InitialPlainChannels s)
  (cs_CommittedAdmissions s) (cs_AdmittedDevices s) (cs_AutomaticInvites s) (cs_AdmissionInvites s)
  (cs_JoinAdmission s) (cs_Identity s) (cs_Root s) (cs_Server s) (cs_WorkspaceID s) (cs_AgentID s)
  (cs_Epoch s) (cs_RosterHash s) (cs_Protocol s) (cs_KeyPackage s) (cs_MLS s) (cs_PrivateMLS s)
  (cs_MLSEpoch s) (cs_SyncSeq s) (cs_ActiveRoster s) (cs_PendingRoster s) v (cs_Archive s)
  (cs_SearchIndex s) (cs_Consumed s) (cs_Rejected s) (cs_MessagesSinceUpdate s)
  (cs_LastMLSUpdate s).
Definition put_Archive (v : gmap string string) (s : cryptoState) : cryptoState :=
  mkCrypto (cs_RoomJoinReceipt s) (cs_RoomID s) (cs_PendingRoom s) (cs_InitialPlainChannels s)
  (cs_CommittedAdmissions s) (cs_AdmittedDevices s) (cs_AutomaticInvites s) (cs_AdmissionInvites s)
  (cs_JoinAdmission s) (cs_Identity s) (cs_Root s) (cs_Server s) (cs_WorkspaceID s) (cs_AgentID s)
  (cs_Epoch s) (cs_RosterHash s) (cs_Protocol s) (cs_KeyPackage s) (cs_MLS s) (cs_PrivateMLS s)
  (cs_MLSEpoch s) (cs_SyncSeq s) (cs_ActiveRoster s) (cs_PendingRoster s) (cs_Outbox s) v
  (cs_SearchIndex s) (cs_Consumed s) (cs_Rejected s) (cs_MessagesSinceUpdate s)
  (cs_LastMLSUpdate s).
Definition put_SearchIndex (v : gmap string (list Z)) (s : cryptoState) : cryptoState :=
  mkCrypto (cs_RoomJoinReceipt s) (cs_RoomID s) (cs_PendingRoom s) (cs_InitialPlainChannels s)
  (cs_CommittedAdmissions s) (cs_AdmittedDevices s) (cs_AutomaticInvites s) (cs_AdmissionInvites s)
  (cs_JoinAdmission s) (cs_Identity s) (cs_Root s) (cs_Server s) (cs_WorkspaceID s) (cs_AgentID s)
  (cs_Epoch s) (cs_RosterHash s) (cs_Protocol s) (cs_KeyPackage s) (cs_MLS s) (cs_PrivateMLS s)
  (cs_MLSEpoch s) (cs_SyncSeq s) (cs_ActiveRoster s) (cs_PendingRoster s) (cs_Outbox s)
  (cs_Archive s) v (cs_Consumed s) (cs_Rejected s) (cs_MessagesSinceUpdate s) (cs_LastMLSUpdate s).
Definition put_Consumed (v : gset string) (s : cryptoState) : cryptoState :=
  mkCrypto (cs_RoomJoinReceipt s) (cs_RoomID s) (cs_PendingRoom s) (cs_InitialPlainChannels s)
  (cs_CommittedAdmissions s) (cs_AdmittedDevices s) (cs_AutomaticInvites s) (cs_AdmissionInvites s)
  (cs_JoinAdmission s) (cs_Identity s) (cs_Root s) (cs_Server s) (cs_WorkspaceID s) (cs_AgentID s)
  (cs_Epoch s) (cs_RosterHash s) (cs_Protocol s) (cs_KeyPackage s) (cs_MLS s) (cs_PrivateMLS s)
  (cs_MLSEpoch s) (cs_SyncSeq s) (cs_ActiveRoster s) (cs_PendingRoster s) (cs_Outbox s)
  (cs_Archive s) (cs_SearchIndex s) v (cs_Rejected s) (cs_MessagesSinceUpdate s)
  (cs_LastMLSUpdate s).
Definition put_Rejected (v : gmap string rejectedMLSMessage) (s : cryptoState) : cryptoState :=
  mkCrypto (cs_RoomJoinReceipt s) (cs_RoomID s) (cs_PendingRoom s) (cs_InitialPlainChannels s)
  (cs_CommittedAdmissions s) (cs_AdmittedDevices s) (cs_AutomaticInvites s) (cs_AdmissionInvites s)
  (cs_JoinAdmission s) (cs_Identity s) (cs_Root s) (cs_Server s) (cs_WorkspaceID s) (cs_AgentID s)
  (cs_Epoch s) (cs_RosterHash s) (cs_Protocol s) (cs_KeyPackage s) (cs_MLS s) (cs_PrivateMLS s)
  (cs_MLSEpoch s) (cs_SyncSeq s) (cs_ActiveRoster s) (cs_PendingRoster s) (cs_Outbox s)
  (cs_Archive s) (cs_SearchIndex s) (cs_Consumed s) v (cs_MessagesSinceUpdate s)
  (cs_LastMLSUpdate s).
Definition put_MessagesSinceUpdate (v : Z) (s : cryptoState) : cryptoState :=
  mkCrypto (cs_RoomJoinReceipt s) (cs_RoomID s) (cs_PendingRoom s) (cs_InitialPlainChannels s)
  (cs_CommittedAdmissions s) (cs_AdmittedDevices s) (cs_AutomaticInvites s) (cs_AdmissionInvites s)
  (cs_JoinAdmission s) (cs_Identity s) (cs_Root s) (cs_Server s) (cs_WorkspaceID s) (cs_AgentID s)
  (cs_Epoch s) (cs_RosterHash s) (cs_Protocol s) (cs_KeyPackage s) (cs_MLS s) (cs_PrivateMLS s)
  (cs_MLSEpoch s) (cs_SyncSeq s) (cs_ActiveRoster s) (cs_PendingRoster s) (cs_Outbox s)
  (cs_Archive s) (cs_SearchIndex s) (cs_Consumed s) (cs_Rejected s) v (cs_LastMLSUpdate s).
Definition put_Identified (v0 : string) (v1 : string) (s : cryptoState) : cryptoState :=
  mkCrypto (cs_RoomJoinReceipt s) (cs_RoomID s) (cs_PendingRoom s) (cs_InitialPlainChannels s)
  (cs_CommittedAdmissions s) (cs_AdmittedDevices s) (cs_AutomaticInvites s) (cs_AdmissionInvites s)
  (cs_JoinAdmission s) (cs_Identity s) (cs_Root s) (cs_Server s) v0 v1 (cs_Epoch s)
  (cs_RosterHash s) (cs_Protocol s) (cs_KeyPackage s) (cs_MLS s) (cs_PrivateMLS s) (cs_MLSEpoch s)
  (cs_SyncSeq s) (cs_ActiveRoster s) (cs_PendingRoster s) (cs_Outbox s) (cs_Archive s)
  (cs_SearchIndex s) (cs_Consumed s) (cs_Rejected s) (cs_MessagesSinceUpdate s)
  (cs_LastMLSUpdate s).
Definition put_Observed (v0 : Z) (v1 : string) (s : cryptoState) : cryptoState :=
  mkCrypto (cs_RoomJoinReceipt s) (cs_RoomID s) (cs_PendingRoom s) (cs_InitialPlainChannels s)
  (cs_CommittedAdmissions s) (cs_AdmittedDevices s) (cs_AutomaticInvites s) (cs_AdmissionInvites s)
  (cs_JoinAdmission s) (cs_Identity s) (cs_Root s) (cs_Server s) (cs_WorkspaceID s) (cs_AgentID s)
  v0 v1 (cs_Protocol s) (cs_KeyPackage s) (cs_MLS s) (cs_PrivateMLS s) (cs_MLSEpoch s)
  (cs_SyncSeq s) (cs_ActiveRoster s) (cs_PendingRoster s) (cs_Outbox s) (cs_Archive s)
  (cs_SearchIndex s) (cs_Consumed s) (cs_Rejected s) (cs_MessagesSinceUpdate s)
  (cs_LastMLSUpdate s).
Definition put_MLSState (v0 : string) (v1 : Z) (s : cryptoState) : cryptoState :=
  mkCrypto (cs_RoomJoinReceipt s) (cs_RoomID s) (cs_PendingRoom s) (cs_InitialPlainChannels s)
  (cs_CommittedAdmissions s) (cs_AdmittedDevices s) (cs_AutomaticInvites s) (cs_AdmissionInvites s)
  (cs_JoinAdmission s) (cs_Identity s) (cs_Root s) (cs_Server s) (cs_WorkspaceID s) (cs_AgentID s)
  (cs_Epoch s) (cs_RosterHash s) (cs_Protocol s) (cs_KeyPackage s) v0 (cs_PrivateMLS s) v1
  (cs_SyncSeq s) (cs_ActiveRoster s) (cs_PendingRoster s) (cs_Outbox s) (cs_Archive s)
  (cs_SearchIndex s) (cs_Consumed s) (cs_Rejected s) (cs_MessagesSinceUpdate s)
  (cs_LastMLSUpdate s).
Definition put_Updated (v0 : Z) (v1 : Z) (s : cryptoState) : cryptoState :=
  mkCrypto (cs_RoomJoinReceipt s) (cs_RoomID s) (cs_PendingRoom s) (cs_InitialPlainChannels s)
  (cs_CommittedAdmissions s) (cs_AdmittedDevices s) (cs_AutomaticInvites s) (cs_AdmissionInvites s)
  (cs_JoinAdmission s) (cs_Identity s) (cs_Root s) (cs_Server s) (cs_WorkspaceID s) (cs_AgentID s)
  (cs_Epoch s) (cs_RosterHash s) (cs_Protocol s) (cs_KeyPackage s) (cs_MLS s) (cs_PrivateMLS s)
  (cs_MLSEpoch s) (cs_SyncSeq s) (cs_ActiveRoster s) (cs_PendingRoster s) (cs_Outbox s)
  (cs_Archive s) (cs_SearchIndex s) (cs_Consumed s) (cs_Rejected s) v0 v1.

(** ** Requests and answers *)
Inductive request :=
| GetMe | GetRooms | GetStatus (room : string) | GetRoster (epoch : Z)
| GetRoomPolicy | GetChannels | GetRequests
| GetSync (after : Z) | PostRoster (p : pendingMLSRoster)
| PostAgeRoster (r : Roster) (requestID : option string) | PostJoinStatus (receipt : string)
| PostMessage (m : SendInput) | GetMessages (channel before : string)
| GetBlob (id : string) | PostUpload (channel name data : string)
| RawCall (method path : string) (v : option json)
| PostOther (path : string)
| CallTool (name : string) (args : json). (* a tool of the server, over MCP *)

(** Journal rows ([GET /e2ee/sync]); [PayloadOther] is a payload of another shape. *)
Inductive payload :=
| PayloadRoster (r : Roster)
| PayloadOpaque (capsule identity : string)
| PayloadEnvelope (e : Envelope)
| PayloadOther.
Record row := mkRow { row_Seq : Z; row_Kind : string; row_Payload : payload }.

Record roomInfo := mkRoomInfo { rm_ID : string; rm_Mode : string }.
Record channelInfo := mkChannelInfo { ch_ID : string; ch_Private : bool; ch_Mode : string }.

(** A pending admission ([GET /e2ee/requests]). *)
Record admissionRequest := mkRequestRow {
  ar_ID : string; ar_RoomID : string; ar_AgentID : string; ar_Device : Device; ar_Status : string;
  ar_Admission : option AdmissionProof }.

(** An invitation ([POST /invites]); parsing its address and its expiry may fail. *)
Record inviteInfo := mkInviteInfo {
  iv_Standard : bool; iv_Address : result string; iv_Expires : option Z }.

(** A new agent ([POST /bootstrap], [POST /join] and their encrypted forms). *)
Record joinedAnswer := mkJoined {
  jd_Token : string; jd_AgentID : string; jd_RoomID : string; jd_RoomName : string; jd_ShareURL : string;
  jd_ShareExpiresAt : Z; jd_ClaimURL : string; jd_ClaimExpiresAt : Z }.

Inductive answer :=
| AnsMe (agent workspace : string) (admin : bool)
| AnsRooms (l : list roomInfo)
| AnsStatus (epoch : Z) (root : string) (protocol : Z)
| AnsRoster (r : Roster)
| AnsPolicy (members : gmap string (list string)) (channels : option (gmap string string))
| AnsChannels (l : list channelInfo)
| AnsRequests (l : list admissionRequest)
| AnsRows (l : list row)
| AnsJoin (status room : string)
| AnsMessage (m : Message)
| AnsMessages (l : list Message)
| AnsBlob (filename mime data : string)
| AnsAttachment (a : Attachment)
| AnsInvite (i : inviteInfo)
| AnsAgent (name : string)
| AnsRoom (id : string)
| AnsAdmission (room receipt : string)
| AnsTool (failed : bool) (events : option (list inboxEvent)) (* a tool's result; its one text, if it decodes into events *)
| AnsConnected (j : joinedAnswer) (r : JoinReceipt)
| AnsOther.

(** ** The effects *)
(** Private files beside the state ([CryptoPath.outbox/], [CryptoPath.received/]), by the name
    the code derives: a file may be unreadable, and its content may not decode ([None]). *)
Definition file (A : Type) : Type := result (option A).
Record files := mkFiles { f_outbox : gmap string (file savedSend); f_received : gmap string (file Z) }.
Definition no_files : files := mkFiles ∅ ∅.

(** What is on disk for one group: its state, history key and private files. *)
Record group := mkGroup { gr_state : cryptoState; gr_history : result string; gr_files : files }.

(** [w_state] to [w_files]: the group that is being worked on; [w_groups]: every group's
    files by the path of its state, when none is being worked on. *)
Record world := mkWorld {
  w_state : cryptoState; w_disk : cryptoState; w_history : result string;
  w_saves : list (option string); w_net : list (result answer); w_random : list string; w_now : Z;
  w_log : list request; w_files : files; w_groups : gmap string group }.

Definition M (A : Type) : Type := world -> result A * world.

#[export] Instance M_ret : MRet M := fun _ a w => (Ok a, w).
#[export] Instance M_bind : MBind M := fun _ _ f m w =>
  match m w with (Ok a, w) => f a w | (Err e, w) => (Err e, w) end.

Definition fail {A} (e : string) : M A := fun w => (Err e, w).
Definition lift {A} (r : result A) : M A := fun w => (r, w).
Definition check (e : option string) : M unit := match e with Some e => fail e | None => mret tt end.
Definition require (b : bool) (e : string) : M unit := if b then mret tt else fail e.
(** The outcome of an action, for code that inspects an error before returning it. *)
Definition attempt {A} (m : M A) : M (result A) := fun w => let '(r, w) := m w in (Ok r, w).

Definition gets {A} (f : cryptoState -> A) : M A := fun w => (Ok (f (w_state w)), w).
Definition modify (f : cryptoState -> cryptoState) : M unit := fun w =>
  (Ok tt, mkWorld (f (w_state w)) (w_disk w) (w_history w) (w_saves w) (w_net w) (w_random w) (w_now w) (w_log w) (w_files w) (w_groups w)).
Definition now : M Z := fun w => (Ok (w_now w), w).

(** [privateJSON(c.CryptoPath, st)]: an atomic replacement; no scripted outcome is a success. *)
Definition save_state : M unit := fun w =>
  match w_saves w with
  | Some e :: l => (Err e, mkWorld (w_state w) (w_disk w) (w_history w) l (w_net w) (w_random w) (w_now w) (w_log w) (w_files w) (w_groups w))
  | None :: l => (Ok tt, mkWorld (w_state w) (w_state w) (w_history w) l (w_net w) (w_random w) (w_now w) (w_log w) (w_files w) (w_groups w))
  | [] => (Ok tt, mkWorld (w_state w) (w_state w) (w_history w) [] (w_net w) (w_random w) (w_now w) (w_log w) (w_files w) (w_groups w))
  end.

(** Reading and replacing the files beside the state; a write takes the next save outcome. *)
Definition get_files : M files := fun w => (Ok (w_files w), w).
Definition write_files (f : files -> files) : M unit := fun w =>
  match w_saves w with
  | Some e :: l => (Err e, mkWorld (w_state w) (w_disk w) (w_history w) l (w_net w) (w_random w) (w_now w) (w_log w) (w_files w) (w_groups w))
  | None :: l => (Ok tt, mkWorld (w_state w) (w_disk w) (w_history w) l (w_net w) (w_random w) (w_now w) (w_log w) (f (w_files w)) (w_groups w))
  | [] => (Ok tt, mkWorld (w_state w) (w_disk w) (w_history w) [] (w_net w) (w_random w) (w_now w) (w_log w) (f (w_files w)) (w_groups w))
  end.

(** [rawCallContext]: the next scripted answer; none left is a network failure. *)
Definition call (q : request) : M answer := fun w =>
  match w_net w with
  | a :: l => (a, mkWorld (w_state w) (w_disk w) (w_history w) (w_saves w) l (w_random w) (w_now w) (w_log w ++ [q]) (w_files w) (w_groups w))
  | [] => (Err "network unavailable",
           mkWorld (w_state w) (w_disk w) (w_history w) (w_saves w) [] (w_random w) (w_now w) (w_log w ++ [q]) (w_files w) (w_groups w))
  end.

Definition random : M string := fun w =>
  match w_random w with
  | r :: l => (Ok r, mkWorld (w_state w) (w_disk w) (w_history w) (w_saves w) (w_net w) l (w_now w) (w_log w) (w_files w) (w_groups w))
  | [] => (Ok "", w)
  end.

(** [decodeValue] into the expected shape. *)
Definition bad_answer : string := "cannot decode server response".
Definition as_me (a : answer) : result (string * string * bool) :=
  match a with AnsMe i w b => Ok (i, w, b) | _ => Err bad_answer end.
Definition as_rooms (a : answer) : result (list roomInfo) :=
  match a with AnsRooms l => Ok l | _ => Err bad_answer end.
Definition as_status (a : answer) : result (Z * string * Z) :=
  match a with AnsStatus e r p => Ok (e, r, p) | _ => Err bad_answer end.
Definition as_roster (a : answer) : result Roster :=
  match a with AnsRoster r => Ok r | _ => Err bad_answer end.
Definition as_policy (a : answer) : result (gmap string (list string) * option (gmap string string)) :=
  match a with AnsPolicy m c => Ok (m, c) | _ => Err bad_answer end.
Definition as_channels (a : answer) : result (list channelInfo) :=
  match a with AnsChannels l => Ok l | _ => Err bad_answer end.
Definition as_requests (a : answer) : result (list admissionRequest) :=
  match a with AnsRequests l => Ok l | _ => Err bad_answer end.
Definition as_rows (a : answer) : result (list row) :=
  match a with AnsRows l => Ok l | _ => Err bad_answer end.
Definition as_join (a : answer) : result (string * string) :=
  match a with AnsJoin s r => Ok (s, r) | _ => Err bad_answer end.
Definition as_message (a : answer) : result Message :=
  match a with AnsMessage m => Ok m | _ => Err bad_answer end.

Definition as_agent (a : answer) : result string :=
  match a with AnsAgent name => Ok name | _ => Err bad_answer end.
Definition as_room (a : answer) : result string :=
  match a with AnsRoom id => Ok id | _ => Err bad_answer end.
Definition as_admission (a : answer) : result (string * string) :=
  match a with AnsAdmission room receipt => Ok (room, receipt) | _ => Err bad_answer end.
Definition as_tool (a : answer) : result (bool * option (list inboxEvent)) :=
  match a with AnsTool failed events => Ok (failed, events) | _ => Err bad_answer end.
Definition as_connected (a : answer) : result (joinedAnswer * JoinReceipt) :=
  match a with AnsConnected j r => Ok (j, r) | _ => Err bad_answer end.
Definition as_messages (a : answer) : result (list Message) :=
  match a with AnsMessages l => Ok l | _ => Err bad_answer end.
Definition as_blob (a : answer) : result (string * string * string) :=
  match a with AnsBlob f m d => Ok (f, m, d) | _ => Err bad_answer end.
Definition as_attachment (a : answer) : result Attachment :=
  match a with AnsAttachment x => Ok x | _ => Err bad_answer end.

Definition ask {A} (q : request) (decode : answer -> result A) : M A := a ← call q; lift (decode a).

(** ** JSON of archive entries and message bodies *)
Definition entry_json (e : archiveEntry) : json :=
  object [("key", Some (bytes_json (ae_Key e))); ("payload", omit_string (ae_Payload e))].
Definition decode_bytes (v : json) (old : string) : option string :=
  match v with JStr s => Some s | JNull => Some "" | _ => None end.
Definition decode_entry (v : json) : option archiveEntry :=
  decode_object
    [("key", fun v e => k ← decode_bytes v (ae_Key e); Some (mkArchiveEntry k (ae_Payload e)));
     ("payload", fun v e => p ← decode_bytes v (ae_Payload e); Some (mkArchiveEntry (ae_Key e) p))]
    v (mkArchiveEntry "" "").

Definition attachment_json (a : Attachment) : json :=
  object [("id", Some (JStr (att_ID a))); ("name", Some (JStr (att_Name a)));
          ("mime", Some (JStr (att_MIME a))); ("bytes", Some (JInt (att_Bytes a)))].
Definition decode_attachment (v : json) : option Attachment :=
  decode_object
    [("id", fun v a => s ← decode_string v (att_ID a); Some (mkAttachment s (att_Name a) (att_MIME a) (att_Bytes a)));
     ("name", fun v a => s ← decode_string v (att_Name a); Some (mkAttachment (att_ID a) s (att_MIME a) (att_Bytes a)));
     ("mime", fun v a => s ← decode_string v (att_MIME a); Some (mkAttachment (att_ID a) (att_Name a) s (att_Bytes a)));
     ("bytes", fun v a => z ← decode_int v (att_Bytes a); Some (mkAttachment (att_ID a) (att_Name a) (att_MIME a) z))]
    v (mkAttachment "" "" "" 0).

Definition body_json (b : encryptedBody) : json :=
  object [("text", Some (JStr (bd_Text b))); ("metadata", Some (bd_Metadata b));
          ("attachments", Some (JArr (attachment_json <$> bd_Attachments b)))].
Definition decode_body (v : json) : option encryptedBody :=
  decode_object
    [("text", fun v b => s ← decode_string v (bd_Text b); Some (mkBody s (bd_Metadata b) (bd_Attachments b)));
     ("metadata", fun v b => Some (mkBody (bd_Text b) v (bd_Attachments b)));
     ("attachments", fun v b =>
        l ← match v with JArr l => mapM decode_attachment l | JNull => Some [] | _ => None end;
        Some (mkBody (bd_Text b) (bd_Metadata b) l))]
    v (mkBody "" JNull []).
