(* ===== verification/Mls.v ===== *)
(** * Group encryption

    [cmd/tincan/encryption_mls.go], with [cryptoRoster] ([encryption.go]): the archive of
    message keys, the synchronization of the signed journal, sealing and opening payloads, and
    membership changes. The MLS module is the operation [mls] of [Primitives]. *)
From S2P Require Import Prelude GoStrings Json Types Crypto Roster Metadata History Encryption.

(** ** Errors that are inspected: [strings.Contains] *)
Fixpoint StrContains (s sub : list ascii) : bool :=
  bool_decide (take (length sub) s = sub) || match s with [] => false | _ :: r => StrContains r sub end.
Definition has_code (err code : string) : bool :=
  let q := of_bytes [quote_char] in
  StrContains (bytes err) (bytes (q +:+ "code" +:+ q +:+ ":" +:+ q +:+ code +:+ q)).

(** Rejections that prove a commit was not published. *)
Definition definitive_codes : list string :=
  ["request_unavailable"; "invalid_roster"; "encryption_plan_required"; "invalid_room_policy";
   "room_owner_required"].

Definition errRoomScope : string := "encryption room scope changed".
Definition errFork : string := "encryption membership journal fork or gap".
Definition errRollback : string := "encryption membership rollback detected".
Definition errFuel : string := "out of fuel".

Section Mls.
Context `{!Primitives}.
Variable ToLower : string -> string.

(** [st.device(id)]. *)
Definition device_of (s : cryptoState) (id : string) : result Device :=
  d ← identity_device (cs_Identity s) id;
  mret (mkDevice (dev_AgentID d) (dev_Recipient d) (dev_SigningKey d) (cs_Protocol s) (cs_KeyPackage s)).
(** [local, _ := st.device(st.AgentID)]. *)
Definition local_device (s : cryptoState) : Device :=
  match device_of s (cs_AgentID s) with
  | Ok d => d
  | Err _ => mkDevice "" "" "" (cs_Protocol s) (cs_KeyPackage s)
  end.

Definition historyKey : M string := fun w =>
  (match w_history w with
   | Err e => Err e
   | Ok b => if len b =? 32 then Ok b else Err "invalid local history key"
   end, w).

(** ** The archive of message keys *)
Definition archiveID (e : Envelope) : string := MessageID e +:+ ":" +:+ env_PayloadHash e.
Definition archive_context (s : cryptoState) (e : Envelope) : string := cs_WorkspaceID s +:+ "/" +:+ archiveID e.

Definition archiveGet (e : Envelope) : M (option archiveEntry) :=
  s ← gets id;
  match cs_Archive s !! archiveID e with
  | None => mret None
  | Some data =>
      key ← historyKey;
      match OpenLocal key data (archive_context s e) with
      | Err _ => fail "local history archive authentication failed"
      | Ok plain => match json_parse plain ≫= decode_entry with
                    | Some entry => mret (Some entry)
                    | None => fail "invalid archive entry"
                    end
      end
  end.

(** The index of a message whose payload is known. *)
Definition index_of (key : string) (e : Envelope) (entry : archiveEntry) : option (list Z) :=
  if bool_decide (env_Kind e = "message") && (0 <? len (ae_Payload entry))
  then (fun b => historyIndex ToLower key (bd_Text b)) <$> (json_parse (ae_Payload entry) ≫= decode_body)
  else None.

Definition archivePut (e : Envelope) (entry : archiveEntry) : M unit :=
  key ← historyKey;
  s ← gets id;
  nonce ← random;
  sealed ← lift (SealLocal key nonce (json_text (entry_json entry)) (archive_context s e));
  modify (fun s => put_Archive (<[archiveID e := sealed]> (cs_Archive s)) s);;
  match index_of key e entry with
  | Some index => modify (fun s => put_SearchIndex (<[archiveID e := index]> (cs_SearchIndex s)) s)
  | None => mret tt
  end.

(** ** The MLS module ([mlsCall], [checkMLSMembers]) *)
Definition mlsCall (op data aad member : string) (private : bool) : M MLSResponse :=
  s ← gets id;
  r ← random;
  let group := if private then cs_WorkspaceID s +:+ "/private/" +:+ cs_AgentID s
               else if bool_decide (cs_RoomID s <> "") then cs_WorkspaceID s +:+ "/room/" +:+ cs_RoomID s
               else cs_WorkspaceID s in
  lift (mls r (mkMLSRequest op (if private then cs_PrivateMLS s else cs_MLS s)
                 (id_SigningKey (cs_Identity s)) group data aad member)).

Definition checkMLSMembers (out : MLSResponse) (r : Roster) : option string :=
  if negb ((rp_Epoch out + 1) mod 2 ^ 64 =? ro_Epoch r mod 2 ^ 64)
     || negb (Z.of_nat (length (rp_Members out)) =? Z.of_nat (length (ro_Members r)))
  then Some "MLS group does not match signed membership"
  else if forallb (fun d => bool_decide (dev_SigningKey d ∈ rp_Members out)) (ro_Members r) then None
  else Some "MLS device identity differs from verified membership".

(** ** Receiving message keys ([consumeMLSKey]) *)
(** The exact signed capsule, without the payload. *)
Definition rejectedEnvelopeID (e : Envelope) : string :=
  PayloadHash (json_text (envelope_json (set_Sealed "" (env_Signature e) e))).

Definition is_private (channel : string) : bool := HasPrefix channel "ch_private_".
Definition own_private (agent channel : string) : bool := HasPrefix channel ("ch_private_" +:+ agent +:+ "_").

Definition consume (e : Envelope) : M unit :=
  modify (fun s => put_Consumed (cs_Consumed s ∪ {[archiveID e]}) s).

Definition keep_state (private : bool) (state : string) : M unit :=
  if private then modify (put_PrivateMLS state)
  else modify (fun s => put_MessagesSinceUpdate (int_incr (cs_MessagesSinceUpdate s)) (put_MLS state s)).

Definition consumeMLSKey (e : Envelope) : M unit :=
  s ← gets id;
  if bool_decide (archiveID e ∈ cs_Consumed s) then mret tt else
  require (negb (bool_decide (env_SenderID e = cs_AgentID s)))
    "this runtime's encryption state is stale or cloned; rejoin as a new verified device";;
  let private := is_private (env_ChannelID e) in
  require (negb private || own_private (cs_AgentID s) (env_ChannelID e))
    "private history belongs to another runtime";;
  out ← mlsCall "decrypt" (env_Capsule e) "" "" private;
  match Roster_Device (cs_ActiveRoster s) (env_SenderID e) with
  | None => fail ErrMLSApplicationRejected
  | Some sender =>
      require (bool_decide (rp_Sender out = dev_SigningKey sender) && bool_decide (rp_AAD out = MLSContext e))
        ErrMLSApplicationRejected;;
      let scoped := bool_decide (env_RoomID e <> "") && negb (env_RoomGroup e) in
      if scoped && negb (RoomHas (cs_ActiveRoster s) (env_RoomID e) (cs_AgentID s))
      then modify (put_MLS (rp_State out));; consume e
      else
        key ← (if scoped
               then match Decrypt (cs_Identity s) (rp_Data out) 32 with
                    | Ok key => mret key
                    | Err _ => fail ErrMLSApplicationRejected
                    end
               else mret (rp_Data out));
        require (len key =? 32) ErrMLSApplicationRejected;;
        archivePut e (mkArchiveEntry key "");;
        consume e;;
        keep_state private (rp_State out)
  end.

(** ** The journal ([syncMLS]) *)
Definition is_pending (s : cryptoState) (r : Roster) : bool :=
  match cs_PendingRoster s with
  | Some p => bool_decide (Roster_Hash (pr_Roster p) = Roster_Hash r)
  | None => false
  end.

(** The MLS step that takes a member to the roster's epoch. *)
Definition advance_group (s : cryptoState) (r : Roster) : M MLSResponse :=
  if is_pending s r then mlsCall (if ro_Epoch r =? 1 then "info" else "finalize") "" "" "" false
  else if cs_MLSEpoch s =? 0 then
    require (negb (bool_decide (ro_Welcome r = ""))) "MLS welcome missing; obtain a new device invitation";;
    mlsCall "join" (ro_Welcome r) "" "" false
  else
    out ← mlsCall "commit" (ro_Commit r) "" "" false;
    require (bool_decide (rp_Sender out = cs_Root s))
      "MLS membership transition was not created by the owner";;
    mret out.

Definition sync_roster (r : Roster) : M unit :=
  s ← gets id;
  require (bool_decide (ro_RoomID r = cs_RoomID s)) "encryption journal room mismatch";;
  check (Roster_Verify r (cs_Root s) (cs_WorkspaceID s));;
  require ((ro_Epoch r =? int_incr (ro_Epoch (cs_ActiveRoster s)))
           && (negb (1 <? ro_Epoch r) || bool_decide (ro_Previous r = Roster_Hash (cs_ActiveRoster s)))) errFork;;
  (if bool_decide (is_Some (Roster_Device r (cs_AgentID s))) then
     out ← advance_group s r;
     check (checkMLSMembers out r);;
     t ← now;
     modify (fun s => put_Updated 0 t (put_MLSState (rp_State out) (ro_Epoch r) s));;
     if is_pending s r then modify (put_PendingRoster None) else mret tt
   else require (negb (0 <? cs_MLSEpoch s))
          "this encrypted device has been removed; request a new invitation");;
  modify (put_ActiveRoster r).

Definition sync_opaque (capsule identity : string) : M unit :=
  s ← gets id;
  if bool_decide (is_Some (Roster_Device (cs_ActiveRoster s) (cs_AgentID s)))
     && negb (bool_decide (identity ∈ cs_Consumed s))
  then
    out ← attempt (mlsCall "decrypt" capsule "" "" false);
    match out with
    | Ok out => modify (put_MLS (rp_State out))
    | Err e => require (bool_decide (e = ErrMLSApplicationRejected)) e
    end
  else mret tt.

Definition reject (e : Envelope) (seq : Z) : M unit :=
  modify (fun s => put_Rejected (<[rejectedEnvelopeID e :=
    mkRejected (MessageID e) (env_SenderID e) (env_Epoch e) seq ErrMLSApplicationRejected]> (cs_Rejected s)) s).

Definition sync_envelope (e : Envelope) (seq : Z) : M unit :=
  s ← gets id;
  check (Envelope_Verify e (cs_ActiveRoster s));;
  if bool_decide (is_Some (Roster_Device (cs_ActiveRoster s) (cs_AgentID s))) then
    out ← attempt (consumeMLSKey e);
    match out with
    | Ok _ => mret tt
    | Err err => if bool_decide (err = ErrMLSApplicationRejected) then reject e seq else fail err
    end
  else mret tt.

(** One row, up to the replay cursor; then a single save commits keys, archive and cursor. *)
Definition apply_row (x : row) : M unit :=
  s ← gets id;
  require (cs_SyncSeq s <? row_Seq x) "encryption journal cursor did not advance";;
  (if bool_decide (row_Kind x = "roster") then
     match row_Payload x with PayloadRoster r => sync_roster r | _ => fail bad_answer end
   else if bool_decide (row_Kind x = "opaque") then
     match row_Payload x with PayloadOpaque c i => sync_opaque c i | _ => fail bad_answer end
   else if bool_decide (row_Kind x = "envelope") then
     match row_Payload x with PayloadEnvelope e => sync_envelope e (row_Seq x) | _ => fail bad_answer end
   else fail "unknown encryption journal entry");;
  modify (put_SyncSeq (row_Seq x)).

Definition sync_row (x : row) : M unit := apply_row x;; save_state.

Fixpoint sync_rows (l : list row) : M unit :=
  match l with [] => mret tt | x :: l => sync_row x;; sync_rows l end.

(** Pages of 100 rows; each page takes an answer, so the answers bound the pages. *)
Fixpoint sync_pages (fuel : nat) : M unit :=
  match fuel with
  | O => fail errFuel
  | S n =>
      after ← gets cs_SyncSeq;
      rows ← ask (GetSync after) as_rows;
      sync_rows rows;;
      if Z.of_nat (length rows) <? 100 then mret tt else sync_pages n
  end.
Definition syncMLS : M unit := fun w => sync_pages (S (length (w_net w))) w.

(** ** The server's roster ([cryptoRoster]) *)
Definition observe_roster (r : Roster) : M unit :=
  s ← gets id;
  require (negb ((ro_Epoch r <? cs_Epoch s)
                 || ((ro_Epoch r =? cs_Epoch s) && bool_decide (cs_RosterHash s <> "")
                     && bool_decide (Roster_Hash r <> cs_RosterHash s)))) errRollback;;
  modify (fun s => put_ActiveRoster r (put_Observed (ro_Epoch r) (Roster_Hash r) s)).

Definition cryptoRoster (epoch : Z) : M Roster :=
  r ← ask (GetRoster epoch) as_roster;
  s ← gets id;
  require (bool_decide (ro_RoomID r = cs_RoomID s)) errRoomScope;;
  check (Roster_Verify r (cs_Root s) (cs_WorkspaceID s));;
  require ((epoch =? 0) || (ro_Epoch r =? epoch)) "server returned the wrong historical membership";;
  (if epoch =? 0 then observe_roster r else mret tt);;
  mret r.
End Mls.
