(* ===== verification/MlsFacts.v ===== *)
(** * Reasoning about the encryption effects

    Inversion of the monad's steps, relations that actions keep, and the shape of a successful
    or failed journal row. *)
From S2P Require Import Prelude GoStrings Json Types Crypto Roster Metadata History Encryption Mls.

(** ** Inversion *)
Section Inversion.
Context {A B : Type}.

Lemma m_bind_ok (m : M A) (f : A -> M B) w b w2 : (m ≫= f) w = (Ok b, w2) ->
  exists a w1, m w = (Ok a, w1) /\ f a w1 = (Ok b, w2).
Proof.
  unfold mbind, M_bind. intros Hm. destruct (m w) as [[a|e] w1]; [|done]. by exists a, w1.
Qed.

Lemma m_bind_err (m : M A) (f : A -> M B) w e w2 : (m ≫= f) w = (Err e, w2) ->
  m w = (Err e, w2) \/ exists a w1, m w = (Ok a, w1) /\ f a w1 = (Err e, w2).
Proof.
  unfold mbind, M_bind. intros Hm. destruct (m w) as [[a|e'] w1]; [right; by exists a, w1|].
  left. by simplify_eq.
Qed.

Lemma m_step (m : M A) (f : A -> M B) w a w1 : m w = (Ok a, w1) -> (m ≫= f) w = f a w1.
Proof. unfold mbind, M_bind. by intros ->. Qed.
Lemma m_stop (m : M A) (f : A -> M B) w e w1 : m w = (Err e, w1) -> (m ≫= f) w = (Err e, w1).
Proof. unfold mbind, M_bind. by intros ->. Qed.
End Inversion.

Lemma m_ret_inv {A} (a b : A) w w2 : (mret a : M A) w = (Ok b, w2) -> b = a /\ w2 = w.
Proof. by intros [= <- <-]. Qed.
Lemma gets_inv {A} (f : cryptoState -> A) w r w2 : gets f w = (r, w2) -> r = Ok (f (w_state w)) /\ w2 = w.
Proof. by intros [= <- <-]. Qed.
Lemma now_inv w r w2 : now w = (r, w2) -> r = Ok (w_now w) /\ w2 = w.
Proof. by intros [= <- <-]. Qed.
Lemma require_ok b e w w2 : require b e w = (Ok tt, w2) -> b = true /\ w2 = w.
Proof. destruct b; [|done]. by intros [= <-]. Qed.
Lemma require_true b e w : b = true -> require b e w = (Ok tt, w).
Proof. by intros ->. Qed.
Lemma require_false b e w : b = false -> require b e w = (Err e, w).
Proof. by intros ->. Qed.
Lemma check_none o w : o = None -> check o w = (Ok tt, w).
Proof. by intros ->. Qed.
Lemma require_err b e e' w w2 : require b e w = (Err e', w2) -> b = false /\ e' = e /\ w2 = w.
Proof. destruct b; [done|]. by intros [= <- <-]. Qed.
Lemma check_ok o w w2 : check o w = (Ok tt, w2) -> o = None /\ w2 = w.
Proof. destruct o; [done|]. by intros [= <-]. Qed.
Lemma check_err o e w w2 : check o w = (Err e, w2) -> o = Some e /\ w2 = w.
Proof. destruct o; [|done]. by intros [= <- <-]. Qed.
Lemma lift_inv {A} (r : result A) w r' w2 : lift r w = (r', w2) -> r' = r /\ w2 = w.
Proof. by intros [= <- <-]. Qed.
Lemma modify_inv f w r w2 : modify f w = (r, w2) -> r = Ok tt /\ w_state w2 = f (w_state w) /\ w_disk w2 = w_disk w.
Proof. by intros [= <- <-]. Qed.
Lemma attempt_inv {A} (m : M A) w r w2 : attempt m w = (r, w2) -> exists r', m w = (r', w2) /\ r = Ok r'.
Proof. unfold attempt. destruct (m w) as [r' w1]. intros [= <- <-]. by exists r'. Qed.

Lemma random_state w r w2 : random w = (r, w2) -> w_state w2 = w_state w.
Proof. unfold random. by destruct (w_random w); intros [= <- <-]. Qed.

(** [Ok] results are of type [unit] up to their only value. *)
Ltac m_inv :=
  repeat match goal with
  | u : unit |- _ => destruct u
  | Hm : mbind _ _ _ = (Ok _, _) |- _ => apply m_bind_ok in Hm as (? & ? & ? & Hm)
  | Hm : gets _ _ = (_, _) |- _ => apply gets_inv in Hm as [? ?]; simplify_eq
  | Hm : now _ = (_, _) |- _ => apply now_inv in Hm as [? ?]; simplify_eq
  | Hm : require _ _ _ = (Ok tt, _) |- _ => apply require_ok in Hm as [? ?]; simplify_eq
  | Hm : check _ _ = (Ok tt, _) |- _ => apply check_ok in Hm as [? ?]; simplify_eq
  | Hm : lift _ _ = (_, _) |- _ => apply lift_inv in Hm as [? ?]; simplify_eq
  | Hm : mret _ _ = (Ok _, _) |- _ => apply m_ret_inv in Hm as [? ?]; simplify_eq
  | Hm : fail _ _ = (Ok _, _) |- _ => discriminate Hm
  | Hm : attempt _ _ = (_, _) |- _ => apply attempt_inv in Hm as (? & ? & ?); simplify_eq
  end.

Ltac m_pairs := repeat (match goal with p : (_ * _)%type |- _ => destruct p end; m_inv).

(** ** Relations that actions keep *)
Section Keeps.
Context (R : cryptoState -> cryptoState -> Prop) `{!Reflexive R, !Transitive R}.

Definition keeps {A} (m : M A) : Prop := forall w, R (w_state w) (w_state (m w).2).

Lemma keeps_ret {A} (a : A) : keeps (mret a).
Proof using All. intros w. done. Qed.
Lemma keeps_fail {A} e : keeps (fail e : M A).
Proof using All. intros w. done. Qed.
Lemma keeps_lift {A} (r : result A) : keeps (lift r).
Proof using All. intros w. done. Qed.
Lemma keeps_gets {A} (f : cryptoState -> A) : keeps (gets f).
Proof using All. intros w. done. Qed.
Lemma keeps_now : keeps now.
Proof using All. intros w. done. Qed.
Lemma keeps_require b e : keeps (require b e).
Proof using All. intros w. by destruct b. Qed.
Lemma keeps_check o : keeps (check o).
Proof using All. intros w. by destruct o. Qed.
Lemma keeps_random : keeps random.
Proof using All. intros w. unfold random. by destruct (w_random w). Qed.
Lemma keeps_call q : keeps (call q).
Proof using All. intros w. unfold call. by destruct (w_net w). Qed.
Lemma keeps_save : keeps save_state.
Proof using All. intros w. unfold save_state. by destruct (w_saves w) as [|[]]. Qed.
Lemma keeps_modify f : (forall s, R s (f s)) -> keeps (modify f).
Proof using All. intros Hf w. apply Hf. Qed.
Lemma keeps_bind {A B} (m : M A) (f : A -> M B) : keeps m -> (forall a, keeps (f a)) -> keeps (m ≫= f).
Proof using All.
  intros Hm Hf w. unfold mbind, M_bind. specialize (Hm w). destruct (m w) as [[a|e] w1]; [|done].
  simpl in Hm. etransitivity; [exact Hm|apply Hf].
Qed.
Lemma keeps_attempt {A} (m : M A) : keeps m -> keeps (attempt m).
Proof using All. intros Hm w. unfold attempt. specialize (Hm w). by destruct (m w). Qed.
Lemma keeps_ask {A} q (d : answer -> result A) : keeps (ask q d).
Proof using All. apply keeps_bind; [apply keeps_call|intros; apply keeps_lift]. Qed.
Lemma keeps_run {A} (m : M A) w r w2 : keeps m -> m w = (r, w2) -> R (w_state w) (w_state w2).
Proof. intros Hm Hw. specialize (Hm w). by rewrite Hw in Hm. Qed.
End Keeps.

#[export] Hint Resolve keeps_ret keeps_fail keeps_lift keeps_gets keeps_now keeps_require keeps_check
  keeps_random keeps_call keeps_save keeps_ask : keeps.

(** Splits an action into its steps and closes the ones that change nothing. *)
Ltac keep_steps :=
  intros; repeat (cbv zeta; first
    [ solve [auto with keeps]
    | match goal with |- keeps _ (mbind _ _) => apply keeps_bind; [auto with keeps..| |intros] end
    | match goal with |- keeps _ (attempt _) => apply keeps_attempt; [auto with keeps..|] end
    | match goal with |- keeps _ (match ?x with _ => _ end) => destruct x end ]).

(** An assignment to fields that the relation does not look at. *)
Ltac keeps_fields := apply keeps_modify; first [by auto with keeps | intros; reflexivity].

(** ** What message traffic leaves alone *)
Definition group_of (s : cryptoState) :=
  (cs_Root s, cs_WorkspaceID s, cs_RoomID s, cs_AgentID s, cs_Identity s, cs_Server s, cs_Protocol s,
   cs_KeyPackage s, cs_Epoch s, cs_RosterHash s).
Definition place_of (s : cryptoState) :=
  (group_of s, cs_ActiveRoster s, cs_MLSEpoch s, cs_SyncSeq s, cs_PendingRoster s, cs_AdmissionInvites s).
Definition same_by {A} (f : cryptoState -> A) (s t : cryptoState) : Prop := f s = f t.
#[export] Instance same_by_refl {A} (f : cryptoState -> A) : Reflexive (same_by f).
Proof. done. Qed.
#[export] Instance same_by_trans {A} (f : cryptoState -> A) : Transitive (same_by f).
Proof. unfold same_by. intros a b c. congruence. Qed.

#[export] Hint Resolve same_by_refl same_by_trans RelationClasses.eq_Reflexive RelationClasses.eq_Transitive : keeps.

Section Frames.
Context `{!Primitives}.
Variable ToLower : string -> string.

Lemma keeps_mlsCall op d a m p (R : cryptoState -> cryptoState -> Prop) `{!Reflexive R, !Transitive R} :
  keeps R (mlsCall op d a m p).
Proof. unfold mlsCall. keep_steps. Qed.
Lemma keeps_historyKey (R : cryptoState -> cryptoState -> Prop) `{!Reflexive R} : keeps R historyKey.
Proof. intros w. done. Qed.
Hint Resolve keeps_mlsCall keeps_historyKey : keeps.

Lemma archivePut_place e x : keeps (same_by place_of) (archivePut ToLower e x).
Proof. unfold archivePut. keep_steps; keeps_fields. Qed.
Lemma consume_place e : keeps (same_by place_of) (consume e).
Proof. keeps_fields. Qed.
Lemma keep_state_place p m : keeps (same_by place_of) (keep_state p m).
Proof. unfold keep_state. keep_steps; keeps_fields. Qed.
Lemma reject_place e n : keeps (same_by place_of) (reject e n).
Proof. keeps_fields. Qed.
Hint Resolve archivePut_place consume_place keep_state_place reject_place : keeps.

Lemma consumeMLSKey_place e : keeps (same_by place_of) (consumeMLSKey ToLower e).
Proof. unfold consumeMLSKey. keep_steps; keeps_fields. Qed.
Hint Resolve consumeMLSKey_place : keeps.

Lemma sync_opaque_place c i : keeps (same_by place_of) (sync_opaque c i).
Proof. unfold sync_opaque. keep_steps; keeps_fields. Qed.
Lemma sync_envelope_place e n : keeps (same_by place_of) (sync_envelope ToLower e n).
Proof. unfold sync_envelope. keep_steps. Qed.
Hint Resolve sync_opaque_place sync_envelope_place : keeps.

Lemma advance_group_keeps s r (R : cryptoState -> cryptoState -> Prop) `{!Reflexive R, !Transitive R} :
  keeps R (advance_group s r).
Proof. unfold advance_group. keep_steps. Qed.
Hint Resolve advance_group_keeps : keeps.

Lemma sync_roster_group r : keeps (same_by group_of) (sync_roster r).
Proof. unfold sync_roster. keep_steps; keeps_fields. Qed.
Hint Resolve sync_roster_group : keeps.

Lemma place_group {A} (m : M A) : keeps (same_by place_of) m -> keeps (same_by group_of) m.
Proof. intros Hm w. specialize (Hm w). unfold same_by in *. exact (f_equal (fun p => p.1.1.1.1.1) Hm). Qed.

Lemma apply_row_group x : keeps (same_by group_of) (apply_row ToLower x).
Proof. unfold apply_row. keep_steps; first [keeps_fields | apply place_group; auto with keeps]. Qed.
Hint Resolve apply_row_group : keeps.
Lemma sync_row_group x : keeps (same_by group_of) (sync_row ToLower x).
Proof. unfold sync_row. keep_steps. Qed.

(** ** A successful roster row *)
Record roster_step (root workspace room : string) (r0 r : Roster) : Prop := {
  rs_room : ro_RoomID r = room;
  rs_valid : Roster_Verify r root workspace = None;
  rs_epoch : ro_Epoch r = int_incr (ro_Epoch r0);
  rs_previous : 1 < ro_Epoch r -> ro_Previous r = Roster_Hash r0 }.

Lemma sync_roster_ok r w w2 : sync_roster r w = (Ok tt, w2) ->
  roster_step (cs_Root (w_state w)) (cs_WorkspaceID (w_state w)) (cs_RoomID (w_state w))
    (cs_ActiveRoster (w_state w)) r /\ cs_ActiveRoster (w_state w2) = r.
Proof.
  intros Hs. unfold sync_roster in Hs. m_inv. bool_simpl.
  match goal with Hm : modify (put_ActiveRoster r) _ = _ |- _ => apply modify_inv in Hm as (_ & Hw & _) end.
  split; [|by rewrite Hw].
  constructor; [done|done|done|]. intros Hlt.
  match goal with Hp : negb _ = true \/ _ |- _ => destruct Hp as [Hp|Hp]; bool_simpl; [lia|done] end.
Qed.

Definition roster_of (x : row) : option Roster :=
  if bool_decide (row_Kind x = "roster")
  then match row_Payload x with PayloadRoster r => Some r | _ => None end else None.

Lemma apply_row_roster x w w2 : apply_row ToLower x w = (Ok tt, w2) ->
  cs_SyncSeq (w_state w) < row_Seq x /\ cs_SyncSeq (w_state w2) = row_Seq x /\
  match roster_of x with
  | Some r => roster_step (cs_Root (w_state w)) (cs_WorkspaceID (w_state w)) (cs_RoomID (w_state w))
                (cs_ActiveRoster (w_state w)) r /\ cs_ActiveRoster (w_state w2) = r
  | None => cs_ActiveRoster (w_state w2) = cs_ActiveRoster (w_state w)
  end.
Proof.
  intros Hs. unfold apply_row in Hs. m_inv. bool_simpl.
  apply modify_inv in Hs as (_ & Hw & _). rewrite Hw. simpl. split_and!; [done|done|].
  unfold roster_of. case_bool_decide.
  - destruct (row_Payload x); try done. by apply sync_roster_ok.
  - match goal with Hb : (if _ then _ else _) w = (Ok tt, ?w1) |- _ =>
      assert (same_by place_of (w_state w) (w_state w1)) as Hp; [refine (keeps_run _ _ _ _ _ _ Hb); keep_steps|] end.
    symmetry. exact (f_equal (fun p => p.1.1.1.1.2) Hp).
Qed.

(** ** Actions without saves: they neither read nor write the disk and the save outcomes *)
Definition set_disk (d : cryptoState) (sv : list (option string)) (w : world) : world :=
  mkWorld (w_state w) d (w_history w) sv (w_net w) (w_random w) (w_now w) (w_log w) (w_files w) (w_groups w).
Definition saveless {A} (m : M A) : Prop :=
  forall w d sv, m (set_disk d sv w) = ((m w).1, set_disk d sv (m w).2).

Lemma saveless_bind {A B} (m : M A) (f : A -> M B) : saveless m -> (forall a, saveless (f a)) -> saveless (m ≫= f).
Proof.
  clear ToLower. intros Hm Hf w d sv. unfold mbind, M_bind. rewrite Hm. destruct (m w) as [[a|e] w1]; simpl; [apply Hf|done].
Qed.
Lemma saveless_attempt {A} (m : M A) : saveless m -> saveless (attempt m).
Proof. clear ToLower. intros Hm w d sv. unfold attempt. rewrite Hm. by destruct (m w). Qed.
Lemma saveless_ret {A} (a : A) : saveless (mret a).
Proof. done. Qed.
Lemma saveless_fail {A} e : saveless (fail e : M A).
Proof. done. Qed.
Lemma saveless_lift {A} (r : result A) : saveless (lift r).
Proof. done. Qed.
Lemma saveless_gets {A} (f : cryptoState -> A) : saveless (gets f).
Proof. done. Qed.
Lemma saveless_now : saveless now.
Proof. done. Qed.
Lemma saveless_require b e : saveless (require b e).
Proof. by destruct b. Qed.
Lemma saveless_check o : saveless (check o).
Proof. by destruct o. Qed.
Lemma saveless_random : saveless random.
Proof. intros w d sv. unfold random. simpl. by destruct (w_random w). Qed.
Lemma saveless_modify f : saveless (modify f).
Proof. done. Qed.
Lemma saveless_history : saveless historyKey.
Proof. done. Qed.
End Frames.

#[export] Hint Resolve saveless_attempt saveless_ret saveless_fail saveless_lift saveless_gets saveless_now
  saveless_require saveless_check saveless_random saveless_modify saveless_history : saveless.

Ltac saveless_steps :=
  intros; repeat (cbv zeta; first
    [ solve [auto with saveless]
    | match goal with |- saveless (mbind _ _) => apply saveless_bind; [|intros] end
    | match goal with |- saveless (attempt _) => apply saveless_attempt end
    | match goal with |- saveless (match ?x with _ => _ end) => destruct x end ]).

Section Saveless.
Context `{!Primitives}.
Variable ToLower : string -> string.

Lemma saveless_mlsCall op d a m p : saveless (mlsCall op d a m p).
Proof. unfold mlsCall. saveless_steps. Qed.
Lemma saveless_archivePut e x : saveless (archivePut ToLower e x).
Proof. unfold archivePut. saveless_steps. Qed.
Lemma saveless_consume e : saveless (consume e).
Proof. unfold consume. saveless_steps. Qed.
Lemma saveless_keep_state p m : saveless (keep_state p m).
Proof. unfold keep_state. saveless_steps. Qed.
Lemma saveless_reject e n : saveless (reject e n).
Proof. unfold reject. saveless_steps. Qed.
Hint Resolve saveless_mlsCall saveless_archivePut saveless_consume saveless_keep_state saveless_reject : saveless.
Lemma saveless_consumeMLSKey e : saveless (consumeMLSKey ToLower e).
Proof. unfold consumeMLSKey. saveless_steps. Qed.
Lemma saveless_advance s r : saveless (advance_group s r).
Proof. unfold advance_group. saveless_steps. Qed.
Hint Resolve saveless_consumeMLSKey saveless_advance : saveless.
Lemma saveless_apply_row x : saveless (apply_row ToLower x).
Proof. unfold apply_row, sync_roster, sync_opaque, sync_envelope. saveless_steps. Qed.

Lemma saveless_disk {A} (m : M A) w : saveless m ->
  w_disk (m w).2 = w_disk w /\ w_saves (m w).2 = w_saves w.
Proof.
  clear ToLower. intros Hm. specialize (Hm w (w_disk w) (w_saves w)).
  replace (set_disk (w_disk w) (w_saves w) w) with w in Hm by (by destruct w).
  rewrite Hm. done.
Qed.

(** ** Failures without partial effects *)
Definition quiet {A} (m : M A) : Prop := keeps eq m.
Definition failsafe {A} (m : M A) : Prop :=
  forall w, match m w with (Err _, w2) => w_state w2 = w_state w | _ => True end.
Definition nofail {A} (m : M A) : Prop := forall w, is_ok (m w).1 = true.

Lemma failsafe_quiet {A} (m : M A) : quiet m -> failsafe m.
Proof. clear ToLower. intros Hm w. specialize (Hm w). by destruct (m w) as [[] w2]. Qed.
Lemma failsafe_nofail {A} (m : M A) : nofail m -> failsafe m.
Proof. clear ToLower. intros Hm w. specialize (Hm w). by destruct (m w) as [[] w2]. Qed.
Lemma failsafe_bind {A B} (m : M A) (f : A -> M B) : quiet m -> (forall a, failsafe (f a)) -> failsafe (m ≫= f).
Proof.
  clear ToLower. intros Hm Hf w. specialize (Hm w). unfold mbind, M_bind. destruct (m w) as [[a|e] w1]; simpl in Hm; [|done].
  specialize (Hf a w1). destruct (f a w1) as [[b|e] w2]; [done|]. congruence.
Qed.
Lemma failsafe_then {A B} (m : M A) (f : A -> M B) : failsafe m -> (forall a, nofail (f a)) -> failsafe (m ≫= f).
Proof.
  clear ToLower. intros Hm Hf w. specialize (Hm w). unfold mbind, M_bind. destruct (m w) as [[a|e] w1]; [|done].
  specialize (Hf a w1). by destruct (f a w1) as [[b|e] w2].
Qed.
Lemma nofail_bind {A B} (m : M A) (f : A -> M B) : nofail m -> (forall a, nofail (f a)) -> nofail (m ≫= f).
Proof.
  clear ToLower. intros Hm Hf w. specialize (Hm w). unfold mbind, M_bind. destruct (m w) as [[a|e] w1]; [apply Hf|done].
Qed.
Lemma nofail_modify f : nofail (modify f).
Proof. done. Qed.
Lemma nofail_ret {A} (a : A) : nofail (mret a).
Proof. done. Qed.
Lemma nofail_keep_state p m : nofail (keep_state p m).
Proof. unfold keep_state. by destruct p. Qed.
End Saveless.

#[export] Hint Resolve nofail_modify nofail_ret nofail_keep_state saveless_apply_row : failsafe.

Ltac nofail_steps :=
  intros; repeat (cbv zeta; first
    [ solve [auto with failsafe]
    | match goal with |- nofail (mbind _ _) => apply nofail_bind; [|intros] end
    | match goal with |- nofail (match ?x with _ => _ end) => destruct x end ]).

Ltac failsafe_steps :=
  intros; repeat (cbv zeta; first
    [ solve [auto with failsafe]
    | solve [apply failsafe_nofail; nofail_steps]
    | solve [apply failsafe_quiet; unfold quiet; auto with keeps]
    | match goal with |- failsafe (mbind _ _) =>
        first [ apply failsafe_bind; [solve [unfold quiet; keep_steps]|intros]
              | apply failsafe_then; [|solve [nofail_steps]] ] end
    | match goal with |- failsafe (match ?x with _ => _ end) => destruct x end ]).

Section Failsafe.
Context `{!Primitives}.
Variable ToLower : string -> string.

Hint Resolve keeps_mlsCall keeps_historyKey advance_group_keeps : keeps.
Lemma quiet_mlsCall op d a m p : quiet (mlsCall op d a m p).
Proof. unfold quiet. auto with keeps. Qed.
Lemma quiet_history : quiet historyKey.
Proof. unfold quiet. auto with keeps. Qed.

Lemma failsafe_archivePut e x : failsafe (archivePut ToLower e x).
Proof. unfold archivePut. failsafe_steps. Qed.
Hint Resolve failsafe_archivePut : failsafe.

Lemma nofail_consume e : nofail (consume e).
Proof. unfold consume. nofail_steps. Qed.
Hint Resolve nofail_consume : failsafe.

Lemma failsafe_consumeMLSKey e : failsafe (consumeMLSKey ToLower e).
Proof. unfold consumeMLSKey. failsafe_steps. Qed.

Lemma failsafe_sync_roster r : failsafe (sync_roster r).
Proof. unfold sync_roster. failsafe_steps. Qed.
Hint Resolve failsafe_sync_roster failsafe_consumeMLSKey : failsafe.

Lemma quiet_attempt {A} (m : M A) : quiet m -> quiet (attempt m).
Proof. intros Hm. apply keeps_attempt; auto with keeps. Qed.

Lemma failsafe_sync_opaque c i : failsafe (sync_opaque c i).
Proof.
  unfold sync_opaque. failsafe_steps.
Qed.

Lemma failsafe_sync_envelope e n : failsafe (sync_envelope ToLower e n).
Proof.
  unfold sync_envelope. apply failsafe_bind; [unfold quiet; keep_steps|intros s].
  apply failsafe_bind; [unfold quiet; keep_steps|intros _]. destruct (bool_decide _); [|failsafe_steps].
  intros w. unfold mbind, M_bind, attempt. pose proof (failsafe_consumeMLSKey e w) as Hf.
  destruct (consumeMLSKey ToLower e w) as [[[]|err] w1]; [done|].
  case_bool_decide; [done|]. simpl. exact Hf.
Qed.
Hint Resolve failsafe_sync_opaque failsafe_sync_envelope : failsafe.

Lemma failsafe_apply_row x : failsafe (apply_row ToLower x).
Proof. unfold apply_row. failsafe_steps. Qed.

(** ** Rows of a journal *)
Fixpoint apply_rows (l : list row) : M unit :=
  match l with [] => mret tt | x :: l => apply_row ToLower x;; apply_rows l end.

Lemma apply_rows_app l k : forall w, apply_rows (l ++ k) w = (apply_rows l;; apply_rows k) w.
Proof.
  induction l as [|x l IH]; intros w; [done|]. simpl. unfold mbind, M_bind.
  destruct (apply_row ToLower x w) as [[[]|e] w1]; [|done]. rewrite IH. done.
Qed.

Lemma saveless_apply_rows l : saveless (apply_rows l).
Proof. induction l; simpl; [apply saveless_ret|]. apply saveless_bind; [apply saveless_apply_row|done]. Qed.

(** One row and its save: it is applied completely or not at all. *)
Lemma sync_row_cases x w r w2 : sync_row ToLower x w = (r, w2) ->
  (exists e, r = Err e /\ w_state w2 = w_state w /\ w_disk w2 = w_disk w) \/
  (exists w1 d sv, apply_row ToLower x w = (Ok tt, w1) /\ w2 = set_disk d sv w1 /\
     (r = Ok tt /\ d = w_state w1 \/ (exists e, r = Err e) /\ d = w_disk w)).
Proof.
  unfold sync_row, mbind, M_bind. intros Hs.
  pose proof (failsafe_apply_row x w) as Hf. pose proof (saveless_disk _ w (saveless_apply_row ToLower x)) as [Hd Hv].
  destruct (apply_row ToLower x w) as [[[]|e] w1] eqn:E; simpl in Hd, Hv.
  - right. unfold save_state in Hs. rewrite Hv in Hs.
    destruct (w_saves w) as [|[e|] sv]; simplify_eq; eexists w1, _, _; (split; [done|]); (split; [done|]);
      first [by left | right; split; [by eexists|done]].
  - left. simplify_eq. by exists e.
Qed.
End Failsafe.
