(* ===== verification/Groups.v ===== *)
(** * Sealing, opening and changing an encrypted group

    The rest of [cmd/tincan/encryption_mls.go] ([sealMLS], [openMLSPayload], [ensureMLS],
    [changeMLSRoster]), the room policy of [encryption_room_policy.go], and the rotation and
    history transfer of [encryption_history.go]. [ensureMLS] and [changeMLSRoster] call each
    other; the recursion is on the number of answers the server still gives. *)
From stdpp Require Import sorting.
From S2P Require Import Prelude GoStrings Json Types Crypto Roster Metadata History Encryption Mls.

Section Groups.
Context `{!Primitives}.
Variable ToLower : string -> string.

(** ** Payloads *)
Definition payload_limit (kind : string) : Z :=
  if bool_decide (kind = "file") then MaxFileBytes + 1024 else MaxPlaintextBytes.

(** The envelope before its capsule: bound to the roster, with the sealed payload. *)
Definition bind_envelope (r : Roster) (e : Envelope) : Envelope :=
  set_Binding (if bool_decide (env_Kind e = "") then "message" else env_Kind e) 2 (ro_Epoch r) (Roster_Hash r) e.

(** The payload under a fresh key, and the key. *)
Definition seal_payload (e : Envelope) (plain : string) : M (Envelope * string) :=
  key ← random;
  nonce ← random;
  c ← lift (SealLocal key nonce plain (MessageID e));
  mret (set_PayloadHash (PayloadHash c) (set_Sealed c (env_Signature e) e), key).

Definition private_group (private : bool) : M unit :=
  s ← gets id;
  if private && bool_decide (cs_PrivateMLS s = "") then
    out ← mlsCall "create" "" "" "" true; modify (put_PrivateMLS (rp_State out))
  else mret tt.

(** What the capsule carries: in a room of a legacy workspace the key, encrypted to the room. *)
Definition wrap_key (r : Roster) (e : Envelope) (key : string) : M (Envelope * string) :=
  s ← gets id;
  let room := ChannelRoom r (env_ChannelID e) in
  if bool_decide (room <> "") then
    require (RoomHas r room (cs_AgentID s)) "this device is not a member of the encrypted room";;
    if bool_decide (cs_RoomID s <> "") then mret (set_Room true room e, key)
    else
      x ← random;
      k ← lift (Encrypt x key (RoomDevices r room));
      mret (set_Room (env_RoomGroup e) room e, k)
  else mret (e, key).

Definition sealMLS (e : Envelope) (r : Roster) (plain : string) : M Envelope :=
  s ← gets id;
  require ((ro_Protocol r =? 2) && bool_decide (Roster_Hash r = Roster_Hash (cs_ActiveRoster s)))
    "synchronize MLS membership before sending";;
  let e := bind_envelope r e in
  require (len plain <=? payload_limit (env_Kind e)) "encrypted payload too large";;
  '(e, key) ← seal_payload e plain;
  let private := is_private (env_ChannelID e) in
  require (negb private || own_private (cs_AgentID s) (env_ChannelID e))
    "private history belongs to another runtime";;
  private_group private;;
  '(e, capsuleKey) ← wrap_key r e key;
  out ← mlsCall "encrypt" capsuleKey (MLSContext e) "" private;
  e ← lift (SignMLS (cs_Identity s) (set_Capsule (rp_Data out) e));
  archivePut ToLower e (mkArchiveEntry key (if bool_decide (env_Kind e = "message") then plain else ""));;
  consume e;;
  keep_state private (rp_State out);;
  mret e.

Definition openMLSPayload (e : Envelope) : M string :=
  s ← gets id;
  require (negb (bool_decide (is_Some (cs_Rejected s !! rejectedEnvelopeID e)))) ErrMLSApplicationRejected;;
  require (negb (bool_decide (env_Ciphertext e = "")) && bool_decide (PayloadHash (env_Ciphertext e) = env_PayloadHash e))
    "encrypted payload hash mismatch";;
  found ← archiveGet e;
  entry ← match found with
          | Some entry => mret entry
          | None =>
              syncMLS ToLower;;
              found ← archiveGet e;
              match found with
              | Some entry => mret entry
              | None => fail "message key unavailable; synchronize this device or restore its history archive"
              end
          end;
  plain ← lift (OpenLocal (ae_Key entry) (env_Ciphertext e) (MessageID e));
  (if bool_decide (env_Kind e = "message") && bool_decide (ae_Payload entry = "")
   then archivePut ToLower e (mkArchiveEntry (ae_Key entry) plain) else mret tt);;
  mret plain.

(** ** Room policy *)
(** [cloneRoomMembers]: a nil map becomes an empty one. *)
Definition cloneRoomMembers (m : option (gmap string (list string))) : gmap string (list string) := default ∅ m.
Definition sort_ids (l : list string) : list string := merge_sort String.le l.

Definition loadInitialRoomPolicy (r : Roster) : M Roster :=
  '(members, channels) ← ask GetRoomPolicy as_policy;
  let kept := (fun ids => sort_ids (filter (fun id => is_Some (Roster_Device r id)) ids)) <$> members in
  mret (if bool_decide (kept = ∅) then set_Rooms None None r else set_Rooms (Some kept) channels r).

(** ** Membership changes *)
(** The devices of [next] that were not in [old]. *)
Definition added (old next : Roster) : list Device :=
  filter (fun d => Roster_Device old (dev_AgentID d) = None) (ro_Members next).

(** The MLS operation of a change: its name, key package and member key. *)
Definition change_step (old next : Roster) (requestID revoke : string) : result (string * string * string) :=
  if bool_decide (requestID <> "") then
    match last (added old next) with
    | Some d => Ok ("add", dev_KeyPackage d, dev_SigningKey d)
    | None => Ok ("add", "", "")
    end
  else if bool_decide (revoke <> "") then
    match Roster_Device old revoke with
    | Some d => Ok ("remove", "", dev_SigningKey d)
    | None => Err "device missing"
    end
  else Ok ("update", "", "").

Definition note_committed (old next : Roster) (requestID : string) (s : cryptoState) : cryptoState :=
  if bool_decide (requestID <> "")
  then put_CommittedAdmissions (cs_CommittedAdmissions s ∪ list_to_set (Fingerprint <$> added old next)) s
  else s.

(** [changeMLSRoster], with the [ensureMLS] it ends in. *)
Definition change_with (ensure : Z -> M unit) (old next : Roster) (requestID revoke : string) : M unit :=
  '(op, data, member) ← lift (change_step old next requestID revoke);
  s ← gets id;
  out ← mlsCall op data "" member false;
  next ← lift (Roster_Sign (set_Commit (rp_Data out) (rp_Welcome out) next) (cs_Identity s));
  modify (fun s => put_PendingRoster (Some (mkPendingRoster next requestID)) (put_MLS (rp_State out) s));;
  modify (note_committed old next requestID);;
  save_state;;
  r ← attempt (ensure (ro_Epoch old));
  match r with
  | Ok _ => mret tt
  | Err e => fail ("membership update pending: " +:+ e)
  end.

(** The next epoch of a roster. *)
Definition succeed (r : Roster) (next : Roster) : Roster :=
  set_Link (int_incr (ro_Epoch next)) (Roster_Hash r) next.

(** The first roster, made by the creator. *)
Definition create_group : M unit :=
  s ← gets id;
  require (bool_decide (public_half (id_SigningKey (cs_Identity s)) = cs_Root s)) "creator has not initialized MLS";;
  out ← mlsCall "create" "" "" "" false;
  modify (put_MLS (rp_State out));;
  d ← lift (device_of s (cs_AgentID s));
  let plain := if bool_decide (cs_RoomID s <> "") then [] else cs_InitialPlainChannels s in
  let r := mkRoster (cs_RoomID s) None None plain 0 (cs_WorkspaceID s) 1 "" [d] "" 2 "" "" in
  r ← (if bool_decide (cs_RoomID s = "") then loadInitialRoomPolicy r else mret r);
  r ← lift (Roster_Sign r (cs_Identity s));
  modify (put_PendingRoster (Some (mkPendingRoster r "")));;
  save_state.

(** Publishing a staged roster; a definitive rejection of a change discards it. *)
Definition publish : M unit :=
  s ← gets id;
  match cs_PendingRoster s with
  | None => mret tt
  | Some p =>
      r ← attempt (call (PostRoster p));
      match r with
      | Ok _ => mret tt
      | Err e =>
          (if (1 <? ro_Epoch (pr_Roster p)) && existsb (has_code e) definitive_codes then
             out ← mlsCall "discard" "" "" "" false;
             modify (fun s => put_PendingRoster None (put_MLS (rp_State out) s));;
             save_state
           else mret tt);;
          fail e
      end
  end.

Definition day : Z := 24 * 3600 * 10 ^ 9.
Definition update_due (now : Z) (s : cryptoState) : bool :=
  (100 <=? cs_MessagesSinceUpdate s)
  || (negb (cs_LastMLSUpdate s =? 0) && (day <=? now - cs_LastMLSUpdate s)).

Fixpoint ensure_fuel (fuel : nat) (remoteEpoch : Z) : M unit :=
  match fuel with
  | O => fail errFuel
  | S n =>
      historyKey;;
      s ← gets id;
      require (cs_Epoch s <=? remoteEpoch) errRollback;;
      (if bool_decide (cs_PendingRoster s = None) && (remoteEpoch =? 0) then create_group else mret tt);;
      publish;;
      syncMLS ToLower;;
      r ← cryptoRoster 0;
      s ← gets id;
      require ((cs_MLSEpoch s =? ro_Epoch r) && bool_decide (Roster_Hash (cs_ActiveRoster s) = Roster_Hash r))
        "encryption synchronization incomplete; retry before sending";;
      let local := local_device s in
      require (match Roster_Device r (cs_AgentID s) with
               | Some own => bool_decide (Fingerprint own = Fingerprint local)
               | None => false
               end) "this device is not in verified MLS membership";;
      t ← now;
      if bool_decide (dev_SigningKey local = cs_Root s) && update_due t s
      then change_with (ensure_fuel n) r (succeed r r) "" ""
      else mret tt
  end.

Definition ensureMLS (remoteEpoch : Z) : M unit := fun w => ensure_fuel (S (length (w_net w))) remoteEpoch w.
Definition changeMLSRoster (old next : Roster) (requestID revoke : string) : M unit :=
  change_with ensureMLS old next requestID revoke.

Definition registerEncryptedRoom (rid : string) : M unit :=
  s ← gets id;
  let old := cs_ActiveRoster s in
  if RoomHas old rid (cs_AgentID s) then mret tt else
  let members := cloneRoomMembers (ro_RoomMembers old) in
  next ← (if bool_decide (ro_RoomMembers old = None)
          then loadInitialRoomPolicy (set_Rooms (Some members) (ro_RoomChannels old) old)
          else mret (set_Rooms (Some (<[rid := [cs_AgentID s]]> members)) (ro_RoomChannels old) old));
  changeMLSRoster old (succeed old next) "" "".

(** [ensureCrypto] for MLS groups, from the saved identity on ([encryption.go]). *)
Definition resume_join : M unit :=
  s ← gets id;
  if bool_decide (cs_RoomJoinReceipt s <> "") then
    '(status, room) ← ask (PostJoinStatus (cs_RoomJoinReceipt s)) as_join;
    require (bool_decide (status = "joined"))
      ("room admission is " +:+ status +:+ "; resume after the creator admits this device");;
    require (bool_decide (room = cs_RoomID s)) "room admission scope changed";;
    modify (put_RoomJoinReceipt "")
  else mret tt.

(** The first encrypted room whose pinned root is ours. *)
Fixpoint find_room (l : list roomInfo) : M unit :=
  match l with
  | [] => mret tt
  | x :: l =>
      if negb (HasPrefix (rm_ID x) "rm_mls_") then find_room l else
      a ← attempt (call (GetStatus (rm_ID x)));
      s ← gets id;
      match a with
      | Ok (AnsStatus _ root _) =>
          if bool_decide (root = cs_Root s) then modify (put_RoomID (rm_ID x));; save_state
          else find_room l
      | _ => find_room l
      end
  end.

Definition ensureCrypto : M unit :=
  resume_join;;
  '(agent, workspace, admin) ← ask GetMe as_me;
  s ← gets id;
  require (bool_decide (cs_WorkspaceID s = "")
           || (bool_decide (cs_WorkspaceID s = workspace) && bool_decide (cs_AgentID s = agent)))
    "encryption identity does not match this connection";;
  modify (put_Identified workspace agent);;
  s ← gets id;
  (if bool_decide (cs_RoomID s = "") && (cs_Epoch s =? 0) && bool_decide (cs_PendingRoster s = None)
   then rooms ← ask GetRooms as_rooms; find_room rooms else mret tt);;
  s ← gets id;
  '(epoch, root, protocol) ← ask (GetStatus (cs_RoomID s)) as_status;
  s ← gets id;
  require (bool_decide (root = cs_Root s)) "workspace encryption identity changed";;
  require (protocol =? cs_Protocol s) "workspace encryption protocol changed; no downgrade is allowed";;
  if cs_Protocol s =? 2 then
    ensureMLS epoch;;
    s ← gets id;
    if bool_decide (cs_PendingRoom s <> "") && bool_decide (cs_RoomID s = "")
    then registerEncryptedRoom (cs_PendingRoom s);; modify (put_PendingRoom "") else mret tt
  else
    (if epoch =? 0 then
       d ← lift (identity_device (cs_Identity s) (cs_AgentID s));
       require (admin && bool_decide (dev_SigningKey d = cs_Root s))
         "creator has not initialized encrypted membership";;
       r ← lift (Roster_Sign (mkRoster "" None None [] 0 (cs_WorkspaceID s) 1 "" [d] "" 0 "" "") (cs_Identity s));
       _ ← call (PostAgeRoster r None); mret tt
     else mret tt);;
    r ← cryptoRoster 0;
    s ← gets id;
    let local := match identity_device (cs_Identity s) (cs_AgentID s) with
                 | Ok d => d | Err _ => mkDevice "" "" "" 0 "" end in
    require (match Roster_Device r (cs_AgentID s) with
             | Some d => bool_decide (Fingerprint d = Fingerprint local)
             | None => false
             end) "this device is not in the trusted encryption membership".

(** [rotateMLS]. *)
Definition rotateMLS : M unit :=
  ensureCrypto;;
  s ← gets id;
  require ((cs_Protocol s =? 2) && bool_decide (public_half (id_SigningKey (cs_Identity s)) = cs_Root s))
    "use the MLS workspace creator to rotate the group";;
  let old := cs_ActiveRoster s in
  changeMLSRoster old (succeed old old) "" "".

(** ** [withCrypto]: under the file lock, on the state on disk, saved whatever happens *)
Definition withCrypto {A} (fn : M A) (server : string) : M A := fun w =>
  let st := w_disk w in
  let w := mkWorld st (w_disk w) (w_history w) (w_saves w) (w_net w) (w_random w) (w_now w) (w_log w) (w_files w) (w_groups w) in
  match identity_device (cs_Identity st) (cs_AgentID st) with
  | Err e => (Err e, w)
  | Ok _ =>
      if bool_decide (cs_Server st <> server) then (Err "encryption identity belongs to another server", w) else
      let '(v, w) := fn w in
      let '(saved, w) := save_state w in
      (match v, saved with Ok a, Ok _ => Ok a | Ok _, Err e => Err e | Err e, _ => Err e end, w)
  end.
End Groups.
