(* ===== verification/MlsTheorems.v ===== *)
(** * The group journal: properties

    Synchronization applies whole rows and stops between them; devices that agree on the current
    roster agree on its whole history; the recorded membership never goes back. *)
From S2P Require Import Prelude GoStrings Json Types Crypto Toy Roster RosterTheorems Metadata History.
From S2P Require Import Encryption Mls MlsFacts Groups.

Section Journal.
Context `{!Primitives}.
Variable ToLower : string -> string.

(** ** Whole rows *)
Lemma sync_rows_prefix l : forall w r w2,
  sync_rows ToLower l w = (r, w2) -> w_disk w = w_state w ->
  exists k w1, (k <= length l)%nat /\ apply_rows ToLower (take k l) w = (Ok tt, w1) /\
    w_state w2 = w_state w1 /\ (r = Ok tt -> k = length l) /\
    (w_disk w2 = w_state w2 \/
     exists k0 w0, k = S k0 /\ apply_rows ToLower (take k0 l) w = (Ok tt, w0) /\ w_disk w2 = w_state w0).
Proof.
  induction l as [|x l IH]; intros w r w2 Hs Hd; simpl in Hs.
  { injection Hs as <- <-. exists 0%nat, w. by split_and!; [..|left]. }
  unfold mbind, M_bind in Hs. destruct (sync_row ToLower x w) as [r1 w1] eqn:Ex.
  destruct (sync_row_cases ToLower x w r1 w1 Ex) as
    [(e & -> & Hst & Hdk)|(v & d & sv & Ha & -> & [[-> ->]|[[e ->] ->]])].
  - simplify_eq. exists 0%nat, w. split_and!; [simpl; lia|done|done|done|]. left. congruence.
  - destruct (IH _ _ _ Hs eq_refl) as (k & v1 & Hk & Hr & Hst & Hok & Hdisk).
    assert (forall j z, apply_rows ToLower (take j l) (set_disk (w_state v) sv v) = (Ok tt, z) ->
      exists z0, apply_rows ToLower (take (S j) (x :: l)) w = (Ok tt, z0) /\ z = set_disk (w_state v) sv z0) as Hstep.
    { intros j z Hz. rewrite saveless_apply_rows in Hz. simpl. unfold mbind, M_bind. rewrite Ha.
      destruct (apply_rows ToLower (take j l) v) as [r0 z0]. simplify_eq/=. by exists z0. }
    destruct (Hstep _ _ Hr) as (z0 & Hz0 & ->).
    exists (S k), z0. split_and!; [simpl; lia|done|done|intros Hr'; simpl; f_equal; by apply Hok|].
    destruct Hdisk as [Hdisk|(k0 & w0 & -> & Hr0 & Hdisk)]; [by left|].
    destruct (Hstep _ _ Hr0) as (z1 & Hz1 & ->). right. by exists (S k0), z1.
  - simplify_eq. exists 1%nat, v. split_and!; [simpl; lia| |done|done|].
    + simpl. unfold mbind, M_bind. by rewrite Ha.
    + right. exists 0%nat, w. by split_and!.
Qed.

(** A journal page is applied row by row. Whatever the server sends and whichever saves fail,
    processing a page leaves in memory the state after some number of complete rows, all of
    them on success, and on disk that state or the one a row earlier: a row that fails (a bad
    signature, a refused capsule, a missing key) leaves no partial effect, so the state that
    [withCrypto] saves afterwards resumes exactly at the next row. *)
Theorem journal_rows_complete (l : list row) (w w2 : world) (r : result unit) :
  sync_rows ToLower l w = (r, w2) -> w_disk w = w_state w ->
  exists k w1, (k <= length l)%nat /\ apply_rows ToLower (take k l) w = (Ok tt, w1) /\
    w_state w2 = w_state w1 /\ (r = Ok tt -> k = length l) /\
    (w_disk w2 = w_state w2 \/
     exists k0 w0, k = S k0 /\ apply_rows ToLower (take k0 l) w = (Ok tt, w0) /\ w_disk w2 = w_state w0).
Proof. apply sync_rows_prefix. Qed.

Lemma sync_rows_apply l w w2 : sync_rows ToLower l w = (Ok tt, w2) -> w_disk w = w_state w ->
  exists w1, apply_rows ToLower l w = (Ok tt, w1) /\ w_state w2 = w_state w1.
Proof.
  intros Hs Hd. destruct (sync_rows_prefix l w _ w2 Hs Hd) as (k & w1 & _ & Ha & Hst & Hk & _).
  exists w1. by rewrite Hk, firstn_all in Ha.
Qed.

(** ** One history *)
(** The rosters of a journal, each the successor of the one before. *)
Inductive chain (root workspace room : string) : Roster -> list Roster -> Roster -> Prop :=
| chain_nil r : chain root workspace room r [] r
| chain_cons r s l t :
    roster_step root workspace room r s -> chain root workspace room s l t ->
    chain root workspace room r (s :: l) t.

Definition journal_rosters (l : list row) : list Roster := omap roster_of l.

Lemma apply_rows_chain l : forall w w2, apply_rows ToLower l w = (Ok tt, w2) ->
  chain (cs_Root (w_state w)) (cs_WorkspaceID (w_state w)) (cs_RoomID (w_state w))
    (cs_ActiveRoster (w_state w)) (journal_rosters l) (cs_ActiveRoster (w_state w2)) /\
  same_by group_of (w_state w) (w_state w2).
Proof.
  induction l as [|x l IH]; intros w w2 Hs; simpl in Hs.
  { injection Hs as <-. split; [constructor|done]. }
  apply m_bind_ok in Hs as ([] & w1 & Hx & Hs). apply IH in Hs as [Hc Hg].
  pose proof (keeps_run _ _ _ _ _ (apply_row_group ToLower x) Hx) as Hg1.
  split; [|by etransitivity].
  pose proof Hg1 as Hg2. unfold same_by, group_of in Hg2. injection Hg2 as E1 E2 E3 _ _ _ _ _ _ _.
  rewrite <- E1, <- E2, <- E3 in Hc. apply apply_row_roster in Hx as (_ & _ & Hx).
  unfold journal_rosters in *. simpl. destruct (roster_of x) as [r|].
  - destruct Hx as [Hst Hr]. rewrite Hr in Hc. by econstructor.
  - by rewrite Hx in Hc.
Qed.

Lemma step_epoch root ws room r s : roster_step root ws room r s -> 0 <= ro_Epoch r < 2 ^ 63 ->
  ro_Epoch s = ro_Epoch r + 1 /\ 1 <= ro_Epoch s < 2 ^ 63.
Proof.
  intros [_ Hv He _] Hr. apply Roster_Verify_iff in Hv. pose proof (vr_epoch _ _ _ Hv) as H1.
  assert (ro_Epoch r <> 2 ^ 63 - 1) as Hn.
  { intros Hr'. rewrite He, Hr' in H1. vm_compute in H1. done. }
  rewrite int_incr_small in He by lia. lia.
Qed.

Lemma chain_snoc root ws room l : forall r s t, chain root ws room r (l ++ [s]) t ->
  t = s /\ exists m, chain root ws room r l m /\ roster_step root ws room m s.
Proof.
  induction l as [|x l IH]; intros r s t Hc; simpl in Hc; inversion Hc as [|? ? ? ? Hst Hc']; subst.
  - inversion Hc'; subst. split; [done|]. eexists. split; [constructor|done].
  - apply IH in Hc' as (-> & m & Hm & Hs). split; [done|]. exists m. split; [by econstructor|done].
Qed.

Lemma chain_epoch root ws room r l t : chain root ws room r l t -> ro_Epoch r = 0 ->
  0 <= ro_Epoch t < 2 ^ 63 /\ (l <> [] -> 1 <= ro_Epoch t).
Proof.
  revert t. induction l as [|s l IH] using rev_ind; intros t Hc Hr.
  - inversion Hc; subst. rewrite Hr. split; [lia|done].
  - apply chain_snoc in Hc as (-> & m & Hm & Hs). apply IH in Hm as [Hm _]; [|done].
    apply step_epoch in Hs; [|done]. lia.
Qed.

Section NoFork.
Hypothesis sha256_collisions : forall a b, sha256_hex a = sha256_hex b -> a = b.
Hypothesis text_injective : forall v w, json_text v = json_text w -> v = w.

Lemma Roster_Hash_inj r s : Roster_Hash r = Roster_Hash s -> same_roster r s.
Proof using All. intros Hh. apply roster_json_inj. by apply text_injective, sha256_collisions. Qed.

Lemma chains_agree root ws room r l t : chain root ws room r l t -> ro_Epoch r = 0 ->
  forall l' r' t', chain root ws room r' l' t' -> ro_Epoch r' = 0 ->
  Roster_Hash t = Roster_Hash t' -> Forall2 same_roster l l'.
Proof using All.
  revert t. induction l as [|s l IH] using rev_ind; intros t Hc Hr l' r' t' Hc' Hr' Hh.
  - inversion Hc; subst. destruct l' as [|x l'] using rev_ind; [constructor|]. exfalso.
    apply chain_epoch in Hc' as [_ He]; [|done].
    pose proof (f_equal ro_Epoch (proj2 (proj2 (Roster_Hash_inj _ _ Hh)))) as Ht. simpl in Ht.
    assert (l' ++ [x] <> []) as Hne by (by destruct l'). specialize (He Hne). lia.
  - pose proof (chain_epoch _ _ _ _ _ _ Hc Hr) as [_ He].
    assert (l ++ [s] <> []) as Hne by (by destruct l). specialize (He Hne). clear Hne.
    apply chain_snoc in Hc as (-> & m & Hm & Hs). pose proof (Roster_Hash_inj _ _ Hh) as Hsame.
    pose proof (f_equal ro_Epoch (proj2 (proj2 Hsame))) as Ht. simpl in Ht.
    destruct l' as [|s' l' _] using rev_ind; [inversion Hc'; subst; lia|].
    apply chain_snoc in Hc' as (-> & m' & Hm' & Hs').
    pose proof (chain_epoch _ _ _ _ _ _ Hm Hr) as [Hr1 Hr2]. pose proof (chain_epoch _ _ _ _ _ _ Hm' Hr') as [Hr1' Hr2'].
    pose proof (step_epoch _ _ _ _ _ Hs Hr1) as [E1 _]. pose proof (step_epoch _ _ _ _ _ Hs' Hr1') as [E2 _].
    apply Forall2_app; [|by constructor].
    destruct (decide (1 < ro_Epoch s)) as [Hlt|Hle].
    + eapply IH; [done|done|done|done|].
      rewrite <- (rs_previous _ _ _ _ _ Hs Hlt), <- (rs_previous _ _ _ _ _ Hs' ltac:(lia)).
      pose proof (f_equal ro_Previous (proj2 (proj2 Hsame))) as Hp. done.
    + assert (l = []) as -> by (destruct l; [done|]; exfalso; specialize (Hr2 ltac:(done)); lia).
      assert (l' = []) as -> by (destruct l'; [done|]; exfalso; specialize (Hr2' ltac:(done)); lia).
      constructor.
Qed.

(** C13. The relay cannot fork a group's history. Two devices that pin the same owner, workspace
    and room, start without a roster and process any journals a relay sends them, and that end
    at rosters with the same hash, have processed the same rosters from the first epoch on (up
    to nil against empty room maps, which the signed text does not tell apart). *)
Theorem journals_agree (l1 l2 : list row) (w1 w2 v1 v2 : world) :
  cs_Root (w_state w1) = cs_Root (w_state w2) ->
  cs_WorkspaceID (w_state w1) = cs_WorkspaceID (w_state w2) ->
  cs_RoomID (w_state w1) = cs_RoomID (w_state w2) ->
  cs_ActiveRoster (w_state w1) = zero_roster -> cs_ActiveRoster (w_state w2) = zero_roster ->
  w_disk w1 = w_state w1 -> w_disk w2 = w_state w2 ->
  sync_rows ToLower l1 w1 = (Ok tt, v1) -> sync_rows ToLower l2 w2 = (Ok tt, v2) ->
  Roster_Hash (cs_ActiveRoster (w_state v1)) = Roster_Hash (cs_ActiveRoster (w_state v2)) ->
  Forall2 same_roster (journal_rosters l1) (journal_rosters l2).
Proof using All.
  intros Hr Hw Hm H1 H2 Hd1 Hd2 Hs1 Hs2 Hh.
  apply sync_rows_apply in Hs1 as (u1 & Hs1 & E1); [|done]. apply sync_rows_apply in Hs2 as (u2 & Hs2 & E2); [|done].
  rewrite E1, E2 in Hh. apply apply_rows_chain in Hs1 as [Hc1 _]. apply apply_rows_chain in Hs2 as [Hc2 _].
  rewrite H1 in Hc1. rewrite H2, <- Hr, <- Hw, <- Hm in Hc2. by eapply chains_agree.
Qed.
End NoFork.
End Journal.

(** ** The theorems at concrete inputs: two devices that are not members yet follow the journal *)
Definition demo_state (agent : string) : cryptoState :=
  mkCrypto "" "rm_mls_1" "" [] ∅ ∅ false ∅ None (mkIdentity ("age-" +:+ agent) (demo_key +:+ demo_key)) demo_key
    "https://tincan.example" "ws" agent 0 "" 2 (demo_key +:+ demo_key) "" "" 0 0 zero_roster None ∅ ∅ ∅ ∅ ∅ 0 0.
Definition demo_world (agent : string) (saves : list (option string)) (net : list (result answer)) : world :=
  mkWorld (demo_state agent) (demo_state agent) (Ok demo_key) saves net [] 0 [] no_files ∅.

Definition signed_by_owner (r : Roster) : Roster :=
  match Roster_Sign r demo_identity with Ok r => r | Err _ => r end.
Definition demo_roster1 : Roster :=
  signed_by_owner (mkRoster "rm_mls_1" None None [] 0 "ws" 1 "" [demo_device "a" demo_key] "" 2 "" "").
Definition demo_roster2 : Roster :=
  signed_by_owner (mkRoster "rm_mls_1" None None [] 0 "ws" 2 (Roster_Hash demo_roster1)
                     [demo_device "a" demo_key] "" 2 "commit" "").
Definition demo_journal : list row :=
  [mkRow 1 "roster" (PayloadRoster demo_roster1); mkRow 2 "roster" (PayloadRoster demo_roster2)].

Definition demo_synced (agent : string) : world := (sync_rows ascii_lower demo_journal (demo_world agent [] [])).2.

Lemma demo_sync_ok agent : agent = "b" \/ agent = "c" ->
  sync_rows ascii_lower demo_journal (demo_world agent [] []) = (Ok tt, demo_synced agent).
Proof.
  intros Ha. unfold demo_synced.
  assert (is_ok (sync_rows ascii_lower demo_journal (demo_world agent [] [])).1 = true) as Hok.
  { by destruct Ha as [-> | ->]; vm_compute. }
  revert Hok. destruct (sync_rows ascii_lower demo_journal (demo_world agent [] [])) as [[[]|e] w]; [done|].
  intros Hok. discriminate Hok.
Qed.

(** A journal whose second save fails, and whose third row is corrupt. *)
Lemma journal_rows_complete_witness :
  let l := demo_journal ++ [mkRow 3 "roster" PayloadOther] in
  let w := demo_world "b" [None; Some "disk full"] [] in
  exists k w1, (k <= length l)%nat /\ apply_rows ascii_lower (take k l) w = (Ok tt, w1).
Proof.
  intros l w.
  destruct (journal_rows_complete ascii_lower l w (sync_rows ascii_lower l w).2 (sync_rows ascii_lower l w).1
    ltac:(apply surjective_pairing) eq_refl) as (k & w1 & Hk & Ha & _).
  exists k, w1. split; [exact Hk|exact Ha].
Defined.

Lemma demo_same_end :
  Roster_Hash (cs_ActiveRoster (w_state (demo_synced "b"))) =
  Roster_Hash (cs_ActiveRoster (w_state (demo_synced "c"))).
Proof. apply (bool_decide_eq_true_1 _). vm_compute. reflexivity. Qed.

Lemma journals_agree_witness : Forall2 same_roster (journal_rosters demo_journal) (journal_rosters demo_journal).
Proof.
  exact (@journals_agree demo_primitives ascii_lower (fun a b (Hab : a = b) => Hab) (inj json_string) demo_journal demo_journal
    (demo_world "b" [] []) (demo_world "c" [] []) (demo_synced "b") (demo_synced "c")
    eq_refl eq_refl eq_refl eq_refl eq_refl eq_refl eq_refl
    (demo_sync_ok "b" (or_introl eq_refl)) (demo_sync_ok "c" (or_intror eq_refl))
    demo_same_end).
Defined.
