(* ===== verification/Messages.v ===== *)
(** * Encrypted messages, files and history

    The message half of [cmd/tincan/encryption.go] and [plainCryptoChannel]
    ([room_encryption.go]): sending under an idempotency key, authenticating and opening what
    was received, attachments, searching the history, and the replay guard of the event
    listener. [http.DetectContentType], [strings.ToLower] and the re-encoding of a JSON number
    decoded as a float64 are parameters. *)
From S2P Require Import Prelude GoStrings Json Types Crypto Roster Metadata History Encryption.
From S2P Require Import Mls Groups.

Definition errBeforeJoin : string := "message predates this device's membership".
Definition errRouting : string := "encrypted message routing was modified".
Definition errPlaintext : string := "plaintext message rejected in encrypted room".
Definition errKeyReused : string := "idempotency key already used for different content".
Definition epoch_conflict : string := "encryption_epoch_conflict".

(** ** Assignments *)
(** [in.Metadata, in.IdempotencyKey = v, key]. *)
Definition set_Prepared (v : json) (key : string) (m : SendInput) : SendInput :=
  mkSendInput (si_Encrypted m) (si_ChannelID m) (si_Text m) (si_SharingPurpose m) (si_SharingContext m)
    v (si_AttachmentIDs m) (si_Mentions m) (si_ReplyTo m) key.
(** [wire := in; wire.Text = ""; wire.Metadata = {}; wire.Encrypted = e]. *)
Definition wire_of (m : SendInput) (e : Envelope) : SendInput :=
  mkSendInput (Some e) (si_ChannelID m) "" (si_SharingPurpose m) (si_SharingContext m)
    (JObj []) (si_AttachmentIDs m) (si_Mentions m) (si_ReplyTo m) (si_IdempotencyKey m).

(** [m.AgentName = n; m.EncryptionError = ""]. *)
Definition set_Authentic (n : string) (m : Message) : Message :=
  mkMessage "" (msg_Encrypted m) (msg_Context m) (msg_ReplyPreview m)
    (msg_Seq m) (msg_ID m) (msg_ChannelID m) (msg_AgentID m) n (msg_Text m) (msg_Metadata m)
    (msg_Attachments m) (msg_Mentions m) (msg_ReplyTo m) (msg_CreatedAt m).
(** The content fields, without a reply preview. *)
Definition set_Content (err text : string) (metadata : json) (l : list Attachment) (m : Message) : Message :=
  mkMessage err (msg_Encrypted m) (msg_Context m) None
    (msg_Seq m) (msg_ID m) (msg_ChannelID m) (msg_AgentID m) (msg_AgentName m) text metadata
    l (msg_Mentions m) (msg_ReplyTo m) (msg_CreatedAt m).
Definition rejected_text : string := "[Encrypted message rejected]".

(** ** JSON *)
Definition option_json {A} (f : A -> json) (o : option A) : option json := f <$> o.
Definition send_fields (m : SendInput) : list (string * option json) :=
  [("encrypted", option_json envelope_json (si_Encrypted m)); ("channel_id", Some (JStr (si_ChannelID m)));
   ("text", Some (JStr (si_Text m))); ("sharing_purpose", omit_string (si_SharingPurpose m));
   ("sharing_context", omit_string (si_SharingContext m)); ("metadata", Some (si_Metadata m));
   ("attachment_ids", omit_list (si_AttachmentIDs m)); ("mentions", omit_list (si_Mentions m));
   ("reply_to", option_json JStr (si_ReplyTo m)); ("idempotency_key", Some (JStr (si_IdempotencyKey m)))].
Definition send_json (m : SendInput) : json := object (send_fields m).

Definition sameStringList (a b : list string) : bool := bool_decide (a = b).

(** [json.Unmarshal] of an envelope. *)
Definition zero_envelope : Envelope := mkEnvelope false "" "" 0 "" "" "" "" [] None [] 0 "" "" "" "" "".
Definition decode_bool (v : json) (old : bool) : option bool :=
  match v with JBool b => Some b | JNull => Some old | _ => None end.
Definition decode_list (v : json) : option (list string) :=
  match v with JArr l => decode_strings l | JNull => Some [] | _ => None end.
Definition envelope_decoders : list (string * (json -> Envelope -> option Envelope)) :=
  [("room_group", fun v e => b ← decode_bool v (env_RoomGroup e); Some (set_Room b (env_RoomID e) e));
   ("room_id", fun v e => s ← decode_string v (env_RoomID e); Some (set_Room (env_RoomGroup e) s e));
   ("kind", fun v e => s ← decode_string v (env_Kind e);
      Some (set_Binding s (env_Version e) (env_Epoch e) (env_RosterHash e) e));
   ("version", fun v e => z ← decode_int v (env_Version e);
      Some (set_Binding (env_Kind e) z (env_Epoch e) (env_RosterHash e) e));
   ("workspace_id", fun v e => s ← decode_string v (env_WorkspaceID e);
      Some (set_Route s (env_ChannelID e) (env_SenderID e) (env_Key e) e));
   ("channel_id", fun v e => s ← decode_string v (env_ChannelID e);
      Some (set_Route (env_WorkspaceID e) s (env_SenderID e) (env_Key e) e));
   ("sender_id", fun v e => s ← decode_string v (env_SenderID e);
      Some (set_Route (env_WorkspaceID e) (env_ChannelID e) s (env_Key e) e));
   ("key", fun v e => s ← decode_string v (env_Key e);
      Some (set_Route (env_WorkspaceID e) (env_ChannelID e) (env_SenderID e) s e));
   ("mentions", fun v e => l ← decode_list v; Some (set_Refs l (env_ReplyTo e) (env_AttachmentIDs e) e));
   ("reply_to", fun v e => o ← decode_pointer "" decode_string v (env_ReplyTo e);
      Some (set_Refs (env_Mentions e) o (env_AttachmentIDs e) e));
   ("attachment_ids", fun v e => l ← decode_list v; Some (set_Refs (env_Mentions e) (env_ReplyTo e) l e));
   ("epoch", fun v e => z ← decode_int v (env_Epoch e);
      Some (set_Binding (env_Kind e) (env_Version e) z (env_RosterHash e) e));
   ("roster_hash", fun v e => s ← decode_string v (env_RosterHash e);
      Some (set_Binding (env_Kind e) (env_Version e) (env_Epoch e) s e));
   ("ciphertext", fun v e => s ← decode_bytes v (env_Ciphertext e); Some (set_Sealed s (env_Signature e) e));
   ("signature", fun v e => s ← decode_bytes v (env_Signature e); Some (set_Sealed (env_Ciphertext e) s e));
   ("capsule", fun v e => s ← decode_bytes v (env_Capsule e); Some (set_Capsule s e));
   ("payload_hash", fun v e => s ← decode_string v (env_PayloadHash e); Some (set_PayloadHash s e))].
Definition decode_envelope (v : json) : option Envelope := decode_object envelope_decoders v zero_envelope.

(** ** Filters over metadata ([jsonContains], [equalJSON]) on values as [any] *)
Section Any.
Context `{!Primitives}.
Fixpoint jsonContains (value filter : json) : bool :=
  match filter with
  | JObj f =>
      match value with
      | JObj v => forallb (fun kx => match jfield kx.1 v with
                                     | Some got => jsonContains got kx.2
                                     | None => false
                                     end) f
      | _ => false
      end
  | _ => bool_decide (json_text value = json_text filter)
  end.
End Any.

(** ** Files *)
(** [bytes.Cut] at a newline. *)
Fixpoint cut_line (l : list ascii) : option (list ascii * list ascii) :=
  match l with
  | [] => None
  | a :: r => if Ascii.eqb a (ascii_of_nat 10) then Some ([], r)
              else '(x, y) ← cut_line r; Some (a :: x, y)
  end.
Definition newline : string := of_bytes [ascii_of_nat 10].
Definition path_chars : string := of_bytes ["/"; "\"; ascii_of_nat 0]%char.

Record encryptedFileHeader := mkFileHeader { fh_Name : string; fh_MIME : string }.
Definition header_json (h : encryptedFileHeader) : json :=
  object [("name", Some (JStr (fh_Name h))); ("mime", Some (JStr (fh_MIME h)))].
Definition decode_header (v : json) : option encryptedFileHeader :=
  decode_object
    [("name", fun v h => s ← decode_string v (fh_Name h); Some (mkFileHeader s (fh_MIME h)));
     ("mime", fun v h => s ← decode_string v (fh_MIME h); Some (mkFileHeader (fh_Name h) s))]
    v (mkFileHeader "" "").

(** [io.ReadAll(io.LimitReader(body, n))]. *)
Definition read_limited (n : Z) (data : string) : string :=
  if n <? len data then take_str (Z.to_nat n) data else data.

Definition plainCryptoChannel (s : cryptoState) (channel : string) : bool :=
  HasPrefix channel "ch_plain_"
  || bool_decide (channel ∈ ro_PlainChannels (cs_ActiveRoster s) ++ cs_InitialPlainChannels s).


Section Messages.
Context `{!Primitives}.
Variables (ToLower DetectContentType number : string -> string).

(** ["blob_" + strings.TrimPrefix(e.MessageID(), "msg_")]. *)
Definition blob_id (e : Envelope) : string := "blob_" +:+ TrimPrefix (MessageID e) "msg_".

(** ** Recipients *)
Definition cryptoRecipients (r : Roster) (channel : string) : M (list Device) :=
  s ← gets id;
  channels ← ask GetChannels as_channels;
  match List.find (fun ch => bool_decide (ch_ID ch = channel)) channels with
  | None => fail "channel is unavailable"
  | Some ch =>
      if ch_Private ch then
        match Roster_Device r (cs_AgentID s) with
        | None => fail "device no longer authorized"
        | Some d => mret [d]
        end
      else mret (ro_Members r)
  end.

Definition pinnedRecipients (r : Roster) (channel : string) : M (list Device) :=
  s ← gets id;
  if is_private channel then
    require (own_private (cs_AgentID s) channel) "another agent owns this memory vault";;
    match Roster_Device r (cs_AgentID s) with
    | None => fail "device no longer authorized"
    | Some d => mret [d]
    end
  else
    let room := ChannelRoom r channel in
    if bool_decide (room <> "") then
      require (RoomHas r room (cs_AgentID s)) "this device is not a member of the encrypted room";;
      mret (RoomDevices r room)
    else
      recipients ← cryptoRecipients r channel;
      require (Z.of_nat (length recipients) =? Z.of_nat (length (ro_Members r)))
        "untrusted private channel identifier";;
      mret (ro_Members r).

(** ** Receiving ([decryptMessage]) *)
(** The routing that the relay reports against what the sender signed. *)
Definition routed (s : cryptoState) (e : Envelope) (m : Message) : bool :=
  bool_decide (env_Kind e = "message") && bool_decide (env_WorkspaceID e = cs_WorkspaceID s)
  && bool_decide (env_ChannelID e = msg_ChannelID m) && bool_decide (env_SenderID e = msg_AgentID m)
  && bool_decide (MessageID e = msg_ID m) && sameStringList (env_Mentions e) (msg_Mentions m)
  && bool_decide (json_text (pointer_json (env_ReplyTo e)) = json_text (pointer_json (msg_ReplyTo m))).

(** Content of an epoch or room the device was not in is readable only from an imported
    archive. *)
Definition check_joined (e : Envelope) (r : Roster) : M unit :=
  s ← gets id;
  if bool_decide (Roster_Device r (cs_AgentID s) = None)
     || (bool_decide (env_RoomID e <> "") && negb (RoomHas r (env_RoomID e) (cs_AgentID s)))
  then
    require (env_Version e =? 2) errBeforeJoin;;
    found ← archiveGet e;
    require (bool_decide (found <> None)) errBeforeJoin
  else mret tt.

Definition open_payload (e : Envelope) (limit : Z) : M string :=
  if env_Version e =? 2 then openMLSPayload ToLower e
  else s ← gets id; lift (Decrypt (cs_Identity s) (env_Ciphertext e) limit).

Definition decryptMessage (m : Message) : M Message :=
  s ← gets id;
  match msg_Encrypted m with
  | None => require (plainCryptoChannel s (msg_ChannelID m)) errPlaintext;; mret m
  | Some e =>
      require (routed s e m) errRouting;;
      require (sameStringList (att_ID <$> msg_Attachments m) (env_AttachmentIDs e))
        "encrypted attachments were modified";;
      r ← cryptoRoster (env_Epoch e);
      check (Envelope_Verify e r);;
      let m := set_Authentic (env_SenderID e) m in
      s ← gets id;
      if bool_decide (is_Some (cs_Rejected s !! rejectedEnvelopeID e))
      then mret (set_Content ErrMLSApplicationRejected rejected_text (JObj []) [] m)
      else
        check_joined e r;;
        data ← open_payload e MaxPlaintextBytes;
        match json_parse data ≫= decode_body with
        | None => fail "invalid decrypted message"
        | Some body =>
            require (sameStringList (att_ID <$> bd_Attachments body) (env_AttachmentIDs e))
              "encrypted attachment manifest mismatch";;
            mret (set_Content "" (bd_Text body) (bd_Metadata body) (bd_Attachments body) m)
        end
  end.

(** ** Attachments *)
Definition openCryptoFile (blob channel data : string) : M (Attachment * string) :=
  s ← gets id;
  match (if MaxFileEnvelopeBytes <? len data then None else json_parse data ≫= decode_envelope) with
  | None => fail "invalid encrypted attachment"
  | Some e =>
      require (bool_decide (env_Kind e = "file") && bool_decide (env_WorkspaceID e = cs_WorkspaceID s)
               && (bool_decide (channel = "") || bool_decide (env_ChannelID e = channel))
               && bool_decide (blob_id e = blob)) "encrypted attachment context was modified";;
      r ← cryptoRoster (env_Epoch e);
      check (Envelope_Verify e r);;
      check_joined e r;;
      plain ← open_payload e (MaxFileBytes + 1024);
      match cut_line (bytes plain) with
      | None => fail "invalid decrypted attachment"
      | Some (line, content) =>
          let line := of_bytes line in
          let content := of_bytes content in
          match json_parse line ≫= decode_header with
          | Some h =>
              require (negb ((1024 <? len line) || (MaxFileBytes <? len content)
                             || bool_decide (fh_Name h = "") || ContainsAny (fh_Name h) path_chars))
                "invalid decrypted attachment";;
              mret (mkAttachment blob (fh_Name h) (fh_MIME h) (len content), content)
          | None => fail "invalid decrypted attachment"
          end
      end
  end.

Definition cryptoDownload (blob channel : string) : M (Attachment * string) :=
  s ← gets id;
  require (HasPrefix blob "blob_" && negb (ContainsAny blob "/\?#")) "invalid attachment ID";;
  '(filename, mime, data) ← ask (GetBlob blob) as_blob;
  let data := read_limited (MaxFileEnvelopeBytes + 1) data in
  if HasPrefix blob "blob_plain_" || (bool_decide (channel <> "") && plainCryptoChannel s channel)
  then mret (mkAttachment blob filename mime (len data), data)
  else openCryptoFile blob channel data.

Definition set_AttachmentFields (name mime : string) (n : Z) (a : Attachment) : Attachment :=
  mkAttachment (att_ID a) name mime n.

Definition cryptoUpload (channel name data : string) : M Attachment :=
  s ← gets id;
  require (negb ((MaxFileBytes <? len data) || (len name =? 0) || (200 <? len name) || ContainsAny name path_chars))
    "invalid attachment name or size";;
  if plainCryptoChannel s channel then ask (PostUpload channel name data) as_attachment else
  r ← cryptoRoster 0;
  recipients ← pinnedRecipients r channel;
  let h := mkFileHeader name (DetectContentType data) in
  let plain := json_text (header_json h) +:+ newline +:+ data in
  x ← random;
  s ← gets id;
  let e := set_Route (cs_WorkspaceID s) channel (cs_AgentID s) (ID "file_" x)
             (set_Binding "file" 0 0 "" zero_envelope) in
  e ← (if cs_Protocol s =? 2 then sealMLS ToLower e r plain
       else x ← random; lift (Seal (cs_Identity s) r recipients x plain e));
  (if cs_Protocol s =? 2 then save_state else mret tt);;
  a ← ask (PostUpload channel "encrypted.age" (json_text (envelope_json e))) as_attachment;
  require (bool_decide (att_ID a = blob_id e)) "server changed encrypted attachment identity";;
  mret (set_AttachmentFields name (fh_MIME h) (len data) a).

(** ** Sending ([cryptoSend]) *)
(** The outbox: in the state for MLS, one file per key (its SHA-256) for a legacy group. *)
Definition outbox_file (key : string) : string := sha256_hex key.
Definition readSaved (key : string) : M (option (option savedSend)) :=
  s ← gets id;
  if cs_Protocol s =? 2 then mret (Some <$> cs_Outbox s !! key)
  else
    fs ← get_files;
    match f_outbox fs !! outbox_file key with
    | None => mret None
    | Some (Err e) => fail e
    | Some (Ok v) => mret (Some v)
    end.
Definition forget_saved (key : string) : M unit :=
  s ← gets id;
  if cs_Protocol s =? 2 then modify (fun s => put_Outbox (delete key (cs_Outbox s)) s)
  else write_files (fun fs => mkFiles (delete (outbox_file key) (f_outbox fs)) (f_received fs)).
Definition write_saved (key : string) (v : savedSend) : M unit :=
  s ← gets id;
  if cs_Protocol s =? 2 then modify (fun s => put_Outbox (<[key := v]> (cs_Outbox s)) s);; save_state
  else write_files (fun fs => mkFiles (<[outbox_file key := Ok (Some v)]> (f_outbox fs)) (f_received fs)).

(** [cryptoMessageValue]. *)
Definition cryptoMessageValue (a : answer) : M Message := m ← lift (as_message a); decryptMessage m.

Fixpoint download_all (channel : string) (ids : list string) : M (list Attachment) :=
  match ids with
  | [] => mret []
  | i :: ids =>
      '(a, _) ← cryptoDownload i channel;
      rest ← download_all channel ids;
      mret (a :: rest)
  end.

(** A new envelope for the current recipients, saved before it is posted. *)
Definition compose_send (input : SendInput) (digest : string) : M Message :=
  r ← cryptoRoster 0;
  recipients ← pinnedRecipients r (si_ChannelID input);
  attachments ← download_all (si_ChannelID input) (si_AttachmentIDs input);
  let data := json_text (body_json (mkBody (si_Text input) (si_Metadata input) attachments)) in
  s ← gets id;
  let e := set_Refs (si_Mentions input) (si_ReplyTo input) (si_AttachmentIDs input)
             (set_Route (cs_WorkspaceID s) (si_ChannelID input) (cs_AgentID s) (si_IdempotencyKey input)
                zero_envelope) in
  e ← (if cs_Protocol s =? 2 then sealMLS ToLower e r data
       else x ← random; lift (Seal (cs_Identity s) r recipients x data e));
  let wire := wire_of input e in
  write_saved (si_IdempotencyKey input) (mkSavedSend digest wire);;
  a ← call (PostMessage wire);
  cryptoMessageValue a.

Definition send_digest (input : SendInput) : string := sha256_hex (json_text (send_json input)).

(** Under a prepared key: what was saved is posted again exactly; only a definitive rejection
    of its epoch allows another envelope. *)
Definition send_prepared (input : SendInput) : M Message :=
  let key := si_IdempotencyKey input in
  let digest := send_digest input in
  saved ← readSaved key;
  match saved with
  | None => compose_send input digest
  | Some v =>
      match v with
      | Some sv =>
          require (bool_decide (sv_Digest sv = digest)) errKeyReused;;
          r ← attempt (call (PostMessage (sv_Input sv)));
          match r with
          | Ok a => cryptoMessageValue a
          | Err e => require (has_code e epoch_conflict) e;; forget_saved key;; compose_send input digest
          end
      | None => fail errKeyReused
      end
  end.

(** [metadata] is the text of [in.Metadata]. *)
Definition cryptoSend (input : SendInput) (metadata : string) : M Message :=
  require (bool_decide (si_Encrypted input = None)) "supply plaintext to the local plugin; it owns encryption";;
  require (negb ((65536 <? len (si_Text input)) || (16384 <? len metadata))) "message is too large";;
  v ← lift (match json_parse (if len metadata =? 0 then "{}" else metadata) with
            | Some v => Ok v
            | None => Err "invalid message metadata"
            end);
  require (negb (blank (si_Text input) && bool_decide (si_AttachmentIDs input = []))) "empty message";;
  key ← (if bool_decide (si_IdempotencyKey input = "") then x ← random; mret (ID "enc_" x)
         else mret (si_IdempotencyKey input));
  send_prepared (set_Prepared v key input).

(** ** Searching ([cryptoHistory]) *)
Definition history_limit (limit : Z) : Z := if (limit <=? 0) || (100 <? limit) then 50 else limit.

(** The index proves that a message does not contain the query. *)
Definition pruned (scoped : bool) (query : string) (m : Message) : M bool :=
  s ← gets id;
  match msg_Encrypted m with
  | Some e =>
      if scoped && (cs_Protocol s =? 2) && bool_decide (query <> "") then
        match cs_SearchIndex s !! archiveID e with
        | Some filter => key ← historyKey; mret (negb (historyIndexMayMatch ToLower filter key query))
        | None => mret false
        end
      else mret false
  | None => mret false
  end.

Definition matches (query : string) (filter : option json) (m : Message) : bool :=
  (bool_decide (query = "") || StrContains (bytes (ToLower (msg_Text m))) (bytes query))
  && match filter with
     | None => true
     | Some f => jsonContains (decoded number (msg_Metadata m)) (decoded number f)
     end.

(** One page; the flag says that the limit was reached. [decrypt] is [decryptMessage] on the
    group's state, or [decryptRoomMessage] when there is none ([scoped] is false). *)
Fixpoint history_page (scoped : bool) (decrypt : Message -> M Message) (query : string)
    (filter : option json) (limit : Z) (out page : list Message) : M (list Message * bool) :=
  match page with
  | [] => mret (out, false)
  | m :: page =>
      skip ← pruned scoped query m;
      if (skip : bool) then history_page scoped decrypt query filter limit out page else
      r ← attempt (decrypt m);
      match r with
      | Err e => if bool_decide (e = errBeforeJoin) then history_page scoped decrypt query filter limit out page
                 else fail e
      | Ok m =>
          if matches query filter m then
            let out := out ++ [m] in
            if limit <=? Z.of_nat (length out) then mret (out, true)
            else history_page scoped decrypt query filter limit out page
          else history_page scoped decrypt query filter limit out page
      end
  end.

Fixpoint history_pages (fuel : nat) (scoped : bool) (decrypt : Message -> M Message) (channel query : string)
    (filter : option json) (limit : Z) (before : string) (out : list Message) : M (list Message) :=
  match fuel with
  | O => fail errFuel
  | S n =>
      page ← ask (GetMessages channel before) as_messages;
      '(out, full) ← history_page scoped decrypt query filter limit out page;
      if (full : bool) || (Z.of_nat (length page) <? 100) then mret out else
      let cursor := Itoa (default 0 (msg_Seq <$> last page)) in
      require (negb (bool_decide (cursor = before))) "history cursor did not advance";;
      history_pages n scoped decrypt channel query filter limit cursor out
  end.

(** The query parameters: the channel, [q], the text of [metadata], the limit as a number (0
    when it is none) and [before]. *)
Definition cryptoHistory (scoped : bool) (decrypt : Message -> M Message) (channel q metadata : string)
    (limit : Z) (before : string) : M (list Message) :=
  filter ← lift (if bool_decide (metadata = "") then Ok JNull
                 else match json_parse metadata with Some v => Ok v | None => Err "invalid metadata filter" end);
  (fun w => history_pages (S (length (w_net w))) scoped decrypt channel (ToLower q)
              (match filter with JNull => None | f => Some f end) (history_limit limit) before [] w) : M _.

(** ** Listening: the part of [decryptInboxEvent] that runs on the group's state *)
(** The sequence number under which a message first woke a worker. *)
Definition mark_received (m seq : _) : M unit :=
  write_files (fun fs => mkFiles (f_outbox fs) (<[m := Ok (Some seq)]> (f_received fs))).

(** An event of an epoch before this device joined, an unreadable message and a replay are not
    delivered; in the first case the payload, of no further use, is left as it came. *)
Definition receive_event (event : inboxEvent) : M (bool * inboxEvent) :=
  ensureCrypto ToLower;;
  r ← attempt (decryptMessage (ev_Payload event));
  match r with
  | Err e => if bool_decide (e = errBeforeJoin) then mret (false, event) else fail e
  | Ok m =>
      let event := set_Payload m event in
      if bool_decide (msg_EncryptionError m <> "") then mret (false, event) else
      fs ← get_files;
      let accept := mark_received (msg_ID m) (ev_Seq event);; mret (true, event) in
      match f_received fs !! msg_ID m with
      | None => accept
      | Some (Err e) => fail e
      | Some (Ok saved) =>
          match saved with
          | None => fail "corrupt encrypted replay state"
          | Some seq => if bool_decide (seq <> ev_Seq event) then mret (false, event) else accept
          end
      end
  end.
End Messages.
