(* ===== verification/Invariants.v ===== *)
(** * Invariants of the encryption operations

    Predicates on the world that every operation of a group keeps, whatever the server answers,
    as long as it neither touches invitations and the outbox nor posts content. The class
    [Stable] states what such a predicate must tolerate; each operation is then covered once. *)
From S2P Require Import Prelude GoStrings Json Types Crypto Roster Metadata History.
From S2P Require Import Encryption Mls Groups Messages.

(** ** Invariants of actions *)
Section Invariants.
Context (Q : world -> Prop).

Definition inv {A} (m : M A) : Prop := forall w, Q w -> Q (m w).2.

Lemma inv_bind {A B} (m : M A) (f : A -> M B) : inv m -> (forall a, inv (f a)) -> inv (m ≫= f).
Proof.
  intros Hm Hf w Hw. specialize (Hm w Hw). unfold mbind, M_bind.
  destruct (m w) as [[a|e] w1]; [by apply Hf|done].
Qed.
Lemma inv_attempt {A} (m : M A) : inv m -> inv (attempt m).
Proof. intros Hm w Hw. specialize (Hm w Hw). unfold attempt. by destruct (m w). Qed.
Lemma inv_ret {A} (a : A) : inv (mret a).
Proof. by intros w. Qed.
Lemma inv_fail {A} e : inv (fail e : M A).
Proof. by intros w. Qed.
Lemma inv_lift {A} (r : result A) : inv (lift r).
Proof. by intros w. Qed.
Lemma inv_gets {A} (f : cryptoState -> A) : inv (gets f).
Proof. by intros w. Qed.
Lemma inv_now : inv now.
Proof. by intros w. Qed.
Lemma inv_require b e : inv (require b e).
Proof. intros w. by destruct b. Qed.
Lemma inv_check o : inv (check o).
Proof. intros w. by destruct o. Qed.
Lemma inv_files : inv get_files.
Proof. by intros w. Qed.
End Invariants.

#[export] Hint Resolve inv_ret inv_fail inv_lift inv_gets inv_now inv_require inv_check inv_files : inv.

Ltac inv_steps :=
  intros; repeat (cbv zeta; first
    [ solve [auto with inv]
    | match goal with |- inv _ (mbind _ _) => apply inv_bind; [|intros] end
    | match goal with |- inv _ (attempt _) => apply inv_attempt end
    | match goal with |- inv _ (match ?x with _ => _ end) => destruct x end ]).

Lemma inv_run {A} (Q : world -> Prop) (m : M A) w a w' : inv Q m -> Q w -> m w = (a, w') -> Q w'.
Proof. intros Hm Hw E. specialize (Hm w Hw). by rewrite E in Hm. Qed.

(** ** Triples: from [P], a result in [R] or an error in [E] *)
Definition triple {A} (P : world -> Prop) (m : M A) (R : A -> world -> Prop) (E : world -> Prop) : Prop :=
  forall w, P w -> match m w with (Ok a, w') => R a w' | (Err _, w') => E w' end.

Lemma triple_bind {A B} P (m : M A) (f : A -> M B) R S E :
  triple P m R E -> (forall a, triple (R a) (f a) S E) -> triple P (m ≫= f) S E.
Proof.
  intros Hm Hf w Hw. specialize (Hm w Hw). unfold mbind, M_bind.
  destruct (m w) as [[a|e] w1]; [by apply Hf|done].
Qed.
Lemma triple_inv {A} (P : world -> Prop) (m : M A) (E : world -> Prop) :
  inv P m -> (forall w, P w -> E w) -> triple P m (fun _ => P) E.
Proof. intros Hm He w Hw. specialize (Hm w Hw). destruct (m w) as [[a|e] w1]; simpl in *; auto. Qed.
Lemma inv_triple {A} (Q : world -> Prop) (m : M A) : triple Q m (fun _ => Q) Q -> inv Q m.
Proof. intros Hm w Hw. specialize (Hm w Hw). by destruct (m w) as [[a|e] w1]. Qed.
Lemma triple_weaken {A} P P' (m : M A) R R' E E' :
  triple P m R E -> (forall w, P' w -> P w) -> (forall a w, R a w -> R' a w) -> (forall w, E w -> E' w) ->
  triple P' m R' E'.
Proof.
  intros Hm HP HR HE w Hw. specialize (Hm w (HP w Hw)). destruct (m w) as [[a|e] w1]; auto.
Qed.

(** ** Stable predicates *)
(** What only sending, issuing and reserving change, and the protocol, which nothing does. *)
Definition view (s : cryptoState) : gmap string savedAdmissionInvite * gmap string savedSend * Z :=
  (cs_AdmissionInvites s, cs_Outbox s, cs_Protocol s).
(** Every request but those that carry content or come from outside a group. *)
Definition routine (q : request) : bool :=
  match q with PostMessage _ | PostUpload _ _ _ | RawCall _ _ _ | CallTool _ _ => false | _ => true end.

Class Stable (Q : world -> Prop) : Prop := {
  stable_modify f : (forall s, view (f s) = view s) -> inv Q (modify f);
  stable_save : inv Q save_state;
  stable_call q : routine q = true -> inv Q (call q);
  stable_random : inv Q random }.

#[local] Set Default Proof Using "Type*".

Section Stable.
Context `{!Primitives}.
Context (Q : world -> Prop) `{!Stable Q}.

Lemma inv_save : inv Q save_state.
Proof. apply stable_save. Qed.
Lemma inv_call q : routine q = true -> inv Q (call q).
Proof. apply stable_call. Qed.
Lemma inv_ask {A} x (d : answer -> result A) : routine x = true -> inv Q (ask x d).
Proof. intros Hx. apply inv_bind; [by apply stable_call|auto with inv]. Qed.
Lemma inv_random : inv Q random.
Proof. apply stable_random. Qed.
Lemma inv_history : inv Q historyKey.
Proof. by intros w. Qed.
Hint Resolve inv_save inv_random inv_history : inv.
Hint Extern 1 (inv _ (call _)) => apply inv_call; first [reflexivity | typeclasses eauto] : inv.
Hint Extern 1 (inv _ (ask _ _)) => apply inv_ask; first [reflexivity | typeclasses eauto] : inv.

Ltac inv_fields := apply stable_modify; intros; reflexivity.

Variable ToLower : string -> string.

Lemma inv_mls op d a m p : inv Q (mlsCall op d a m p).
Proof. unfold mlsCall. inv_steps. Qed.
Hint Resolve inv_mls : inv.
Lemma inv_archivePut e x : inv Q (archivePut ToLower e x).
Proof. unfold archivePut. inv_steps; inv_fields. Qed.
Lemma inv_archiveGet e : inv Q (archiveGet e).
Proof. unfold archiveGet. inv_steps. Qed.
Lemma inv_consume e : inv Q (consume e).
Proof. inv_fields. Qed.
Lemma inv_keep p m : inv Q (keep_state p m).
Proof. unfold keep_state. inv_steps; inv_fields. Qed.
Hint Resolve inv_archivePut inv_archiveGet inv_consume inv_keep : inv.
Lemma inv_consumeMLSKey e : inv Q (consumeMLSKey ToLower e).
Proof. unfold consumeMLSKey. inv_steps; inv_fields. Qed.
Lemma inv_advance s r : inv Q (advance_group s r).
Proof. unfold advance_group. inv_steps. Qed.
Hint Resolve inv_consumeMLSKey inv_advance : inv.
Lemma inv_sync_row x : inv Q (sync_row ToLower x).
Proof.
  unfold sync_row, apply_row, sync_roster, sync_opaque, sync_envelope, reject. inv_steps; inv_fields.
Qed.
Hint Resolve inv_sync_row : inv.
Lemma inv_sync_rows l : inv Q (sync_rows ToLower l).
Proof. induction l; simpl; inv_steps. Qed.
Hint Resolve inv_sync_rows : inv.
Lemma inv_sync_pages n : inv Q (sync_pages ToLower n).
Proof. induction n; simpl; inv_steps. Qed.
Lemma inv_syncMLS : inv Q (syncMLS ToLower).
Proof. intros w. apply inv_sync_pages. Qed.
Hint Resolve inv_syncMLS : inv.
Lemma inv_cryptoRoster n : inv Q (cryptoRoster n).
Proof. unfold cryptoRoster, observe_roster. inv_steps; inv_fields. Qed.
Hint Resolve inv_cryptoRoster : inv.
Lemma inv_policy r : inv Q (loadInitialRoomPolicy r).
Proof. unfold loadInitialRoomPolicy. inv_steps. Qed.
Hint Resolve inv_policy : inv.
Lemma inv_change_with ensure old next x y : (forall n, inv Q (ensure n)) -> inv Q (change_with ensure old next x y).
Proof.
  intros He. unfold change_with.
  inv_steps; first [inv_fields | apply stable_modify; intros; unfold note_committed; by destruct (bool_decide _) | done].
Qed.
Lemma inv_ensure_fuel n : forall e, inv Q (ensure_fuel ToLower n e).
Proof.
  induction n as [|n IH]; intros e; [apply inv_fail|]. simpl.
  unfold create_group, publish. inv_steps; try inv_fields; by apply inv_change_with.
Qed.
Lemma inv_ensureMLS e : inv Q (ensureMLS ToLower e).
Proof. intros w. apply inv_ensure_fuel. Qed.
Lemma inv_change old next x y : inv Q (changeMLSRoster ToLower old next x y).
Proof. apply inv_change_with, inv_ensureMLS. Qed.
Hint Resolve inv_ensureMLS inv_change : inv.
Lemma inv_find_room l : inv Q (find_room l).
Proof. induction l; simpl; inv_steps; inv_fields. Qed.
Hint Resolve inv_find_room : inv.
Lemma inv_ensureCrypto : inv Q (ensureCrypto ToLower).
Proof. unfold ensureCrypto, resume_join, registerEncryptedRoom. inv_steps; inv_fields. Qed.
Hint Resolve inv_ensureCrypto : inv.
Lemma inv_rotate : inv Q (rotateMLS ToLower).
Proof. unfold rotateMLS. inv_steps. Qed.
Hint Resolve inv_rotate : inv.

(** ** Payloads and messages *)
Variable DetectContentType : string -> string.

Lemma inv_seal_payload e p : inv Q (seal_payload e p).
Proof. unfold seal_payload. inv_steps. Qed.
Lemma inv_private_group b : inv Q (private_group b).
Proof. unfold private_group. inv_steps; inv_fields. Qed.
Lemma inv_wrap_key r e k : inv Q (wrap_key r e k).
Proof. unfold wrap_key. inv_steps. Qed.
Hint Resolve inv_seal_payload inv_private_group inv_wrap_key : inv.
Lemma inv_sealMLS e r p : inv Q (sealMLS ToLower e r p).
Proof. unfold sealMLS. inv_steps. Qed.
Lemma inv_openMLS e : inv Q (openMLSPayload ToLower e).
Proof. unfold openMLSPayload. inv_steps. Qed.
Hint Resolve inv_sealMLS inv_openMLS : inv.
Lemma inv_open_payload e n : inv Q (open_payload ToLower e n).
Proof. unfold open_payload. inv_steps. Qed.
Lemma inv_check_joined e r : inv Q (check_joined e r).
Proof. unfold check_joined. inv_steps. Qed.
Hint Resolve inv_open_payload inv_check_joined : inv.
Lemma inv_decryptMessage m : inv Q (decryptMessage ToLower m).
Proof. unfold decryptMessage. inv_steps. Qed.
Hint Resolve inv_decryptMessage : inv.
Lemma inv_messageValue a : inv Q (cryptoMessageValue ToLower a).
Proof. unfold cryptoMessageValue. inv_steps. Qed.
Lemma inv_openFile b c d : inv Q (openCryptoFile ToLower b c d).
Proof. unfold openCryptoFile. inv_steps. Qed.
Hint Resolve inv_messageValue inv_openFile : inv.
Lemma inv_download b c : inv Q (cryptoDownload ToLower b c).
Proof. unfold cryptoDownload. inv_steps. Qed.
Hint Resolve inv_download : inv.
Lemma inv_download_all c l : inv Q (download_all ToLower c l).
Proof. induction l; simpl; inv_steps. Qed.
Lemma inv_pinnedRecipients r c : inv Q (pinnedRecipients r c).
Proof. unfold pinnedRecipients, cryptoRecipients. inv_steps. Qed.
Lemma inv_pruned b q m : inv Q (pruned ToLower b q m).
Proof. unfold pruned. inv_steps. Qed.
Hint Resolve inv_pruned : inv.

Variable number : string -> string.
Lemma inv_history_page scoped decrypt query filter limit page : (forall m, inv Q (decrypt m)) ->
  forall out, inv Q (history_page ToLower number scoped decrypt query filter limit out page).
Proof.
  intros Hd. induction page as [|m page IH]; intros out; simpl; [apply inv_ret|].
  inv_steps; first [apply IH|apply Hd|eapply inv_pruned; eassumption].
Qed.
Lemma inv_history_pages scoped decrypt channel query filter limit : (forall m, inv Q (decrypt m)) ->
  forall n before out, inv Q (history_pages ToLower number n scoped decrypt channel query filter limit before out).
Proof.
  intros Hd n. induction n as [|n IH]; intros before out; simpl; [apply inv_fail|].
  apply inv_bind; [auto with inv|intros page]. apply inv_bind; [by apply inv_history_page|intros [out' full]].
  inv_steps; apply IH.
Qed.
Lemma inv_cryptoHistory scoped decrypt channel q metadata limit before : (forall m, inv Q (decrypt m)) ->
  inv Q (cryptoHistory ToLower number scoped decrypt channel q metadata limit before).
Proof.
  intros Hd. unfold cryptoHistory. apply inv_bind; [auto with inv|intros filter].
  intros w Hw. exact (inv_history_pages scoped decrypt channel (ToLower q) _ _ Hd _ before [] w Hw).
Qed.
End Stable.

#[export] Hint Resolve inv_save inv_random inv_history inv_mls inv_archivePut inv_archiveGet inv_consume
  inv_keep inv_consumeMLSKey inv_advance inv_sync_row inv_sync_rows inv_sync_pages inv_syncMLS inv_cryptoRoster
  inv_policy inv_ensureMLS inv_change inv_find_room inv_ensureCrypto inv_rotate inv_sealMLS inv_openMLS
  inv_open_payload inv_check_joined inv_decryptMessage inv_messageValue inv_openFile inv_download
  inv_download_all inv_pinnedRecipients inv_pruned : inv.
#[export] Hint Extern 1 (inv _ (call _)) => apply inv_call; first [reflexivity | typeclasses eauto] : inv.
#[export] Hint Extern 1 (inv _ (ask _ _)) => apply inv_ask; first [reflexivity | typeclasses eauto] : inv.

#[export] Hint Extern 1 (Stable _) => typeclasses eauto : inv.

(** ** Runs *)
(** What the process meets: key file, save outcomes, answers, random bytes, time. *)
Record surroundings := mkSurroundings {
  su_history : result string; su_saves : list (option string); su_net : list (result answer);
  su_random : list string; su_now : Z }.
Definition meet (u : surroundings) (w : world) : world :=
  mkWorld (w_state w) (w_disk w) (su_history u) (su_saves u) (su_net u) (su_random u) (su_now u) (w_log w) (w_files w) (w_groups w).

Lemma inv_withCrypto_from `{!Primitives} {A} (Q : world -> Prop) `{!Stable Q} (m : M A) server w :
  inv Q m ->
  Q (mkWorld (w_disk w) (w_disk w) (w_history w) (w_saves w) (w_net w) (w_random w) (w_now w) (w_log w) (w_files w) (w_groups w)) ->
  Q (withCrypto m server w).2.
Proof.
  intros Hm Hw. unfold withCrypto. cbv zeta. destruct (identity_device _ _); [|done]. case_bool_decide; [done|].
  specialize (Hm _ Hw). destruct (m _) as [v w1]. pose proof (inv_save Q w1 Hm) as Hs. by destruct (save_state w1).
Qed.
