(* ===== verification/Admission.v ===== *)
(** * Admitting and removing devices

    [cmd/tincan/encryption_admission.go], the management of members in
    [encryptionManageMode] ([encryption.go]) and of rooms in [encryption_room_policy.go]: manual
    approval by fingerprint, automatic admission by one-use invitations, revocation. *)
From stdpp Require Import sorting.
From S2P Require Import Prelude GoStrings Json Types Crypto Roster Metadata History Encryption Mls Groups.

Definition errManualAdmission : string := "this request requires manual fingerprint verification".

Section Admission.
Context `{!Primitives}.
Variable ToLower : string -> string.

Definition admissionInviteHash (token : string) : string := sha256_hex token.

(** ** Issuing ([issueCryptoInvite]): [address] is what parsing the pinned address yields, its
    token or an error; the result is the secret to append, none for a manual invitation. *)
Definition invite_expiry (t expires : Z) : Z :=
  if (expires =? 0) || (t + day <? expires) then t + day else expires.

Definition issueCryptoInvite (address : result string) (expires : Z) (roomID : string) : M (option string) :=
  s ← gets id;
  own ← lift (device_of s (cs_AgentID s));
  if negb (cs_AutomaticInvites s) || bool_decide (cs_WorkspaceID s = "")
     || negb (bool_decide (dev_SigningKey own = cs_Root s))
  then mret None else
  token ← lift address;
  t ← now;
  let expires := invite_expiry t expires in
  require (t <? expires) "invitation has expired";;
  secret ← random;
  modify (fun s => put_AdmissionInvites
    (<[admissionInviteHash token := mkInvite roomID secret expires "" ""]>
       (filter (fun kv => t < in_ExpiresAt kv.2) (cs_AdmissionInvites s))) s);;
  mret (Some secret).

(** ** Reserving ([reserveAdmission]) *)
Definition reserve (requestID fingerprint : string) (i : savedAdmissionInvite) : savedAdmissionInvite :=
  mkInvite (in_RoomID i) (in_Secret i) (in_ExpiresAt i) requestID fingerprint.

(** The checks, on the state alone. *)
Definition admissible (t : Z) (s : cryptoState) (requestID : string) (d : Device)
    (proof : option AdmissionProof) : option (string * savedAdmissionInvite) :=
  match proof with
  | None => None
  | Some p =>
      if bool_decide (requestID = "") || negb (cs_AutomaticInvites s)
         || bool_decide (Fingerprint d ∈ cs_CommittedAdmissions s)
      then None else
      let prior := default "" (cs_AdmittedDevices s !! Fingerprint d) in
      if bool_decide (prior <> "") && bool_decide (prior <> requestID) then None else
      match cs_AdmissionInvites s !! ap_InviteHash p with
      | None => None
      | Some i =>
          if negb (t <? in_ExpiresAt i)
             || negb (VerifyAdmission (in_Secret i) (cs_Root s) (cs_WorkspaceID s) (ap_InviteHash p) d (Some p))
          then None
          else if bool_decide (in_RequestID i <> "")
                  && (bool_decide (in_RequestID i <> requestID) || bool_decide (in_Fingerprint i <> Fingerprint d))
          then None else Some (ap_InviteHash p, i)
      end
  end.

Definition set_invite (h : string) (i : savedAdmissionInvite) (s : cryptoState) : cryptoState :=
  put_AdmissionInvites (<[h := i]> (cs_AdmissionInvites s)) s.

Definition reserveAdmission (requestID : string) (d : Device) (proof : option AdmissionProof) : M unit :=
  t ← now;
  s ← gets id;
  match admissible t s requestID d proof with
  | None => fail errManualAdmission
  | Some (h, i) => modify (set_invite h (reserve requestID (Fingerprint d) i));; save_state
  end.

(** [encryptionAdmissionPolicy]: disabling invalidates what was issued. *)
Definition encryptionAdmissionPolicy (automatic : option bool) : M bool :=
  ensureCrypto ToLower;;
  s ← gets id;
  own ← lift (device_of s (cs_AgentID s));
  require (bool_decide (dev_SigningKey own = cs_Root s)) "use the workspace creator's encryption identity";;
  match automatic with
  | None => mret tt
  | Some b =>
      require (negb b || (cs_Protocol s =? 2)) "automatic admission requires an MLS workspace";;
      modify (fun s => let s := put_AutomaticInvites b s in
                       if b then s else put_AdmissionInvites ∅ s)
  end;;
  gets cs_AutomaticInvites.

(** ** Approving and revoking ([encryptionManageMode] on one group) *)
(** The invitation of a request must be for its room. *)
Definition check_invited_room (automatic : bool) (s : cryptoState) (x : admissionRequest) : option string :=
  match ar_Admission x with
  | None => None
  | Some p =>
      let saved := cs_AdmissionInvites s !! ap_InviteHash p in
      let room := default "" (in_RoomID <$> saved) in
      if bool_decide (room <> "") && bool_decide (room <> ar_RoomID x)
      then Some "invitation room was changed; admission rejected"
      else if automatic && bool_decide (room = "") then Some errManualAdmission else None
  end.

(** A manual approval uses up the invitation that came with the request. *)
Definition use_invite (requestID : string) (x : admissionRequest) (s : cryptoState) : cryptoState :=
  match ar_Admission x with
  | None => s
  | Some p =>
      match cs_AdmissionInvites s !! ap_InviteHash p with
      | Some i =>
          if VerifyAdmission (in_Secret i) (cs_Root s) (cs_WorkspaceID s) (ap_InviteHash p) (ar_Device x) (Some p)
          then set_invite (ap_InviteHash p) (reserve requestID (Fingerprint (ar_Device x)) i) s
          else s
      | None => s
      end
  end.

Definition set_AgentID (id : string) (d : Device) : Device :=
  mkDevice id (dev_Recipient d) (dev_SigningKey d) (dev_Protocol d) (dev_KeyPackage d).

(** The roster with the device of a request. *)
Definition admit_device (s : cryptoState) (r : Roster) (x : admissionRequest) (next : Roster) : result Roster :=
  let next := set_Members (ro_Members next ++ [set_AgentID (ar_AgentID x) (ar_Device x)]) next in
  match ro_RoomMembers next with
  | None => Ok next
  | Some m =>
      if negb (RoomHas r (ar_RoomID x) (cs_AgentID s)) then Err "the creator is not a member of the invited room"
      else Ok (set_Rooms (Some (<[ar_RoomID x := sort_ids (default [] (m !! ar_RoomID x) ++ [ar_AgentID x])]> m))
                 (ro_RoomChannels next) next)
  end.

(** Taking in one pending request. *)
Definition accept_request (automatic : bool) (requestID fingerprint : string) (r next : Roster)
    (x : admissionRequest) : M Roster :=
  s ← gets id;
  check (check_invited_room automatic s x);;
  (if automatic then reserveAdmission requestID (ar_Device x) (ar_Admission x)
   else require (bool_decide (Fingerprint (ar_Device x) = fingerprint)) "joining device fingerprint mismatch");;
  (if automatic then mret tt else modify (use_invite requestID x));;
  modify (fun s => put_AdmittedDevices (<[Fingerprint (ar_Device x) := requestID]> (cs_AdmittedDevices s)) s);;
  save_state;;
  s ← gets id;
  lift (admit_device s r x next).

(** The loop over the pending requests: [None] when the device is already a member. *)
Fixpoint find_request (automatic : bool) (requestID fingerprint : string) (r next : Roster)
    (l : list admissionRequest) : M (option Roster) :=
  match l with
  | [] => fail (if automatic then errManualAdmission else "pending encrypted request not found")
  | x :: l =>
      s ← gets id;
      let fp := Fingerprint (ar_Device x) in
      if automatic && bool_decide (ar_ID x = requestID)
         && bool_decide (default "" (cs_AdmittedDevices s !! fp) = requestID)
         && bool_decide (fp ∈ cs_CommittedAdmissions s)
      then
        require (match Roster_Device r (ar_AgentID x) with
                 | Some member => bool_decide (Fingerprint member = fp)
                 | None => false
                 end) errManualAdmission;;
        mret None
      else if bool_decide (ar_ID x = requestID) && bool_decide (ar_Status x = "pending")
      then next ← accept_request automatic requestID fingerprint r next x; mret (Some next)
      else find_request automatic requestID fingerprint r next l
  end.

Definition remove_member (revoke : string) (r next : Roster) : Roster :=
  set_Members (filter (fun d => dev_AgentID d <> revoke) (ro_Members r)) next.
(** A revoked agent also leaves every room. *)
Definition leave_rooms (revoke : string) (next : Roster) : Roster :=
  if bool_decide (revoke = "") then next
  else set_Rooms ((fun m : gmap string (list string) =>
                      (fun ids : list string => filter (fun id => id <> revoke) ids) <$> m) <$> ro_RoomMembers next) (ro_RoomChannels next) next.

(** The listing: each pending request with the fingerprint to compare. *)
Definition pending_requests : M (list (admissionRequest * string)) :=
  ensureCrypto ToLower;;
  l ← ask GetRequests as_requests;
  mret ((fun x => (x, Fingerprint (ar_Device x))) <$> l).

(** Publishing the change, by protocol. *)
Definition commit_change (r next : Roster) (requestID revoke : string) : M unit :=
  s ← gets id;
  next ← lift (Roster_Sign next (cs_Identity s));
  if cs_Protocol s =? 2 then changeMLSRoster ToLower r next requestID revoke
  else
    _ ← call (PostAgeRoster next (Some requestID));
    modify (put_Observed (ro_Epoch next) (Roster_Hash next)).

Definition encryptionManageMode (requestID fingerprint revoke : string) (automatic : bool) : M unit :=
  ensureCrypto ToLower;;
  s ← gets id;
  require (bool_decide (dev_SigningKey (local_device s) = cs_Root s)) "use this room's creator encryption identity";;
  r ← cryptoRoster 0;
  let next := succeed r r in
  if bool_decide (requestID <> "") then
    require (automatic || (len fingerprint =? 64))
      "supply the joining device's full fingerprint verified through your existing conversation";;
    l ← ask GetRequests as_requests;
    found ← find_request automatic requestID fingerprint r next l;
    match found with
    | None => mret tt
    | Some next => commit_change r (leave_rooms revoke next) requestID revoke
    end
  else
    s ← gets id;
    require (negb (bool_decide (revoke = cs_AgentID s))) "creator cannot revoke their own encryption identity";;
    let next := remove_member revoke r next in
    require (negb (Z.of_nat (length (ro_Members next)) =? Z.of_nat (length (ro_Members r))))
      "encrypted member not found";;
    commit_change r (leave_rooms revoke next) requestID revoke.

(** ** Rooms of a legacy group ([encryptedRoomMember]) *)
Definition set_room_member (rid agent : string) (present : bool) (r : Roster) : Roster :=
  let m := cloneRoomMembers (ro_RoomMembers r) in
  let ids := filter (fun id => id <> agent) (default [] (m !! rid)) in
  set_Rooms (Some (<[rid := sort_ids (ids ++ (if present then [agent] else []))]> m)) (ro_RoomChannels r) r.

Definition publish_room_change (old next : Roster) : M unit :=
  s ← gets id;
  if cs_Protocol s =? 2 then changeMLSRoster ToLower old next "" ""
  else
    next ← lift (Roster_Sign next (cs_Identity s));
    _ ← call (PostAgeRoster next None); mret tt.

Definition encryptedRoomMember (rid agent : string) (present : bool) : M unit :=
  ensureCrypto ToLower;;
  s ← gets id;
  require (bool_decide (public_half (id_SigningKey (cs_Identity s)) = cs_Root s))
    "use the encryption creator's local connection to change room membership";;
  let old := cs_ActiveRoster s in
  old ← (if bool_decide (ro_RoomMembers old = None) then
           next ← loadInitialRoomPolicy old;
           let next := succeed old next in
           (if cs_Protocol s =? 2 then changeMLSRoster ToLower old next "" "";; mret next
            else
              next ← lift (Roster_Sign next (cs_Identity s));
              _ ← call (PostAgeRoster next None); mret next)
         else mret old);
  s ← gets id;
  require (RoomHas old rid (cs_AgentID s)) "join this room before managing its members";;
  require (bool_decide (is_Some (Roster_Device old agent)))
    "admit this device with an encrypted room invitation first";;
  require (present || negb (bool_decide (agent = cs_AgentID s)))
    "the encryption creator must remain in this room";;
  publish_room_change old (succeed old (set_room_member rid agent present old)).
End Admission.
