(* ===== verification/AdmissionTheorems.v ===== *)
(** * Admission: properties

    Every invitation admits at most one device automatically, whatever operations follow and
    whatever the server answers. *)
From S2P Require Import Prelude GoStrings Json Types Crypto Toy Roster RosterTheorems Metadata History.
From S2P Require Import Encryption Mls MlsFacts Groups Messages Invariants Admission MlsTheorems.

(** ** Invitations bound to a request and a device *)
Definition bound (secret q fp : string) (s : cryptoState) : Prop :=
  forall h i, cs_AdmissionInvites s !! h = Some i -> in_Secret i = secret ->
  in_RequestID i = q /\ in_Fingerprint i = fp.

(** In memory, on disk, and the secret is not drawn again. *)
Record bound_world (secret q fp : string) (w : world) : Prop := {
  bw_state : bound secret q fp (w_state w);
  bw_disk : bound secret q fp (w_disk w);
  bw_random : secret ∉ w_random w }.

Section Bound.
Context `{!Primitives}.
Variables (secret q fp : string).
Notation Q := (bound_world secret q fp).

#[export] Instance bound_stable : Stable Q.
Proof.
  split.
  - intros f Hf w [Hs Hd Hr]. split; [|exact Hd|exact Hr]. intros h i. simpl.
    replace (cs_AdmissionInvites (f (w_state w))) with (cs_AdmissionInvites (w_state w)); [apply Hs|].
    symmetry. exact (f_equal (fun v => v.1.1) (Hf (w_state w))).
  - intros w [Hs Hd Hr]. unfold save_state. destruct (w_saves w) as [|[] l]; by split.
  - intros x _ w [Hs Hd Hr]. unfold call. destruct (w_net w); by split.
  - intros w [Hs Hd Hr]. unfold random. destruct (w_random w) as [|x l] eqn:E; split; simpl; try done.
    + by rewrite E.
    + set_solver.
Qed.

Variable ToLower : string -> string.
Ltac inv_fields := apply stable_modify; intros; reflexivity.

(** ** The operations on invitations *)
Hypothesis (secret_nonempty : secret <> "") (request_nonempty : q <> "").

Lemma inv_reserve rq d p : inv Q (reserveAdmission rq d p).
Proof using request_nonempty.
  clear ToLower secret_nonempty. intros w Hw. unfold reserveAdmission, mbind, M_bind, now, gets. simpl.
  destruct (admissible _ _ _ _ _) as [[h i]|] eqn:E; [|done].
  unfold admissible in E. destruct p as [p|]; [|done]. repeat case_match; simplify_eq.
  apply (inv_save Q). destruct Hw as [Hs Hd Hr]. constructor; [|done|done].
  intros h' i'. simpl. rewrite lookup_insert. destruct (decide (ap_InviteHash p = h')); [|exact (Hs h' i')].
  subst. intros [= <-] Hsec. simpl in *.
  edestruct Hs as [Hq1 Hq2]; [eassumption|done|].
  match goal with Hb : bool_decide (in_RequestID i <> "") && _ = false |- _ =>
    rewrite Hq1, Hq2, bool_decide_true in Hb by done; simpl in Hb; apply orb_false_iff in Hb as [Hb1 Hb2] end.
  apply bool_decide_eq_false in Hb1, Hb2. split; [by destruct (decide (rq = q))|by destruct (decide (Fingerprint d = fp))].
Qed.

(** Bytes drawn now differ from the secret. *)
Lemma inv_draw {A} (f : string -> M A) : (forall x, x <> secret -> inv Q (f x)) -> inv Q (random ≫= f).
Proof using secret_nonempty.
  clear ToLower request_nonempty. intros Hf w Hw. pose proof (inv_random Q w Hw) as Hw1. revert Hw1.
  unfold mbind, M_bind, random. destruct (w_random w) as [|x l] eqn:E; simpl; intros Hw1.
  - by apply Hf.
  - apply Hf; [|done]. destruct Hw as [_ _ Hr]. rewrite E in Hr. set_solver.
Qed.

Lemma inv_issue address expires room : inv Q (issueCryptoInvite address expires room).
Proof using secret_nonempty.
  clear ToLower request_nonempty. unfold issueCryptoInvite.
  apply inv_bind; [apply inv_gets|intros s]. apply inv_bind; [apply inv_lift|intros own].
  destruct (negb _ || _ || _); [apply inv_ret|]. apply inv_bind; [apply inv_lift|intros token].
  apply inv_bind; [apply inv_now|intros t]. cbv zeta.
  apply inv_bind; [apply inv_require|intros _]. apply inv_draw. intros x Hx.
  apply inv_bind; [|intros _; apply inv_ret]. intros w [Hs Hd Hr]. constructor; [|done|done].
  intros h i. simpl. rewrite lookup_insert. case_decide; [intros [= <-] Hsec; done|].
  intros [Hl _]%map_lookup_filter_Some. exact (Hs h i Hl).
Qed.

Lemma inv_set_policy b :
  inv Q (modify (fun s => let s := put_AutomaticInvites b s in if b then s else put_AdmissionInvites ∅ s)).
Proof.
  clear ToLower secret_nonempty request_nonempty.
  intros w [Hs Hd Hr]. constructor; [|done|done]. destruct b; [done|]. intros h i. simpl. by rewrite lookup_empty.
Qed.
Hint Resolve inv_reserve inv_issue inv_set_policy : inv.

Lemma inv_policy_mode b : inv Q (encryptionAdmissionPolicy ToLower b).
Proof using Type. clear secret_nonempty request_nonempty. unfold encryptionAdmissionPolicy. inv_steps. Qed.

Lemma inv_accept rq fp' r next x : inv Q (accept_request true rq fp' r next x).
Proof using request_nonempty. clear ToLower secret_nonempty. unfold accept_request. inv_steps; inv_fields. Qed.
Hint Resolve inv_policy_mode inv_accept : inv.
Lemma inv_find_request rq fp' r next l : inv Q (find_request true rq fp' r next l).
Proof using request_nonempty. clear ToLower secret_nonempty. induction l; simpl; inv_steps. Qed.
Hint Resolve inv_find_request : inv.
Lemma inv_commit r next x y : inv Q (commit_change ToLower r next x y).
Proof using Type. clear secret_nonempty request_nonempty. unfold commit_change. inv_steps; inv_fields. Qed.
Hint Resolve inv_commit : inv.
Lemma inv_manage rq fp' revoke : inv Q (encryptionManageMode ToLower rq fp' revoke true).
Proof using request_nonempty. clear secret_nonempty. unfold encryptionManageMode. inv_steps. Qed.
Lemma inv_revoke fp' revoke b : inv Q (encryptionManageMode ToLower "" fp' revoke b).
Proof using Type.
  clear secret_nonempty request_nonempty. unfold encryptionManageMode.
  change (bool_decide ("" <> "")) with false. inv_steps. Qed.

Lemma inv_withCrypto {A} (m : M A) server : inv Q m -> inv Q (withCrypto m server).
Proof using Type.
  clear secret_nonempty request_nonempty ToLower. intros Hm w [Hs Hd Hr].
  apply inv_withCrypto_from; [apply _|done|by split].
Qed.
End Bound.

(** ** Operations of the creator, in any order *)
Section Operations.
Context `{!Primitives}.
Variable ToLower : string -> string.

(** What one process does with the group: each runs under [withCrypto]. [Revoke] is a manual
    removal; a manual approval, where a person compares fingerprints, is not among them. *)
Inductive operation :=
| Issue (address : result string) (expires : Z) (room : string)
| Policy (automatic : option bool)
| Approve (requestID : string)
| Revoke (agent : string)
| Synchronize
| Rotate.

Definition perform (o : operation) : M unit :=
  match o with
  | Issue t e r => _ ← issueCryptoInvite t e r; mret tt
  | Policy b => _ ← encryptionAdmissionPolicy ToLower b; mret tt
  | Approve q => encryptionManageMode ToLower q "" "" true
  | Revoke a => encryptionManageMode ToLower "" "" a false
  | Synchronize => ensureCrypto ToLower
  | Rotate => rotateMLS ToLower
  end.

Definition run_operations (server : string) : list (surroundings * operation) -> world -> world :=
  flip (foldl (fun w uo => (withCrypto (perform uo.2) server (meet uo.1 w)).2)).
End Operations.


Section SingleUse.
Context `{!Primitives}.
Variable ToLower : string -> string.

Lemma perform_inv secret q fp o : secret <> "" -> q <> "" -> inv (bound_world secret q fp) (perform ToLower o).
Proof.
  intros Hs Hq. destruct o; simpl.
  - apply inv_bind; [by apply inv_issue|intros; apply inv_ret].
  - apply inv_bind; [by apply inv_policy_mode|intros; apply inv_ret].
  - by apply inv_manage.
  - by apply inv_revoke.
  - apply (inv_ensureCrypto (bound_world secret q fp)).
  - apply (inv_rotate (bound_world secret q fp)).
Qed.

Lemma run_operations_bound secret q fp server : secret <> "" -> q <> "" ->
  forall l w, Forall (fun uo => secret ∉ su_random uo.1) l -> bound_world secret q fp w ->
  bound_world secret q fp (run_operations ToLower server l w).
Proof.
  intros Hs Hq l. induction l as [|[u o] l IH]; intros w Hl Hw; [done|].
  apply Forall_cons in Hl as [Hu Hl]. unfold run_operations, flip in *. simpl. apply IH; [done|].
  apply inv_withCrypto; [by apply perform_inv|]. destruct Hw. by constructor.
Qed.

(** What a successful reservation found and wrote. *)
Lemma reserve_ok q d proof w w1 : reserveAdmission q d proof w = (Ok tt, w1) ->
  exists h i, admissible (w_now w) (w_state w) q d proof = Some (h, i) /\
    w_state w1 = set_invite h (reserve q (Fingerprint d) i) (w_state w) /\
    w_disk w1 = w_state w1 /\ w_random w1 = w_random w.
Proof.
  clear ToLower. unfold reserveAdmission, mbind, M_bind, now, gets. simpl.
  destruct (admissible _ _ _ _ _) as [[h i]|]; [|done]. simpl. unfold save_state. simpl.
  intros Hr. exists h, i. destruct (w_saves w) as [|[] l]; simplify_eq/=; done.
Qed.

Lemma admissible_found t s q d p h i : admissible t s q d (Some p) = Some (h, i) ->
  h = ap_InviteHash p /\ cs_AdmissionInvites s !! h = Some i /\ q <> "" /\
  VerifyAdmission (in_Secret i) (cs_Root s) (cs_WorkspaceID s) h d (Some p) = true /\
  (in_RequestID i <> "" -> in_RequestID i = q /\ in_Fingerprint i = Fingerprint d).
Proof.
  clear ToLower. unfold admissible. intros E. repeat case_match; simplify_eq.
  repeat match goal with Hb : _ || _ = false |- _ => apply orb_false_iff in Hb as [??] end.
  split_and!; [done|done| by eapply bool_decide_eq_false | by apply negb_false_iff |].
  intros Hn. match goal with Hb : bool_decide (in_RequestID i <> "") && _ = false |- _ =>
    rewrite bool_decide_true in Hb by done; simpl in Hb; apply orb_false_iff in Hb as [Hb1 Hb2] end.
  apply bool_decide_eq_false in Hb1, Hb2.
  split; [by destruct (decide (in_RequestID i = q))|by destruct (decide (in_Fingerprint i = Fingerprint d))].
Qed.

(** C14. An invitation admits one device. Once a request and its device have been reserved
    against an invitation, then after any sequence of invitations issued, policies switched,
    automatic approvals, revocations, synchronizations and rotations - whatever the server
    answers, whichever saves fail, provided fresh random bytes do not repeat the secret - a
    reservation against an invitation with that secret is for the same request and the same
    device fingerprint. *)
Theorem admission_single_use server q d p w w1 l i q2 d2 p2 w2 w3 i2 :
  reserveAdmission q d (Some p) w = (Ok tt, w1) ->
  cs_AdmissionInvites (w_state w) !! ap_InviteHash p = Some i ->
  in_Secret i <> "" ->
  (forall h i', cs_AdmissionInvites (w_state w) !! h = Some i' -> in_Secret i' = in_Secret i -> h = ap_InviteHash p) ->
  in_Secret i ∉ w_random w ->
  Forall (fun uo => in_Secret i ∉ su_random uo.1) l ->
  w2 = run_operations ToLower server l w1 ->
  cs_AdmissionInvites (w_state w2) !! ap_InviteHash p2 = Some i2 -> in_Secret i2 = in_Secret i ->
  reserveAdmission q2 d2 (Some p2) w2 = (Ok tt, w3) ->
  q2 = q /\ Fingerprint d2 = Fingerprint d.
Proof.
  intros Hr Hi Hsec Huniq Hrand Hl -> Hi2 Hsec2 Hr2.
  apply reserve_ok in Hr as (h & i' & Ha & Hw1 & Hd1 & Hr1).
  apply admissible_found in Ha as (-> & Hi' & Hq & _ & _). assert (i' = i) as -> by congruence.
  assert (bound (in_Secret i) q (Fingerprint d) (w_state w1)) as Hb.
  { rewrite Hw1. intros h j. simpl. rewrite lookup_insert. case_decide; [intros [= <-]; done|].
    intros Hj He. by rewrite (Huniq h j Hj He) in *. }
  assert (bound_world (in_Secret i) q (Fingerprint d) w1) as Hbw.
  { constructor; [done|by rewrite Hd1|by rewrite Hr1]. }
  apply (run_operations_bound _ _ _ server Hsec Hq l _ Hl) in Hbw as [Hs _ _].
  apply reserve_ok in Hr2 as (h & j & Ha & _).
  apply admissible_found in Ha as (-> & Hj & _ & _ & Hmatch). assert (j = i2) as -> by congruence.
  destruct (Hs _ _ Hi2 Hsec2) as [E1 E2]. destruct Hmatch as [F1 F2]; [by rewrite E1|].
  split; congruence.
Qed.
End SingleUse.

(** ** Instances *)
Definition demo_invitation : savedAdmissionInvite := mkInvite "general" demo_key 100 "" "".
Definition demo_creator : cryptoState :=
  put_AdmissionInvites {["invite" := demo_invitation]} (put_AutomaticInvites true
    (put_ActiveRoster demo_roster2 (demo_state "a"))).
Definition demo_creator_world : world := mkWorld demo_creator demo_creator (Ok demo_key) [] [] ["x"] 10 [] no_files ∅.
Definition demo_admission : AdmissionProof :=
  mkAdmissionProof "invite" "ws" (AdmissionMAC demo_key demo_key "ws" "invite" joining).

(** Between the reservation and its retry a new invitation is issued, an approval finds no
    network and a save fails. *)
Definition demo_quiet (random : list string) (saves : list (option string)) : surroundings :=
  mkSurroundings (Ok demo_key) saves [] random 20.
Definition demo_operations : list (surroundings * operation) :=
  [(demo_quiet ["another secret"] [], Issue (Ok "token") 0 "general");
   (demo_quiet [] [], Approve "request-2"); (demo_quiet [] [Some "disk full"], Synchronize)].

Definition demo_reserved : world := (reserveAdmission "request-1" joining (Some demo_admission) demo_creator_world).2.
Definition demo_later : world :=
  run_operations ascii_lower "https://tincan.example" demo_operations demo_reserved.

Lemma ran_ok (m : M unit) w : is_ok (m w).1 = true -> m w = (Ok tt, (m w).2).
Proof. by destruct (m w) as [[[]|] ?]. Qed.

Lemma demo_kept : cs_AdmissionInvites (w_state demo_later) !! "invite" =
  Some (reserve "request-1" (Fingerprint joining) demo_invitation).
Proof. vm_compute. reflexivity. Qed.

Lemma demo_reserved_ok : reserveAdmission "request-1" joining (Some demo_admission) demo_creator_world = (Ok tt, demo_reserved).
Proof. unfold demo_reserved. apply ran_ok. vm_compute. reflexivity. Qed.
Lemma demo_unique h i' : cs_AdmissionInvites (w_state demo_creator_world) !! h = Some i' ->
  in_Secret i' = in_Secret demo_invitation -> h = ap_InviteHash demo_admission.
Proof.
  intros Hl _. change (({["invite" := demo_invitation]} : gmap string savedAdmissionInvite) !! h = Some i') in Hl.
  apply lookup_singleton_Some in Hl as [<- _]. reflexivity.
Qed.
Lemma demo_fresh : in_Secret demo_invitation ∉ w_random demo_creator_world /\
  Forall (fun uo => in_Secret demo_invitation ∉ su_random uo.1) demo_operations.
Proof.
  split; [intros Hx; apply list_elem_of_singleton in Hx; discriminate|].
  repeat constructor; simpl; intros Hx; [apply list_elem_of_singleton in Hx; discriminate|by inversion Hx..].
Qed.
Lemma demo_again : exists w3, reserveAdmission "request-1" joining (Some demo_admission) demo_later = (Ok tt, w3).
Proof. eexists. apply ran_ok. vm_compute. reflexivity. Qed.

Lemma demo_later_eq : demo_later = run_operations ascii_lower "https://tincan.example" demo_operations demo_reserved.
Proof. unfold demo_later. reflexivity. Qed.

Lemma admission_single_use_witness :
  "request-1" = "request-1" /\ Fingerprint joining = Fingerprint joining.
Proof.
  destruct demo_again as [w3 Hagain]. destruct demo_fresh as [Hf1 Hf2].
  exact (@admission_single_use demo_primitives ascii_lower "https://tincan.example" "request-1" joining demo_admission
    demo_creator_world demo_reserved demo_operations demo_invitation "request-1" joining demo_admission demo_later w3
    (reserve "request-1" (Fingerprint joining) demo_invitation)
    demo_reserved_ok eq_refl ltac:(discriminate) demo_unique Hf1 Hf2 demo_later_eq demo_kept eq_refl Hagain).
Defined.
