(* ===== verification/Routes.v ===== *)
(** * Routing calls to the keys of a room

    [cmd/tincan/room_crypto_routes.go], the routing half of [encryption.go] ([encryptedCall],
    [encryptedRequest], the outer parts of [encryptionManageMode] and [decryptInboxEvent]),
    [room_encryption.go] ([currentCryptoConfig], [requirePlainChannel]) and [callContext]
    ([main.go]): which of the saved room identities a call runs under, and when it goes out as
    it is. [url.Parse] is a parameter, and so is what the saved connection file holds. *)
From stdpp Require Import sorting.
From S2P Require Import Prelude GoStrings Json Types Crypto Roster Metadata History Inbox.
From S2P Require Import Encryption Mls Groups Messages Admission.

#[export] Instance M_fmap : FMap M := fun _ _ f m => a ← m; mret (f a).

(** [u.Path] and [u.Query().Get]. *)
Record url := mkURL { url_Path : string; url_Query : string -> string }.

(** [c.CryptoPath, c.EncryptionRoom, c.CryptoRooms = path, room, rooms]. *)
Definition set_Crypto (path room : string) (rooms : gmap string string) (c : Config) : Config :=
  mkConfig (cfg_PendingEncryptedRoom c) rooms room (cfg_ConnectionPath c) path (cfg_PendingJoin c)
    (cfg_Server c) (cfg_Token c).

Definition errNoKeys : string := "this connection has no keys for this room; join it with a room invitation".
Definition errMissingState : string :=
  "encryption state is missing; rejoin as a fresh device and import a history backup".

(** ** The connection ([currentCryptoConfig]): [saved] is the configuration in the connection file *)
Definition currentCryptoConfig (saved : option Config) (c : Config) : Config :=
  if bool_decide (cfg_ConnectionPath c = "") then c else
  match saved with
  | None => c
  | Some s =>
      if bool_decide (cfg_Token s = cfg_Token c) && bool_decide (cfg_Server s = cfg_Server c)
         && negb (bool_decide (cfg_CryptoPath s = ""))
      then set_Crypto (if bool_decide (cfg_EncryptionRoom c = "") then cfg_CryptoPath s else cfg_CryptoPath c)
             (cfg_EncryptionRoom c) (cfg_CryptoRooms s) c
      else c
  end.

(** ** The identities that this device created ([managedCryptoConfigs]) *)
Definition identity_paths (c : Config) : list string :=
  merge_sort String.le
    (elements ({[cfg_CryptoPath c]} ∪ list_to_set ((map_to_list (cfg_CryptoRooms c)).*2) : gset string)).
Definition managed_config (groups : gmap string group) (c : Config) (path : string) : option Config :=
  g ← groups !! path;
  let s := gr_state g in
  let key := id_SigningKey (cs_Identity s) in
  if (len key =? 64) && bool_decide (drop_str 32 key = cs_Root s) then Some (set_Crypto path (cs_RoomID s) ∅ c) else None.
Definition managedCryptoConfigs (groups : gmap string group) (c : Config) : list Config :=
  omap (managed_config groups c) (identity_paths c).

Section Routes.
Context `{!Primitives}.
Variables (ToLower DetectContentType number : string -> string) (url_parse : string -> option url).

Definition get_groups : M (gmap string group) := fun w => (Ok (w_groups w), w).
Definition raw (method path : string) (v : option json) : M answer := call (RawCall method path v).

(** ** [withCrypto] on the identity of a configuration *)
Definition enter (g : group) (w : world) : world :=
  mkWorld (gr_state g) (gr_state g) (gr_history g) (w_saves w) (w_net w) (w_random w) (w_now w) (w_log w)
    (gr_files g) (w_groups w).
Definition leave (path : string) (w v : world) : world :=
  mkWorld (w_state w) (w_disk w) (w_history w) (w_saves v) (w_net v) (w_random v) (w_now v) (w_log v) (w_files w)
    (<[path := mkGroup (w_disk v) (w_history v) (w_files v)]> (w_groups v)).
Definition locked {A} (c : Config) (m : M A) : M A := fun w =>
  if bool_decide (cfg_CryptoPath c = "") then (Err "this connection has no local encryption keys", w) else
  match w_groups w !! cfg_CryptoPath c with
  | None => (Err errMissingState, w)
  | Some g => let '(r, v) := withCrypto m (cfg_Server c) (enter g w) in (r, leave (cfg_CryptoPath c) w v)
  end.

(** ** The identity of a room *)
(** The [room_id] in a state file; none when it cannot be read. *)
Definition saved_room (groups : gmap string group) (path : string) : string :=
  default "" (cs_RoomID ∘ gr_state <$> groups !! path).

Definition cryptoConfigForRoom (c : Config) (room : string) : M Config :=
  if bool_decide (room = "") then mret c else
  let path := default "" (cfg_CryptoRooms c !! room) in
  if negb (bool_decide (path = "")) then mret (set_Crypto path room (cfg_CryptoRooms c) c) else
  groups ← get_groups;
  let saved := saved_room groups (cfg_CryptoPath c) in
  if bool_decide (saved = room) || (bool_decide (saved = "") && HasPrefix room "rm_mls_")
  then mret (set_Crypto (cfg_CryptoPath c) room (cfg_CryptoRooms c) c)
  else if HasPrefix room "rm_mls_" then fail errNoKeys else mret c.
Definition cryptoConfigForChannel (c : Config) (channel : string) : M Config :=
  cryptoConfigForRoom c (RoomForChannel channel).

(** The channel and the room named in the body of a call. *)
Definition decode_scope (v : json) : option (string * string) :=
  decode_object
    [("channel_id", fun v p => s ← decode_string v p.1; Some (s, p.2));
     ("room_id", fun v p => s ← decode_string v p.2; Some (p.1, s))] v ("", "").
Definition or_else (a b : string) : string := if bool_decide (a = "") then b else a.

Definition routeCryptoCall (c : Config) (path : string) (v : option json) : M Config :=
  match url_parse path with
  | None => fail "invalid address"
  | Some u =>
      match (match v with Some v => decode_scope v | None => Some ("", "") end) with
      | None => fail "invalid arguments"
      | Some (channel, room) =>
          let channel := or_else channel (url_Query u "channel_id") in
          let room := or_else room (url_Query u "room_id") in
          if bool_decide (channel <> "") then cryptoConfigForChannel c channel else cryptoConfigForRoom c room
      end
  end.

(** ** Receiving under the right identity *)
Definition decryptRoomMessage (c : Config) (m : Message) : M Message :=
  match msg_Encrypted m with
  | None =>
      if HasPrefix (msg_ChannelID m) "ch_plain_" then mret m
      else locked c (s ← gets id; require (plainCryptoChannel s (msg_ChannelID m)) errPlaintext);; mret m
  | Some _ =>
      scoped ← cryptoConfigForChannel c (msg_ChannelID m);
      locked scoped (ensureCrypto ToLower;; decryptMessage ToLower m)
  end.

Definition openRoomFile (c : Config) (blob channel data : string) : M (Attachment * string) :=
  match json_parse data ≫= decode_envelope with
  | None => fail "invalid encrypted attachment"
  | Some e =>
      scoped ← cryptoConfigForChannel c (env_ChannelID e);
      locked scoped (ensureCrypto ToLower;; openCryptoFile ToLower blob channel data)
  end.

(** ** Calls ([encryptedCall]) *)
(** [json.Unmarshal] of a message to send; a raw field keeps its value. *)
Definition set_Channel (v : string) (m : SendInput) : SendInput :=
  mkSendInput (si_Encrypted m) v (si_Text m) (si_SharingPurpose m) (si_SharingContext m) (si_Metadata m)
    (si_AttachmentIDs m) (si_Mentions m) (si_ReplyTo m) (si_IdempotencyKey m).
Definition set_Words (text purpose context key : string) (m : SendInput) : SendInput :=
  mkSendInput (si_Encrypted m) (si_ChannelID m) text purpose context (si_Metadata m)
    (si_AttachmentIDs m) (si_Mentions m) (si_ReplyTo m) key.
Definition set_Lists (attachments mentions : list string) (reply : option string) (m : SendInput) : SendInput :=
  mkSendInput (si_Encrypted m) (si_ChannelID m) (si_Text m) (si_SharingPurpose m) (si_SharingContext m)
    (si_Metadata m) attachments mentions reply (si_IdempotencyKey m).
Definition set_Extra (e : option Envelope) (metadata : json) (m : SendInput) : SendInput :=
  mkSendInput e (si_ChannelID m) (si_Text m) (si_SharingPurpose m) (si_SharingContext m) metadata
    (si_AttachmentIDs m) (si_Mentions m) (si_ReplyTo m) (si_IdempotencyKey m).
Definition zero_send : SendInput := mkSendInput None "" "" "" "" JNull [] [] None "".
Definition send_decoders : list (string * (json -> SendInput -> option SendInput)) :=
  [("encrypted", fun v m =>
      match v with
      | JNull => Some (set_Extra None (si_Metadata m) m)
      | _ => e ← decode_object envelope_decoders v (default zero_envelope (si_Encrypted m));
             Some (set_Extra (Some e) (si_Metadata m) m)
      end);
   ("channel_id", fun v m => s ← decode_string v (si_ChannelID m); Some (set_Channel s m));
   ("text", fun v m => s ← decode_string v (si_Text m);
      Some (set_Words s (si_SharingPurpose m) (si_SharingContext m) (si_IdempotencyKey m) m));
   ("sharing_purpose", fun v m => s ← decode_string v (si_SharingPurpose m);
      Some (set_Words (si_Text m) s (si_SharingContext m) (si_IdempotencyKey m) m));
   ("sharing_context", fun v m => s ← decode_string v (si_SharingContext m);
      Some (set_Words (si_Text m) (si_SharingPurpose m) s (si_IdempotencyKey m) m));
   ("metadata", fun v m => Some (set_Extra (si_Encrypted m) v m));
   ("attachment_ids", fun v m => l ← decode_list v; Some (set_Lists l (si_Mentions m) (si_ReplyTo m) m));
   ("mentions", fun v m => l ← decode_list v; Some (set_Lists (si_AttachmentIDs m) l (si_ReplyTo m) m));
   ("reply_to", fun v m => o ← decode_pointer "" decode_string v (si_ReplyTo m);
      Some (set_Lists (si_AttachmentIDs m) (si_Mentions m) o m));
   ("idempotency_key", fun v m => s ← decode_string v (si_IdempotencyKey m);
      Some (set_Words (si_Text m) (si_SharingPurpose m) (si_SharingContext m) s m))].
Definition decode_send (v : json) : option SendInput := decode_object send_decoders v zero_send.
(** The text of [in.Metadata]; empty when the field is absent. *)
Definition metadata_text (v : json) : string :=
  default "" (json_text <$> (decode_object [("metadata", fun x _ => Some (Some x))] v None ≫= id)).

(** The body of a call that [routeCryptoCall] accepted: its channel and its room. *)
Definition body_channel (v : option json) : string := default "" (fst <$> (v ≫= decode_scope)).
Definition body_room (v : option json) : string := default "" (snd <$> (v ≫= decode_scope)).

(** [strconv.Atoi], as far as whether the number is in 1..100 goes. *)
Definition Atoi (s : string) : Z := default 0 (parse_int (TrimPrefix s "+")).

Inductive call_result :=
| Answered (a : answer)
| Sent (m : Message)
| Found (l : list Message)
| Invited (secret : option string).

(** The query of a history request; a limit that is no number is 0. *)
Definition history_call (scoped : bool) (decrypt : Message -> M Message) (u : url) : M call_result :=
  Found <$> cryptoHistory ToLower number scoped decrypt (url_Query u "channel_id") (url_Query u "q")
               (url_Query u "metadata") (Atoi (url_Query u "limit")) (url_Query u "before").

(** An invitation of a standard room needs no keys. *)
Definition standard_room (v : option json) : M bool :=
  let room := body_room v in
  if HasPrefix room "rm_mls_" then mret false
  else
    rooms ← ask GetRooms as_rooms;
    mret (existsb (fun r => bool_decide (rm_ID r = room) && bool_decide (rm_Mode r = "standard")) rooms).

(** Adding the pinned identity, and the secret of automatic admission, to an invitation. *)
Definition seal_invite (v : option json) (a : answer) : M call_result :=
  match a with
  | AnsInvite i =>
      if iv_Standard i then mret (Answered a) else
      match iv_Expires i with
      | None => fail "cannot decode the expiry of the invitation"
      | Some expires => Invited <$> issueCryptoInvite (iv_Address i) expires (body_room v)
      end
  | _ => mret (Answered a)
  end.

(** The section under [withCrypto]. *)
Definition scoped_call (method path : string) (u : url) (v : option json) : M call_result :=
  ensureCrypto ToLower;;
  if bool_decide (method = "POST") && bool_decide (path = "/messages") then
    let body := default JNull v in
    match decode_send body with
    | None => fail "invalid arguments"
    | Some input =>
        s ← gets id;
        if plainCryptoChannel s (si_ChannelID input) then Answered <$> raw method path v
        else Sent <$> cryptoSend ToLower input (metadata_text body)
    end
  else if bool_decide (method = "GET") && (bool_decide (path = "/messages") || HasPrefix path "/messages?")
  then history_call true (decryptMessage ToLower) u
  else
    a ← raw method path v;
    if bool_decide (method = "POST") && bool_decide (path = "/invites") then seal_invite v a else mret (Answered a).

Definition encryptedCall (c : Config) (method path : string) (v : option json) : M call_result :=
  c ← routeCryptoCall c path v;
  match url_parse path with
  | None => fail "invalid address"
  | Some u =>
      let plain := Answered <$> raw method path v in
      if negb (bool_decide (path = "/invites")) && negb (bool_decide (path = "/messages"))
         && negb (bool_decide (url_Path u = "/messages")) then plain
      else if HasPrefix (url_Query u "channel_id") "ch_plain_" then plain
      else if bool_decide (method = "POST") && bool_decide (path = "/messages")
              && HasPrefix (body_channel v) "ch_plain_" then plain
      else if bool_decide (method = "GET") && bool_decide (url_Path u = "/messages")
              && bool_decide (url_Query u "channel_id" = "")
      then history_call false (decryptRoomMessage c) u
      else
        standard ← (if bool_decide (method = "POST") && bool_decide (path = "/invites")
                    then standard_room v else mret false);
        if (standard : bool) then plain else locked c (scoped_call method path u v)
  end.

(** ** Calls of a connection ([callContext]) *)
Definition requirePlainChannel (channel : string) : M unit :=
  if bool_decide (channel = "") then mret tt else
  channels ← ask GetChannels as_channels;
  match List.find (fun ch => bool_decide (ch_ID ch = channel)) channels with
  | None => fail "channel unavailable"
  | Some ch =>
      require (negb (bool_decide (ch_Mode ch = "e2ee")))
        "this room requires your local encryption keys; no plaintext was sent"
  end.

Definition callContext (saved : option Config) (c : Config) (method path : string) (v : option json) : M call_result :=
  let c := currentCryptoConfig saved c in
  if negb (bool_decide (cfg_CryptoPath c = "")) then encryptedCall c method path v else
  (if bool_decide (method = "POST") && bool_decide (path = "/messages") then
     match decode_send (default JNull v) with
     | None => fail "invalid arguments"
     | Some input => requirePlainChannel (si_ChannelID input)
     end
   else mret tt);;
  Answered <$> raw method path v.

(** ** Uploads ([encryptedRequest]): the result is the attachment, or the response as it came *)
Definition encryptedRequest (c : Config) (method path body : string) : M (Attachment + answer) :=
  c ← routeCryptoCall c path None;
  match url_parse path with
  | None => fail "invalid address"
  | Some u =>
      let channel := url_Query u "channel_id" in
      let name := url_Query u "name" in
      if bool_decide (method = "POST") && HasPrefix path "/uploads" && HasPrefix channel "ch_plain_"
      then inr <$> call (PostUpload channel name body)
      else if bool_decide (method = "POST") && bool_decide (url_Path u = "/uploads") then
        let data := read_limited (MaxFileBytes + 1) body in
        inl <$> locked c (ensureCrypto ToLower;; cryptoUpload ToLower DetectContentType channel name data)
      else inr <$> raw method path (Some (JStr body))
  end.

(** ** Managing the members of every room this device created (outer [encryptionManageMode]) *)
Definition manage_one (c : Config) (requestID fingerprint revoke : string) (automatic : bool)
    : M (list (admissionRequest * string)) :=
  locked c (if bool_decide (requestID = "") && bool_decide (revoke = "") then pending_requests ToLower
            else encryptionManageMode ToLower requestID fingerprint revoke automatic;; mret []).

Fixpoint manage_all (automatic : bool) (l : list Config) : M (list (admissionRequest * string)) :=
  match l with
  | [] => mret []
  | c :: l => rows ← manage_one c "" "" "" automatic; rest ← manage_all automatic l; mret (rows ++ rest)
  end.

(** The room with the pending request; rooms whose listing fails are passed over. *)
Fixpoint find_managed (requestID : string) (l : list Config) : M (option Config) :=
  match l with
  | [] => mret None
  | c :: l =>
      rows ← attempt (ask GetRequests as_requests);
      match rows with
      | Ok rows => if existsb (fun x => bool_decide (ar_ID x = requestID)) rows then mret (Some c)
                   else find_managed requestID l
      | Err _ => find_managed requestID l
      end
  end.

Definition manage_rooms (c : Config) (requestID fingerprint revoke : string) (automatic : bool)
    : M (list (admissionRequest * string)) :=
  if bool_decide (cfg_EncryptionRoom c = "") && negb (bool_decide (cfg_CryptoRooms c = ∅)) then
    groups ← get_groups;
    let l := managedCryptoConfigs groups c in
    if bool_decide (requestID = "") && bool_decide (revoke = "") then manage_all automatic l
    else if negb (bool_decide (requestID = "")) then
      found ← find_managed requestID l;
      match found with
      | Some c => manage_one c requestID fingerprint revoke automatic
      | None => fail (if automatic then errManualAdmission
                      else "pending request is not in an encrypted room managed by this connection")
      end
    else manage_one c requestID fingerprint revoke automatic
  else manage_one c requestID fingerprint revoke automatic.

(** ** Listening ([decryptInboxEvent]) *)
Definition decryptInboxEvent (saved : option Config) (c : Config) (event : inboxEvent) : M (bool * inboxEvent) :=
  let c := currentCryptoConfig saved c in
  handled ← (match ev_JoinRequest event with
             | Some j =>
                 if negb (bool_decide (cfg_CryptoPath c = "")) && bool_decide (ev_Kind event = "join_requested") then
                   r ← attempt (manage_rooms c (jn_RequestID j) "" "" true);
                   match r with
                   | Ok _ => mret true
                   | Err e => require (bool_decide (e = errManualAdmission)) e;; mret false
                   end
                 else mret false
             | None => mret false
             end);
  if (handled : bool) then mret (false, event) else
  if bool_decide (cfg_CryptoPath c = "") || negb (bool_decide (ev_Kind event = "message")) then mret (true, event) else
  require (bool_decide (ev_ChannelID event = msg_ChannelID (ev_Payload event)) && (0 <? ev_Seq event))
    "encrypted event routing was modified";;
  if bool_decide (msg_Encrypted (ev_Payload event) = None) then
    m ← decryptRoomMessage c (ev_Payload event); mret (true, set_Payload m event)
  else
    c ← cryptoConfigForChannel c (ev_ChannelID event);
    locked c (receive_event ToLower event).
End Routes.

(** ** What the inbox needs of the routing ([CryptoRoutes]) *)
Lemma managed_none groups c : groups !! "" = None -> cfg_CryptoPath c = "" -> cfg_CryptoRooms c = ∅ ->
  managedCryptoConfigs groups c = [].
Proof.
  intros Hno Hp Hr. unfold managedCryptoConfigs, identity_paths. rewrite Hp, Hr.
  assert (elements ({[""]} ∪ list_to_set (map_to_list (∅ : gmap string string)).*2 : gset string) = [""]) as ->.
  { rewrite map_to_list_empty. simpl. rewrite union_empty_r_L. apply elements_singleton. }
  simpl. unfold managed_config. by rewrite Hno.
Qed.

#[refine] Instance saved_routes (groups : gmap string group) (saved : option Config) (no_file : groups !! "" = None)
    : CryptoRoutes :=
  {| managed := fun c => Z.of_nat (length (managedCryptoConfigs groups (currentCryptoConfig saved c))) |}.
Proof.
  - intros c. lia.
  - intros c Hc Hp Hr. unfold currentCryptoConfig. rewrite bool_decide_eq_true_2 by done. by rewrite managed_none.
Defined.
