(* ===== verification/Scenario.v ===== *)
(** * A room of two members

    A concrete room with the devices of agents [a] (the creator) and [b] under the stand-in
    primitives of [Toy.v], at which the theorems on messages are instantiated. *)
From S2P Require Import Prelude GoStrings Json Types Crypto Toy Roster RosterTheorems Metadata History.
From S2P Require Import Encryption Mls Groups MlsTheorems Messages Invariants.

#[export] Instance room_primitives : Primitives := toy_with digest64 toy_group.

Definition key_b : string := "012345abcdefghijklmnopqrstuvwxyz".
Definition room_server : string := "https://tincan.example".
Definition room_channel : string := "ch_room_rm_mls_1_general".

(** A member whose module state is [group], with the roster of epoch 1 applied. *)
Definition member_state (agent key : string) : cryptoState :=
  mkCrypto "" "rm_mls_1" "" [] ∅ ∅ false ∅ None (mkIdentity ("age-" +:+ agent) (key +:+ key)) demo_key
    room_server "ws" agent 1 (Roster_Hash demo_signed) 2 (demo_key +:+ demo_key) "group" "" 1 1 demo_signed None
    ∅ ∅ ∅ ∅ ∅ 0 0.
Definition member (agent key : string) (net : list (result answer)) : world :=
  mkWorld (member_state agent key) (member_state agent key) (Ok demo_key) [] net
    [demo_key; "a nonce"; "mls"; "another nonce"; "more"] 0 [] no_files ∅.

Definition hello : SendInput := mkSendInput None room_channel "hello" "" "" JNull [] [] None "key-1".
Definition hello_envelope : Envelope :=
  set_Refs [] None [] (set_Route "ws" room_channel "a" "key-1" zero_envelope).

(** The server's part of [ensureCrypto] on a member that is up to date. *)
Definition up_to_date (agent : string) : list (result answer) :=
  [Ok (AnsMe agent "ws" false); Ok (AnsStatus 1 demo_key 2); Ok (AnsRows []); Ok (AnsRoster demo_signed)].
Definition no_metadata : string := json_string (JObj []).
Definition draws : list string := [demo_key; "a nonce"; "mls"; "another nonce"; "more"].
Definition around (net : list (result answer)) : surroundings := mkSurroundings (Ok demo_key) [] net draws 0.

(** What [a] posts, and how the relay shows it to [b]. *)
Definition posted_envelope : Envelope :=
  match sealMLS ascii_lower (set_Refs [] None [] (set_Route "ws" room_channel "a" "key-1" zero_envelope)) demo_signed
          (json_text (body_json (mkBody "hello" (JObj []) []))) (member "a" demo_key []) with
  | (Ok e, _) => e
  | _ => zero_envelope
  end.
Definition shown_message : Message :=
  mkMessage "" (Some posted_envelope) None None 7 (MessageID posted_envelope) room_channel "a" "A. Relay" ""
    (JObj []) [] [] None 0.
(** The journal row of the envelope, which has no payload. *)
Definition envelope_row : row :=
  mkRow 2 "envelope" (PayloadEnvelope (set_Sealed "" (env_Signature posted_envelope) posted_envelope)).

(** A run that succeeds, by evaluating only whether it does. *)
Definition value {A} (default : A) (r : result A) : A := match r with Ok a => a | Err _ => default end.
Lemma ran_as {A} (d : A) (m : M A) w : is_ok (m w).1 = true -> m w = (Ok (value d (m w).1), (m w).2).
Proof. by destruct (m w) as [[a|e] w1]. Qed.

(** The relay delivers the message under a sequence number. *)
Definition shown_event (seq : Z) : inboxEvent := mkEvent None None false None seq "message" room_channel shown_message.
