(* ===== verification/MessagesTheorems.v ===== *)
(** * Encrypted messages: properties

    No content leaves the client in the clear, and all that is ever posted under an idempotency
    key is one and the same message. *)
From S2P Require Import Prelude GoStrings Json Types Crypto Toy Roster RosterTheorems Metadata History.
From S2P Require Import Encryption Mls MlsFacts Groups MlsTheorems Messages Invariants Scenario.

(** ** No content in the clear *)
Section Sending.
Context `{!Primitives}.
Variable ToLower : string -> string.

(** The ciphertext is the output of the payload cipher under a 32-byte key, or of age. *)
Definition ciphered (e : Envelope) : Prop :=
  (env_Version e = 2 /\ exists key nonce plain,
     len key = 32 /\ env_Ciphertext e = aead_seal key nonce plain (MessageID e)) \/
  (env_Version e = e2ee_Version /\ exists recipients random plain,
     recipients <> [] /\ age_encrypt recipients random plain = Ok (env_Ciphertext e)).

(** A message whose content is only in its envelope. *)
Definition sealed (m : SendInput) : Prop :=
  si_Text m = "" /\ si_Metadata m = JObj [] /\ exists e, si_Encrypted m = Some e /\ ciphered e.
Definition hides (q : request) : Prop :=
  match q with
  | PostMessage m => sealed m
  | PostUpload _ name data => name = "encrypted.age" /\ exists e, ciphered e /\ data = json_text (envelope_json e)
  | RawCall method path _ => ~ (method = "POST" /\ path = "/messages")
  | CallTool _ _ => False
  | _ => True
  end.

(** What is saved for posting again. *)
Definition sealed_outbox (s : cryptoState) : Prop := map_Forall (fun _ v => sealed (sv_Input v)) (cs_Outbox s).
Definition sealed_file (f : file savedSend) : Prop :=
  match f with Ok (Some v) => sealed (sv_Input v) | _ => True end.

(** Sealed, since [before] only requests that hide content or that [extra] allows, and the
    files of the other groups as they were. *)
Section Covered.
Variables (extra : request -> Prop) (groups : gmap string group).
Definition allowed (q : request) : Prop := hides q \/ extra q.

Record covered (before : list request) (w : world) : Prop := {
  cv_state : sealed_outbox (w_state w);
  cv_disk : sealed_outbox (w_disk w);
  cv_files : map_Forall (fun _ => sealed_file) (f_outbox (w_files w));
  cv_log : exists l, w_log w = before ++ l /\ Forall allowed l;
  cv_groups : w_groups w = groups }.

Lemma covered_log before w q (Hq : allowed q) :
  (exists l, w_log w = before ++ l /\ Forall allowed l) ->
  exists l, w_log w ++ [q] = before ++ l /\ Forall allowed l.
Proof.
  intros (l & -> & Hl). exists (l ++ [q]). split; [by rewrite app_assoc|].
  apply Forall_app. split; [done|by constructor].
Qed.

Lemma covered_call before q : allowed q -> inv (covered before) (call q).
Proof.
  intros Hq w [Hs Hd Hf Hl Hg]. unfold call.
  destruct (w_net w); split; simpl; by first [done | apply covered_log].
Qed.

#[local] Instance covered_stable before : Stable (covered before).
Proof.
  split.
  - intros f Hf w [Hs Hd Hfs Hl Hg]. split; [|done..]. unfold sealed_outbox. simpl.
    rewrite (f_equal (fun v => v.1.2) (Hf (w_state w)) : cs_Outbox _ = _). done.
  - intros w [Hs Hd Hfs Hl Hg]. unfold save_state. destruct (w_saves w) as [|[] l]; by split.
  - intros q Hq. apply covered_call. left. by destruct q.
  - intros w [Hs Hd Hfs Hl Hg]. unfold random. destruct (w_random w); by split.
Qed.

(** A continuation that is reached only with results of a kind. *)
Lemma inv_bind_post {A B} (Q : world -> Prop) (P : A -> Prop) (m : M A) (f : A -> M B) :
  inv Q m -> (forall w a w', Q w -> m w = (Ok a, w') -> P a) -> (forall a, P a -> inv Q (f a)) ->
  inv Q (m ≫= f).
Proof.
  intros Hm Hp Hf w Hw. specialize (Hm w Hw). unfold mbind, M_bind.
  destruct (m w) as [[a|e] w1] eqn:E; [|done]. apply Hf; [by eapply Hp|done].
Qed.

(** ** What sealing yields *)
Lemma seal_payload_ok e plain w e1 key w1 : seal_payload e plain w = (Ok (e1, key), w1) ->
  exists nonce, len key = 32 /\ let c := aead_seal key nonce plain (MessageID e) in
    e1 = set_PayloadHash (PayloadHash c) (set_Sealed c (env_Signature e) e) /\ w_state w1 = w_state w.
Proof.
  clear ToLower. unfold seal_payload. intros Hs. m_inv.
  repeat match goal with Hr : random _ = (Ok _, _) |- _ => apply random_state in Hr end.
  match goal with Hl : Ok _ = SealLocal _ _ _ _ |- _ => unfold SealLocal in Hl; symmetry in Hl end.
  case_match; [done|]. bool_simpl. simplify_eq. eexists. split_and!; [done|reflexivity|congruence].
Qed.

Lemma wrap_key_ok r e key w e1 k w1 : wrap_key r e key w = (Ok (e1, k), w1) ->
  exists g room, e1 = set_Room g room e /\ w_state w1 = w_state w.
Proof.
  clear ToLower. unfold wrap_key. intros Hs. m_inv. case_bool_decide; m_inv.
  - case_bool_decide; m_inv; repeat match goal with Hr : random _ = (Ok _, _) |- _ => apply random_state in Hr end; eauto.
  - exists (env_RoomGroup e), (env_RoomID e). split; [by destruct e|done].
Qed.

Lemma SignMLS_ok i e e1 : SignMLS i e = Ok e1 -> exists s, e1 = set_Sealed (env_Ciphertext e) s e.
Proof. clear ToLower. unfold SignMLS. intros (s & _ & [= <-])%bind_ok. by exists s. Qed.

Lemma sealMLS_ciphered e r plain w e' w' : sealMLS ToLower e r plain w = (Ok e', w') ->
  ciphered e' /\ MessageID e' = MessageID e.
Proof.
  intros Hs. unfold sealMLS in Hs. m_inv.
  m_pairs.
  match goal with Hp : seal_payload _ _ _ = _ |- _ => apply seal_payload_ok in Hp as (nonce & Hk & -> & _) end.
  match goal with Hw : wrap_key _ _ _ _ = _ |- _ => apply wrap_key_ok in Hw as (g & room & -> & _) end.
  match goal with Hg : Ok _ = SignMLS _ _ |- _ => symmetry in Hg; apply SignMLS_ok in Hg as (sg & ->) end.
  split; [|done]. left. split; [done|]. by eexists _, nonce, plain.
Qed.

Lemma Seal_ciphered i r l x data e e' : Seal i r l x data e = Ok e' -> ciphered e' /\ MessageID e' = MessageID e.
Proof.
  clear ToLower. unfold Seal.
  set (p := if bool_decide (ChannelRoom r (env_ChannelID e) <> "") then _ else _).
  assert (exists g room, p.1 = set_Room g room e) as (g & room & Hp).
  { unfold p. case_bool_decide; [by eexists _, _|]. exists (env_RoomGroup e), (env_RoomID e). by destruct e. }
  destruct p as [e1 l1]. simpl in Hp. subst e1. simpl. case_match; [done|].
  intros (c & Hc & (s & _ & [= <-])%bind_ok)%bind_ok. split; [|done]. right. split; [done|].
  unfold Encrypt in Hc. repeat case_match; try done. bool_simpl.
  all: exists (dev_Recipient <$> l1), x, data; split; [by destruct l1|exact Hc].
Qed.

(** ** Every request of a send *)
Lemma covered_write before key v : sealed (sv_Input v) -> inv (covered before) (write_saved key v).
Proof.
  clear ToLower. intros Hv. unfold write_saved. inv_steps.
  - intros w [Hs Hd Hf Hl Hg]. split; [|done..]. unfold sealed_outbox. simpl. by apply map_Forall_insert_2.
  - intros w [Hs Hd Hf Hl Hg]. unfold write_files.
    destruct (w_saves w) as [|[] l]; split; try done; simpl; by apply map_Forall_insert_2.
Qed.
Lemma covered_forget before key : inv (covered before) (forget_saved key).
Proof.
  clear ToLower. unfold forget_saved. inv_steps.
  - intros w [Hs Hd Hf Hl Hg]. split; [|done..]. unfold sealed_outbox. simpl. by apply map_Forall_delete.
  - intros w [Hs Hd Hf Hl Hg]. unfold write_files.
    destruct (w_saves w) as [|[] l]; split; try done; simpl; by apply map_Forall_delete.
Qed.
Lemma covered_read before key w v w' : covered before w -> readSaved key w = (Ok v, w') ->
  forall sv, v = Some (Some sv) -> sealed (sv_Input sv).
Proof.
  clear ToLower. intros [Hs Hd Hf Hl Hg] Hr sv ->. unfold readSaved in Hr. m_inv. case_match; m_inv.
  - match goal with He : Some (Some sv) = _ |- _ => symmetry in He; apply fmap_Some in He as (? & He & [= ->]) end.
    by apply (Hs key).
  - unfold get_files in *. simplify_eq. case_match; [|done]. case_match; m_inv.
    by apply (Hf _ _ ltac:(eassumption)).
Qed.

Lemma inv_readSaved (Q : world -> Prop) key : inv Q (readSaved key).
Proof. clear ToLower. unfold readSaved. inv_steps. Qed.
Hint Resolve inv_readSaved covered_forget : inv.

Lemma covered_compose before input digest : inv (covered before) (compose_send ToLower input digest).
Proof.
  unfold compose_send. do 4 (apply inv_bind; [auto with inv|intros ?]).
  apply (inv_bind_post _ ciphered).
  - inv_steps.
  - intros w e w' _ He. destruct (cs_Protocol a2 =? 2); m_inv; [by eapply sealMLS_ciphered|].
    match goal with Hl : Ok _ = Seal _ _ _ _ _ _ |- _ => symmetry in Hl; by eapply Seal_ciphered end.
  - intros e He. assert (sealed (wire_of input e)) as Hsealed by (split_and!; [done|done|by exists e]).
    apply inv_bind; [by apply covered_write|intros _].
    apply inv_bind; [apply covered_call; by left|auto with inv].
Qed.
Hint Resolve covered_compose : inv.

Lemma covered_prepared before input : inv (covered before) (send_prepared ToLower input).
Proof.
  unfold send_prepared. cbv zeta.
  apply (inv_bind_post _ (fun v => forall sv, v = Some (Some sv) -> sealed (sv_Input sv))).
  - auto with inv.
  - intros w v w'. apply covered_read.
  - intros [[sv|]|] Hsv; [|auto with inv|auto with inv].
    apply inv_bind; [auto with inv|intros _].
    apply inv_bind; [apply inv_attempt, covered_call; left; exact (Hsv sv eq_refl)|intros r].
    inv_steps.
Qed.

Lemma covered_send before input metadata : inv (covered before) (cryptoSend ToLower input metadata).
Proof. unfold cryptoSend. inv_steps; apply covered_prepared. Qed.
End Covered.

(** C5. Nothing that is sent shows its content. Whatever the server answers, whichever saves fail
    and whatever bytes are drawn, each message that a send posts - composed now or saved by an
    earlier attempt - has an empty text and empty metadata, and carries an envelope whose
    ciphertext is the output of the payload cipher under a 32-byte key or of age; so is any file
    that is uploaded; and what is kept in the outbox, in memory and on disk, is again sealed, so the
    same holds of every later send. *)
Theorem sends_hide_content (input : SendInput) (metadata : string) (w : world) :
  sealed_outbox (w_state w) -> sealed_outbox (w_disk w) ->
  map_Forall (fun _ => sealed_file) (f_outbox (w_files w)) ->
  let w' := (cryptoSend ToLower input metadata w).2 in
  sealed_outbox (w_state w') /\ sealed_outbox (w_disk w') /\
  map_Forall (fun _ => sealed_file) (f_outbox (w_files w')) /\
  exists l, w_log w' = w_log w ++ l /\ Forall hides l.
Proof.
  intros Hs Hd Hf. destruct (covered_send (fun _ => False) (w_groups w) (w_log w) input metadata w) as [Hs' Hd' Hf' (l & Hl & Hal) _].
  - split; try done. exists []. by rewrite app_nil_r.
  - split_and!; try done. exists l. split; [done|]. eapply Forall_impl; [exact Hal|]. by intros q [Hq|[]].
Qed.
End Sending.

(** ** Sending again under the same key *)
Section Resending.
Context `{!Primitives}.
Variable ToLower : string -> string.
Variables (key : string) (before : list request).

Definition posted (q : request) : option SendInput := match q with PostMessage m => Some m | _ => None end.
(** Every message posted since [before] is in the list. *)
Definition posts (w : world) (l : list SendInput) : Prop :=
  exists new, w_log w = before ++ new /\ omap posted new = l.

(** An answer that does not reject the epoch of the message. *)
Definition no_conflict (a : result answer) : Prop :=
  match a with Err e => has_code e epoch_conflict = false | Ok _ => True end.

(** The outbox entry in memory and on disk, and the posts so far. *)
Record outbox_at (v d : option savedSend) (l : list SendInput) (w : world) : Prop := {
  oa_protocol : cs_Protocol (w_state w) = 2;
  oa_saved_protocol : cs_Protocol (w_disk w) = 2;
  oa_state : cs_Outbox (w_state w) !! key = v;
  oa_disk : cs_Outbox (w_disk w) !! key = d;
  oa_net : Forall no_conflict (w_net w);
  oa_posts : posts w l }.

Definition fresh : world -> Prop := outbox_at None None [].
Definition staged (v : savedSend) : world -> Prop := outbox_at (Some v) None [].
Definition kept (v : savedSend) (w : world) : Prop :=
  exists l, outbox_at (Some v) (Some v) l w /\ Forall (eq (sv_Input v)) l.
(** Where a send may stop. *)
Definition consistent (w : world) : Prop := fresh w \/ (exists v, staged v w) \/ (exists v, kept v w).

Lemma posts_call w l q : posts w l -> forall w', w_log w' = w_log w ++ [q] ->
  posts w' (l ++ match posted q with Some m => [m] | None => [] end).
Proof.
  clear ToLower key. intros (new & Hl & Ho) w' Hw'. exists (new ++ [q]). rewrite Hw', Hl, app_assoc. split; [done|].
  rewrite omap_app, Ho. simpl. by destruct (posted q).
Qed.

Lemma call_outbox v d l q w : outbox_at v d l w ->
  outbox_at v d (l ++ match posted q with Some m => [m] | None => [] end) (call q w).2 /\
  match (call q w).1 with Err e => has_code e epoch_conflict = false | Ok _ => True end.
Proof.
  clear ToLower. intros [Hp Hp' Hs Hd Hn Hl]. unfold call. destruct (w_net w) as [|a net] eqn:E.
  - split; [|by vm_compute]. split; simpl; try done. by eapply posts_call.
  - apply Forall_cons in Hn as [Ha Hn]. split; [|by destruct a].
    split; simpl; try done. by eapply posts_call.
Qed.

#[local] Instance outbox_stable v l : Stable (outbox_at v v l).
Proof.
  clear ToLower. split.
  - intros f Hf w [Hp Hp' Hs Hd Hn Hl]. pose proof (Hf (w_state w)) as Hv. unfold view in Hv.
    split; simpl; try done; congruence.
  - intros w [Hp Hp' Hs Hd Hn Hl]. unfold save_state. destruct (w_saves w) as [|[] sv]; by split.
  - intros q Hq w Hw. pose proof (proj1 (call_outbox v v l q w Hw)) as Hc.
    replace (match posted q with Some m => [m] | None => [] end) with ([] : list SendInput) in Hc by (by destruct q).
    by rewrite app_nil_r in Hc.
  - intros w [Hp Hp' Hs Hd Hn Hl]. unfold random. destruct (w_random w); by split.
Qed.
#[local] Instance fresh_stable : Stable fresh := outbox_stable None [].
#[local] Instance kept_stable v : Stable (kept v).
Proof.
  clear ToLower. split.
  - intros f Hf w (l & Hw & Hl). exists l. split; [by apply (stable_modify (Q := outbox_at _ _ l))|done].
  - intros w (l & Hw & Hl). exists l. split; [by apply (stable_save (Q := outbox_at _ _ l))|done].
  - intros q Hq w (l & Hw & Hl). exists l. split; [by apply (stable_call (Q := outbox_at _ _ l))|done].
  - intros w (l & Hw & Hl). exists l. split; [by apply (stable_random (Q := outbox_at _ _ l))|done].
Qed.

Lemma kept_consistent v w : kept v w -> consistent w.
Proof. clear ToLower. intros Hw. right. right. by exists v. Qed.
Lemma fresh_consistent w : fresh w -> consistent w.
Proof. by left. Qed.

(** Posting what the entry says. *)
Lemma kept_post v : inv (kept v) (call (PostMessage (sv_Input v))).
Proof.
  clear ToLower. intros w (l & Hw & Hl). eexists. split; [exact (proj1 (call_outbox _ _ l _ w Hw))|].
  simpl. apply Forall_app. split; [done|by repeat constructor].
Qed.
Hint Resolve kept_post : inv.

Lemma triple_write v : triple fresh (write_saved key v) (fun _ => kept v) consistent.
Proof.
  clear ToLower. intros w [Hp Hp' Hs Hd Hn Hl]. unfold write_saved, mbind, M_bind, gets, id. simpl.
  rewrite Hp. simpl. unfold save_state. simpl.
  destruct (w_saves w) as [|[e|] sv]; simpl.
  - exists []. split; [|done]. split; simpl; try done; by rewrite lookup_insert_eq.
  - right. left. exists v. split; simpl; try done; by rewrite lookup_insert_eq.
  - exists []. split; [|done]. split; simpl; try done; by rewrite lookup_insert_eq.
Qed.

Lemma kept_rest {A} v (m : M A) : inv (kept v) m -> triple (kept v) m (fun _ => consistent) consistent.
Proof.
  clear ToLower. intros Hm w Hw. specialize (Hm w Hw). destruct (m w) as [[a|e] w1]; by eapply kept_consistent.
Qed.

Lemma triple_compose input digest : si_IdempotencyKey input = key ->
  triple fresh (compose_send ToLower input digest) (fun _ => consistent) consistent.
Proof.
  intros Hk. unfold compose_send.
  do 5 (eapply triple_bind; [apply (triple_inv fresh); [|by left]; solve [inv_steps]|intros ?]).
  eapply triple_bind; [rewrite Hk; apply triple_write|intros []].
  eapply triple_bind; [apply triple_inv; [by apply (kept_post (mkSavedSend digest _))|apply kept_consistent]|intros ?].
  apply kept_rest. auto with inv.
Qed.

(** A send from a consistent place ends in one, without a definitive rejection. *)
Lemma triple_prepared input : si_IdempotencyKey input = key ->
  forall w, fresh w \/ (exists v, kept v w) -> consistent (send_prepared ToLower input w).2.
Proof.
  intros Hk w Hw. unfold send_prepared. cbv zeta. unfold readSaved, mbind at 1, M_bind at 1.
  rewrite Hk. unfold mbind at 1, M_bind at 1, gets. simpl.
  assert (cs_Protocol (w_state w) = 2) as Hp by (destruct Hw as [Hw|(v & l & Hw & _)]; apply Hw).
  rewrite Hp. simpl. destruct Hw as [Hw|(v & Hw)].
  - rewrite (oa_state _ _ _ _ Hw). simpl. pose proof (triple_compose input (send_digest input) Hk w Hw) as Ht.
    by destruct (compose_send _ _ _ w) as [[] ?].
  - assert (cs_Outbox (w_state w) !! key = Some v) as -> by (destruct Hw as (l & Hw & _); apply Hw). simpl.
    unfold mbind at 1, M_bind at 1. destruct (bool_decide _); [|by eapply kept_consistent].
    simpl. unfold mbind at 1, M_bind at 1, attempt.
    pose proof (kept_post v w Hw) as Hkeep.
    assert (match (call (PostMessage (sv_Input v)) w).1 with Err e => has_code e epoch_conflict = false | _ => True end) as Hc.
    { destruct Hw as (l & Hw & _). apply (call_outbox _ _ _ (PostMessage (sv_Input v)) w Hw). }
    destruct (call _ w) as [[a|e] w1]; simpl in *.
    + by eapply kept_consistent, (inv_messageValue (kept v)).
    + rewrite Hc. by eapply kept_consistent.
Qed.

Lemma cryptoSend_cases input metadata w : si_IdempotencyKey input <> "" ->
  (exists e, cryptoSend ToLower input metadata w = (Err e, w)) \/
  (exists v, cryptoSend ToLower input metadata w =
     send_prepared ToLower (set_Prepared v (si_IdempotencyKey input) input) w).
Proof.
  clear key before. intros Hk. unfold cryptoSend, mbind, M_bind, require, lift.
  destruct (bool_decide (si_Encrypted input = None)); [|left; by eexists]. simpl.
  destruct (negb _); [|left; by eexists]. simpl.
  destruct (json_parse _) as [v|]; [|left; by eexists]. simpl.
  destruct (negb _); [|left; by eexists]. simpl.
  rewrite bool_decide_false by done. right. by exists v.
Qed.

Lemma consistent_send input metadata : si_IdempotencyKey input = key -> key <> "" ->
  forall w, fresh w \/ (exists v, kept v w) -> consistent (cryptoSend ToLower input metadata w).2.
Proof.
  intros Hk Hne w Hw. rewrite <- Hk in Hne.
  destruct (cryptoSend_cases input metadata w Hne) as [[e ->]|[v ->]].
  - destruct Hw as [Hw|[v Hw]]; [by left|by eapply kept_consistent].
  - by apply triple_prepared.
Qed.

(** ** Sends by one process after another *)
(** A send under [withCrypto], with its surroundings. *)
Definition send_all (server : string) : list (surroundings * (SendInput * string)) -> world -> world :=
  flip (foldl (fun w us => (withCrypto (ensureCrypto ToLower;; cryptoSend ToLower us.2.1 us.2.2) server (meet us.1 w)).2)).

Lemma consistent_disk w : consistent w ->
  forall v, v = w_disk w ->
  let w' := mkWorld v v (w_history w) (w_saves w) (w_net w) (w_random w) (w_now w) (w_log w) (w_files w) (w_groups w) in
  fresh w' \/ (exists v, kept v w').
Proof.
  clear ToLower. intros [Hw|[[v Hw]|[v (l & Hw & Hl)]]] d ->.
  - left. destruct Hw. by split.
  - left. destruct Hw. by split.
  - right. exists v, l. split; [|done]. destruct Hw. by split.
Qed.

Lemma consistent_save w : consistent w -> consistent (save_state w).2.
Proof.
  clear ToLower. intros [Hw|[[v Hw]|[v Hw]]].
  - left. exact (inv_save fresh w Hw).
  - right. destruct Hw as [Hp Hp' Hs Hd Hn Hl]. unfold save_state.
    destruct (w_saves w) as [|[e|] sv]; simpl.
    + right. exists v, []. split; [by split|done].
    + left. exists v. by split.
    + right. exists v, []. split; [by split|done].
  - right. right. exists v. exact (inv_save (kept v) w Hw).
Qed.

Lemma consistent_meet u w : Forall no_conflict (su_net u) -> consistent w -> consistent (meet u w).
Proof.
  clear ToLower. intros Hu [[]|[[v []]|[v (l & [] & Hl)]]].
  - left. by split.
  - right. left. exists v. by split.
  - right. right. exists v, l. split; [by split|done].
Qed.

Lemma consistent_run (m : M Message) server w :
  (forall w, fresh w \/ (exists v, kept v w) -> consistent (m w).2) -> consistent w -> consistent (withCrypto m server w).2.
Proof.
  clear ToLower. intros Hm Hw. unfold withCrypto. cbv zeta.
  pose proof (consistent_disk w Hw _ eq_refl) as Hd. cbv zeta in Hd.
  assert (consistent (mkWorld (w_disk w) (w_disk w) (w_history w) (w_saves w) (w_net w) (w_random w) (w_now w) (w_log w) (w_files w) (w_groups w))) as Hc.
  { destruct Hd as [Hd|[v Hd]]; [by left|by eapply kept_consistent]. }
  destruct (identity_device _ _); [|done]. case_bool_decide; [done|].
  specialize (Hm _ Hd). destruct (m _) as [r w1]. simpl in Hm. apply consistent_save in Hm. by destruct (save_state w1).
Qed.

Lemma consistent_ensured input metadata : si_IdempotencyKey input = key -> key <> "" ->
  forall w, fresh w \/ (exists v, kept v w) ->
  consistent ((ensureCrypto ToLower;; cryptoSend ToLower input metadata) w).2.
Proof.
  intros Hk Hne w Hw. unfold mbind, M_bind.
  assert (fresh (ensureCrypto ToLower w).2 \/ (exists v, kept v (ensureCrypto ToLower w).2)) as He.
  { destruct Hw as [Hw|[v Hw]]; [left; exact (inv_ensureCrypto fresh ToLower w Hw)|right; exists v; exact (inv_ensureCrypto (kept v) ToLower w Hw)]. }
  destruct (ensureCrypto ToLower w) as [[[]|e] w1]; simpl in *.
  - by apply consistent_send.
  - destruct He as [He|[v He]]; [by left|by eapply kept_consistent].
Qed.

Lemma consistent_all server l : key <> "" ->
  Forall (fun us => si_IdempotencyKey us.2.1 = key /\ Forall no_conflict (su_net us.1)) l ->
  forall w, consistent w -> consistent (send_all server l w).
Proof.
  intros Hne Hl. induction Hl as [|[u [input metadata]] l [Hk Hu] Hl IH]; intros w Hw; [done|].
  unfold send_all, flip in *. simpl. apply IH. apply consistent_run; [by apply consistent_ensured|].
  by apply consistent_meet.
Qed.

Lemma consistent_posts w : consistent w -> exists m l, posts w l /\ Forall (eq m) l.
Proof.
  clear ToLower. intros [Hw|[[v Hw]|[v (l & Hw & Hl)]]].
  - exists (mkSendInput None "" "" "" "" JNull [] [] None ""), []. split; [apply Hw|done].
  - exists (sv_Input v), []. split; [apply Hw|done].
  - exists (sv_Input v), l. split; [apply Hw|done].
Qed.
End Resending.

Section Once.
Context `{!Primitives}.
Variable ToLower : string -> string.

(** C8. One envelope per key. In an MLS group that has nothing saved under an idempotency key, let
    processes send under that key any number of times - the same content or other content,
    with failures of the network and of saves at any point and restarts in between - and let no
    answer be a definitive rejection of the message's epoch. Then all that is ever posted is
    one and the same message: content cannot be duplicated or exchanged under the key, and
    no second ratchet key is spent on it. *)
Theorem one_message_per_key key server l w new :
  key <> "" -> cs_Protocol (w_state w) = 2 -> cs_Protocol (w_disk w) = 2 ->
  cs_Outbox (w_state w) !! key = None -> cs_Outbox (w_disk w) !! key = None ->
  Forall no_conflict (w_net w) ->
  Forall (fun us => si_IdempotencyKey us.2.1 = key /\ Forall no_conflict (su_net us.1)) l ->
  w_log (send_all ToLower server l w) = w_log w ++ new ->
  exists m, Forall (eq m) (omap posted new).
Proof.
  intros Hne Hp Hp' Hs Hd Hn Hl Hlog.
  assert (consistent key (w_log w) w) as Hc.
  { left. split; try done. exists []. by rewrite app_nil_r. }
  apply (consistent_all ToLower key (w_log w) server l Hne Hl) in Hc.
  destruct (consistent_posts key (w_log w) _ Hc) as (m & posted_so_far & (new' & Hlog' & Ho) & Hall).
  rewrite Hlog in Hlog'. apply app_inv_head in Hlog' as <-. exists m. by rewrite Ho.
Qed.
End Once.

(** ** The theorems at concrete inputs *)
Definition sending_world : world := member "a" demo_key [Ok (AnsRoster demo_signed); Ok (AnsRoster demo_signed); Err "timeout"].

Lemma sending_nothing_saved : @sealed_outbox room_primitives (w_state sending_world).
Proof. unfold sealed_outbox, sending_world, member, member_state. cbn [w_state cs_Outbox]. apply map_Forall_empty. Qed.
Lemma sending_nothing_on_disk : @sealed_outbox room_primitives (w_disk sending_world).
Proof. unfold sealed_outbox, sending_world, member, member_state. cbn [w_disk cs_Outbox]. apply map_Forall_empty. Qed.
Lemma sending_no_files : map_Forall (fun _ => @sealed_file room_primitives) (f_outbox (w_files sending_world)).
Proof. unfold sending_world, member, no_files. cbn [w_files f_outbox]. apply map_Forall_empty. Qed.

Lemma sends_hide_content_witness :
  exists l, w_log (@cryptoSend room_primitives ascii_lower hello no_metadata sending_world).2 = w_log sending_world ++ l /\
    Forall (@hides room_primitives) l.
Proof.
  exact (proj2 (proj2 (proj2 (@sends_hide_content room_primitives ascii_lower hello no_metadata sending_world
    sending_nothing_saved sending_nothing_on_disk sending_no_files)))).
Defined.

(** The content was posted, inside an envelope. *)
Example sending_world_posts :
  (fun q => match q with PostMessage m => bool_decide (is_Some (si_Encrypted m)) | _ => false end) <$>
    last (w_log (@cryptoSend room_primitives ascii_lower hello no_metadata sending_world).2) = Some true.
Proof. vm_compute. reflexivity. Qed.

(** The first attempt times out; the second finds its message in the outbox. *)
Definition two_attempts : list (surroundings * (SendInput * string)) :=
  [(around (up_to_date "a" ++ [Ok (AnsRoster demo_signed); Err "timeout"]), (hello, no_metadata));
   (around (up_to_date "a" ++ [Err "timeout"]), (hello, no_metadata))].
Definition two_posts : list request :=
  w_log (@send_all room_primitives ascii_lower room_server two_attempts (member "a" demo_key [])).
Example two_posts_length : length (omap posted two_posts) = 2%nat.
Proof. vm_compute. reflexivity. Qed.

Lemma two_attempts_ok :
  Forall (fun us => si_IdempotencyKey us.2.1 = "key-1" /\ Forall no_conflict (su_net us.1)) two_attempts.
Proof. repeat constructor. Qed.
Lemma two_posts_log :
  w_log (@send_all room_primitives ascii_lower room_server two_attempts (member "a" demo_key [])) =
  w_log (member "a" demo_key []) ++ two_posts.
Proof.
  transitivity two_posts; [unfold two_posts; reflexivity|].
  assert (w_log (member "a" demo_key []) = []) as -> by (unfold member; cbn [w_log]; reflexivity).
  symmetry. apply app_nil_l.
Qed.

Lemma nothing_saved : cs_Outbox (member_state "a" demo_key) !! "key-1" = None.
Proof. unfold member_state. cbn [cs_Outbox]. apply lookup_empty. Qed.

Lemma one_message_per_key_witness : exists m, Forall (eq m) (omap posted two_posts).
Proof.
  exact (@one_message_per_key room_primitives ascii_lower "key-1" room_server two_attempts (member "a" demo_key []) two_posts
    ltac:(discriminate) eq_refl eq_refl nothing_saved nothing_saved (Forall_nil_2 _) two_attempts_ok two_posts_log).
Defined.
