(* ===== verification/RoutesTheorems.v ===== *)
(** * Routing: properties

    Content leaves in the clear only on a channel that is plain by its identifier or by the
    signed membership and the local snapshot of the group that the call was routed to; a call
    changes the files of that group only; and an independent room is served under its own
    keys or not at all. *)
From S2P Require Import Prelude GoStrings Json Types Crypto Toy Roster RosterTheorems Metadata History Inbox.
From S2P Require Import Encryption Mls MlsFacts Groups MlsTheorems Messages Invariants Admission Scenario.
From S2P Require Import MessagesTheorems Routes.

#[local] Existing Instance covered_stable.

Section Routing.
Context `{!Primitives}.
Variables (ToLower DetectContentType number : string -> string) (url_parse : string -> option url).

(** ** Routing asks nothing and changes nothing *)
Lemma room_world c room w r w' : cryptoConfigForRoom c room w = (r, w') -> w' = w.
Proof.
  clear. unfold cryptoConfigForRoom. case_bool_decide; [by intros [= _ <-]|].
  destruct (negb _); [by intros [= _ <-]|]. unfold mbind, M_bind, get_groups.
  destruct (_ || _); [by intros [= _ <-]|]. destruct (HasPrefix _ _); by intros [= _ <-].
Qed.

Lemma route_world c path v w r w' : routeCryptoCall url_parse c path v w = (r, w') -> w' = w.
Proof.
  clear ToLower DetectContentType number. unfold routeCryptoCall, cryptoConfigForChannel.
  destruct (url_parse path) as [u|]; [|by intros [= _ <-]].
  destruct (match v with Some v => _ | None => _ end) as [[channel room]|]; [|by intros [= _ <-]].
  destruct (bool_decide _); apply room_world.
Qed.

(** ** What is saved is sealed *)
Definition sealed_group (g : group) : Prop :=
  sealed_outbox (gr_state g) /\ map_Forall (fun _ => sealed_file) (f_outbox (gr_files g)).
Definition sealed_groups (groups : gmap string group) : Prop := map_Forall (fun _ => sealed_group) groups.

(** A section under [withCrypto] that keeps to what is allowed. *)
Lemma locked_covered {A} extra c (m : M A) w r w' :
  (forall g, w_groups w !! cfg_CryptoPath c = Some g ->
     covered extra (w_groups w) (w_log w) (enter g w) -> covered extra (w_groups w) (w_log w) (m (enter g w)).2) ->
  sealed_groups (w_groups w) -> locked c m w = (r, w') ->
  sealed_groups (w_groups w') /\ exists l, w_log w' = w_log w ++ l /\ Forall (allowed extra) l.
Proof.
  clear. intros Hm Hg Hl. unfold locked in Hl.
  assert (exists l, w_log w = w_log w ++ l /\ Forall (allowed extra) l) as Hsame
    by (exists []; by rewrite app_nil_r).
  case_bool_decide; [by simplify_eq|]. destruct (w_groups w !! _) as [g|] eqn:Eg; [|by simplify_eq].
  destruct (Hg _ _ Eg) as [Ho Hf].
  assert (covered extra (w_groups w) (w_log w) (enter g w)) as Hin by by split.
  assert (covered extra (w_groups w) (w_log w) (withCrypto m (cfg_Server c) (enter g w)).2) as [_ Hd' Hf' Hl' Hg'].
  { unfold withCrypto. cbv zeta. destruct (identity_device _ _); [|done]. case_bool_decide; [done|].
    specialize (Hm g eq_refl Hin). change (mkWorld _ _ _ _ _ _ _ _ _ _) with (enter g w).
    destruct (m _) as [v w1]. pose proof (inv_save (covered extra (w_groups w) (w_log w)) w1 Hm) as Hs.
    by destruct (save_state w1). }
  destruct (withCrypto _ _ _) as [r1 v] eqn:E. simplify_eq/=. split; [|done].
  apply map_Forall_insert_2; [by split|]. by rewrite Hg'.
Qed.

(** ** Sending *)
(** A message in the clear on a channel that the state lists as plain. *)
Definition plain_post (v : option json) (s : cryptoState) (q : request) : Prop :=
  q = RawCall "POST" "/messages" v /\
  exists input, decode_send (default JNull v) = Some input /\ plainCryptoChannel s (si_ChannelID input) = true.

Lemma raw_covered extra groups before v : allowed extra (RawCall "POST" "/messages" v) ->
  inv (covered extra groups before) (Answered <$> raw "POST" "/messages" v).
Proof. clear. intros Hq. apply inv_bind; [by apply covered_call|intros; apply inv_ret]. Qed.

(** The section of a send, from the state that [ensureCrypto] leaves. *)
Lemma scoped_post_covered groups before u v w :
  covered (plain_post v (w_state (ensureCrypto ToLower w).2)) groups before w ->
  covered (plain_post v (w_state (ensureCrypto ToLower w).2)) groups before
    (scoped_call ToLower number "POST" "/messages" u v w).2.
Proof.
  intros Hw. unfold scoped_call. set (P := plain_post v _) in *.
  pose proof (inv_ensureCrypto (covered P groups before) ToLower w Hw) as He.
  unfold mbind at 1, M_bind at 1. destruct (ensureCrypto ToLower w) as [[[]|e] w1] eqn:E; [|done].
  simpl in *. cbv zeta. destruct (decode_send (default JNull v)) as [input|] eqn:Ed; [|done].
  unfold mbind at 1, M_bind at 1, gets. simpl. destruct (plainCryptoChannel _ _) eqn:Ep.
  - apply raw_covered; [|done]. right. split; [done|]. by exists input.
  - by refine (inv_bind (covered P groups before) _ _ _ _ w1 He); [apply covered_send|intros; apply inv_ret].
Qed.

(** A post, past the tests that its address decides. *)
Lemma encrypted_post c v u w : url_parse "/messages" = Some u -> url_Query u "channel_id" = "" ->
  encryptedCall ToLower number url_parse c "POST" "/messages" v w =
  match routeCryptoCall url_parse c "/messages" v w with
  | (Ok c2, w1) =>
      if HasPrefix (body_channel v) "ch_plain_" then (Answered <$> raw "POST" "/messages" v) w1
      else locked c2 (scoped_call ToLower number "POST" "/messages" u v) w1
  | (Err e, w1) => (Err e, w1)
  end.
Proof.
  clear DetectContentType. intros Hu Hq. unfold encryptedCall, mbind at 1, M_bind at 1.
  destruct (routeCryptoCall _ _ _ _ _) as [[c2|e] w1]; [|done]. rewrite Hu, Hq.
  destruct (HasPrefix (body_channel v) "ch_plain_"); reflexivity.
Qed.

(** Content goes out in the clear only on a plain channel. Let a connection with encryption
    keys post a message, whatever the server answers, whichever saves fail and whatever the
    relay names as channel or room. Then every request it makes hides content - and the
    outboxes of all its rooms stay sealed - unless the channel's identifier marks it as
    plain, or the signed membership and local snapshot of the group to which the call was
    routed, as [ensureCrypto] left them, list the channel. There is no other fallback. *)
Theorem plaintext_only_on_plain_channels saved c v u w r w' :
  let c1 := currentCryptoConfig saved c in
  cfg_CryptoPath c1 <> "" -> url_parse "/messages" = Some u -> url_Query u "channel_id" = "" ->
  sealed_groups (w_groups w) ->
  callContext ToLower number url_parse saved c "POST" "/messages" v w = (r, w') ->
  sealed_groups (w_groups w') /\ exists l, w_log w' = w_log w ++ l /\
    (Forall hides l \/ HasPrefix (body_channel v) "ch_plain_" = true \/
     exists c2 g input, routeCryptoCall url_parse c1 "/messages" v w = (Ok c2, w) /\
       w_groups w !! cfg_CryptoPath c2 = Some g /\ decode_send (default JNull v) = Some input /\
       plainCryptoChannel (w_state (ensureCrypto ToLower (enter g w)).2) (si_ChannelID input) = true).
Proof.
  clear DetectContentType.
  intros c1 Hpath Hu Hq Hg Hc. unfold callContext in Hc. cbv zeta in Hc. fold c1 in Hc.
  rewrite bool_decide_eq_false_2 in Hc by done. cbn [negb] in Hc.
  rewrite (encrypted_post _ _ u) in Hc by done.
  destruct (routeCryptoCall url_parse c1 "/messages" v w) as [[c2|e] w1] eqn:Er;
    apply route_world in Er as Hw; subst w1.
  2:{ simplify_eq. split; [done|]. exists []. rewrite app_nil_r. split; [done|]. by left. }
  destruct (HasPrefix (body_channel v) "ch_plain_") eqn:Ep.
  - assert (w_groups w' = w_groups w /\ w_log w' = w_log w ++ [RawCall "POST" "/messages" v]) as [Hgw Hlw].
    { unfold fmap, M_fmap, raw, call, mbind, M_bind in Hc. destruct (w_net w) as [|[] ?]; by inversion_clear Hc. }
    split; [by rewrite Hgw|]. eexists. split; [exact Hlw|]. auto.
  - destruct (w_groups w !! cfg_CryptoPath c2) as [g|] eqn:Eg.
    + eapply (locked_covered (plain_post v (w_state (ensureCrypto ToLower (enter g w)).2))) in Hc as (Hs & l & Hl & Ha); [|..|done].
      2:{ intros g' Hg' Hcov. rewrite Eg in Hg'. injection Hg' as <-. by apply scoped_post_covered. }
      split; [done|]. exists l. split; [done|].
      set (s := w_state (ensureCrypto ToLower (enter g w)).2) in *.
      assert (Forall hides l \/ exists input, decode_send (default JNull v) = Some input /\
                plainCryptoChannel s (si_ChannelID input) = true) as [Hh|(input & Hd & Hp)]; [|by left|].
      { destruct (decode_send (default JNull v)) as [input|] eqn:Ed.
        - destruct (plainCryptoChannel s (si_ChannelID input)) eqn:Epl; [right; by exists input|left].
          eapply Forall_impl; [exact Ha|]. intros q [Hq'|(_ & input' & Hd & Hp)]; [done|]. rewrite Ed in Hd. simplify_eq. congruence.
        - left. eapply Forall_impl; [exact Ha|]. intros q [Hq'|(_ & input' & Hd & _)]; [done|]. by rewrite Ed in Hd. }
      right. right. by exists c2, g, input.
    + unfold locked in Hc. rewrite Eg in Hc. assert (w' = w) as -> by (by case_bool_decide; inversion_clear Hc).
      split; [done|]. exists []. rewrite app_nil_r. split; [done|by left].
Qed.

(** ** One group per call *)
(** The files of the groups that are not being worked on. *)
Definition others (groups : gmap string group) (w : world) : Prop := w_groups w = groups.
#[local] Instance others_stable groups : Stable (others groups).
Proof.
  clear. unfold others. split.
  - by intros f _ w Hw.
  - intros w Hw. unfold save_state. by destruct (w_saves w) as [|[] l].
  - intros q _ w Hw. unfold call. by destruct (w_net w).
  - intros w Hw. unfold random. by destruct (w_random w).
Qed.
Lemma others_call groups q : inv (others groups) (call q).
Proof. clear. intros w Hw. unfold call. by destruct (w_net w). Qed.
Lemma others_modify groups f : inv (others groups) (modify f).
Proof. clear. by intros w Hw. Qed.
Lemma others_files groups f : inv (others groups) (write_files f).
Proof. clear. intros w Hw. unfold write_files. by destruct (w_saves w) as [|[] l]. Qed.
Lemma others_ask {A} groups q (d : answer -> result A) : inv (others groups) (ask q d).
Proof. clear. apply inv_bind; [apply others_call|auto with inv]. Qed.
#[local] Hint Resolve others_call others_modify others_files others_ask inv_readSaved : inv.

Lemma others_send groups input metadata : inv (others groups) (cryptoSend ToLower input metadata).
Proof. clear. unfold cryptoSend. inv_steps; unfold send_prepared, compose_send, write_saved, forget_saved; inv_steps. Qed.
#[local] Hint Resolve others_send : inv.

Lemma others_scoped groups method path u v : inv (others groups) (scoped_call ToLower number method path u v).
Proof.
  clear DetectContentType url_parse. unfold scoped_call, history_call, seal_invite, issueCryptoInvite, raw, fmap, M_fmap.
  inv_steps; apply inv_cryptoHistory; auto with inv.
Qed.

Lemma locked_others {A} c (m : M A) w r w' p : (forall groups, inv (others groups) m) ->
  locked c m w = (r, w') -> p <> cfg_CryptoPath c -> w_groups w' !! p = w_groups w !! p.
Proof.
  clear. intros Hm Hl Hp. unfold locked in Hl. case_bool_decide; [by inversion_clear Hl|].
  destruct (w_groups w !! _) as [g|] eqn:Eg; [|by inversion_clear Hl].
  assert (others (w_groups w) (withCrypto m (cfg_Server c) (enter g w)).2) as Hv
    by (by apply inv_withCrypto_from; [apply _|apply Hm|]).
  destruct (withCrypto _ _ _) as [r1 v]. inversion_clear Hl. simpl. rewrite lookup_insert_ne by done.
  unfold others in Hv. simpl in Hv. by rewrite Hv.
Qed.

(** The keys that serve a room. *)
Definition serves (c : Config) (room : string) (w : world) (c2 : Config) : Prop :=
  cfg_EncryptionRoom c2 = room /\
  (cfg_CryptoRooms c !! room = Some (cfg_CryptoPath c2) \/
   cfg_CryptoPath c2 = cfg_CryptoPath c /\ saved_room (w_groups w) (cfg_CryptoPath c) ∈ [room; ""]).

Lemma room_keys c room w r : HasPrefix room "rm_mls_" = true -> cryptoConfigForRoom c room w = (r, w) ->
  r = Err errNoKeys \/ exists c2, r = Ok c2 /\ serves c room w c2.
Proof.
  clear. intros Hp. unfold cryptoConfigForRoom, serves. case_bool_decide as Hr; [by subst room|].
  destruct (bool_decide_reflect (default "" (cfg_CryptoRooms c !! room) = "")) as [He|He]; cbn [negb].
  - unfold mbind, M_bind, get_groups. rewrite Hp, andb_true_r.
    destruct (bool_decide_reflect (saved_room (w_groups w) (cfg_CryptoPath c) = room)) as [Hs|Hs];
      [|destruct (bool_decide_reflect (saved_room (w_groups w) (cfg_CryptoPath c) = "")) as [Hn|Hn]]; cbn [orb].
    + intros [= <-]. right. eexists. split_and!; [done|done|]. right. split; [done|]. rewrite Hs. set_solver.
    + intros [= <-]. right. eexists. split_and!; [done|done|]. right. split; [done|]. rewrite Hn. set_solver.
    + intros [= <-]. by left.
  - intros [= <-]. right. eexists. split_and!; [done|done|]. left. simpl. by destruct (cfg_CryptoRooms c !! room).
Qed.

Lemma inv_others {A} (m : M A) w r w' : (forall groups, inv (others groups) m) -> m w = (r, w') -> w_groups w' = w_groups w.
Proof. clear. intros Hm E. pose proof (Hm (w_groups w) w eq_refl) as Hg. by rewrite E in Hg. Qed.

(** A call stays in its room. Every call of a connection with keys, except the search of all
    rooms at once, leaves the saved state, history key and private files of every group but
    the one it was routed to as they were, whatever the server answers; and a call for an
    independent room is routed to the keys saved for that room, or to the connection's own
    state when that is the room's or not yet bound to a room - else it is refused. *)
Theorem calls_stay_in_their_room c method path v u w c2 r w' :
  url_parse path = Some u -> routeCryptoCall url_parse c path v w = (Ok c2, w) ->
  ~ (method = "GET" /\ url_Path u = "/messages" /\ url_Query u "channel_id" = "") ->
  encryptedCall ToLower number url_parse c method path v w = (r, w') ->
  (forall p, p <> cfg_CryptoPath c2 -> w_groups w' !! p = w_groups w !! p) /\
  (forall room r2, HasPrefix room "rm_mls_" = true -> cryptoConfigForRoom c room w = (r2, w) ->
     r2 = Err errNoKeys \/ exists c3, r2 = Ok c3 /\ serves c room w c3).
Proof.
  clear DetectContentType. intros Hu Hr Hall Hc. split; [|intros room r2; apply room_keys].
  intros p Hp. unfold encryptedCall in Hc. rewrite (m_step _ _ _ _ _ Hr), Hu in Hc. cbv zeta in Hc.
  assert (forall groups, inv (others groups) (Answered <$> raw method path v)) as Hraw
    by (intros; unfold raw, fmap, M_fmap; inv_steps).
  do 3 (match type of Hc with (if ?b then _ else _) _ = _ => destruct b end;
        [by rewrite (inv_others _ _ _ _ Hraw Hc)|]).
  match type of Hc with (if ?b then _ else _) _ = _ => destruct b eqn:Eb end; [bool_simpl; by destruct Hall|].
  match type of Hc with mbind _ ?m _ = _ => destruct (m w) as [[standard|e] w1] eqn:Es;
    assert (w_groups w1 = w_groups w) as Hw1
      by (revert Es; apply inv_others; intros; unfold standard_room; inv_steps) end.
  - rewrite (m_step _ _ _ _ _ Es) in Hc. rewrite <- Hw1. destruct standard.
    + by rewrite (inv_others _ _ _ _ Hraw Hc).
    + eapply locked_others; [intros; apply others_scoped|exact Hc|done].
  - rewrite (m_stop _ _ _ _ _ Es) in Hc. injection Hc as _ <-. by rewrite Hw1.
Qed.
End Routing.

(** ** The theorems at concrete inputs *)
(** A connection whose only keys are those of the room of two members; [a] posts to its
    general channel. *)
Definition desk_paths (path : string) : option url := Some (mkURL path (fun _ => "")).
Definition desk_config : Config := mkConfig None ∅ "" "" "/keys" None room_server "token".
Definition desk_body : option json := Some (JObj [("channel_id", JStr room_channel); ("text", JStr "hello"); ("idempotency_key", JStr "key-1")]).
Definition desk_groups : gmap string group := {["/keys" := mkGroup (member_state "a" demo_key) (Ok demo_key) no_files]}.
Definition desk_world : world :=
  mkWorld (member_state "b" key_b) (member_state "b" key_b) (Err "no history key") []
    (up_to_date "a" ++ [Ok (AnsRoster demo_signed); Err "timeout"]) draws 0 [] no_files desk_groups.
Definition desk_call : result call_result * world :=
  @callContext room_primitives ascii_lower (fun s => s) desk_paths None desk_config "POST" "/messages" desk_body desk_world.

Lemma desk_sealed : @sealed_groups room_primitives (w_groups desk_world).
Proof.
  unfold sealed_groups, desk_world, desk_groups. cbn [w_groups]. apply map_Forall_singleton.
  split; unfold sealed_outbox, member_state, no_files; cbn [gr_state gr_files cs_Outbox f_outbox]; apply map_Forall_empty.
Qed.

(** The message is posted inside an envelope. *)
Example desk_posts :
  (fun q => match q with PostMessage m => bool_decide (is_Some (si_Encrypted m)) | _ => false end) <$>
    last (w_log desk_call.2) = Some true.
Proof. vm_compute. reflexivity. Qed.

Lemma desk_path : cfg_CryptoPath (currentCryptoConfig None desk_config) <> "".
Proof. discriminate. Qed.
Lemma plaintext_only_on_plain_channels_witness :
  sealed_groups (w_groups desk_call.2) /\ exists l, w_log desk_call.2 = w_log desk_world ++ l /\
    (Forall hides l \/ HasPrefix (body_channel desk_body) "ch_plain_" = true \/
     exists c2 g input, routeCryptoCall desk_paths (currentCryptoConfig None desk_config) "/messages" desk_body desk_world = (Ok c2, desk_world) /\
       w_groups desk_world !! cfg_CryptoPath c2 = Some g /\ decode_send (default JNull desk_body) = Some input /\
       plainCryptoChannel (w_state (ensureCrypto ascii_lower (enter g desk_world)).2) (si_ChannelID input) = true).
Proof.
  exact (@plaintext_only_on_plain_channels room_primitives ascii_lower (fun s => s) desk_paths None desk_config desk_body
    (mkURL "/messages" (fun _ => "")) desk_world _ _ desk_path eq_refl eq_refl desk_sealed (surjective_pairing desk_call)).
Defined.

Definition desk_routed : Config := set_Crypto "/keys" "rm_mls_1" ∅ desk_config.
Lemma desk_route : routeCryptoCall desk_paths desk_config "/messages" desk_body desk_world = (Ok desk_routed, desk_world).
Proof. unfold desk_world. vm_compute. reflexivity. Qed.
Definition desk_encrypted : result call_result * world :=
  @encryptedCall room_primitives ascii_lower (fun s => s) desk_paths desk_config "POST" "/messages" desk_body desk_world.

Lemma calls_stay_in_their_room_witness :
  (forall p, p <> cfg_CryptoPath desk_routed -> w_groups desk_encrypted.2 !! p = w_groups desk_world !! p) /\
  (forall room r2, HasPrefix room "rm_mls_" = true -> cryptoConfigForRoom desk_config room desk_world = (r2, desk_world) ->
     r2 = Err errNoKeys \/ exists c3, r2 = Ok c3 /\ serves desk_config room desk_world c3).
Proof.
  exact (@calls_stay_in_their_room room_primitives ascii_lower (fun s => s) desk_paths desk_config "POST" "/messages" desk_body
    (mkURL "/messages" (fun _ => "")) desk_world desk_routed _ _ eq_refl desk_route ltac:(intros [E _]; discriminate E)
    (surjective_pairing desk_encrypted)).
Defined.
