(* ===== verification/ReceivingTheorems.v ===== *)
(** * Receiving encrypted messages: properties

    What is shown of a received message is what its authenticated sender sealed; a message
    wakes a worker under one sequence number. *)
From S2P Require Import Prelude GoStrings Json Types Crypto Toy Roster RosterTheorems Metadata History.
From S2P Require Import Encryption Mls MlsFacts Groups MlsTheorems Messages Invariants Scenario MessagesTheorems.

(** ** Authenticity *)
Section Authentic.
Context `{!Primitives}.
Variable ToLower : string -> string.

Lemma openMLS_ok e w plain w' : openMLSPayload ToLower e w = (Ok plain, w') ->
  env_Ciphertext e <> "" /\ PayloadHash (env_Ciphertext e) = env_PayloadHash e /\
  exists key, OpenLocal key (env_Ciphertext e) (MessageID e) = Ok plain.
Proof.
  intros Hs. unfold openMLSPayload in Hs. m_inv. bool_simpl. split_and!; [done|done|].
  by eexists.
Qed.

Lemma ask_ok {A} q (d : answer -> result A) w a w' : ask q d w = (Ok a, w') ->
  w_state w' = w_state w /\ w_disk w' = w_disk w /\ w_files w' = w_files w.
Proof.
  clear ToLower. unfold ask, mbind, M_bind, call, lift. by destruct (w_net w) as [|[] net]; intros; simplify_eq/=.
Qed.

Lemma cryptoRoster_ok n w r w' : cryptoRoster n w = (Ok r, w') ->
  ro_RoomID r = cs_RoomID (w_state w) /\
  Roster_Verify r (cs_Root (w_state w)) (cs_WorkspaceID (w_state w)) = None /\
  (n = 0 -> w_state w' = put_ActiveRoster r (put_Observed (ro_Epoch r) (Roster_Hash r) (w_state w))) /\
  (n <> 0 -> w_state w' = w_state w).
Proof.
  clear ToLower. unfold cryptoRoster. intros Hs. m_inv.
  match goal with Ha : ask _ _ _ = _ |- _ => apply ask_ok in Ha as (Hst & _ & _) end.
  bool_simpl. rewrite Hst in *. split_and!; [done|done|..]; intros Hn.
  - subst n. simpl in *. unfold observe_roster in *. m_inv.
    match goal with Hm : modify _ _ = _ |- _ => apply modify_inv in Hm as (_ & -> & _) end. by rewrite Hst.
  - replace (n =? 0) with false in * by (symmetry; by apply Z.eqb_neq). m_inv. done.
Qed.

Lemma check_joined_state e r w w' : check_joined e r w = (Ok tt, w') -> w_state w' = w_state w.
Proof.
  clear ToLower. intros Hs. symmetry. eapply (keeps_run eq); [|exact Hs].
  unfold check_joined, archiveGet. keep_steps. apply keeps_historyKey; apply _.
Qed.

(** The plaintext under the envelope's ciphertext, by the key of its message or by age. *)
Definition opens (s : cryptoState) (e : Envelope) (plain : string) : Prop :=
  if env_Version e =? 2
  then PayloadHash (env_Ciphertext e) = env_PayloadHash e /\
       exists key, OpenLocal key (env_Ciphertext e) (MessageID e) = Ok plain
  else Decrypt (cs_Identity s) (env_Ciphertext e) MaxPlaintextBytes = Ok plain.

(** C7. What a device shows as a received message is what its sender signed and sealed. If
    opening a message succeeds, then either it came in the clear, unchanged, on a channel that
    the signed membership or the local snapshot lists as plain; or it carries an envelope that
    verifies under a roster, of the envelope's epoch and this room, that verifies under the
    pinned root; the identifier, channel, sender, mentions and reply shown are the envelope's;
    the sender's name is the authenticated agent; no server-made preview is left; and the text,
    metadata and attachments are those of the decrypted body, which lists exactly the signed
    attachments - or the fixed notice of a rejected capsule. *)
Theorem message_authentic (m m' : Message) (w w' : world) :
  decryptMessage ToLower m w = (Ok m', w') ->
  match msg_Encrypted m with
  | None => m' = m /\ plainCryptoChannel (w_state w) (msg_ChannelID m) = true
  | Some e =>
      exists r, Roster_Verify r (cs_Root (w_state w)) (cs_WorkspaceID (w_state w)) = None /\
        ro_RoomID r = cs_RoomID (w_state w) /\ Envelope_Verify e r = None /\
        env_WorkspaceID e = cs_WorkspaceID (w_state w) /\ env_Kind e = "message" /\
        msg_ID m' = MessageID e /\ msg_ChannelID m' = env_ChannelID e /\
        msg_AgentID m' = env_SenderID e /\ msg_AgentName m' = env_SenderID e /\
        msg_Mentions m' = env_Mentions e /\ msg_ReplyPreview m' = None /\
        json_text (pointer_json (msg_ReplyTo m')) = json_text (pointer_json (env_ReplyTo e)) /\
        ((msg_EncryptionError m' = ErrMLSApplicationRejected /\ msg_Text m' = rejected_text /\
          msg_Metadata m' = JObj [] /\ msg_Attachments m' = []) \/
         (msg_EncryptionError m' = "" /\
          exists plain body, opens (w_state w) e plain /\
            json_parse plain ≫= decode_body = Some body /\
            msg_Text m' = bd_Text body /\ msg_Metadata m' = bd_Metadata body /\
            msg_Attachments m' = bd_Attachments body /\ att_ID <$> bd_Attachments body = env_AttachmentIDs e))
  end.
Proof.
  intros Hs. unfold decryptMessage in Hs. destruct (msg_Encrypted m) as [e|]; m_inv; [|done].
  match goal with Hr : cryptoRoster _ _ = _ |- _ => apply cryptoRoster_ok in Hr as (Hroom & Hv & Hid) end.
  match goal with Hr : routed _ _ _ = true |- _ => unfold routed, sameStringList in Hr end.
  bool_simpl.
  match goal with Hv : Roster_Verify ?r _ _ = None, Hs : _ ?x = (Ok m', w') |- _ =>
    exists r; assert (cs_Identity (w_state x) = cs_Identity (w_state w)) as Hi
      by (destruct Hid as [H1' H2']; destruct (decide (env_Epoch e = 0)); [by rewrite H1'|by rewrite H2']) end.
  case_bool_decide; m_inv.
  - split_and!; try done. by left.
  - match goal with Hj : check_joined _ _ _ = _ |- _ => apply check_joined_state in Hj end.
    match goal with Hp : (match ?b with Some _ => _ | None => _ end) _ = _ |- _ =>
      destruct b as [body|] eqn:Hbody; m_inv end.
    unfold sameStringList in *. bool_simpl. split_and!; try done. right. split; [done|].
    eexists _, body. split_and!; try done. unfold opens, open_payload in *.
    destruct (env_Version e =? 2).
    + match goal with Ho : openMLSPayload _ _ _ = _ |- _ => apply openMLS_ok in Ho as (_ & ? & ?) end. done.
    + m_inv. congruence.
Qed.
End Authentic.

(** ** Replays *)
Section Replay.
Context `{!Primitives}.
Variable ToLower : string -> string.

Definition received (m : string) (seq : Z) (w : world) : Prop :=
  f_received (w_files w) !! m = Some (Ok (Some seq)).

#[local] Instance received_stable m seq : Stable (received m seq).
Proof.
  clear ToLower. split.
  - by intros f _ w Hw.
  - intros w Hw. unfold save_state. by destruct (w_saves w) as [|[] l].
  - intros q _ w Hw. unfold call. by destruct (w_net w).
  - intros w Hw. unfold random. by destruct (w_random w).
Qed.

Lemma write_files_inv (Q : files -> Prop) f : (forall fs, Q fs -> Q (f fs)) ->
  inv (fun w => Q (w_files w)) (write_files f).
Proof. clear ToLower. intros Hf w Hw. unfold write_files. destruct (w_saves w) as [|[] l]; simpl; auto. Qed.

Lemma write_files_ok f w w' : write_files f w = (Ok tt, w') -> w_files w' = f (w_files w).
Proof. clear ToLower. unfold write_files. destruct (w_saves w) as [|[e|] l]; intros Hw; by simplify_eq/=. Qed.

(** Only a delivery under the same number writes the entry of a message. *)
Lemma received_receive m seq event : inv (received m seq) (receive_event ToLower event).
Proof.
  unfold receive_event. apply inv_bind; [auto with inv|intros _].
  apply inv_bind; [apply inv_attempt; auto with inv|intros [x|e]]; [|inv_steps]. cbv zeta.
  destruct (bool_decide _); [inv_steps|]. intros w Hw.
  unfold mbind at 1, M_bind at 1, get_files. simpl. unfold received in Hw.
  destruct (f_received (w_files w) !! msg_ID x) as [[[seq'|]|e]|] eqn:E; [|done|done|].
  - case_bool_decide; [done|]. unfold mark_received.
    refine (inv_bind (received m seq) _ _ _ _ w Hw); [|intros; apply inv_ret].
    apply (write_files_inv (fun fs => f_received fs !! m = Some (Ok (Some seq)))).
    intros fs Hfs. simpl. destruct (decide (msg_ID x = m)) as [<-|]; [|by rewrite lookup_insert_ne].
    rewrite lookup_insert_eq. rewrite E in Hw. by simplify_eq.
  - refine (inv_bind (received m seq) _ _ _ _ w Hw); [|intros; apply inv_ret].
    assert (msg_ID x <> m) by congruence.
    apply (write_files_inv (fun fs => f_received fs !! m = Some (Ok (Some seq)))).
    intros fs Hfs. simpl. by rewrite lookup_insert_ne.
Qed.

Lemma receive_accepts event w event' w' : receive_event ToLower event w = (Ok (true, event'), w') ->
  ev_Seq event' = ev_Seq event /\ received (msg_ID (ev_Payload event')) (ev_Seq event) w' /\
  forall seq, received (msg_ID (ev_Payload event')) seq w -> seq = ev_Seq event.
Proof.
  intros Hr.
  assert (forall seq, received (msg_ID (ev_Payload event')) seq w -> received (msg_ID (ev_Payload event')) seq w') as Hmono.
  { intros seq Hs. exact (inv_run _ _ _ _ _ (received_receive _ seq event) Hs Hr). }
  assert (ev_Seq event' = ev_Seq event /\ received (msg_ID (ev_Payload event')) (ev_Seq event) w') as [Hseq Hrec].
  { unfold receive_event in Hr. m_inv. case_match; m_inv; [|case_bool_decide; by m_inv].
    case_bool_decide; m_inv. unfold get_files in *. simplify_eq.
    repeat case_match; m_inv; unfold mark_received in *;
      match goal with Hw : write_files _ _ = _ |- _ => apply write_files_ok in Hw end;
      (split; [done|]); unfold received; match goal with Hw : w_files _ = _ |- _ => rewrite Hw end;
      simpl; by rewrite lookup_insert_eq. }
  split_and!; [done|done|]. intros seq Hs. apply Hmono in Hs. unfold received in *. congruence.
Qed.

(** ** One listener over time *)
Inductive activity :=
| Deliver (event : inboxEvent)
| Submit (input : SendInput) (metadata : string)
| Refresh.

(** The deliveries of a run, with their outcomes. *)
Fixpoint deliveries (server : string) (l : list (surroundings * activity)) (w : world)
    : list (result (bool * inboxEvent)) :=
  match l with
  | [] => []
  | (u, Deliver event) :: l =>
      let '(r, w') := withCrypto (receive_event ToLower event) server (meet u w) in
      r :: deliveries server l w'
  | (u, Submit input metadata) :: l =>
      deliveries server l (withCrypto (ensureCrypto ToLower;; cryptoSend ToLower input metadata) server (meet u w)).2
  | (u, Refresh) :: l => deliveries server l (withCrypto (ensureCrypto ToLower) server (meet u w)).2
  end.

Lemma received_saved m seq key v : inv (received m seq) (write_saved key v).
Proof.
  clear ToLower. unfold write_saved. inv_steps; [by intros w Hw|].
  by apply (write_files_inv (fun fs => f_received fs !! m = Some (Ok (Some seq)))).
Qed.
Lemma received_forget m seq key : inv (received m seq) (forget_saved key).
Proof.
  clear ToLower. unfold forget_saved. inv_steps; [by intros w Hw|].
  by apply (write_files_inv (fun fs => f_received fs !! m = Some (Ok (Some seq)))).
Qed.
Lemma received_post m seq q : inv (received m seq) (call q).
Proof. clear ToLower. intros w Hw. unfold call. by destruct (w_net w). Qed.
Hint Resolve received_saved received_forget received_post inv_readSaved : inv.

Lemma received_send m seq input metadata : inv (received m seq) (cryptoSend ToLower input metadata).
Proof.
  unfold cryptoSend. inv_steps; unfold send_prepared, compose_send; inv_steps.
Qed.
Hint Resolve received_send : inv.

Lemma received_with {A} m seq (f : M A) server u w : inv (received m seq) f -> received m seq w ->
  received m seq (withCrypto f server (meet u w)).2.
Proof. clear ToLower. intros Hf Hw. by apply inv_withCrypto_from; [apply _|..]. Qed.

Lemma with_accepts server event u w event' w1 :
  withCrypto (receive_event ToLower event) server (meet u w) = (Ok (true, event'), w1) ->
  ev_Seq event' = ev_Seq event /\ received (msg_ID (ev_Payload event')) (ev_Seq event') w1 /\
  forall seq, received (msg_ID (ev_Payload event')) seq w -> seq = ev_Seq event'.
Proof.
  unfold withCrypto. cbv zeta. case_match; [|done]. case_bool_decide; [done|].
  destruct (receive_event ToLower event _) as [v w2] eqn:Er.
  destruct (save_state w2) as [s w3] eqn:Es. intros E. destruct s as [[]|]; [|by destruct v].
  destruct v as [p|]; [|done]. simplify_eq.
  apply receive_accepts in Er as (Hseq & Hrec & Hs). rewrite Hseq. split_and!; [done| |done].
  by refine (inv_run (received _ _) save_state _ _ _ _ Hrec Es); apply inv_save, _.
Qed.

(** What later deliveries accept under an identifier already received. *)
Lemma deliveries_received server m seq l : forall w, received m seq w ->
  forall event, Ok (true, event) ∈ deliveries server l w -> msg_ID (ev_Payload event) = m -> ev_Seq event = seq.
Proof.
  induction l as [|[u a] l IH]; intros w Hw event Hin Hm; [set_solver|]. destruct a; simpl in Hin.
  - pose proof (received_with m seq _ server u w (received_receive m seq event0) Hw) as Hnext.
    destruct (withCrypto _ server (meet u w)) as [r w1] eqn:E. simpl in Hnext.
    apply elem_of_cons in Hin as [<-|Hin]; [|by eapply IH].
    apply with_accepts in E as (_ & _ & Hs). subst m. symmetry. by apply Hs.
  - eapply IH; [|done..]. apply received_with; [|done]. inv_steps.
  - eapply IH; [|done..]. apply received_with; [|done]. inv_steps.
Qed.

Lemma deliveries_ordered server l : forall w i j e1 e2, (i < j)%nat ->
  deliveries server l w !! i = Some (Ok (true, e1)) -> deliveries server l w !! j = Some (Ok (true, e2)) ->
  msg_ID (ev_Payload e1) = msg_ID (ev_Payload e2) -> ev_Seq e1 = ev_Seq e2.
Proof.
  induction l as [|[u a] l IH]; intros w i j e1 e2 Hij Hi Hj Hid; [done|]. destruct a; simpl in Hi, Hj.
  - destruct (withCrypto _ server (meet u w)) as [r w1] eqn:E. destruct j as [|j]; [lia|].
    simpl in Hj. destruct i as [|i]; simpl in Hi; [|by eapply (IH _ i j); [lia|..]].
    injection Hi as ->. apply with_accepts in E as (_ & Hrec & _).
    symmetry. eapply deliveries_received; [exact Hrec|by eapply list_elem_of_lookup_2|done].
  - by eapply (IH _ i j).
  - by eapply (IH _ i j).
Qed.

(** C22. A message wakes a worker under one sequence number. However a relay replays, renumbers
    or reorders deliveries, over any run of a listener - deliveries, sends and refreshes, each
    with its own failures of the network and of saves - all deliveries of an encrypted message
    that are accepted for work carry the same transport sequence number, so the cursor of the
    durable inbox admits the message at most once. *)
Theorem message_wakes_once server l w i j e1 e2 :
  deliveries server l w !! i = Some (Ok (true, e1)) ->
  deliveries server l w !! j = Some (Ok (true, e2)) ->
  msg_ID (ev_Payload e1) = msg_ID (ev_Payload e2) -> ev_Seq e1 = ev_Seq e2.
Proof.
  intros Hi Hj Hid. destruct (lt_eq_lt_dec i j) as [[Hlt|<-]|Hlt].
  - by eapply deliveries_ordered.
  - congruence.
  - symmetry. by eapply deliveries_ordered.
Qed.
End Replay.

(** ** The theorems at concrete inputs *)
Definition receiving_world : world := member "b" key_b [Ok (AnsRoster demo_signed); Ok (AnsRows [envelope_row])].
Definition opened_message : Message :=
  value shown_message (@decryptMessage room_primitives ascii_lower shown_message receiving_world).1.
Definition opened_world : world := (@decryptMessage room_primitives ascii_lower shown_message receiving_world).2.
Lemma opened_ok :
  @decryptMessage room_primitives ascii_lower shown_message receiving_world = (Ok opened_message, opened_world).
Proof. unfold opened_message, opened_world. apply ran_as. vm_compute. reflexivity. Qed.
Example opened_text : msg_Text opened_message = "hello" /\ msg_AgentName opened_message = "a".
Proof. vm_compute. by split. Qed.

Lemma shown_encrypted : msg_Encrypted shown_message = Some posted_envelope.
Proof. unfold shown_message. reflexivity. Qed.
Lemma message_authentic_witness : exists r, @Envelope_Verify room_primitives posted_envelope r = None /\
  msg_AgentName opened_message = env_SenderID posted_envelope.
Proof.
  pose proof (@message_authentic room_primitives ascii_lower shown_message opened_message receiving_world opened_world
    opened_ok) as Ha.
  rewrite shown_encrypted in Ha. destruct Ha as (r & _ & _ & Hv & _ & _ & _ & _ & _ & Hn & _).
  exists r. split; [exact Hv|exact Hn].
Defined.

(** The relay delivers the message, then under another number, then again as at first. *)
Definition replays : list (surroundings * activity) :=
  [(around (up_to_date "b" ++ [Ok (AnsRoster demo_signed); Ok (AnsRows [envelope_row])]), Deliver (shown_event 7));
   (around (up_to_date "b" ++ [Ok (AnsRoster demo_signed)]), Deliver (shown_event 9));
   (around (up_to_date "b" ++ [Ok (AnsRoster demo_signed)]), Deliver (shown_event 7))].
Example replay_verdicts :
  (fun r => match r with Ok (b, e) => (b, ev_Seq e) | Err _ => (false, 0) end) <$>
    @deliveries room_primitives ascii_lower room_server replays (member "b" key_b []) =
  [(true, 7); (false, 9); (true, 7)].
Proof. vm_compute. reflexivity. Qed.

Definition twice (l : list (result (bool * inboxEvent))) : bool :=
  match l !! 0%nat, l !! 2%nat with
  | Some (Ok (true, e1)), Some (Ok (true, e2)) => bool_decide (msg_ID (ev_Payload e1) = msg_ID (ev_Payload e2))
  | _, _ => false
  end.
Lemma twice_accepted l : twice l = true -> exists e1 e2, l !! 0%nat = Some (Ok (true, e1)) /\
  l !! 2%nat = Some (Ok (true, e2)) /\ msg_ID (ev_Payload e1) = msg_ID (ev_Payload e2).
Proof.
  unfold twice. destruct (l !! 0%nat) as [[[[] e1]|]|], (l !! 2%nat) as [[[[] e2]|]|]; try done.
  intros He%bool_decide_eq_true. by exists e1, e2.
Qed.
Lemma replays_accepted : exists e1 e2,
  @deliveries room_primitives ascii_lower room_server replays (member "b" key_b []) !! 0%nat = Some (Ok (true, e1)) /\
  @deliveries room_primitives ascii_lower room_server replays (member "b" key_b []) !! 2%nat = Some (Ok (true, e2)) /\
  msg_ID (ev_Payload e1) = msg_ID (ev_Payload e2).
Proof. apply twice_accepted. vm_compute. reflexivity. Qed.

Lemma message_wakes_once_witness : exists e1 e2,
  @deliveries room_primitives ascii_lower room_server replays (member "b" key_b []) !! 0%nat = Some (Ok (true, e1)) /\
  @deliveries room_primitives ascii_lower room_server replays (member "b" key_b []) !! 2%nat = Some (Ok (true, e2)) /\
  ev_Seq e1 = ev_Seq e2.
Proof.
  destruct replays_accepted as (e1 & e2 & H1 & H2 & He). exists e1, e2.
  exact (conj H1 (conj H2
    (@message_wakes_once room_primitives ascii_lower room_server replays (member "b" key_b []) 0 2 e1 e2 H1 H2 He))).
Defined.
