(* ===== verification/ProgressTheorems.v ===== *)
(** * Progress of group operations: properties

    The loops end and the fuel bounds nothing; a sealed payload opens on the receiver's device;
    the one way in which synchronization can stick. *)
From S2P Require Import Prelude GoStrings Json Types Crypto Toy Roster RosterTheorems Metadata History.
From S2P Require Import Encryption Mls MlsFacts Groups MlsTheorems Messages Invariants Scenario MessagesTheorems ReceivingTheorems.

(** ** Termination *)
Section Termination.
Context `{!Primitives}.
Variables (ToLower number : string -> string).

(** At most [n] answers are left. *)
Definition answers (n : nat) (w : world) : Prop := (length (w_net w) <= n)%nat.
#[local] Instance answers_stable n : Stable (answers n).
Proof.
  clear ToLower number. unfold answers. split.
  - by intros f _ w Hw.
  - intros w Hw. unfold save_state. by destruct (w_saves w) as [|[] l].
  - intros q _ w Hw. unfold call. destruct (w_net w); simpl in *; lia.
  - intros w Hw. unfold random. by destruct (w_random w).
Qed.

(** Asking takes an answer, or fails. *)
Lemma ask_takes {A} q (d : answer -> result A) w a w' : ask q d w = (Ok a, w') ->
  (length (w_net w') < length (w_net w))%nat.
Proof.
  clear ToLower number. unfold ask, mbind, M_bind, call, lift.
  destruct (w_net w) as [|[x|e] net]; intros Hd; simplify_eq/=; lia.
Qed.

Lemma ask_ext {A B} q (d : answer -> result A) (f g : A -> M B) w :
  (forall a w', (length (w_net w') < length (w_net w))%nat -> f a w' = g a w') ->
  (ask q d ≫= f) w = (ask q d ≫= g) w.
Proof.
  clear ToLower number. intros Hfg. unfold mbind at 1 2, M_bind at 1 2.
  destruct (ask q d w) as [[a|e] w1] eqn:Ea; [|done]. apply Hfg. by eapply ask_takes.
Qed.

Lemma cryptoRoster_takes n w r w' : cryptoRoster n w = (Ok r, w') -> (length (w_net w') < length (w_net w))%nat.
Proof.
  clear ToLower number. unfold cryptoRoster. intros Hs. apply m_bind_ok in Hs as (r1 & w1 & Ha & Hs).
  apply ask_takes in Ha.
  assert (answers (length (w_net w1)) w') as Hw; [|unfold answers in Hw; lia].
  refine (inv_run _ _ w1 _ _ _ (le_n _ : answers _ w1) Hs). unfold observe_roster.
  inv_steps; by apply stable_modify.
Qed.

(** Actions that agree after a common first step agree. *)
Lemma bind_ext {A B} n (m : M A) (f g : A -> M B) w : inv (answers n) m -> answers n w ->
  (forall a w', m w = (Ok a, w') -> answers n w' -> f a w' = g a w') -> (m ≫= f) w = (m ≫= g) w.
Proof.
  clear ToLower number. intros Hm Hw Hfg. unfold mbind, M_bind. pose proof (Hm w Hw) as Hn.
  destruct (m w) as [[a|e] w1] eqn:E; [|done]. by apply Hfg.
Qed.

Ltac ext_step n := apply (bind_ext n); [inv_steps|assumption|let E := fresh "E" in intros ? ? E ?].

Lemma change_with_fuel n (ens1 ens2 : Z -> M unit) old next q rv w :
  (forall w', answers n w' -> ens1 (ro_Epoch old) w' = ens2 (ro_Epoch old) w') -> answers n w ->
  change_with ens1 old next q rv w = change_with ens2 old next q rv w.
Proof.
  clear ToLower number. intros He Hw. unfold change_with.
  ext_step n. destruct a as [[op data] member]. do 3 ext_step n.
  apply (bind_ext n); [by apply stable_modify|done|intros ? ? _ ?].
  apply (bind_ext n); [apply stable_modify; intros; unfold note_committed; by destruct (bool_decide _)|done|intros ? ? _ ?].
  ext_step n. unfold mbind, M_bind, attempt. by rewrite He.
Qed.

Lemma inv_create_publish n : inv (answers n) (create_group) /\ inv (answers n) publish.
Proof.
  clear ToLower number. split; [unfold create_group|unfold publish]; inv_steps; by apply stable_modify.
Qed.

(** ** Recursion that ends

    The code's recursion as the equation of its body, in which [f] is the recursive call. It ends
    when every recursive call is made with fewer answers of the server left; then only one
    function satisfies the equation. *)
Definition descends {A B} (body : (A -> M B) -> A -> M B) : Prop := forall f g a w,
  (forall b v, (length (w_net v) < length (w_net w))%nat -> f b v = g b v) -> body f a w = body g a w.
Record ends_as {A B} (body : (A -> M B) -> A -> M B) (f : A -> M B) : Prop := {
  ea_descends : descends body;
  ea_equation a w : f a w = body f a w;
  ea_unique g : (forall a w, g a w = body g a w) -> forall a w, g a w = f a w }.

(** The function of a body whose calls descend, by fuel: one more than the answers is enough. *)
Section Fuel.
Context {A B : Type} (body : (A -> M B) -> A -> M B) (Hbody : descends body).
Context (loop : nat -> A -> M B) (loop_S : forall n a, loop (S n) a = body (loop n) a).

Lemma loop_fuel n : forall k a w, (length (w_net w) < n)%nat -> (length (w_net w) < k)%nat -> loop n a w = loop k a w.
Proof using Hbody loop_S.
  induction n as [|n IH]; intros [|k] a w Hn Hk; try lia. rewrite !loop_S. apply Hbody.
  intros b v Hv. apply IH; lia.
Qed.
Lemma loop_ends : ends_as body (fun a w => loop (S (length (w_net w))) a w).
Proof using Hbody loop_S.
  split; [exact Hbody|..].
  - intros a w. rewrite loop_S. apply Hbody. intros b v Hv. apply loop_fuel; lia.
  - intros g Hg a w. remember (length (w_net w)) as n eqn:En. revert a w En.
    induction n as [n IH] using lt_wf_ind. intros a w En. rewrite Hg, loop_S. apply Hbody.
    intros b v Hv. rewrite (IH (length (w_net v))) by (lia || done). apply loop_fuel; lia.
Qed.
End Fuel.

(** [syncMLS]. *)
Definition sync_body (again : unit -> M unit) (_ : unit) : M unit :=
  after ← gets cs_SyncSeq;
  rows ← ask (GetSync after) as_rows;
  sync_rows ToLower rows;;
  if Z.of_nat (length rows) <? 100 then mret tt else again tt.
Lemma sync_descends : descends sync_body.
Proof using Type.
  clear number. intros f g [] w Hfg. unfold sync_body. unfold mbind at 1 4, M_bind at 1 4, gets.
  apply ask_ext. intros rows w1 Ea. unfold mbind, M_bind.
  pose proof (inv_sync_rows (answers (length (w_net w1))) ToLower rows w1 (le_n _)) as Hr.
  destruct (sync_rows ToLower rows w1) as [[[]|e] w2]; [|done]. unfold answers in Hr. simpl in Hr.
  destruct (_ <? 100); [done|]. apply Hfg. lia.
Qed.

(** [ensureMLS], which an update in the creator's group calls again through [changeMLSRoster]. *)
Definition ensure_body (again : Z -> M unit) (remoteEpoch : Z) : M unit :=
  historyKey;;
  s ← gets id;
  require (cs_Epoch s <=? remoteEpoch) errRollback;;
  (if bool_decide (cs_PendingRoster s = None) && (remoteEpoch =? 0) then create_group else mret tt);;
  publish;;
  syncMLS ToLower;;
  r ← cryptoRoster 0;
  s ← gets id;
  require ((cs_MLSEpoch s =? ro_Epoch r) && bool_decide (Roster_Hash (cs_ActiveRoster s) = Roster_Hash r))
    "encryption synchronization incomplete; retry before sending";;
  let local := local_device s in
  require (match Roster_Device r (cs_AgentID s) with
           | Some own => bool_decide (Fingerprint own = Fingerprint local)
           | None => false
           end) "this device is not in verified MLS membership";;
  t ← now;
  if bool_decide (dev_SigningKey local = cs_Root s) && update_due t s
  then change_with again r (succeed r r) "" ""
  else mret tt.
Lemma ensure_descends : descends ensure_body.
Proof using Type.
  clear number. intros f g e w Hfg.
  set (N := length (w_net w)) in *. assert (answers N w) as Hw by (unfold answers; lia).
  destruct (inv_create_publish N) as [Hc Hp].
  unfold ensure_body. do 3 ext_step N. apply (bind_ext N); [inv_steps; exact Hc|done|intros ? ? _ ?].
  apply (bind_ext N); [exact Hp|done|intros ? ? _ ?]. ext_step N.
  match goal with Hv : answers N ?v |- _ = _ ?v =>
    apply (bind_ext N); [inv_steps|done|]; intros r w1 Hr _; apply cryptoRoster_takes in Hr;
    assert (answers (N - 1) w1) by (unfold answers in *; lia); assert (1 <= N)%nat by (unfold answers in Hv; lia) end.
  do 4 ext_step (N - 1)%nat. destruct (bool_decide (dev_SigningKey _ = _) && _); [|done].
  apply (change_with_fuel (N - 1)); [|done]. intros v Hv. apply Hfg; unfold answers in Hv; lia.
Qed.

(** The pages of [cryptoHistory]: the cursor, and what was found. *)
Definition history_body (decrypt : Message -> M Message) (channel query : string) (filter : option json) (limit : Z)
    (again : string * list Message -> M (list Message)) (at_ : string * list Message) : M (list Message) :=
  let '(before, out) := at_ in
  page ← ask (GetMessages channel before) as_messages;
  '(out, full) ← history_page ToLower number true decrypt query filter limit out page;
  if (full : bool) || (Z.of_nat (length page) <? 100) then mret out else
  let cursor := Itoa (default 0 (msg_Seq <$> last page)) in
  require (negb (bool_decide (cursor = before))) "history cursor did not advance";;
  again (cursor, out).
Lemma history_descends decrypt channel query filter limit : (forall n m, inv (answers n) (decrypt m)) ->
  descends (history_body decrypt channel query filter limit).
Proof using Type.
  intros Hd f g [before out] w Hfg. unfold history_body.
  apply ask_ext. intros page w1 Ea. set (N := length (w_net w1)) in *. assert (answers N w1) as Hw by (unfold answers; lia).
  apply (bind_ext N); [apply inv_history_page; [apply _|exact (Hd N)]|done|]. intros [out' full] w2 _ Hw2.
  destruct (_ || _); [done|]. ext_step N. apply Hfg. unfold answers in *; lia.
Qed.
Definition history_loop (decrypt : Message -> M Message) (channel query : string) (filter : option json) (limit : Z)
    (n : nat) (at_ : string * list Message) : M (list Message) :=
  history_pages ToLower number n true decrypt channel query filter limit at_.1 at_.2.

Lemma decrypt_answers n m : inv (answers n) (decryptMessage ToLower m).
Proof using Type. clear number. inv_steps. Qed.

End Termination.

(** ** Where synchronization sticks *)
Section Stuck.
Context `{!Primitives}.
Variable ToLower : string -> string.

(** C38. Observing a membership ahead of the journal blocks the journal. [cryptoRoster] records the
    server's current roster as the active one even when its journal row has not been applied
    (a member published between the synchronization and the query, or the query came from
    [decryptMessage] for an envelope of epoch 0). When that row then arrives in any later
    state with this active roster, it fails as a fork, and it leaves memory and disk
    as they were: every later synchronization fails at the same row. *)
Theorem observed_roster_blocks_journal (r : Roster) (w w1 v v2 : world) (seq : Z) (res : result unit) :
  cryptoRoster 0 w = (Ok r, w1) ->
  cs_ActiveRoster (w_state v) = cs_ActiveRoster (w_state w1) ->
  cs_RoomID (w_state v) = cs_RoomID (w_state w1) -> cs_Root (w_state v) = cs_Root (w_state w1) ->
  cs_WorkspaceID (w_state v) = cs_WorkspaceID (w_state w1) ->
  cs_SyncSeq (w_state v) < seq -> ro_Epoch r < 2 ^ 63 ->
  sync_row ToLower (mkRow seq "roster" (PayloadRoster r)) v = (res, v2) ->
  res = Err errFork /\ w_state v2 = w_state v /\ w_disk v2 = w_disk v.
Proof.
  intros Hc Ha Hroom Hroot Hws Hseq He Hs. apply cryptoRoster_ok in Hc as (Hr & Hv & Hst & _).
  rewrite (Hst eq_refl) in *. simpl in *.
  assert (1 <= ro_Epoch r) as Hpos by (by apply Roster_Verify_iff in Hv; destruct Hv).
  assert ((ro_Epoch r =? int_incr (ro_Epoch r)) = false) as Hne.
  { apply Z.eqb_neq. intros Heq. symmetry in Heq. revert Heq. apply int_incr_ne. lia. }
  assert (apply_row ToLower (mkRow seq "roster" (PayloadRoster r)) v = (Err errFork, v)) as Hrow.
  { unfold apply_row. rewrite (m_step _ _ _ (w_state v) v) by done.
    rewrite (m_step _ _ _ tt v) by (apply require_true; by apply Z.ltb_lt).
    apply m_stop. simpl. unfold sync_roster. rewrite (m_step _ _ _ (w_state v) v) by done.
    rewrite (m_step _ _ _ tt v) by (apply require_true, bool_decide_eq_true; congruence).
    rewrite (m_step _ _ _ tt v) by (apply check_none; by rewrite Hroot, Hws).
    apply m_stop, require_false. by rewrite Ha, Hne. }
  unfold sync_row, mbind, M_bind in Hs. rewrite Hrow in Hs. by simplify_eq.
Qed.
End Stuck.

(** ** From a sender to a receiver *)
Section Roundtrip.
Context `{!Primitives}.
Variable ToLower : string -> string.

(** The one kind of text that is read back: an archive entry, whose fields are base64. *)
Hypothesis entry_parses : forall x, json_parse (json_text (entry_json x)) = Some (entry_json x).
Hypothesis aead_opens : forall key nonce data context, len key = 32 ->
  aead_open key (aead_seal key nonce data context) context = Ok data.
Hypothesis aead_size : forall key nonce data context, len key = 32 -> 28 <= len (aead_seal key nonce data context).

(** The group of the room ([mlsCall]). *)
Definition room_group_id (s : cryptoState) : string :=
  if bool_decide (cs_RoomID s <> "") then cs_WorkspaceID s +:+ "/room/" +:+ cs_RoomID s else cs_WorkspaceID s.

Lemma decode_entry_json x : decode_entry (entry_json x) = Some x.
Proof.
  clear. destruct x as [k p]. unfold entry_json, omit_string, bytes_json, decode_entry, decode_object.
  cbn [ae_Key ae_Payload]. case_bool_decide; case_bool_decide; subst; reflexivity.
Qed.

Lemma SealLocal_opens key nonce plain context c : SealLocal key nonce plain context = Ok c ->
  OpenLocal key c context = Ok plain /\ c <> "".
Proof using aead_opens aead_size.
  clear ToLower entry_parses. unfold SealLocal, OpenLocal. case_match eqn:E; [done|]. intros [= <-].
  assert (len key = 32) as Hkey by (bool_simpl; lia).
  pose proof (aead_size key nonce plain context Hkey) as Hlen.
  destruct (Z.ltb_spec (len (aead_seal key nonce plain context)) (12 + 16)); [lia|].
  split; [by apply aead_opens|]. intros He. rewrite He in Hlen. by vm_compute in Hlen.
Qed.

Lemma random_ok w : exists x w1, random w = (Ok x, w1) /\ w_state w1 = w_state w /\ w_history w1 = w_history w.
Proof. clear. unfold random. destruct (w_random w); by eexists _, _. Qed.

(** A key put into the archive is found there. *)
Lemma archivePut_finds e x hk w : w_history w = Ok hk -> len hk = 32 ->
  exists w', archivePut ToLower e x w = (Ok tt, w') /\ w_history w' = Ok hk /\
    same_by place_of (w_state w) (w_state w') /\ cs_Rejected (w_state w') = cs_Rejected (w_state w) /\
    exists c, cs_Archive (w_state w') !! archiveID e = Some c /\
      OpenLocal hk c (archive_context (w_state w) e) = Ok (json_text (entry_json x)).
Proof using aead_opens aead_size.
  clear entry_parses. intros Hh Hk. unfold archivePut.
  rewrite (m_step _ _ _ hk w) by (unfold historyKey; by rewrite Hh, Hk).
  rewrite (m_step _ _ _ (w_state w) w) by done.
  destruct (random_ok w) as (nonce & w1 & Hr & Hst & Hh1). rewrite (m_step _ _ _ _ _ Hr).
  set (context := archive_context (w_state w) e).
  assert (exists c, SealLocal hk nonce (json_text (entry_json x)) context = Ok c) as [c Hc].
  { unfold SealLocal. rewrite Hk. by eexists. }
  rewrite Hc. rewrite (m_step _ _ _ c w1) by done. apply SealLocal_opens in Hc as [Hc _].
  erewrite m_step by reflexivity.
  destruct (index_of _ _ _ _); (eexists; split; [reflexivity|]); simpl; rewrite Hst;
    (split_and!; [congruence|done|done|exists c; by rewrite lookup_insert_eq]).
Qed.

Lemma archiveGet_finds e x hk c w : w_history w = Ok hk -> len hk = 32 ->
  cs_Archive (w_state w) !! archiveID e = Some c ->
  OpenLocal hk c (archive_context (w_state w) e) = Ok (json_text (entry_json x)) ->
  archiveGet e w = (Ok (Some x), w).
Proof using entry_parses.
  clear aead_opens aead_size ToLower. intros Hh Hk Hc Ho. unfold archiveGet.
  rewrite (m_step _ _ _ (w_state w) w) by done. rewrite Hc.
  rewrite (m_step _ _ _ hk w) by (unfold historyKey; by rewrite Hh, Hk).
  rewrite Ho, entry_parses.
  assert ((Some (entry_json x) ≫= decode_entry) = Some x) as -> by apply decode_entry_json. done.
Qed.

Lemma mlsCall_state op d a m w out w' : mlsCall op d a m false w = (Ok out, w') ->
  w_state w' = w_state w /\ exists rnd, mls rnd (mkMLSRequest op (cs_MLS (w_state w))
    (id_SigningKey (cs_Identity (w_state w))) (room_group_id (w_state w)) d a m) = Ok out.
Proof.
  clear. unfold mlsCall. intros Hm. m_inv.
  match goal with Hr : random _ = _ |- _ => apply random_state in Hr end. eauto.
Qed.

Lemma wrap_key_group r e key w e1 k w1 : wrap_key r e key w = (Ok (e1, k), w1) ->
  cs_RoomID (w_state w) <> "" ->
  w_state w1 = w_state w /\ k = key /\ exists g room, e1 = set_Room g room e /\ (room = env_RoomID e \/ g = true).
Proof.
  clear. unfold wrap_key. intros Hs Hr. m_inv. case_bool_decide; m_inv.
  - rewrite bool_decide_true in Hs by done. m_inv. split_and!; [done|done|]. eexists _, _. split; [done|by right].
  - split_and!; [done|done|]. exists (env_RoomGroup e), (env_RoomID e). split; [by destruct e|by left].
Qed.

(** What a receiver of a sealed envelope needs of it. *)
Record sealed_as (s : cryptoState) (e e' : Envelope) (plain : string) : Prop := {
  sa_id : MessageID e' = MessageID e;
  sa_sender : env_SenderID e' = env_SenderID e;
  sa_channel : env_ChannelID e' = env_ChannelID e;
  sa_scope : env_RoomID e' = "" \/ env_RoomGroup e' = true;
  sa_hash : PayloadHash (env_Ciphertext e') = env_PayloadHash e';
  sa_key : exists key rnd state out, len key = 32 /\
    OpenLocal key (env_Ciphertext e') (MessageID e') = Ok plain /\ env_Ciphertext e' <> "" /\
    env_Capsule e' = rp_Data out /\
    mls rnd (mkMLSRequest "encrypt" state (id_SigningKey (cs_Identity s)) (room_group_id s) key (MLSContext e') "")
      = Ok out }.

Lemma sealMLS_as e r plain w e' w' : sealMLS ToLower e r plain w = (Ok e', w') ->
  is_private (env_ChannelID e) = false -> cs_RoomID (w_state w) <> "" -> env_RoomID e = "" ->
  sealed_as (w_state w) e e' plain.
Proof using aead_opens aead_size.
  clear entry_parses. intros Hs Hp Hroom Hr. unfold sealMLS in Hs. m_inv. m_pairs.
  match goal with Hx : seal_payload _ _ _ = _ |- _ => apply seal_payload_ok in Hx as (nonce & Hk & -> & Hst1) end.
  simpl in *. rewrite Hp in *.
  match goal with Hx : private_group false _ = _ |- _ => unfold private_group in Hx; simpl in Hx; m_inv end.
  match goal with Hx : wrap_key _ _ _ _ = _ |- _ =>
    apply wrap_key_group in Hx as (Hst2 & -> & g & room & -> & Hscope); [|by rewrite Hst1] end.
  match goal with Hx : mlsCall _ _ _ _ false _ = _ |- _ => apply mlsCall_state in Hx as (_ & rnd & Hm) end.
  rewrite Hst2, Hst1 in Hm.
  match goal with Hg : Ok _ = SignMLS _ _ |- _ => symmetry in Hg; apply SignMLS_ok in Hg as (sg & ->) end.
  split; simpl; try done; [by destruct Hscope as [->| ->]; [left|right]|].
  eexists _, rnd, _, _. split_and!; [exact Hk| | |reflexivity|exact Hm].
  all: eapply SealLocal_opens; unfold SealLocal; by rewrite Hk.
Qed.

(** The module: what was encrypted for a group, a member of that group with a full signing key whose
    state reads the capsule decrypts to the same data, with the authenticated data and the
    sender's key. [reads state group capsule] stands for what the library asks of that state: it
    holds the group, at the epoch of the message, and has not used up the message's key. *)
Variable reads : string -> string -> string -> Prop.
Hypothesis mls_delivers : forall rnd rq out, rq_Op rq = "encrypt" -> mls rnd rq = Ok out ->
  forall rnd' state key, len key = 64 -> reads state (rq_Group rq) (rp_Data out) ->
  exists out', mls rnd' (mkMLSRequest "decrypt" state key (rq_Group rq) (rp_Data out) "" "") = Ok out' /\
    rp_Data out' = rq_Data rq /\ rp_AAD out' = rq_AAD rq /\ rp_Sender out' = public_half (rq_SigningKey rq).

(** The journal's copy of an envelope has no payload. *)
Definition journal_copy (e : Envelope) : Envelope := set_Sealed "" (env_Signature e) e.

(** A member of the sender's group that has not met the envelope. *)
Record ready (w : world) (e : Envelope) (sender_key group : string) (seq : Z) : Prop := {
  rd_group : room_group_id (w_state w) = group;
  rd_signing : len (id_SigningKey (cs_Identity (w_state w))) = 64;
  rd_seq : cs_SyncSeq (w_state w) < seq;
  rd_accepts : Envelope_Verify (journal_copy e) (cs_ActiveRoster (w_state w)) = None;
  rd_member : is_Some (Roster_Device (cs_ActiveRoster (w_state w)) (cs_AgentID (w_state w)));
  rd_sender : exists d, Roster_Device (cs_ActiveRoster (w_state w)) (env_SenderID e) = Some d /\
    dev_SigningKey d = sender_key;
  rd_other : env_SenderID e <> cs_AgentID (w_state w);
  rd_new : archiveID e ∉ cs_Consumed (w_state w);
  rd_known : cs_Rejected (w_state w) !! rejectedEnvelopeID e = None;
  rd_key : exists hk, w_history w = Ok hk /\ len hk = 32;
  rd_reads : reads (cs_MLS (w_state w)) group (env_Capsule e) }.

Lemma mlsCall_delivers s e e' plain w : sealed_as s e e' plain -> room_group_id (w_state w) = room_group_id s ->
  len (id_SigningKey (cs_Identity (w_state w))) = 64 -> reads (cs_MLS (w_state w)) (room_group_id s) (env_Capsule e') ->
  exists key out w1, mlsCall "decrypt" (env_Capsule e') "" "" false w = (Ok out, w1) /\
    w_state w1 = w_state w /\ w_history w1 = w_history w /\
    rp_Data out = key /\ rp_AAD out = MLSContext e' /\ rp_Sender out = public_half (id_SigningKey (cs_Identity s)) /\
    len key = 32 /\ OpenLocal key (env_Ciphertext e') (MessageID e') = Ok plain /\ env_Ciphertext e' <> "".
Proof using mls_delivers.
  clear entry_parses aead_opens aead_size ToLower.
  intros [_ _ _ _ _ (key & rnd & state & out & Hk & Ho & Hne & Hc & Hm)] Hgroup Hsigning Hreads.
  destruct (random_ok w) as (x & w1 & Hr & Hst & Hh). rewrite Hc in *.
  destruct (mls_delivers _ (mkMLSRequest "encrypt" _ _ _ _ _ _) _ eq_refl Hm x (cs_MLS (w_state w)) (id_SigningKey (cs_Identity (w_state w)))
    Hsigning Hreads) as (out' & Hd & Hdata & Haad & Hs).
  exists key, out', w1. unfold mlsCall. rewrite (m_step _ _ _ (w_state w) w) by done. rewrite (m_step _ _ _ _ _ Hr).
  split_and!; try done. cbn [rq_Group] in Hd. rewrite <- Hgroup in Hd. unfold room_group_id in Hd. by rewrite Hd.
Qed.

(** Consuming the journal's copy of a sealed envelope archives its key. *)
Lemma consumeMLSKey_archives s e e' plain w seq : sealed_as s e e' plain ->
  is_private (env_ChannelID e') = false ->
  ready w e' (public_half (id_SigningKey (cs_Identity s))) (room_group_id s) seq ->
  exists w1 key hk c, consumeMLSKey ToLower (journal_copy e') w = (Ok tt, w1) /\
    OpenLocal key (env_Ciphertext e') (MessageID e') = Ok plain /\
    w_history w1 = Ok hk /\ len hk = 32 /\ cs_Rejected (w_state w1) = cs_Rejected (w_state w) /\
    same_by place_of (w_state w) (w_state w1) /\
    cs_Archive (w_state w1) !! archiveID e' = Some c /\
    OpenLocal hk c (archive_context (w_state w) e') = Ok (json_text (entry_json (mkArchiveEntry key ""))).
Proof using mls_delivers aead_opens aead_size.
  clear entry_parses.
  intros Hsa Hp [Hgroup Hsigning _ _ _ (d & Hd & Hdk) Hne Hnew _ (hk & Hh & Hk) Hreads].
  destruct (mlsCall_delivers s e e' plain w Hsa Hgroup Hsigning Hreads)
    as (key & out & w1 & Hcall & Hst1 & Hh1 & Hdata & Haad & Hsender & Hlen & Hopen & _).
  destruct (archivePut_finds (journal_copy e') (mkArchiveEntry key "") hk w1) as
    (w2 & Hput & Hh2 & Hplace & Hrej & c & Hc & Ho); [by rewrite Hh1|done|].
  unfold consumeMLSKey. rewrite (m_step _ _ _ (w_state w) w) by done.
  rewrite bool_decide_false by exact Hnew.
  rewrite (m_step _ _ _ tt w) by (apply require_true; by rewrite bool_decide_false).
  change (is_private (env_ChannelID (journal_copy e'))) with (is_private (env_ChannelID e')). rewrite Hp.
  rewrite (m_step _ _ _ tt w) by done.
  rewrite (m_step _ _ _ out w1) by exact Hcall.
  change (env_SenderID (journal_copy e')) with (env_SenderID e'). rewrite Hd.
  rewrite (m_step _ _ _ tt w1) by (apply require_true, andb_true_intro; split; apply bool_decide_eq_true; [by rewrite Hsender, Hdk|exact Haad]).
  assert (bool_decide (env_RoomID (journal_copy e') <> "") && negb (env_RoomGroup (journal_copy e')) = false) as ->.
  { cbn. destruct (sa_scope _ _ _ _ Hsa) as [->| ->]; [done|]. by rewrite andb_false_r. }
  cbn [andb]. rewrite (m_step _ _ _ (rp_Data out) w1) by done. rewrite Hdata.
  rewrite (m_step _ _ _ tt w1) by (apply require_true; by apply Z.eqb_eq).
  rewrite (m_step _ _ _ _ _ Hput).
  eexists _, key, hk, c. split; [reflexivity|]. rewrite Hst1 in *. split_and!; done.
Qed.

(** Taking in the journal row of a sealed envelope archives its key. *)
Lemma envelope_row_archives s e e' plain w seq : sealed_as s e e' plain ->
  is_private (env_ChannelID e') = false ->
  ready w e' (public_half (id_SigningKey (cs_Identity s))) (room_group_id s) seq ->
  exists w1 key hk c, apply_row ToLower (mkRow seq "envelope" (PayloadEnvelope (journal_copy e'))) w = (Ok tt, w1) /\
    OpenLocal key (env_Ciphertext e') (MessageID e') = Ok plain /\
    w_history w1 = Ok hk /\ len hk = 32 /\ cs_Rejected (w_state w1) = cs_Rejected (w_state w) /\
    cs_Archive (w_state w1) !! archiveID e' = Some c /\
    OpenLocal hk c (archive_context (w_state w1) e') = Ok (json_text (entry_json (mkArchiveEntry key ""))).
Proof using mls_delivers aead_opens aead_size.
  clear entry_parses. intros Hsa Hp Hr.
  destruct (consumeMLSKey_archives s e e' plain w seq Hsa Hp Hr)
    as (w1 & key & hk & c & Hrun & Ho & Hh & Hk & Hrej & Hplace & Hc & Hoc).
  destruct Hr as [_ _ Hseq Hv Hmem _ _ _ _ _ _].
  assert (cs_WorkspaceID (w_state w1) = cs_WorkspaceID (w_state w)) as Hws by (unfold same_by, place_of, group_of in Hplace; by simplify_eq).
  eexists _, key, hk, c. split_and!; [|exact Ho|..].
  - unfold apply_row. rewrite (m_step _ _ _ (w_state w) w) by done.
    rewrite (m_step _ _ _ tt w) by (apply require_true; by apply Z.ltb_lt).
    rewrite (m_step _ _ _ tt w1); [reflexivity|]. simpl. unfold sync_envelope.
    rewrite (m_step _ _ _ (w_state w) w) by done. rewrite (m_step _ _ _ tt w) by (by apply check_none).
    rewrite bool_decide_true by exact Hmem.
    rewrite (m_step _ _ _ (Ok tt) w1); [done|]. unfold attempt. by rewrite Hrun.
  - exact Hh.
  - exact Hk.
  - exact Hrej.
  - exact Hc.
  - rewrite <- Hoc. unfold archive_context. f_equal. f_equal. exact Hws.
Qed.

(** C11. A sealed payload opens. Let the authenticated cipher open what it sealed under a 32-byte key,
    the text of an archive entry be read back, and the group module deliver what was encrypted for
    a group to the members of that group whose state reads it. Then the payload that a member
    seals for the room's group ([sealMLS], the fresh key in the group's capsule) comes back from
    [openMLSPayload] on every other device of the same group, with a 64-byte signing key, that
    takes in the journal row of the envelope: the row's key is archived under the device's
    history key, is found by the envelope's identity, and opens the ciphertext to the very
    payload. *)
Theorem sealed_payload_opens (s w w' : world) (r : Roster) (e e' : Envelope) (plain : string) (seq : Z) :
  sealMLS ToLower e r plain s = (Ok e', w') ->
  is_private (env_ChannelID e) = false -> cs_RoomID (w_state s) <> "" -> env_RoomID e = "" ->
  ready w e' (public_half (id_SigningKey (cs_Identity (w_state s)))) (room_group_id (w_state s)) seq ->
  exists w1 w2, apply_row ToLower (mkRow seq "envelope" (PayloadEnvelope (journal_copy e'))) w = (Ok tt, w1) /\
    openMLSPayload ToLower e' w1 = (Ok plain, w2).
Proof using mls_delivers entry_parses aead_opens aead_size.
  intros Hs Hp Hroom Henv Hr. pose proof (sealMLS_as _ _ _ _ _ _ Hs Hp Hroom Henv) as Hsa.
  assert (is_private (env_ChannelID e') = false) as Hp' by (by rewrite (sa_channel _ _ _ _ Hsa)).
  destruct (envelope_row_archives _ _ _ _ _ _ Hsa Hp' Hr)
    as (w1 & key & hk & c & Hrow & Ho & Hh & Hk & Hrej & Hc & Hoc).
  destruct Hsa as [_ _ _ _ Hhash (_ & _ & _ & _ & _ & _ & Hct & _)]. destruct Hr as [_ _ _ _ _ _ _ _ Hkn _ _].
  unfold openMLSPayload. 
  assert (exists w2, (if bool_decide (env_Kind e' = "message") && true
     then archivePut ToLower e' (mkArchiveEntry key plain) else mret tt) w1 = (Ok tt, w2)) as (w2 & Hput).
  { destruct (_ && _); [|by eexists].
    destruct (archivePut_finds e' (mkArchiveEntry key plain) hk w1 Hh Hk) as (w2 & Hput & _). by exists w2. }
  exists w1, w2. split; [exact Hrow|].
  rewrite (m_step _ _ _ (w_state w1) w1) by done. 
  rewrite (m_step _ _ _ tt w1) by (apply require_true; rewrite Hrej, Hkn; done).
  rewrite (m_step _ _ _ tt w1) by (apply require_true; by rewrite bool_decide_false, bool_decide_true).
  rewrite (m_step _ _ _ _ _ (archiveGet_finds _ _ _ _ _ Hh Hk Hc Hoc)).
  rewrite (m_step _ _ _ (mkArchiveEntry key "") w1) by done. simpl. rewrite Ho.
  rewrite (m_step _ _ _ plain w1) by done. by rewrite (m_step _ _ _ _ _ Hput).
Qed.
End Roundtrip.


(** The roster that follows [demo_signed]. *)
Definition next_roster : Roster :=
  signed_by_owner (mkRoster "rm_mls_1" None None [] 0 "ws" 2 (@Roster_Hash room_primitives demo_signed)
                     (ro_Members demo_signed) "" 2 "commit" "").
Definition ahead : world := (@cryptoRoster room_primitives 0 (member "b" key_b [Ok (AnsRoster next_roster)])).2.
Definition ahead_roster : Roster :=
  value zero_roster (@cryptoRoster room_primitives 0 (member "b" key_b [Ok (AnsRoster next_roster)])).1.
Lemma ahead_ok :
  @cryptoRoster room_primitives 0 (member "b" key_b [Ok (AnsRoster next_roster)]) = (Ok ahead_roster, ahead).
Proof. unfold ahead, ahead_roster. apply ran_as. vm_compute. reflexivity. Qed.
Lemma ahead_facts : cs_SyncSeq (w_state ahead) < 2 /\ ro_Epoch ahead_roster < 2 ^ 63.
Proof. split; apply Z.ltb_lt; vm_compute; reflexivity. Qed.

Lemma observed_roster_blocks_journal_witness : exists res v2,
  @sync_row room_primitives ascii_lower (mkRow 2 "roster" (PayloadRoster ahead_roster)) ahead = (res, v2) /\
  res = Err errFork /\ w_state v2 = w_state ahead.
Proof.
  destruct (@sync_row room_primitives ascii_lower (mkRow 2 "roster" (PayloadRoster ahead_roster)) ahead)
    as [res v2] eqn:Hs.
  destruct (@observed_roster_blocks_journal room_primitives ascii_lower ahead_roster
    (member "b" key_b [Ok (AnsRoster next_roster)]) ahead ahead v2 2 res ahead_ok eq_refl eq_refl eq_refl eq_refl
    (proj1 ahead_facts) (proj2 ahead_facts) Hs) as (Hr & Hst & _).
  exists res, v2. split_and!; [done|exact Hr|exact Hst].
Defined.

Lemma toy_opens (key nonce data context : string) :
  @aead_open room_primitives key (@aead_seal room_primitives key nonce data context) context = Ok data.
Proof.
  change (Ok (drop_str 28 (toy_header +:+ data)) = Ok data). f_equal. unfold drop_str. rewrite bytes_app.
  replace 28%nat with (length (bytes toy_header)) by reflexivity. by rewrite drop_app_length, of_bytes_bytes.
Qed.
Lemma toy_size (key nonce data context : string) : 28 <= len (@aead_seal room_primitives key nonce data context).
Proof.
  change (28 <= len (toy_header +:+ data)). unfold len. rewrite <- length_bytes, bytes_app, length_app.
  assert (length (bytes toy_header) = 28%nat) as -> by reflexivity. lia.
Qed.

Definition sealed_hello : result Envelope * world :=
  @sealMLS room_primitives ascii_lower hello_envelope demo_signed "hi" (member "a" demo_key []).
Definition hello_sealed : Envelope := value zero_envelope sealed_hello.1.
Lemma hello_sealed_ok :
  @sealMLS room_primitives ascii_lower hello_envelope demo_signed "hi" (member "a" demo_key []) =
  (Ok hello_sealed, sealed_hello.2).
Proof. unfold hello_sealed, sealed_hello. apply ran_as. vm_compute. reflexivity. Qed.

Lemma hello_ready :
  @ready room_primitives (fun _ _ _ => True) (member "b" key_b []) hello_sealed
    (public_half (id_SigningKey (cs_Identity (w_state (member "a" demo_key [])))))
    (room_group_id (w_state (member "a" demo_key []))) 2.
Proof.
  split.
  - vm_compute. reflexivity.
  - vm_compute. reflexivity.
  - apply Z.ltb_lt. vm_compute. reflexivity.
  - vm_compute. reflexivity.
  - apply (bool_decide_eq_true_1 _). vm_compute. reflexivity.
  - exists (demo_device "a" demo_key). split; vm_compute; reflexivity.
  - apply (bool_decide_eq_true_1 _). vm_compute. reflexivity.
  - unfold member, member_state. cbn [w_state cs_Consumed]. apply not_elem_of_empty.
  - unfold member, member_state. cbn [w_state cs_Rejected]. apply lookup_empty.
  - exists demo_key. split; vm_compute; reflexivity.
  - exact I.
Qed.

Lemma sealed_payload_opens_witness : exists w1 w2,
  @apply_row room_primitives ascii_lower (mkRow 2 "envelope" (PayloadEnvelope (journal_copy hello_sealed)))
    (member "b" key_b []) = (Ok tt, w1) /\
  @openMLSPayload room_primitives ascii_lower hello_sealed w1 = (Ok "hi", w2).
Proof.
  exact (@sealed_payload_opens room_primitives ascii_lower (fun x => toy_parse_text (entry_json x))
    (fun key nonce data context _ => toy_opens key nonce data context) (fun key nonce data context _ => toy_size key nonce data context)
    (fun _ _ _ => True)
    (fun rnd rq out Hop Hm rnd' state key _ _ => toy_group_delivers rnd rq out Hop Hm rnd' state key (rq_Group rq))
    (member "a" demo_key []) (member "b" key_b []) sealed_hello.2 demo_signed hello_envelope hello_sealed "hi" 2
    hello_sealed_ok eq_refl ltac:(discriminate) eq_refl hello_ready).
Defined.
