(* ===== verification/Codex.v ===== *)
(** * The Codex control connection

    [cmd/tincan/codex_rpc.go] and the exchanges over it ([plugin_codex.go],
    [codex_queue.go], [codex_reload.go]): a JSON-RPC client that answers the runtime's own
    requests while it waits. What the runtime sends, up to the end of the connection, is a
    list; a write's outcome is taken from a script. The text of an unparsed identifier is its
    JSON value, which is exact for numbers. *)
From S2P Require Import Prelude GoStrings Json Types Metadata Crypto.

Record codexMessage := mkCodexMessage {
  cm_ID : option json; cm_Method : string; cm_Params : option json; cm_Result : option json;
  cm_Error : option string }.

(** [rp_sent]: what was written, oldest first. *)
Record codexRPC := mkRPC {
  rp_next : Z; rp_messages : list (result codexMessage); rp_writes : list (option string);
  rp_sent : list json }.
Definition set_messages (l : list (result codexMessage)) (r : codexRPC) : codexRPC :=
  mkRPC (rp_next r) l (rp_writes r) (rp_sent r).

Definition write (v : json) (r : codexRPC) : option string * codexRPC :=
  match rp_writes r with
  | Some e :: l => (Some e, mkRPC (rp_next r) (rp_messages r) l (rp_sent r))
  | None :: l => (None, mkRPC (rp_next r) (rp_messages r) l (rp_sent r ++ [v]))
  | [] => (None, mkRPC (rp_next r) (rp_messages r) [] (rp_sent r ++ [v]))
  end.

Definition errClosed : string := "Codex control connection closed".
Definition errNoHandler : string := "Tincan has no approval or input handler for this request".

(** ** The client; [W] is the state that its callbacks work on *)
Section Client.
Context {W : Type}.

(** [r.handle] and [r.notice]. *)
Record callbacks := mkCallbacks {
  cb_handle : option (string -> option json -> W -> result json * W);
  cb_notice : option (string -> option json -> W -> W) }.
Variable h : callbacks.

(** The answer to a request of the runtime. *)
Definition reply_json (id : json) (answer : result json) : json :=
  match answer with
  | Ok v => JObj [("id", id); ("result", v)]
  | Err e => JObj [("error", JObj [("code", JInt (-32601)); ("message", JStr e)]); ("id", id)]
  end.

Definition dispatch (v : result codexMessage) (r : codexRPC) (w : W) : result codexMessage * codexRPC * W :=
  match v with
  | Err e => (Err e, r, w)
  | Ok m =>
      if bool_decide (cm_Method m = "") then (Ok m, r, w) else
      match cm_ID m with
      | Some id =>
          let '(answer, w) := match cb_handle h with
                              | Some handle => handle (cm_Method m) (cm_Params m) w
                              | None => (Err errNoHandler, w)
                              end in
          let '(err, r) := write (reply_json id answer) r in
          (match err with Some e => Err e | None => Ok m end, r, w)
      | None =>
          (Ok m, r, match cb_notice h with Some notice => notice (cm_Method m) (cm_Params m) w | None => w end)
      end
  end.

Definition read (r : codexRPC) (w : W) : result codexMessage * codexRPC * W :=
  match rp_messages r with
  | [] => (Err errClosed, r, w)
  | v :: l => dispatch v (set_messages l r) w
  end.

(** [string(m.ID) == id]: the identifier is that number. *)
Definition answers (id : string) (m : codexMessage) : bool :=
  match cm_ID m with Some (JNum l) => bool_decide (l = id) | _ => false end.

(** The messages up to the answer to the request [id]. *)
Fixpoint await (method id : string) (l : list (result codexMessage)) (r : codexRPC) (w : W)
    : result json * codexRPC * W :=
  match l with
  | [] => (Err errClosed, set_messages [] r, w)
  | v :: l =>
      match dispatch v (set_messages l r) w with
      | (Err e, r, w) => (Err e, r, w)
      | (Ok m, r, w) =>
          if negb (bool_decide (cm_Method m = "")) || negb (answers id m)
          then await method id l r w
          else (match cm_Error m with
                | Some e => Err ("Codex " +:+ method +:+ ": " +:+ e)
                | None => match cm_Result m with
                          | Some v => Ok v
                          | None => Err "Codex response has no result"
                          end
                end, r, w)
      end
  end.

Definition call (method : string) (params : json) (r : codexRPC) (w : W) : result json * codexRPC * W :=
  let r := mkRPC (int_incr (rp_next r)) (rp_messages r) (rp_writes r) (rp_sent r) in
  let '(err, r) := write (JObj [("id", JInt (rp_next r)); ("method", JStr method); ("params", params)]) r in
  match err with
  | Some e => (Err e, r, w)
  | None => await method (Itoa (rp_next r)) (rp_messages r) r w
  end.

Definition initialize_params : json :=
  JObj [("capabilities", JObj [("experimentalApi", JBool true)]);
        ("clientInfo", JObj [("name", JStr "tincan"); ("version", JStr "0.4.0")])].
Definition initialize (r : codexRPC) (w : W) : option string * codexRPC * W :=
  match call "initialize" initialize_params r w with
  | (Err e, r, w) => (Some e, r, w)
  | (Ok _, r, w) => let '(err, r) := write (JObj [("method", JStr "initialized")]) r in (err, r, w)
  end.

(** ** Is the task loaded ([verifyCodexLoaded]) *)
Definition errNotLoaded : string := "Codex task is not loaded in the reachable runtime".
Definition decode_loaded (v : json) : option (list string * string) :=
  decode_object
    [("data", fun v p => match v with JArr l => l ← decode_strings l; Some (l, p.2) | JNull => Some ([], p.2) | _ => None end);
     ("nextCursor", fun v p => s ← decode_string v p.2; Some (p.1, s))] v ([], "").
Definition loaded_params (cursor : option string) : json :=
  match cursor with Some c => JObj [("cursor", JStr c)] | None => JObj [] end.

(** [fuel] bounds the pages; [pages_end] shows that the messages left do. *)
Fixpoint loaded_pages (fuel : nat) (thread : string) (seen : gset string) (cursor : option string)
    (r : codexRPC) (w : W) : option (option string) * codexRPC * W :=
  match fuel with
  | O => (None, r, w)
  | S fuel =>
      match call "thread/loaded/list" (loaded_params cursor) r w with
      | (Err e, r, w) => (Some (Some e), r, w)
      | (Ok data, r, w) =>
          match decode_loaded data with
          | None => (Some (Some "invalid list of loaded tasks"), r, w)
          | Some (tasks, next) =>
              if bool_decide (thread ∈ tasks) then (Some None, r, w)
              else if bool_decide (next = "") || bool_decide (next ∈ seen) then (Some (Some errNotLoaded), r, w)
              else loaded_pages fuel thread ({[next]} ∪ seen) (Some next) r w
          end
      end
  end.
Definition verifyCodexLoaded (thread : string) (r : codexRPC) (w : W) : option string * codexRPC * W :=
  match loaded_pages (S (length (rp_messages r))) thread ∅ None r w with
  | (Some err, r, w) => (err, r, w)
  | (None, r, w) => (Some errClosed, r, w)
  end.

(** ** The exchanges *)
Section Exchanges.
Variable task_id : string -> bool.   (* [codexTaskID.MatchString] *)

(** [codexExchangeRPC]: [payload] is its text, absent for a probe. *)
Definition tool_output (text : string) : json :=
  JObj [("name", JStr "tincan_event"); ("output", JStr text)].
Definition codexExchangeRPC (thread : string) (payload : option string) (r : codexRPC) (w : W)
    : option string * codexRPC * W :=
  if negb (task_id thread) then (Some "codex_thread_id must be this task's CODEX_THREAD_ID UUID", r, w) else
  match initialize r w with
  | (Some e, r, w) => (Some e, r, w)
  | (None, r, w) =>
      match verifyCodexLoaded thread r w with
      | (Some e, r, w) => (Some e, r, w)
      | (None, r, w) =>
          match payload with
          | None => (None, r, w)
          | Some text =>
              match call "turn/start" (JObj [("input", JArr []); ("threadId", JStr thread); ("toolOutput", tool_output text)]) r w with
              | (Ok _, r, w) => (None, r, w)
              | (Err e, r, w) => (Some e, r, w)
              end
          end
      end
  end.

(** [codexQueueProbe] once the target is open: a read-only check. *)
Definition codexQueueProbe (thread : string) (r : codexRPC) (w : W) : option string * codexRPC * W :=
  match initialize r w with
  | (Some e, r, w) => (Some e, r, w)
  | (None, r, w) =>
      match verifyCodexLoaded thread r w with
      | (Some e, r, w) => (Some e, r, w)
      | (None, r, w) =>
          match call "thread/queue/list" (JObj [("limit", JInt 1); ("threadId", JStr thread)]) r w with
          | (Ok _, r, w) => (None, r, w)
          | (Err e, r, w) => (Some e, r, w)
          end
      end
  end.

Definition reloadCodexRPC (thread : string) (r : codexRPC) (w : W) : option string * codexRPC * W :=
  match initialize r w with
  | (Some e, r, w) => (Some e, r, w)
  | (None, r, w) =>
      match verifyCodexLoaded thread r w with
      | (Some e, r, w) => (Some e, r, w)
      | (None, r, w) =>
          match call "config/mcpServer/reload" (JObj []) r w with
          | (Ok _, r, w) => (None, r, w)
          | (Err e, r, w) => (Some e, r, w)
          end
      end
  end.
End Exchanges.

(** ** Messages are taken by reading only *)
Lemma dispatch_messages v r w : rp_messages (dispatch v r w).1.2 = rp_messages r.
Proof.
  unfold dispatch. destruct v as [m|e]; [|done]. case_bool_decide; [done|].
  destruct (cm_ID m); [|done]. destruct (match cb_handle h with Some f => _ | None => _ end) as [a w'].
  unfold write. by destruct (rp_writes r) as [|[]].
Qed.
Lemma write_messages v r : rp_messages (write v r).2 = rp_messages r.
Proof. unfold write. by destruct (rp_writes r) as [|[]]. Qed.

(** ** What the client has heard

    The state of the callbacks is what the messages that were read make of it, one by one. *)
Definition hear (w : W) (v : result codexMessage) : W :=
  match v with
  | Err _ => w
  | Ok m =>
      if bool_decide (cm_Method m = "") then w else
      match cm_ID m with
      | Some _ => match cb_handle h with Some handle => (handle (cm_Method m) (cm_Params m) w).2 | None => w end
      | None => match cb_notice h with Some notice => notice (cm_Method m) (cm_Params m) w | None => w end
      end
  end.
Lemma dispatch_hears v r w x r' w' : dispatch v r w = (x, r', w') ->
  w' = hear w v /\ rp_messages r' = rp_messages r /\ forall m, x = Ok m -> v = Ok m.
Proof.
  intros E. pose proof (dispatch_messages v r w) as Hm. rewrite E in Hm. cbn in Hm. revert E. unfold dispatch, hear.
  destruct v as [m|e]; [|by intros [= <- <- <-]]. case_bool_decide; [by intros [= <- <- <-]|]. destruct (cm_ID m) as [id|].
  - destruct (cb_handle h) as [f|]; [destruct (f _ _ w) as [a w1]|]; destruct (write _ _) as [err r1]; intros [= <- <- <-];
      (split_and!; [done|done|by destruct err; intros ? [= <-]]).
  - destruct (cb_notice h); intros [= <- <- <-]; by split_and!; [| |intros ? [= <-]].
Qed.
(** The answer that ends a call. *)
Definition answers_call (id : string) (v : json) (x : result codexMessage) : Prop :=
  exists m, x = Ok m /\ cm_Method m = "" /\ answers id m = true /\ cm_Error m = None /\ cm_Result m = Some v.
Lemma await_hears method id l : forall r w x r' w', await method id l r w = (x, r', w') ->
  exists seen, l = seen ++ rp_messages r' /\ w' = foldl hear w seen /\ (forall v, x = Ok v -> Exists (answers_call id v) seen).
Proof.
  induction l as [|v l IH]; intros r w x r' w' E; cbn in E; [injection E as <- <- <-; by exists []|].
  destruct (dispatch _ _ _) as [[d r1] w1] eqn:Ed. apply dispatch_hears in Ed as (-> & Hm & Hd). cbn in Hm. destruct d as [m|e].
  - destruct (negb _ || negb _) eqn:Ha.
    + apply IH in E as (seen & -> & -> & Hx). exists (v :: seen). split_and!; [done|done|]. intros j Hj. right. by apply Hx.
    + apply orb_false_iff in Ha as [Hmeth Hans]. apply negb_false_iff in Hmeth, Hans. apply bool_decide_eq_true in Hmeth.
      injection E as E1 <- <-. exists [v]. split_and!; [by rewrite Hm|done|]. intros j Hj. left. exists m. split; [by apply Hd|].
      split; [done|]. split; [done|]. rewrite Hj in E1. destruct (cm_Error m); [done|]. destruct (cm_Result m); [|done]. by injection E1 as ->.
  - injection E as <- <- <-. exists [v]. by rewrite Hm.
Qed.
Lemma call_hears method params r w x r' w' : call method params r w = (x, r', w') ->
  exists seen, rp_messages r = seen ++ rp_messages r' /\ w' = foldl hear w seen /\
    (forall v, x = Ok v -> Exists (answers_call (Itoa (int_incr (rp_next r))) v) seen).
Proof.
  unfold call. set (r0 := mkRPC _ _ _ _). set (j := JObj _). pose proof (write_messages j r0) as Hw.
  assert (rp_next (write j r0).2 = int_incr (rp_next r)) as Hn by (unfold write; by destruct (rp_writes r0) as [|[]]).
  destruct (write j r0) as [[e|] r1]; cbn in Hw, Hn; [intros [= <- <- <-]; exists []; by rewrite Hw|].
  intros E. apply await_hears in E as (seen & Hl & Hf & Hx). exists seen. rewrite Hw in Hl. rewrite Hn in Hx. done.
Qed.

(** ** The list of pages ends: every page takes a message *)
Lemma await_messages method id l : forall r w v r' w', await method id l r w = (Ok v, r', w') ->
  (length (rp_messages r') < length l)%nat.
Proof.
  induction l as [|m l IH]; intros r w v r' w' E; simpl in E; [done|].
  pose proof (dispatch_messages m (set_messages l r) w) as Hm.
  destruct (dispatch _ _ _) as [[[x|e] r1] w1]; [|done]. simpl in Hm.
  destruct (_ || _); [apply IH in E; simpl; lia|].
  destruct (cm_Error x); [done|]. destruct (cm_Result x); [|done]. injection E as <- <- <-. rewrite Hm. simpl. lia.
Qed.
Lemma call_messages method params r w v r' w' : call method params r w = (Ok v, r', w') ->
  (length (rp_messages r') < length (rp_messages r))%nat.
Proof.
  unfold call. set (r0 := mkRPC _ _ _ _). set (j := JObj _). intros E. pose proof (write_messages j r0) as Hw.
  destruct (write j r0) as [[e|] r1]; [done|]. apply await_messages in E. simpl in Hw. congruence.
Qed.

(** With the messages left as fuel, listing the loaded tasks never runs out. *)
Lemma pages_end thread fuel : forall seen cursor r w, (length (rp_messages r) < fuel)%nat ->
  (loaded_pages fuel thread seen cursor r w).1.1 <> None.
Proof.
  induction fuel as [|fuel IH]; intros seen cursor r w Hf; simpl; [lia|].
  destruct (call _ _ _ _) as [[[data|e] r1] w1] eqn:E; [|done]. apply call_messages in E.
  destruct (decode_loaded data) as [[tasks next]|]; [|done].
  case_bool_decide; [done|]. destruct (_ || _); [done|]. apply IH. lia.
Qed.
End Client.
Arguments callbacks : clear implicits.
