(* ===== verification/Worker.v ===== *)
(** * The owned worker

    [cmd/tincan/worker.go]: a runtime of its own that answers the events of one connection.
    The runtime's tool calls are answered by [handle]; replies, acknowledgements and outcomes
    are only staged there, and committed once the turn has completed. A tool of the
    connection is an argument; what it and other goroutines do to the inbox meanwhile is a
    function on it. *)
From S2P Require Import Prelude GoStrings Json Types Metadata Crypto Codex.
From S2P Require Import InboxState Inbox InboxControl Dispatch.

Record workerCompletion := mkCompletion {
  wc_Text : option string; wc_Seq : Z; wc_Outcome : option workerOutcome }.

(** [wk_calls]: the tool calls passed on so far, for the statements. *)
Record codexWorker := mkCodexWorker {
  wk_thread : string; wk_connection : string; wk_tools : gset string; wk_seq : Z;
  wk_staged : option workerCompletion; wk_completed : gmap string string; wk_attention : string;
  wk_continuation : string; wk_policy : option standingPolicy; wk_related : list commitmentReference;
  wk_calls : list (string * gmap string json) }.

Definition set_attention (v : string) (w : codexWorker) : codexWorker :=
  mkCodexWorker (wk_thread w) (wk_connection w) (wk_tools w) (wk_seq w) (wk_staged w) (wk_completed w) v
    (wk_continuation w) (wk_policy w) (wk_related w) (wk_calls w).
Definition set_staged (v : option workerCompletion) (w : codexWorker) : codexWorker :=
  mkCodexWorker (wk_thread w) (wk_connection w) (wk_tools w) (wk_seq w) v (wk_completed w) (wk_attention w)
    (wk_continuation w) (wk_policy w) (wk_related w) (wk_calls w).
Definition set_completed (v : gmap string string) (w : codexWorker) : codexWorker :=
  mkCodexWorker (wk_thread w) (wk_connection w) (wk_tools w) (wk_seq w) (wk_staged w) v (wk_attention w)
    (wk_continuation w) (wk_policy w) (wk_related w) (wk_calls w).
Definition set_granted (c : claimResult) (w : codexWorker) : codexWorker :=
  mkCodexWorker (wk_thread w) (wk_connection w) (wk_tools w) (wk_seq w) (wk_staged w) (wk_completed w)
    (wk_attention w) (cl_Context c) (cl_Policy c) (cl_Related c) (wk_calls w).
(** The start of [turn]. *)
Definition start_turn (seq : Z) (w : codexWorker) : codexWorker :=
  mkCodexWorker (wk_thread w) (wk_connection w) (wk_tools w) seq None ∅ "" (wk_continuation w)
    (wk_policy w) (wk_related w) (wk_calls w).
Definition log_call (tool : string) (args : gmap string json) (w : codexWorker) : codexWorker :=
  mkCodexWorker (wk_thread w) (wk_connection w) (wk_tools w) (wk_seq w) (wk_staged w) (wk_completed w)
    (wk_attention w) (wk_continuation w) (wk_policy w) (wk_related w)
    (wk_calls w ++ [(tool, args)]).

(** The tools offered to the runtime. *)
Definition withheld_tools : list string :=
  ["tincan_connect"; "tincan_pairing_wait"; "tincan_hook"; "inbox_claim"; "inbox_release"; "inbox_wait";
   "inbox_decide"; "inbox_policy_set"; "inbox_plan"].
Definition offered_tools (l : list string) : gset string :=
  list_to_set (filter (fun t => t ∉ withheld_tools) l).

(** ** Decoding a tool call *)
Record toolCall := mkToolCall { tc_ThreadID : string; tc_Tool : string; tc_Arguments : gmap string json }.

Definition decode_update (v : json) : option commitmentUpdate :=
  decode_object
    [("seq", fun v u => z ← decode_int v (up_Seq u); Some (mkUpdate z (up_Context u)));
     ("context", fun v u => s ← decode_string v (up_Context u); Some (mkUpdate (up_Seq u) s))] v (mkUpdate 0 "").
Definition zero_outcome : workerOutcome := mkOutcome [] "" None "" "" "" "".
Definition decode_outcome (v : json) : option workerOutcome :=
  decode_object
    [("updates", fun v o => l ← match v with JArr l => mapM decode_update l | JNull => Some [] | _ => None end;
        Some (mkOutcome l (wo_Status o) (wo_Reply o) (wo_Summary o) (wo_Context o) (wo_Question o) (wo_Permission o)));
     ("status", fun v o => s ← decode_string v (wo_Status o);
        Some (mkOutcome (wo_Updates o) s (wo_Reply o) (wo_Summary o) (wo_Context o) (wo_Question o) (wo_Permission o)));
     ("reply", fun v o => p ← decode_pointer "" decode_string v (wo_Reply o);
        Some (mkOutcome (wo_Updates o) (wo_Status o) p (wo_Summary o) (wo_Context o) (wo_Question o) (wo_Permission o)));
     ("summary", fun v o => s ← decode_string v (wo_Summary o);
        Some (mkOutcome (wo_Updates o) (wo_Status o) (wo_Reply o) s (wo_Context o) (wo_Question o) (wo_Permission o)));
     ("context", fun v o => s ← decode_string v (wo_Context o);
        Some (mkOutcome (wo_Updates o) (wo_Status o) (wo_Reply o) (wo_Summary o) s (wo_Question o) (wo_Permission o)));
     ("question", fun v o => s ← decode_string v (wo_Question o);
        Some (mkOutcome (wo_Updates o) (wo_Status o) (wo_Reply o) (wo_Summary o) (wo_Context o) s (wo_Permission o)));
     ("permission", fun v o => s ← decode_string v (wo_Permission o);
        Some (mkOutcome (wo_Updates o) (wo_Status o) (wo_Reply o) (wo_Summary o) (wo_Context o) (wo_Question o) s))]
    v zero_outcome.

Section Worker.
Context `{!CryptoRoutes}.
(** [number] prints a literal as a float64; [whole] is the integer that a float64 literal
    denotes, if it is one; [marshal] is [json.Marshal]. *)
Variables (number : string -> string) (whole : string -> option Z) (marshal : json -> string).
(** A call of the connection's tools. *)
Variable callTool : string -> gmap string json -> result json.

Definition decode_arguments (v : json) (old : gmap string json) : option (gmap string json) :=
  match decoded number v with
  | JObj m => Some (list_to_map m)
  | JNull => Some ∅
  | _ => None
  end.
Definition decode_call (v : json) : option toolCall :=
  decode_object
    [("threadId", fun v c => s ← decode_string v (tc_ThreadID c); Some (mkToolCall s (tc_Tool c) (tc_Arguments c)));
     ("tool", fun v c => s ← decode_string v (tc_Tool c); Some (mkToolCall (tc_ThreadID c) s (tc_Arguments c)));
     ("arguments", fun v c => m ← decode_arguments v (tc_Arguments c); Some (mkToolCall (tc_ThreadID c) (tc_Tool c) m))]
    v (mkToolCall "" "" ∅).

(** ** The runtime's requests ([handle]) *)
Definition tool_result (r : result json) : json :=
  JObj [("contentItems", JArr [JObj [("text", JStr (match r with Ok v => marshal v | Err e => e end));
                                     ("type", JStr "inputText")]]);
        ("success", JBool (is_ok r))].

Definition staging_tools : list string := ["inbox_reply"; "inbox_ack"; "inbox_outcome"].
Definition errUnsupported (method : string) : string :=
  "runtime requested unsupported approval or user input: " +:+ method.

(** [seq, _ := args["seq"].(float64)], compared with the active event. *)
Definition same_seq (args : gmap string json) (seq : Z) : bool :=
  match args !! "seq" with
  | Some (JNum l) => bool_decide (whole l = Some seq)
  | _ => seq =? 0
  end.
Definition staged_answer (seq : Z) : json :=
  JObj [("committed_after_successful_turn", JBool true); ("seq", JInt seq); ("staged", JBool true)].

(** The completion a staging tool describes. *)
Definition completion_of (tool : string) (args : gmap string json) (seq : Z) : result workerCompletion :=
  if negb (same_seq args seq) then Err "acknowledgement must match the active mention" else
  text ← (if bool_decide (tool = "inbox_reply") then
            match args !! "text" with
            | Some (JStr t) => if bool_decide (t = "") then Err "reply text is required" else Ok (Some t)
            | _ => Err "reply text is required"
            end
          else Ok None);
  out ← (if bool_decide (tool = "inbox_outcome") then
           match decode_outcome (default JNull (args !! "outcome")) with
           | Some o => Ok (Some o)
           | None => Err "invalid outcome"
           end
         else Ok None);
  Ok (mkCompletion text seq out).

Definition handle (method : string) (raw : option json) (w : codexWorker) : result json * codexWorker :=
  if negb (bool_decide (method = "item/tool/call"))
  then (Err (errUnsupported method), set_attention (errUnsupported method) w) else
  match raw ≫= decode_call with
  | None => (Err "invalid tool call", w)
  | Some p =>
      let answer r := Ok (tool_result r) in
      if negb (bool_decide (tc_ThreadID p = wk_thread w)) || negb (bool_decide (tc_Tool p ∈ wk_tools w))
      then (answer (Err "tool or task outside this worker's connection"), w) else
      if match tc_Arguments p !! "connection" with Some h => negb (jstr_is (wk_connection w) h) | None => false end
      then (answer (Err "another agent's connection is not available"), w) else
      let args := <["connection" := JStr (wk_connection w)]> (tc_Arguments p) in
      if bool_decide (tc_Tool p ∈ staging_tools) then
        match completion_of (tc_Tool p) args (wk_seq w) with
        | Err e => (answer (Err e), w)
        | Ok c => (answer (Ok (staged_answer (wk_seq w))), set_staged (Some c) w)
        end
      else
        (answer (callTool (tc_Tool p) args), log_call (tc_Tool p) args w)
  end.

(** The runtime's notices. *)
Definition decode_completed (v : json) : option (string * (string * string)) :=
  let turn v p := decode_object
    [("id", fun v p => s ← decode_string v p.1; Some (s, p.2));
     ("status", fun v (p : string * string) => s ← decode_string v p.2; Some (p.1, s))] v p in
  decode_object
    [("threadId", fun v p => s ← decode_string v p.1; Some (s, p.2));
     ("turn", fun v (p : string * (string * string)) => t ← turn v p.2; Some (p.1, t))] v ("", ("", "")).
Definition notice (method : string) (raw : option json) (w : codexWorker) : codexWorker :=
  if negb (bool_decide (method = "turn/completed")) then w else
  match raw ≫= decode_completed with
  | Some (thread, (id, status)) =>
      if bool_decide (thread = wk_thread w) then set_completed (<[id := status]> (wk_completed w)) w else w
  | None => w
  end.
Definition worker_callbacks : callbacks codexWorker := mkCallbacks (Some handle) (Some notice).

(** ** One turn *)
(** The loop that waits for the end of the turn [id]. *)
Fixpoint until_completed (id : string) (l : list (result codexMessage)) (r : codexRPC) (w : codexWorker)
    : option string * codexRPC * codexWorker :=
  if negb (bool_decide (default "" (wk_completed w !! id) = "")) then (None, set_messages l r, w) else
  match l with
  | [] => (Some errClosed, set_messages [] r, w)
  | v :: l =>
      match dispatch worker_callbacks v (set_messages l r) w with
      | (Err e, r, w) => (Some e, r, w)
      | (Ok _, r, w) => until_completed id l r w
      end
  end.

Definition decode_turn (v : json) : string :=
  default "" (decode_object [("turn", fun v s => decode_object [("id", fun v s => decode_string v s)] v s)] v "").

(** [output] is the text of the event that the runtime is told about. *)
Definition turn (output : codexWorker -> inboxEvent -> string) (event : inboxEvent) (r : codexRPC) (w : codexWorker)
    : result workerCompletion * codexRPC * codexWorker :=
  let w := start_turn (ev_Seq event) w in
  match call worker_callbacks "turn/start"
          (JObj [("input", JArr []); ("threadId", JStr (wk_thread w)); ("toolOutput", tool_output (output w event))]) r w with
  | (Err e, r, w) => (Err e, r, w)
  | (Ok raw, r, w) =>
      let id := decode_turn raw in
      if bool_decide (id = "") then (Err "runtime returned no turn ID", r, w) else
      match until_completed id (rp_messages r) r w with
      | (Some e, r, w) => (Err e, r, w)
      | (None, r, w) =>
          let status := default "" (wk_completed w !! id) in
          (if negb (bool_decide (wk_attention w = "")) then Err (wk_attention w)
           else if negb (bool_decide (status = "completed"))
           then Err ("worker turn " +:+ status +:+ "; mention remains pending")
           else match wk_staged w with
                | Some c => Ok c
                | None => Err "worker did not finish the mention; it remains pending for operator review"
                end, r, w)
      end
  end.

(** ** One mention of the controller's loop ([workerCommand]) *)
Definition failed_outcome (e : string) : workerOutcome := mkOutcome [] "needs_recovery" None "" e "" "".
Definition completed_outcome (c : workerCompletion) : workerOutcome :=
  match wc_Outcome c with
  | Some o => o
  | None => mkOutcome [] "completed" (wc_Text c) "" "" "" ""
  end.

(** How the turn of the loop ends. [Crashed]: the nil completion of a failed turn is read. *)
Inductive step_end :=
| Idle
| NotAcquired
| Stopped (e : string)
| Handled (seq : Z) (again : bool)
| Crashed.

(** The script of the operations: the claim's randomness and save, what others do to the
    inbox before the outcome, and the outcome's own. *)
Record step_script := mkStep {
  sp_random : string; sp_claim : option string; sp_meanwhile : inbox -> inbox;
  sp_post : SendInput -> result json; sp_posting : inbox -> inbox; sp_decision : string;
  sp_io1 : option string; sp_io2 : option string; sp_io3 : option string }.

Definition settle (sc : step_script) (i : inbox) (seq : Z) (claim : string) (o : workerOutcome) : result json * inbox :=
  outcome (sp_post sc) (sp_posting sc) (sp_decision sc) (sp_io1 sc) (sp_io2 sc) (sp_io3 sc) i seq claim o.

Definition worker_step (output : codexWorker -> inboxEvent -> string) (sc : step_script) (r : codexRPC)
    (w : codexWorker) (i : inbox) : step_end * codexRPC * codexWorker * inbox :=
  let '(e, i) := pendingEvent i in
  match e with
  | None => (Idle, r, w, i)
  | Some e =>
      let '(granted, i) := claim (sp_random sc) (sp_claim sc) i (ev_Seq e) (ID "owned_attempt_" (sp_random sc)) in
      match granted with
      | Err err => (Stopped err, r, w, i)
      | Ok c =>
          if negb (cl_Acquired c) then (NotAcquired, r, w, i) else
          let '(completion, r, w) := turn output e r (set_granted c w) in
          let i := sp_meanwhile sc i in
          let o := match completion with Ok c => completed_outcome c | Err err => failed_outcome err end in
          let '(saved, i) := settle sc i (ev_Seq e) (cl_Claim c) o in
          match saved with
          | Err err => (Stopped err, r, w, i)
          | Ok _ =>
              let '(next, i) := pendingEvent i in
              match completion with
              | Err _ => (Crashed, r, w, i)
              | Ok c => (Handled (wc_Seq c) (bool_decide (is_Some next)), r, w, i)
              end
          end
      end
  end.
End Worker.
