(* ===== verification/WorkerTheorems.v ===== *)
(** * The owned worker: properties

    Whatever its runtime sends, a worker uses the tools it was offered on its own connection
    only, commits nothing during a turn, and commits after the turn what the runtime staged
    for the event in it. *)
From S2P Require Import Prelude GoStrings Json Types Metadata Crypto Codex Worker.
From S2P Require Import InboxState Inbox InboxControl Dispatch InboxFacts PlanFacts RequestMachine InboxSafety InboxSystem InboxTheorems.

Section Turn.
Variables (number : string -> string) (whole : string -> option Z) (marshal : json -> string).
Variable callTool : string -> gmap string json -> result json.
Notation handle := (handle number whole marshal callTool).
Notation callbacks := (worker_callbacks number whole marshal callTool).
Notation hear := (Codex.hear callbacks).

(** A call of the worker's own tools on its own connection that commits nothing. *)
Definition own_call (w : codexWorker) (c : string * gmap string json) : Prop :=
  c.1 ∈ wk_tools w /\ c.1 ∉ staging_tools /\ c.2 !! "connection" = Some (JStr (wk_connection w)).

(** The runtime staged [c] for the event [seq]: one of its messages is that tool call. *)
Definition staged_by (w : codexWorker) (seq : Z) (l : list (result codexMessage)) (c : workerCompletion) : Prop :=
  exists m raw p, Ok m ∈ l /\ cm_Method m = "item/tool/call" /\ cm_Params m = Some raw /\
    decode_call number raw = Some p /\ tc_ThreadID p = wk_thread w /\ tc_Tool p ∈ wk_tools w ∩ list_to_set staging_tools /\
    completion_of whole (tc_Tool p) (<["connection" := JStr (wk_connection w)]> (tc_Arguments p)) seq = Ok c.

(** The worker during a turn on the event [seq], which started as [w0]. *)
Record in_bounds (w0 : codexWorker) (seq : Z) (l : list (result codexMessage)) (w : codexWorker) : Prop := {
  ib_own : (wk_thread w, wk_connection w, wk_tools w, wk_seq w) = (wk_thread w0, wk_connection w0, wk_tools w0, seq);
  ib_calls : exists calls, wk_calls w = wk_calls w0 ++ calls /\ Forall (own_call w0) calls;
  ib_staged : forall c, wk_staged w = Some c -> staged_by w0 seq l c }.

(** A request of the runtime that is no tool call. *)
Definition asks_more (v : result codexMessage) : Prop :=
  exists m, v = Ok m /\ cm_Method m <> "" /\ is_Some (cm_ID m) /\ cm_Method m <> "item/tool/call".
(** The runtime's notice of how a turn of the task has ended. *)
Definition reports (thread id status : string) (v : result codexMessage) : Prop :=
  exists m raw, v = Ok m /\ cm_Method m = "turn/completed" /\ cm_ID m = None /\ cm_Params m = Some raw /\
    decode_completed raw = Some (thread, (id, status)).

Lemma staged_by_app w seq l l' c : staged_by w seq l c -> staged_by w seq (l ++ l') c.
Proof. intros (m & raw & p & Hm & H). exists m, raw, p. split; [by apply elem_of_app; left|done]. Qed.
Lemma handle_in_bounds w0 seq l m w : in_bounds w0 seq l w ->
  in_bounds w0 seq (l ++ [Ok m]) (handle (cm_Method m) (cm_Params m) w).2.
Proof.
  intros [Ho (calls & Hc & Hf) Hs]. injection Ho as Ht Hn Htl Hsq.
  assert (in_bounds w0 seq (l ++ [Ok m]) w) as Hb by (split; [congruence|by exists calls|intros c Hst; by apply staged_by_app, Hs]).
  unfold Worker.handle.
  case_bool_decide as Hm; simpl; [|split; [simpl; congruence|by exists calls|apply Hb]].
  destruct (cm_Params m ≫= decode_call number) as [c|] eqn:Ed; [|exact Hb].
  destruct (cm_Params m) as [raw|] eqn:Er; [simpl in Ed|done].
  case_bool_decide as Hth; simpl; [|exact Hb].
  case_bool_decide as Htool; simpl; [|exact Hb].
  match goal with |- context [if ?b then _ else _] => destruct b end; [exact Hb|].
  case_bool_decide as Hst.
  - destruct (completion_of _ _ _ _) as [c'|e] eqn:Ec; [|exact Hb].
    split; simpl; [congruence|by exists calls|]. intros c'' [= <-].
    exists m, raw, c. split_and!; try done; [apply elem_of_app; right; by left|congruence|set_solver|]. by rewrite <- Hn, <- Hsq.
  - split; simpl; [congruence| |apply Hb]. exists (calls ++ [(tc_Tool c, <["connection" := JStr (wk_connection w)]> (tc_Arguments c))]).
    split; [by rewrite Hc, app_assoc|]. apply Forall_app. split; [done|]. apply Forall_singleton.
    split_and!; simpl; [congruence|done|]. by rewrite lookup_insert_eq, Hn.
Qed.
Lemma notice_cases m p w : notice m p w = w \/ exists raw id status, m = "turn/completed" /\ p = Some raw /\
  decode_completed raw = Some (wk_thread w, (id, status)) /\ notice m p w = set_completed (<[id := status]> (wk_completed w)) w.
Proof.
  unfold notice. case_bool_decide as Hm; simpl; [|by left]. destruct p as [raw|]; [|by left]. simpl.
  destruct (decode_completed raw) as [[thread [id status]]|] eqn:Ed; [|by left]. case_bool_decide as Ht; [|by left].
  right. exists raw, id, status. subst thread. done.
Qed.
Lemma hear_in_bounds w0 seq l v w : in_bounds w0 seq l w -> in_bounds w0 seq (l ++ [v]) (hear w v).
Proof.
  intros Hb. assert (in_bounds w0 seq (l ++ [v]) w) as Hb' by (destruct Hb as [H1 H2 H3]; split; [done|done|intros c Hc; by apply staged_by_app, H3]).
  unfold Codex.hear. destruct v as [m|e]; [|exact Hb']. case_bool_decide; [exact Hb'|]. destruct (cm_ID m); simpl; [by apply handle_in_bounds|].
  destruct (notice_cases (cm_Method m) (cm_Params m) w) as [->|(raw & id & status & _ & _ & _ & ->)]; [exact Hb'|].
  destruct Hb' as [H1 H2 H3]. by split.
Qed.

(** A worker that has heard messages in a turn that started as [w0]: it remembers the last request
    that it does not support, and how turns of its task have ended. *)
Record attends (w0 : codexWorker) (l : list (result codexMessage)) (w : codexWorker) : Prop := {
  at_thread : wk_thread w = wk_thread w0;
  at_attention : wk_attention w = "" -> Forall (fun v => ~ asks_more v) l;
  at_completed : forall id status, wk_completed w !! id = Some status -> Exists (reports (wk_thread w0) id status) l }.
Lemma handle_attends m p w : (handle m p w).2 = set_attention (errUnsupported m) w \/
  m = "item/tool/call" /\ (wk_thread (handle m p w).2, wk_attention (handle m p w).2, wk_completed (handle m p w).2) = (wk_thread w, wk_attention w, wk_completed w).
Proof.
  unfold Worker.handle. case_bool_decide; simpl; [right; split; [done|]|by left].
  destruct (p ≫= _); [|done]. destruct (_ || _); [done|]. match goal with |- context [if ?b then _ else _] => destruct b end; [done|].
  case_bool_decide; [|done]. by destruct (completion_of _ _ _ _).
Qed.
Lemma hear_attends w0 l v w : attends w0 l w -> attends w0 (l ++ [v]) (hear w v).
Proof.
  intros [Ht Ha Hc].
  assert (~ asks_more v -> attends w0 (l ++ [v]) w) as Hsame.
  { intros Hv. split; [done|intros H; apply Forall_app; split; [by apply Ha|by apply Forall_singleton]|].
    intros id status H. apply Exists_app. left. by apply Hc. }
  unfold Codex.hear. destruct v as [m|e]; [|apply Hsame; intros (m & [=] & _)].
  case_bool_decide as Hm; [apply Hsame; by intros (m' & [= <-] & Hne & _)|]. destruct (cm_ID m) as [id|] eqn:Hid; simpl.
  - destruct (handle_attends (cm_Method m) (cm_Params m) w) as [->|[Hcall Heq]].
    + split; [done|done|]. intros i status H. apply Exists_app. left. by apply Hc.
    + assert (~ asks_more (Ok m)) as Hno by (intros (m' & [= <-] & _ & _ & Hne); done). specialize (Hsame Hno).
      injection Heq as E1 E2 E3. destruct Hsame as [H1 H2 H3]. split; [congruence|by rewrite E2|by rewrite E3].
  - assert (~ asks_more (Ok m)) as Hno by (intros (m' & [= <-] & _ & Hs & _); rewrite Hid in Hs; by destruct Hs). specialize (Hsame Hno).
    destruct (notice_cases (cm_Method m) (cm_Params m) w) as [->|(raw & i & status & Hcm & Hp & Hd & ->)]; [done|].
    destruct Hsame as [H1 H2 H3]. split; [done|done|]. intros i' status'. cbn. destruct (decide (i = i')) as [<-|Hne].
    + rewrite lookup_insert_eq. intros [= <-]. apply Exists_app. right. left. exists m, raw. by rewrite <- Ht.
    + rewrite lookup_insert_ne by done. apply H3.
Qed.
(** All that holds of a worker after it heard [l]. *)
Lemma heard w0 seq w l : in_bounds w0 seq [] w -> attends w [] w ->
  in_bounds w0 seq l (foldl hear w l) /\ attends w l (foldl hear w l).
Proof.
  intros Hb Ha. induction l as [|v l IH] using rev_ind; [done|]. rewrite foldl_app. cbn. destruct IH as [H1 H2].
  split; [by apply hear_in_bounds|by apply hear_attends].
Qed.

Lemma until_completed_hears id : forall l r w x r' w',
  until_completed number whole marshal callTool id l r w = (x, r', w') ->
  exists seen, l = seen ++ rp_messages r' /\ w' = foldl hear w seen /\ (x = None -> default "" (wk_completed w' !! id) <> "").
Proof.
  induction l as [|v l IH]; intros r w x r' w' E; simpl in E; case_bool_decide as Hc; simpl in E.
  - injection E as <- <- <-. by exists [].
  - injection E as <- <- <-. by exists [].
  - destruct (dispatch _ _ _ _) as [[[m|e] r1] w1] eqn:Ed; apply dispatch_hears in Ed as (-> & Hm & _); cbn in Hm.
    + apply IH in E as (seen & -> & Hw & Hx). by exists (v :: seen).
    + injection E as <- <- <-. exists [v]. by rewrite Hm.
  - injection E as <- <- <-. by exists [].
Qed.

(** C21. A worker stays within its bounds. Whatever the runtime sends during a turn - calls of
    other tools, of other tasks, under other connections, premature acknowledgements - the
    worker passes on only calls of the tools offered to it, on its own connection, and none
    of the three that commit. And a turn yields a completion only when, among the messages
    that it has read, one answered its start with the turn's identifier and one reported that
    very turn of the worker's task as completed, and none was a request for anything but a
    tool call - an approval, an input; the completion is one that the runtime staged by a call
    among those messages for this event, with the reply it staged. *)
Theorem worker_in_bounds output event r w res r' w' :
  turn number whole marshal callTool output event r w = (res, r', w') ->
  exists seen, rp_messages r = seen ++ rp_messages r' /\
    (exists calls, wk_calls w' = wk_calls w ++ calls /\ Forall (own_call w) calls) /\
    (forall c, res = Ok c ->
       Forall (fun v => ~ asks_more v) seen /\
       (exists raw id, Exists (answers_call (Itoa (int_incr (rp_next r))) raw) seen /\ decode_turn raw = id /\ id <> "" /\
          Exists (reports (wk_thread w) id "completed") seen) /\
       staged_by w (ev_Seq event) seen c).
Proof.
  set (w0 := start_turn (ev_Seq event) w).
  assert (in_bounds w (ev_Seq event) [] w0) as Hw0 by (split; [done|by exists []; rewrite app_nil_r|done]).
  assert (attends w0 [] w0) as Ha0 by (split; [done|constructor|by intros id status]).
  unfold turn. fold w0. destruct (call _ _ _ _ _) as [[[raw|e] r1] w1] eqn:E; apply call_hears in E as (seen & Hl & -> & Hx);
    destruct (heard w (ev_Seq event) w0 seen Hw0 Ha0) as [Hb _].
  2:{ intros [= <- <- <-]. exists seen. split; [done|]. by split; [apply Hb|]. }
  cbv zeta. case_bool_decide as Hid; [intros [= <- <- <-]; exists seen; split; [done|]; by split; [apply Hb|]|].
  destruct (until_completed _ _ _ _ _ _ _ _) as [[x r2] w2] eqn:Eu. apply until_completed_hears in Eu as (more & Hl2 & -> & Hc).
  rewrite <- foldl_app in *. rewrite Hl2, app_assoc in Hl. destruct (heard w (ev_Seq event) w0 (seen ++ more) Hw0 Ha0) as [Hb2 Ha2].
  set (w2 := foldl hear w0 (seen ++ more)) in *.
  destruct x as [e|]; intros [= <- <- <-]; exists (seen ++ more); (split; [done|]); (split; [apply Hb2|]); [done|]. intros c.
  case_bool_decide as Ha; [|done]. simpl. case_bool_decide as Hs; [|done]. simpl.
  destruct (wk_staged w2) as [c'|] eqn:Est; [|done]. intros [= <-]. split; [by apply Ha2|]. split; [|by apply Hb2].
  exists raw, (decode_turn raw). split; [apply Exists_app; left; by apply Hx|]. split_and!; [done|done|].
  apply (at_completed _ _ _ Ha2). destruct (wk_completed w2 !! decode_turn raw) as [s|]; simpl in Hs; [by subst s|done].
Qed.
End Turn.

(** ** A turn of the controller's loop *)
Section Step.
Context `{!CryptoRoutes}.
Variables (number : string -> string) (whole : string -> option Z) (marshal : json -> string).
Variable callTool : string -> gmap string json -> result json.

Lemma outcome_suspends post meanwhile random io1 io2 io3 i seq token o v i' :
  wo_Status o <> "completed" -> wo_Updates o = [] ->
  outcome post meanwhile random io1 io2 io3 i seq token o = (Ok v, i') -> suspend random io2 i seq token o = (Ok v, i').
Proof.
  clear. intros Hs Hu. unfold outcome. case_bool_decide; [done|]. destruct (check_outcome _ _); [done|].
  rewrite Hu. by rewrite bool_decide_eq_false_2.
Qed.

Lemma pending_keeps i : valid_state (ib_state i) -> ib_state (pendingEvent i).2 = ib_state i.
Proof. clear. intros Hv. unfold pendingEvent. by rewrite runnable_valid. Qed.

(** A failed turn brings the worker down. When the worker claimed an event, its turn failed
    for whatever reason - the runtime closed the connection, asked for an approval, aborted the
    turn or staged nothing - and the failure was saved, then the request is left with status
    needs_recovery under the worker's claim, and the worker does not go on to its next event:
    it reads the completion that a failed turn does not have. *)
Theorem failed_turn_crashes output sc r w i e i0 c i1 err r1 w1 v i2 :
  pendingEvent i = (Some e, i0) ->
  claim (sp_random sc) (sp_claim sc) i0 (ev_Seq e) (ID "owned_attempt_" (sp_random sc)) = (Ok c, i1) ->
  cl_Acquired c = true ->
  turn number whole marshal callTool output e r (set_granted c w) = (Err err, r1, w1) ->
  valid_state (ib_state (sp_meanwhile sc i1)) ->
  settle sc (sp_meanwhile sc i1) (ev_Seq e) (cl_Claim c) (failed_outcome err) = (Ok v, i2) ->
  exists i', worker_step number whole marshal callTool output sc r w i = (Crashed, r1, w1, i') /\
    exists n req, lookup_request (ib_state i') (ev_Seq e) = Some (n, req) /\
      req_Status req = "needs_recovery" /\ req_LastClaim req = cl_Claim c.
Proof.
  intros Hp Hc Ha Ht Hv Hs. exists (pendingEvent i2).2. split.
  - unfold worker_step. rewrite Hp, Hc, Ha, Ht. cbn [negb]. rewrite Hs. by destruct (pendingEvent i2).
  - unfold settle in Hs. apply outcome_suspends in Hs; [|done..].
    apply suspend_recorded in Hs as (Hv2 & n & req & Hl & Hlast & _ & Hst & _); [|done].
    exists n, req. rewrite pending_keeps by done. done.
Qed.
End Step.

(** ** The theorems at concrete inputs *)
Definition demo_worker : codexWorker :=
  mkCodexWorker "task" "conn_own" (offered_tools ["inbox_reply"; "inbox_ack"; "messages_search"; "inbox_claim"])
    0 None ∅ "" "" None [] [].
Definition demo_call (id tool : string) (args : list (string * json)) : result codexMessage :=
  Ok (mkCodexMessage (Some (JNum id)) "item/tool/call"
        (Some (JObj [("threadId", JStr "task"); ("tool", JStr tool); ("arguments", JObj args)])) None None).
(** The runtime searches, tries a claim of its own and another agent's connection, stages a
    reply and completes the turn. *)
Definition demo_runtime : codexRPC :=
  mkRPC 0
    [demo_call "10" "messages_search" [("query", JStr "earlier")];
     demo_call "11" "inbox_claim" [("seq", JNum "1")];
     demo_call "12" "messages_search" [("connection", JStr "conn_other")];
     demo_call "13" "inbox_reply" [("seq", JNum "1"); ("text", JStr "done")];
     Ok (mkCodexMessage (Some (JNum "1")) "" None (Some (JObj [("turn", JObj [("id", JStr "turn-1")])])) None);
     Ok (mkCodexMessage None "turn/completed"
           (Some (JObj [("threadId", JStr "task"); ("turn", JObj [("id", JStr "turn-1"); ("status", JStr "completed")])]))
           None None)] [] [].
Definition demo_turn (r : codexRPC) : result workerCompletion * codexRPC * codexWorker :=
  turn (fun l => l) parse_int (fun _ => "value") (fun _ _ => Ok JNull) (fun _ _ => "event") (demo_message 1 "m1") r demo_worker.
Example demo_turn_completes :
  (demo_turn demo_runtime).1.1 = Ok (mkCompletion (Some "done") 1 None) /\
  (wk_calls (demo_turn demo_runtime).2).*1 = ["messages_search"].
Proof. vm_compute. done. Qed.

Lemma demo_turn_eq r : demo_turn r = ((demo_turn r).1.1, (demo_turn r).1.2, (demo_turn r).2).
Proof. apply triple_eta. Qed.
Lemma worker_in_bounds_witness :
  exists seen, rp_messages demo_runtime = seen ++ rp_messages (demo_turn demo_runtime).1.2 /\
    (exists calls, wk_calls (demo_turn demo_runtime).2 = wk_calls demo_worker ++ calls /\ Forall (own_call demo_worker) calls) /\
    (forall c, (demo_turn demo_runtime).1.1 = Ok c ->
       Forall (fun v => ~ asks_more v) seen /\
       (exists raw id, Exists (answers_call (Itoa (int_incr (rp_next demo_runtime))) raw) seen /\ decode_turn raw = id /\ id <> "" /\
          Exists (reports (wk_thread demo_worker) id "completed") seen) /\
       staged_by (fun l => l) parse_int demo_worker (ev_Seq (demo_message 1 "m1")) seen c).
Proof.
  exact (worker_in_bounds (fun l => l) parse_int (fun _ => "value") (fun _ _ => Ok JNull) (fun _ _ => "event")
    (demo_message 1 "m1") demo_runtime demo_worker _ _ _ (demo_turn_eq demo_runtime)).
Defined.

(** The runtime is gone before it answers. *)
Definition dead_runtime : codexRPC := mkRPC 0 [] [] [].
Definition demo_script : step_script := mkStep "a" None (fun i => i) (fun _ => Ok JNull) (fun i => i) "d" None None None.
Notation dead_turn c :=
  (turn (fun l => l) parse_int (fun _ => "value") (fun _ _ => Ok JNull) (fun _ _ => "event") (demo_message 1 "m1")
     dead_runtime (set_granted c demo_worker)).
Notation dead_claim :=
  (@claim demo_routes (sp_random demo_script) (sp_claim demo_script) (sys_inbox (demo_run [])) (ev_Seq (demo_message 1 "m1"))
     (ID "owned_attempt_" (sp_random demo_script))).
Notation dead_settled c i :=
  (settle demo_script (sp_meanwhile demo_script i) (ev_Seq (demo_message 1 "m1")) (cl_Claim c) (failed_outcome errClosed)).

Lemma dead_pending : pendingEvent (sys_inbox (demo_run [])) = (Some (demo_message 1 "m1"), sys_inbox (demo_run [])).
Proof. vm_compute. reflexivity. Qed.
Lemma dead_check :
  match dead_claim with
  | (Ok c, i) =>
      cl_Acquired c && match dead_turn c with (Err e, _, _) => bool_decide (e = errClosed) | _ => false end
      && is_ok (dead_settled c i).1
  | _ => false
  end = true.
Proof. vm_compute. reflexivity. Qed.
Lemma dead_run : exists c i r w v i2, dead_claim = (Ok c, i) /\ cl_Acquired c = true /\
  dead_turn c = (Err errClosed, r, w) /\ valid_state (ib_state (sp_meanwhile demo_script i)) /\ dead_settled c i = (Ok v, i2).
Proof.
  pose proof dead_check as H. pose proof (@claim_updates demo_routes (sp_random demo_script) (sp_claim demo_script) _
    (ev_Seq (demo_message 1 "m1")) (ID "owned_attempt_" (sp_random demo_script)) (demo_inbox_inv [])) as Hu.
  destruct dead_claim as [[c|e] i]; [|done]. apply updates_inv in Hu as [Hi%inv_valid _]; [|exact (demo_inbox_inv _)].
  bool_simpl. destruct (dead_turn c) as [[[x|e] r] w] eqn:Et; [done|].
  destruct (dead_settled c i) as [[v|e'] i2] eqn:Es; [|done].
  bool_simpl. subst e. by exists c, i, r, w, v, i2.
Qed.

Lemma failed_turn_crashes_witness : exists c r w i',
  @worker_step demo_routes (fun l => l) parse_int (fun _ => "value") (fun _ _ => Ok JNull) (fun _ _ => "event")
    demo_script dead_runtime demo_worker (sys_inbox (demo_run [])) = (Crashed, r, w, i') /\
  exists n req, lookup_request (ib_state i') (ev_Seq (demo_message 1 "m1")) = Some (n, req) /\
    req_Status req = "needs_recovery" /\ req_LastClaim req = cl_Claim c.
Proof.
  destruct dead_run as (c & i & r & w & v & i2 & Hc & Ha & Ht & Hv & Hs). exists c, r, w.
  exact (@failed_turn_crashes demo_routes (fun l => l) parse_int (fun _ => "value") (fun _ _ => Ok JNull) (fun _ _ => "event")
    demo_script dead_runtime demo_worker (sys_inbox (demo_run [])) (demo_message 1 "m1") (sys_inbox (demo_run []))
    c i errClosed r w v i2 dead_pending Hc Ha Ht Hv Hs).
Defined.
