(* ===== verification/Listen.v ===== *)
(** * Subprocess handlers and captured output

    [cmd/tincan/listen.go]: a controller that waits for work, claims it and gives it to a
    command whose output it decodes. The buffers that bound what is kept of a subprocess's
    output are those of [listen.go], [codex_rpc.go] and [internal/e2ee/mls.go]. *)
From stdpp Require Import list.
From S2P Require Import Prelude GoStrings Json Types Metadata InboxState Inbox InboxControl Dispatch Codex Worker.
From S2P Require Import InboxFacts RequestMachine InboxSafety InboxSystem InboxTheorems WorkerTheorems.

(** ** Captured output *)
(** [limitedReply]: the beginning of the output; more is noticed, and dropped. *)
Definition reply_limit : nat := 65536.
Record limitedReply := mkReply { lr_Data : list ascii; lr_Overflow : bool }.
Definition limitedReply_Write (p : list ascii) (b : limitedReply) : limitedReply :=
  let remaining := (reply_limit - length (lr_Data b))%nat in
  if bool_decide (remaining < length p)%nat then mkReply (lr_Data b ++ take remaining p) true
  else mkReply (lr_Data b ++ p) (lr_Overflow b).
(** [boundedLog]: the end of the output. *)
Definition log_limit : nat := 4096.
Definition boundedLog_Write (p : list ascii) (text : list ascii) : list ascii :=
  let text := text ++ p in
  if bool_decide (log_limit < length text)%nat then drop (length text - log_limit) text else text.
Definition boundedLog_String (text : list ascii) : string := TrimSpace (of_bytes text).
(** [boundedMLSOutput]: a write that does not fit fails; the limit is 64 MiB. *)
Definition mls_limit : N := 67108864.
Definition boundedMLSOutput_Write (p : list ascii) (data : list ascii) : option string * list ascii :=
  if (mls_limit <? N.of_nat (length data) + N.of_nat (length p))%N then (Some "MLS output exceeds limit", data) else (None, data ++ p).

Definition captured_reply (writes : list (list ascii)) : limitedReply := fold_left (fun b p => limitedReply_Write p b) writes (mkReply [] false).
Definition captured_log (writes : list (list ascii)) : list ascii := fold_left (fun b p => boundedLog_Write p b) writes [].
(** The module is stopped by the first write that fails. *)
Fixpoint captured_mls (writes : list (list ascii)) (data : list ascii) : option string * list ascii :=
  match writes with
  | [] => (None, data)
  | p :: writes => match boundedMLSOutput_Write p data with
                   | (Some e, data) => (Some e, data)
                   | (None, data) => captured_mls writes data
                   end
  end.

(** ** The controller ([listenCommand]) *)
Section Listen.
Context `{!CryptoRoutes}.
(** [json.Unmarshal] of a text, before the fields are looked at. *)
Variable parse : string -> option json.

(** What one run of the loop finds: the wait, the saves, the handler's writes and its failure,
    and the randomness. *)
Record listen_script := mkListen {
  ls_world : list (wake * (inbox -> inbox)); ls_deadline : option Z; ls_now : Z; ls_ack : option string;
  ls_claim : option string; ls_random : string; ls_meanwhile : inbox -> inbox;
  ls_writes : list (list ascii); ls_handler : option string;
  ls_post : SendInput -> result json; ls_posting : inbox -> inbox; ls_decision : string;
  ls_io1 : option string; ls_io2 : option string; ls_io3 : option string; ls_sleep : option string }.

(** How a run of the loop ends: [Skipped] runs do not count, [Counted] ones do, with the event
    the handler was run on, if it was. *)
Inductive listen_end :=
| Waiting
| Skipped
| Counted (handled : option (Z * string))
| Returned (handled : option (Z * string)) (e : option string).

Definition hour : Z := 3600 * 10 ^ 9.
Definition handler_outcome (writes : list (list ascii)) : option workerOutcome :=
  match parse (of_bytes (lr_Data (captured_reply writes))) with Some v => decode_outcome v | None => None end.
Definition needs_recovery (context : string) : workerOutcome := mkOutcome [] "needs_recovery" None "" context "" "".
Definition record (sc : listen_script) (i : inbox) (seq : Z) (token : string) (o : workerOutcome) : result json * inbox :=
  outcome (ls_post sc) (ls_posting sc) (ls_decision sc) (ls_io1 sc) (ls_io2 sc) (ls_io3 sc) i seq token o.

(** After a claim: the handler and what becomes of its output. *)
Definition run_handler (sc : listen_script) (i : inbox) (seq : Z) (token : string) : listen_end * inbox :=
  let ran := Some (seq, token) in
  let i := ls_meanwhile sc i in
  match ls_handler sc with
  | Some e =>
      let '(_, i) := record sc i seq token (needs_recovery e) in
      (Returned ran (Some ("handler failed; event " +:+ Itoa seq +:+ " needs recovery: " +:+ e)), i)
  | None =>
      if lr_Overflow (captured_reply (ls_writes sc))
      then (Returned ran (Some "handler reply exceeds 64 KB; event remains pending"), i) else
      match handler_outcome (ls_writes sc) with
      | None =>
          let '(_, i) := record sc i seq token (needs_recovery "handler returned no structured outcome") in
          (Returned ran (Some "handler must return a structured JSON outcome"), i)
      | Some o =>
          match record sc i seq token o with
          | (Err e, i) => (Returned ran (Some e), i)
          | (Ok _, i) => (match ls_sleep sc with Some e => Returned ran (Some e) | None => Counted ran end, i)
          end
      end
  end.

Definition listen_once (sc : listen_script) (i : inbox) : listen_end * inbox :=
  match waitMention (ls_world sc) None (ls_deadline sc) (ls_now sc) i "subprocess-controller" hour with
  | (None, i) => (Waiting, i)
  | (Some (Err e), i) => (Returned None (Some e), i)
  | (Some (Ok notice), i) =>
      if jstr_is "expired" (jany "status" notice) || jstr_is "decision_needed" (jany "status" notice) then (Skipped, i) else
      let seq := match jget "event_seq" notice with Some (JNum l) => default 0 (parse_int l) | _ => 0 end in
      let '(i, r) := live_request i seq in
      match req_Event <$> r with
      | None => (Skipped, i)
      | Some e =>
          if is_lifecycle e then (Returned None None, i)
          else if bool_decide (ev_Kind e = "join_requested") then
            match ack (ls_ack sc) i (ev_Seq e) [] with
            | (Some err, i) => (Returned None (Some err), i)
            | (None, i) => (Counted None, i)
            end
          else
            match claim (ls_random sc) (ls_claim sc) i (ev_Seq e) (ID "handler_" (ls_random sc)) with
            | (Err err, i) => (Returned None (Some err), i)
            | (Ok c, i) => if cl_Acquired c then run_handler sc i (ev_Seq e) (cl_Claim c) else (Counted None, i)
            end
      end
  end.

(** The loop, until its limit or the end of the scripts; the events the handler was run on. *)
Fixpoint listen_loop (scs : list listen_script) (limit : nat) (i : inbox) : list (Z * string) * option (option string) * inbox :=
  match limit, scs with
  | O, _ => ([], Some None, i)
  | _, [] => ([], None, i)
  | S n, sc :: scs =>
      match listen_once sc i with
      | (Waiting, i) => ([], None, i)
      | (Skipped, i) => listen_loop scs limit i
      | (Counted h, i) => let '(l, e, i) := listen_loop scs n i in (option_list h ++ l, e, i)
      | (Returned h e, i) => (option_list h, Some e, i)
      end
  end.
End Listen.

(** ** What is kept of a subprocess

    Bounds on the captured output of a handler, of the runtime and of the MLS module. *)

(** ** The three buffers *)
#[local] Opaque reply_limit log_limit mls_limit.
Lemma reply_write p b total :
  lr_Data b = take reply_limit total -> lr_Overflow b = bool_decide (reply_limit < length total)%nat ->
  lr_Data (limitedReply_Write p b) = take reply_limit (total ++ p) /\
  lr_Overflow (limitedReply_Write p b) = bool_decide (reply_limit < length (total ++ p))%nat.
Proof.
  intros Hd Ho. unfold limitedReply_Write. rewrite Hd, length_take, length_app, take_app.
  destruct (decide (reply_limit - reply_limit `min` length total < length p)%nat) as [Hlt|Hlt].
  - rewrite bool_decide_eq_true_2 by done. cbn. split; [do 2 f_equal; lia | symmetry; apply bool_decide_eq_true_2; lia].
  - rewrite bool_decide_eq_false_2 by done. cbn. rewrite (take_ge p) by lia. split; [done|]. rewrite Ho. apply bool_decide_ext. lia.
Qed.

Lemma captured_reply_from writes : forall b total,
  lr_Data b = take reply_limit total -> lr_Overflow b = bool_decide (reply_limit < length total)%nat ->
  lr_Data (fold_left (fun b p => limitedReply_Write p b) writes b) = take reply_limit (total ++ mjoin writes) /\
  lr_Overflow (fold_left (fun b p => limitedReply_Write p b) writes b) = bool_decide (reply_limit < length (total ++ mjoin writes))%nat.
Proof.
  induction writes as [|p writes IH]; intros b total Hd Ho; cbn.
  - split; [by rewrite app_nil_r|]. rewrite Ho. apply bool_decide_ext. by rewrite app_nil_r.
  - destruct (reply_write p b total Hd Ho) as [Hd' Ho']. destruct (IH _ _ Hd' Ho') as [-> ->].
    split; [by rewrite <- (assoc (++))|]. apply bool_decide_ext. by rewrite <- (assoc (++)).
Qed.

(** The last [n] elements of a list. *)
Definition last_n {A} (n : nat) (l : list A) : list A := drop (length l - n) l.
Lemma length_last_n {A} n (l : list A) : length (last_n n l) = min n (length l).
Proof. unfold last_n. rewrite length_drop. lia. Qed.
Lemma last_n_app {A} n (l k : list A) : last_n n (last_n n l ++ k) = last_n n (l ++ k).
Proof.
  unfold last_n. rewrite !length_app, length_drop.
  assert (E : l ++ k = take (length l - n) l ++ drop (length l - n) l ++ k) by by rewrite (assoc (++)), take_drop.
  rewrite E, (drop_app (take _ _)), length_take.
  rewrite (drop_ge (take _ _)) by (rewrite length_take; lia). cbn. f_equal. lia.
Qed.
Lemma last_n_all {A} n (l : list A) : (length l <= n)%nat -> last_n n l = l.
Proof. unfold last_n. intros. by replace (length l - n)%nat with 0%nat by lia. Qed.

Lemma log_write p text : boundedLog_Write p text = last_n log_limit (text ++ p).
Proof. unfold boundedLog_Write. case_bool_decide; [done|]. by rewrite last_n_all by lia. Qed.
Lemma captured_log_from writes : forall total,
  fold_left (fun b p => boundedLog_Write p b) writes (last_n log_limit total) = last_n log_limit (total ++ mjoin writes).
Proof.
  induction writes as [|p writes IH]; intros total; cbn; [by rewrite app_nil_r|].
  by rewrite log_write, last_n_app, IH, (assoc (++)).
Qed.

Lemma captured_mls_from writes : forall data,
  (N.of_nat (length data) <= mls_limit)%N ->
  exists rest, (captured_mls writes data).2 = data ++ rest /\
    (N.of_nat (length (data ++ rest)) <= mls_limit)%N /\
    rest `prefix_of` mjoin writes /\
    ((captured_mls writes data).1 = None -> rest = mjoin writes) /\
    ((captured_mls writes data).1 = None <-> (N.of_nat (length (data ++ mjoin writes)) <= mls_limit)%N).
Proof.
  induction writes as [|p writes IH]; intros data Hd; cbn.
  - exists []. rewrite app_nil_r. repeat split; auto.
  - unfold boundedMLSOutput_Write. destruct (mls_limit <? _)%N eqn:E; cbn.
    + exists []. rewrite app_nil_r. apply N.ltb_lt in E. split_and!; [done..|apply prefix_nil|done|].
      split; [done|]. rewrite !length_app. lia.
    + apply N.ltb_ge in E. destruct (IH (data ++ p)) as (rest & H1 & H2 & H3 & H4 & H5); [rewrite length_app; lia|].
      exists (p ++ rest). rewrite !(assoc (++)). split_and!; [done..| |by intros ->%H4|].
      * by apply prefix_app.
      * exact H5.
Qed.

(** Whatever a subprocess writes, in whatever pieces, what is kept of it is bounded and is a
    definite part of what was written: the handler's reply is its first 64 KiB, with the
    overflow noticed exactly when there was more; the runtime's log is its last 4096 bytes; the
    MLS module's output is kept whole up to 64 MiB, and a write that would pass them is an
    error, leaving a beginning of the output no longer than the limit. *)
Theorem captured_output writes :
  let written := mjoin writes in
  (lr_Data (captured_reply writes) = take reply_limit written /\
   lr_Overflow (captured_reply writes) = bool_decide (reply_limit < length written)%nat) /\
  (captured_log writes = last_n log_limit written /\ (length (captured_log writes) <= log_limit)%nat) /\
  ((captured_mls writes []).2 `prefix_of` written /\
   (N.of_nat (length (captured_mls writes []).2) <= mls_limit)%N /\
   ((captured_mls writes []).1 = None <-> (N.of_nat (length written) <= mls_limit)%N) /\
   ((captured_mls writes []).1 = None -> (captured_mls writes []).2 = written)).
Proof.
  cbn zeta. split; [|split].
  - apply (captured_reply_from writes (mkReply [] false) []); cbn; [by rewrite firstn_nil|].
    symmetry. apply bool_decide_eq_false_2. lia.
  - assert (E : captured_log writes = last_n log_limit (mjoin writes)) by exact (captured_log_from writes []).
    rewrite E. split; [done|]. rewrite length_last_n. lia.
  - destruct (captured_mls_from writes []) as (rest & Hr & Hb & Hp & Hw & Hn); [cbn; lia|].
    cbn in Hr, Hb, Hn. by rewrite !Hr.
Qed.
