(* ===== verification/MlsHost.v ===== *)
(** * The host of the MLS module

    [internal/e2ee/mls.go]: finding the WebAssembly module, starting it once, and one operation in
    a sandbox of its own, whose output is bounded ([boundedMLSOutput], in [Listen]). What the
    module does in the sandbox is an argument; the rest of the library sees the outcome of an
    operation as [mls] ([Crypto]). *)
From S2P Require Import Prelude GoStrings Json Types Crypto Listen.

(** ** Finding the module *)
Section Path.
Variables (Join : list string -> string) (Dir : string -> string).
(** Whether there is a regular file, or any file, at a path. *)
Variables (regular exists_ : string -> bool).
Definition module_name : string := "tincan-mls.wasm".
(** The directories above the working directory of a test, up to the root. *)
Fixpoint test_module (fuel : nat) (dir : string) : option string :=
  match fuel with
  | O => None
  | S fuel =>
      if bool_decide (dir = Dir dir) then None
      else if exists_ (Join [dir; "scripts"; "build-mls.py"])
      then Some (Join [dir; ".tools"; "mls"; "wasm32-wasip1"; "release"; module_name])
      else test_module fuel (Dir dir)
  end.
(** [env]: [TINCAN_MLS_MODULE]; [exe]: [os.Executable]; [build]: the outcome of building a module for a test. *)
Definition mlsModulePath (env : string) (exe : result string) (wd : string) (build : option string) : result string :=
  if negb (bool_decide (env = "")) then
    if IsAbs env then Ok env else Err "TINCAN_MLS_MODULE must be absolute"
  else
    exe ← exe;
    let places := (fun dir => Join [dir; module_name]) <$> [Dir exe; Dir (Dir exe)] in
    match List.find regular places with
    | Some p => Ok p
    | None =>
        match (if HasSuffix exe ".test" || HasSuffix exe ".test.exe" then test_module (String.length wd) wd else None) with
        | Some p => if exists_ p then Ok p else match build with Some e => Err ("build MLS test module: " +:+ e) | None => Ok p end
        | None => Err "MLS module missing; install a complete Tincan release"
        end
    end.
End Path.

(** ** Starting it ([initMLS], [helperOnce]) *)
Inductive host := NotStarted | Started | Broken (e : string).
(** [read]: of the file; [runtime] and [compile]: the outcomes of the library's calls. *)
Definition start_module (path read : result string) (runtime compile : option string) : option string :=
  match path with
  | Err e => Some e
  | Ok _ => match read with
            | Err _ => Some "MLS module unavailable"
            | Ok _ => match runtime with Some e => Some e | None => compile end
            end
  end.
Definition initMLS (start : option string) (h : host) : option string * host :=
  match h with
  | NotStarted => match start with Some e => (Some e, Broken e) | None => (None, Started) end
  | Started => (None, h)
  | Broken e => (Some e, h)
  end.

(** ** One operation ([MLS]) *)
Inductive run_error := ExitCode (code : Z) | Failed.
(** What the module writes, and how it ends; whether the context has ended by then. *)
Record sandbox := mkSandbox { sb_writes : list (list ascii); sb_error : option run_error; sb_cancelled : option string }.
Definition too_long (s : string) : bool := (mls_limit <? N.of_nat (String.length s))%N.
(** [data]: the marshalled request; [decode]: of the output. *)
Definition MLS (decode : string -> option MLSResponse) (start : option string) (op : string) (data : result string) (run : sandbox) (h : host)
    : result MLSResponse * host :=
  let '(err, h) := initMLS start h in
  (match err with
   | Some e => Err e
   | None =>
       data ← data;
       if too_long data then Err "MLS state exceeds limit" else
       match sb_error run with
       | Some e =>
           match sb_cancelled run with
           | Some e => Err e
           | None =>
               match e with
               | ExitCode 2 => if bool_decide (op = "decrypt") then Err ErrMLSApplicationRejected
                               else Err ("MLS " +:+ op +:+ " rejected; synchronize or rejoin this device")
               | _ => Err ("MLS " +:+ op +:+ " rejected; synchronize or rejoin this device")
               end
           end
       | None =>
           match decode (of_bytes (snd (captured_mls (sb_writes run) []))) with
           | Some out => Ok out
           | None => Err "invalid MLS module response"
           end
       end
   end, h).

(** ** Properties *)
(** The module is started at most once: whatever later attempts would give, the first decides. *)
Lemma started_once start start' h : (initMLS start' (initMLS start h).2).2 = (initMLS start h).2.
Proof. destruct h; cbn; [by destruct start|done..]. Qed.
Lemma captured_mls_bounded writes data : (N.of_nat (length data) <= mls_limit)%N -> (N.of_nat (length (captured_mls writes data).2) <= mls_limit)%N.
Proof.
  revert data. induction writes as [|p writes IH]; intros data Hd; cbn; [done|]. unfold boundedMLSOutput_Write.
  destruct (mls_limit <? _)%N eqn:E; [done|]. apply IH. rewrite length_app. apply N.ltb_ge in E. lia.
Qed.

(** A message is given up only on the module's own verdict. An operation of MLS reports that the
    message is invalid - the one error after which a device rejects a message for good and goes on
    - only when the operation was to decrypt, the module was running, it ended with its exit code
    for that, and nobody had cancelled it. A missing module, a cancellation, a trap, an output
    that is too long or makes no sense, and every other exit code are other errors. And what is
    decoded is at most 64 MiB long. *)
Theorem rejected_on_verdict decode start op data run h r h' :
  start <> Some ErrMLSApplicationRejected -> h <> Broken ErrMLSApplicationRejected ->
  data <> Err ErrMLSApplicationRejected -> sb_cancelled run <> Some ErrMLSApplicationRejected ->
  MLS decode start op data run h = (r, h') ->
  (r = Err ErrMLSApplicationRejected <->
     h' = Started /\ op = "decrypt" /\ sb_error run = Some (ExitCode 2) /\ sb_cancelled run = None /\ exists d, data = Ok d /\ too_long d = false) /\
  forall out, r = Ok out -> exists text, (N.of_nat (String.length text) <= mls_limit)%N /\ decode text = Some out.
Proof.
  intros Hs Hh Hd Hc. unfold MLS. destruct (initMLS start h) as [err h1] eqn:Ei. intros [= <- <-].
  assert (match err with Some e => e <> ErrMLSApplicationRejected /\ h1 = Broken e | None => h1 = Started end) as He.
  { destruct h; cbn in Ei; [destruct start|..]; injection Ei as <- <-; split_and?; congruence. }
  destruct err as [e|]; [destruct He as [He ->]; split; [split; [intros [= ?]; congruence|by intros [? _]]|done]|]. subst h1.
  destruct data as [d|e]; cbn; [|split; [split; [intros [= ?]; congruence|by intros (_ & _ & _ & _ & d & [=] & _)]|done]].
  destruct (too_long d) eqn:Hl; [split; [split; [done|intros (_ & _ & _ & _ & d' & [= ->] & ?); congruence]|done]|].
  destruct (sb_error run) as [e|].
  - destruct (sb_cancelled run) as [c|]; [split; [split; [intros [= ?]; congruence|by intros (_ & _ & _ & [=] & _)]|done]|].
    split; [|by destruct e as [[|[|[]|]|]|]; try case_bool_decide].
    split; [|intros (_ & -> & [= ->] & _); done].
    intros Hr. destruct e as [code|]; [|discriminate Hr]. destruct (decide (code = 2)) as [->|Hne].
    + destruct (bool_decide_reflect (op = "decrypt")); [by eauto 10|discriminate Hr].
    + destruct code as [|[p|[p|p|]|]|p]; try discriminate Hr. done.
  - destruct (decode _) as [out|] eqn:Ho; (split; [split; [done|by intros (_ & _ & [=] & _)]|]); [|done].
    intros out' [= <-]. eexists. split; [|exact Ho]. rewrite length_of_bytes. by apply captured_mls_bounded.
Qed.
Lemma rejected_on_verdict_witness :
  MLS (fun _ => None) None "decrypt" (Ok "{}") (mkSandbox [] (Some (ExitCode 2)) None) NotStarted = (Err ErrMLSApplicationRejected, Started) /\
  (@Err MLSResponse ErrMLSApplicationRejected = Err ErrMLSApplicationRejected <->
     Started = Started /\ "decrypt" = "decrypt" /\ Some (ExitCode 2) = Some (ExitCode 2) /\ @None string = None /\ exists d, Ok "{}" = Ok d /\ too_long d = false) /\
  forall out, @Err MLSResponse ErrMLSApplicationRejected = Ok out -> exists text, (N.of_nat (String.length text) <= mls_limit)%N /\ @None MLSResponse = Some out.
Proof.
  split; [vm_compute; reflexivity|].
  apply (rejected_on_verdict (fun _ => None) None "decrypt" (Ok "{}") (mkSandbox [] (Some (ExitCode 2)) None) NotStarted); try discriminate. vm_compute. reflexivity.
Defined.
