(* ===== verification/Broker.v ===== *)
(** * The connections of the plugin

    The vault of [cmd/tincan/plugin.go] ([load], [save]) and what is done to a saved
    connection: binding it to a task ([harness.go], [plugin_codex.go]), finishing an approved
    join ([join_approval.go]), setting it up ([prepare]) and recording a peer
    ([plugin_background.go]). A process holds [b.mu] over each of these, so each is one step.
    The files of the vault are keyed by handle, without the directory; a file that is no
    connection is [Garbled]. Answers of the server and outcomes of saves are taken from
    scripts. *)
From S2P Require Import Prelude GoStrings Json Types Metadata Protocol.

(** ** Handles and session identifiers (the regular expressions) *)
Definition hex_lower (a : ascii) : bool := byte_in 48 57 a || byte_in 97 102 a.
Definition hex_any (a : ascii) : bool := hex_lower a || byte_in 65 70 a.
Definition alnum (a : ascii) : bool := byte_in 48 57 a || byte_in 65 90 a || byte_in 97 122 a.
Definition word (a : ascii) : bool := alnum a || (code a =? 95) || (code a =? 45).

Definition connectionHandle (s : string) : bool :=
  HasPrefix s "conn_" && (len (drop_str 5 s) =? 32) && forallb hex_lower (bytes (drop_str 5 s)).

(** Groups of hexadecimal digits of the given lengths, with a hyphen between them. *)
Fixpoint hex_groups (lengths : list nat) (l : list ascii) : bool :=
  match lengths with
  | [] => false
  | [n] => bool_decide (length l = n) && forallb hex_any l
  | n :: rest =>
      bool_decide (length (take n l) = n) && forallb hex_any (take n l) &&
      match drop n l with a :: r => (code a =? 45) && hex_groups rest r | [] => false end
  end.
Definition codexTaskID (s : string) : bool := hex_groups [8; 4; 4; 4; 12]%nat (bytes s).

Definition harnessSessionID (s : string) : bool :=
  match bytes s with
  | a :: r => alnum a && forallb word r && (Z.of_nat (length r) <=? 127)
  | [] => false
  end.

Example ids_ex :
  connectionHandle "conn_0123456789abcdef0123456789abcdef" = true /\
  codexTaskID "019a0b1c-22dd-7E3f-8a4b-5c6d7e8f9a0b" = true /\ harnessSessionID "a_B-9" = true /\
  harnessSessionID "-a" = false.
Proof. repeat split; reflexivity. Qed.

(** ** Connections *)
Record codexTarget := mkTarget {
  tg_Endpoint : string; tg_TokenEnv : string; tg_TokenFile : string; tg_Source : string }.
Record pairedPeer := mkPeer {
  pe_ID : string; pe_Name : string; pe_Profile : string; pe_Presence : string;
  pe_LastSeenAt : option Z; pe_ExpiresAt : option Z }.
Record pluginConnection := mkPlugin {
  pc_Protocol : option Descriptor; pc_RoomEncryptionMode : string; pc_Admin : bool;
  pc_PendingJoin : option JoinReceipt; pc_Worker : bool; pc_WorkerThreadID : string;
  pc_CodexTarget : option codexTarget; pc_HookHost : string; pc_HookSessionID : string;
  pc_CodexThreadID : string; pc_Handle : string; pc_Config : Config; pc_AgentID : string;
  pc_Name : string; pc_Profile : string; pc_Intent : string; pc_RoomID : string;
  pc_RoomName : string; pc_ChannelID : string; pc_ShareURL : string; pc_ShareExpiresAt : Z;
  pc_ClaimURL : string; pc_ClaimExpiresAt : Z; pc_HelloID : string;
  pc_Paired : gmap string pairedPeer }.

(** Assignments; times are 0 when they are zero. *)
Definition put_Config (v : Config) (c : pluginConnection) : pluginConnection :=
  mkPlugin (pc_Protocol c) (pc_RoomEncryptionMode c) (pc_Admin c) (pc_PendingJoin c) (pc_Worker c)
    (pc_WorkerThreadID c) (pc_CodexTarget c) (pc_HookHost c) (pc_HookSessionID c) (pc_CodexThreadID c)
    (pc_Handle c) v (pc_AgentID c) (pc_Name c) (pc_Profile c) (pc_Intent c) (pc_RoomID c)
    (pc_RoomName c) (pc_ChannelID c) (pc_ShareURL c) (pc_ShareExpiresAt c) (pc_ClaimURL c)
    (pc_ClaimExpiresAt c) (pc_HelloID c) (pc_Paired c).
Definition put_Binding (host session : string) (c : pluginConnection) : pluginConnection :=
  mkPlugin (pc_Protocol c) (pc_RoomEncryptionMode c) (pc_Admin c) (pc_PendingJoin c) (pc_Worker c)
    (pc_WorkerThreadID c) (pc_CodexTarget c) host session (pc_CodexThreadID c) (pc_Handle c)
    (pc_Config c) (pc_AgentID c) (pc_Name c) (pc_Profile c) (pc_Intent c) (pc_RoomID c) (pc_RoomName c)
    (pc_ChannelID c) (pc_ShareURL c) (pc_ShareExpiresAt c) (pc_ClaimURL c) (pc_ClaimExpiresAt c)
    (pc_HelloID c) (pc_Paired c).
Definition put_Codex (thread : string) (target : option codexTarget) (c : pluginConnection) : pluginConnection :=
  mkPlugin (pc_Protocol c) (pc_RoomEncryptionMode c) (pc_Admin c) (pc_PendingJoin c) (pc_Worker c)
    (pc_WorkerThreadID c) target (pc_HookHost c) (pc_HookSessionID c) thread (pc_Handle c) (pc_Config c)
    (pc_AgentID c) (pc_Name c) (pc_Profile c) (pc_Intent c) (pc_RoomID c) (pc_RoomName c)
    (pc_ChannelID c) (pc_ShareURL c) (pc_ShareExpiresAt c) (pc_ClaimURL c) (pc_ClaimExpiresAt c)
    (pc_HelloID c) (pc_Paired c).
Definition put_PendingJoin (v : option JoinReceipt) (c : pluginConnection) : pluginConnection :=
  mkPlugin (pc_Protocol c) (pc_RoomEncryptionMode c) (pc_Admin c) v (pc_Worker c) (pc_WorkerThreadID c)
    (pc_CodexTarget c) (pc_HookHost c) (pc_HookSessionID c) (pc_CodexThreadID c) (pc_Handle c)
    (pc_Config c) (pc_AgentID c) (pc_Name c) (pc_Profile c) (pc_Intent c) (pc_RoomID c) (pc_RoomName c)
    (pc_ChannelID c) (pc_ShareURL c) (pc_ShareExpiresAt c) (pc_ClaimURL c) (pc_ClaimExpiresAt c)
    (pc_HelloID c) (pc_Paired c).
Definition put_Joined (config : Config) (agent room : string) (c : pluginConnection) : pluginConnection :=
  mkPlugin (pc_Protocol c) (pc_RoomEncryptionMode c) (pc_Admin c) None (pc_Worker c)
    (pc_WorkerThreadID c) (pc_CodexTarget c) (pc_HookHost c) (pc_HookSessionID c) (pc_CodexThreadID c)
    (pc_Handle c) config agent (pc_Name c) (pc_Profile c) (pc_Intent c) room (pc_RoomName c)
    (pc_ChannelID c) (pc_ShareURL c) (pc_ShareExpiresAt c) (pc_ClaimURL c) (pc_ClaimExpiresAt c)
    (pc_HelloID c) (pc_Paired c).
Definition put_Paired (v : gmap string pairedPeer) (c : pluginConnection) : pluginConnection :=
  mkPlugin (pc_Protocol c) (pc_RoomEncryptionMode c) (pc_Admin c) (pc_PendingJoin c) (pc_Worker c)
    (pc_WorkerThreadID c) (pc_CodexTarget c) (pc_HookHost c) (pc_HookSessionID c) (pc_CodexThreadID c)
    (pc_Handle c) (pc_Config c) (pc_AgentID c) (pc_Name c) (pc_Profile c) (pc_Intent c) (pc_RoomID c)
    (pc_RoomName c) (pc_ChannelID c) (pc_ShareURL c) (pc_ShareExpiresAt c) (pc_ClaimURL c)
    (pc_ClaimExpiresAt c) (pc_HelloID c) v.
Definition put_Protocol (v : option Descriptor) (c : pluginConnection) : pluginConnection :=
  mkPlugin v (pc_RoomEncryptionMode c) (pc_Admin c) (pc_PendingJoin c) (pc_Worker c)
    (pc_WorkerThreadID c) (pc_CodexTarget c) (pc_HookHost c) (pc_HookSessionID c) (pc_CodexThreadID c)
    (pc_Handle c) (pc_Config c) (pc_AgentID c) (pc_Name c) (pc_Profile c) (pc_Intent c) (pc_RoomID c)
    (pc_RoomName c) (pc_ChannelID c) (pc_ShareURL c) (pc_ShareExpiresAt c) (pc_ClaimURL c)
    (pc_ClaimExpiresAt c) (pc_HelloID c) (pc_Paired c).
Definition put_Me (profile : string) (admin : bool) (c : pluginConnection) : pluginConnection :=
  mkPlugin (pc_Protocol c) (pc_RoomEncryptionMode c) admin (pc_PendingJoin c) (pc_Worker c)
    (pc_WorkerThreadID c) (pc_CodexTarget c) (pc_HookHost c) (pc_HookSessionID c) (pc_CodexThreadID c)
    (pc_Handle c) (pc_Config c) (pc_AgentID c) (pc_Name c) profile (pc_Intent c) (pc_RoomID c)
    (pc_RoomName c) (pc_ChannelID c) (pc_ShareURL c) (pc_ShareExpiresAt c) (pc_ClaimURL c)
    (pc_ClaimExpiresAt c) (pc_HelloID c) (pc_Paired c).
Definition put_RoomName (v : string) (c : pluginConnection) : pluginConnection :=
  mkPlugin (pc_Protocol c) (pc_RoomEncryptionMode c) (pc_Admin c) (pc_PendingJoin c) (pc_Worker c)
    (pc_WorkerThreadID c) (pc_CodexTarget c) (pc_HookHost c) (pc_HookSessionID c) (pc_CodexThreadID c)
    (pc_Handle c) (pc_Config c) (pc_AgentID c) (pc_Name c) (pc_Profile c) (pc_Intent c) (pc_RoomID c) v
    (pc_ChannelID c) (pc_ShareURL c) (pc_ShareExpiresAt c) (pc_ClaimURL c) (pc_ClaimExpiresAt c)
    (pc_HelloID c) (pc_Paired c).
Definition put_ChannelID (v : string) (c : pluginConnection) : pluginConnection :=
  mkPlugin (pc_Protocol c) (pc_RoomEncryptionMode c) (pc_Admin c) (pc_PendingJoin c) (pc_Worker c)
    (pc_WorkerThreadID c) (pc_CodexTarget c) (pc_HookHost c) (pc_HookSessionID c) (pc_CodexThreadID c)
    (pc_Handle c) (pc_Config c) (pc_AgentID c) (pc_Name c) (pc_Profile c) (pc_Intent c) (pc_RoomID c)
    (pc_RoomName c) v (pc_ShareURL c) (pc_ShareExpiresAt c) (pc_ClaimURL c) (pc_ClaimExpiresAt c)
    (pc_HelloID c) (pc_Paired c).
Definition put_Mode (v : string) (c : pluginConnection) : pluginConnection :=
  mkPlugin (pc_Protocol c) v (pc_Admin c) (pc_PendingJoin c) (pc_Worker c) (pc_WorkerThreadID c)
    (pc_CodexTarget c) (pc_HookHost c) (pc_HookSessionID c) (pc_CodexThreadID c) (pc_Handle c)
    (pc_Config c) (pc_AgentID c) (pc_Name c) (pc_Profile c) (pc_Intent c) (pc_RoomID c) (pc_RoomName c)
    (pc_ChannelID c) (pc_ShareURL c) (pc_ShareExpiresAt c) (pc_ClaimURL c) (pc_ClaimExpiresAt c)
    (pc_HelloID c) (pc_Paired c).
Definition put_Share (url : string) (expires : Z) (c : pluginConnection) : pluginConnection :=
  mkPlugin (pc_Protocol c) (pc_RoomEncryptionMode c) (pc_Admin c) (pc_PendingJoin c) (pc_Worker c)
    (pc_WorkerThreadID c) (pc_CodexTarget c) (pc_HookHost c) (pc_HookSessionID c) (pc_CodexThreadID c)
    (pc_Handle c) (pc_Config c) (pc_AgentID c) (pc_Name c) (pc_Profile c) (pc_Intent c) (pc_RoomID c)
    (pc_RoomName c) (pc_ChannelID c) url expires (pc_ClaimURL c) (pc_ClaimExpiresAt c) (pc_HelloID c)
    (pc_Paired c).
Definition put_Claim (url : string) (expires : Z) (c : pluginConnection) : pluginConnection :=
  mkPlugin (pc_Protocol c) (pc_RoomEncryptionMode c) (pc_Admin c) (pc_PendingJoin c) (pc_Worker c)
    (pc_WorkerThreadID c) (pc_CodexTarget c) (pc_HookHost c) (pc_HookSessionID c) (pc_CodexThreadID c)
    (pc_Handle c) (pc_Config c) (pc_AgentID c) (pc_Name c) (pc_Profile c) (pc_Intent c) (pc_RoomID c)
    (pc_RoomName c) (pc_ChannelID c) (pc_ShareURL c) (pc_ShareExpiresAt c) url expires (pc_HelloID c)
    (pc_Paired c).
Definition put_HelloID (v : string) (c : pluginConnection) : pluginConnection :=
  mkPlugin (pc_Protocol c) (pc_RoomEncryptionMode c) (pc_Admin c) (pc_PendingJoin c) (pc_Worker c)
    (pc_WorkerThreadID c) (pc_CodexTarget c) (pc_HookHost c) (pc_HookSessionID c) (pc_CodexThreadID c)
    (pc_Handle c) (pc_Config c) (pc_AgentID c) (pc_Name c) (pc_Profile c) (pc_Intent c) (pc_RoomID c)
    (pc_RoomName c) (pc_ChannelID c) (pc_ShareURL c) (pc_ShareExpiresAt c) (pc_ClaimURL c)
    (pc_ClaimExpiresAt c) v (pc_Paired c).
Definition put_Worker (worker : bool) (thread : string) (c : pluginConnection) : pluginConnection :=
  mkPlugin (pc_Protocol c) (pc_RoomEncryptionMode c) (pc_Admin c) (pc_PendingJoin c) worker thread
    (pc_CodexTarget c) (pc_HookHost c) (pc_HookSessionID c) (pc_CodexThreadID c) (pc_Handle c)
    (pc_Config c) (pc_AgentID c) (pc_Name c) (pc_Profile c) (pc_Intent c) (pc_RoomID c) (pc_RoomName c)
    (pc_ChannelID c) (pc_ShareURL c) (pc_ShareExpiresAt c) (pc_ClaimURL c) (pc_ClaimExpiresAt c)
    (pc_HelloID c) (pc_Paired c).

Definition with_path (path : string) (c : Config) : Config :=
  mkConfig (cfg_PendingEncryptedRoom c) (cfg_CryptoRooms c) (cfg_EncryptionRoom c) path (cfg_CryptoPath c)
    (cfg_PendingJoin c) (cfg_Server c) (cfg_Token c).
Definition with_token (token : string) (c : Config) : Config :=
  mkConfig (cfg_PendingEncryptedRoom c) (cfg_CryptoRooms c) (cfg_EncryptionRoom c) (cfg_ConnectionPath c)
    (cfg_CryptoPath c) (cfg_PendingJoin c) (cfg_Server c) token.

(** ** The vault ([path], [load], [save]) *)
Inductive saved (A : Type) := Garbled | Saved (a : A).
Arguments Garbled {A}.
Arguments Saved {A} _.
Notation vault := (gmap string (saved pluginConnection)).

Definition errHandle : string := "use the connection handle returned to this task by tincan_connect".
Definition errUnavailable : string :=
  "connection unavailable; use this task's original connection handle or connect as a new agent".
Definition errInvalid : string := "invalid saved connection".

Definition connection_path (root handle : string) : string := root +:+ "/" +:+ handle +:+ ".json".

Definition load (v : vault) (handle : string) : result pluginConnection :=
  if negb (connectionHandle handle) then Err errHandle else
  match v !! handle with
  | None => Err errUnavailable
  | Some Garbled => Err errInvalid
  | Some (Saved c) =>
      if negb (bool_decide (pc_Handle c = handle))
         || (bool_decide (cfg_Token (pc_Config c) = "") && bool_decide (pc_PendingJoin c = None))
      then Err errInvalid else Ok c
  end.

(** The connection in memory learns its path even when the file cannot be written. *)
Definition located (root : string) (c : pluginConnection) : pluginConnection :=
  put_Config (with_path (connection_path root (pc_Handle c)) (pc_Config c)) c.
Definition save (root : string) (io : option string) (v : vault) (c : pluginConnection)
    : option string * pluginConnection * vault :=
  if negb (connectionHandle (pc_Handle c)) then (Some errHandle, c, v) else
  let c := located root c in
  match io with
  | Some e => (Some e, c, v)
  | None => (None, c, <[pc_Handle c := Saved c]> v)
  end.

(** ** Bindings ([validateHookBinding], [bindHook], [bindCodex]) *)
Definition hook_hosts : list string := ["cursor"; "copilot"; "claude"].
Definition validateHookBinding (host session : string) : option string :=
  if bool_decide (host = "") && bool_decide (session = "") then None
  else if bool_decide (host ∉ hook_hosts) || negb (harnessSessionID session)
  then Some "hook binding requires cursor, copilot, or claude and the exact session ID from this task's SessionStart hook"
  else None.

Definition bindHook (root : string) (io : option string) (v : vault) (c : pluginConnection) (host session : string)
    : option string * pluginConnection * vault :=
  if bool_decide (host = "") && bool_decide (session = "") then (None, c, v) else
  match validateHookBinding host session with
  | Some e => (Some e, c, v)
  | None =>
      match load v (pc_Handle c) with
      | Err e => (Some e, c, v)
      | Ok latest =>
          if negb (bool_decide (pc_CodexThreadID latest = "")) || pc_Worker latest
          then (Some "connection already belongs to a different runtime", c, v)
          else if negb (bool_decide (pc_HookSessionID latest = ""))
                  && (negb (bool_decide (pc_HookSessionID latest = session)) || negb (bool_decide (pc_HookHost latest = host)))
          then (Some "connection belongs to another harness session", c, v)
          else
            match save root io v (put_Binding host session latest) with
            | (Some e, _, v) => (Some e, c, v)
            | (None, latest, v) => (None, latest, v)
            end
      end
  end.

(** [target] is the result of [selectCodexTarget]; [probeDelivery] comes after. *)
Definition bindCodex (root host : string) (io : option string) (target : result codexTarget) (v : vault)
    (c : pluginConnection) (thread : string) : option string * pluginConnection * vault :=
  if negb (bool_decide (host = "codex"))
  then (if negb (bool_decide (thread = "")) then Some "codex_thread_id is only valid in Codex" else None, c, v) else
  if negb (bool_decide (pc_HookHost c = "")) then (Some "connection belongs to another harness session", c, v) else
  let thread := if bool_decide (thread = "") then pc_CodexThreadID c else thread in
  if negb (codexTaskID thread)
  then (Some "agent must read its CODEX_THREAD_ID and pass codex_thread_id; do not ask the user for an ID", c, v) else
  if negb (bool_decide (pc_CodexThreadID c = "")) && negb (bool_decide (pc_CodexThreadID c = thread))
  then (Some "connection belongs to another Codex task; create a fresh connection", c, v) else
  match target with
  | Err e => (Some e, c, v)
  | Ok t =>
      let c := put_Codex (pc_CodexThreadID c) (Some t) c in
      match load v (pc_Handle c) with
      | Err e => (Some e, c, v)
      | Ok latest =>
          if negb (bool_decide (pc_HookHost latest = ""))
             || (negb (bool_decide (pc_CodexThreadID latest = "")) && negb (bool_decide (pc_CodexThreadID latest = thread)))
          then (Some "connection belongs to another Codex task", c, v)
          else save root io v (put_Codex thread (Some t) latest)
      end
  end.

(** ** Approved joins ([refreshJoin]) *)
(** The server's answer on a join request. *)
Record joinStatus := mkJoinStatus { js_Status : string; js_Token : string; js_AgentID : string; js_RoomID : string }.
Definition set_JoinStatus (s : string) (j : JoinReceipt) : JoinReceipt :=
  mkJoinReceipt (jr_Automatic j) (jr_Fingerprint j) (jr_RequestID j) (jr_Receipt j) s (jr_VerificationPhrase j)
    (jr_ExpiresAt j).

(** [v] is the vault when the answer is in. *)
Definition refreshJoin (root : string) (io : option string) (answer : result joinStatus) (v : vault)
    (c : pluginConnection) : option string * pluginConnection * vault :=
  if bool_decide (pc_PendingJoin c = None) then (None, c, v) else
  match answer with
  | Err e => (Some e, c, v)
  | Ok s =>
      match load v (pc_Handle c) with
      | Err e => (Some e, c, v)
      | Ok c =>
          match pc_PendingJoin c with
          | None => (None, c, v)
          | Some j =>
              let c := put_PendingJoin (Some (set_JoinStatus (js_Status s) j)) c in
              if bool_decide (js_Status s = "joined") then
                if bool_decide (js_Token s = "") || bool_decide (js_AgentID s = "") || bool_decide (js_RoomID s = "")
                then (Some "server returned an incomplete approved connection", c, v)
                else save root io v (put_Joined (with_token (js_Token s) (pc_Config c)) (js_AgentID s) (js_RoomID s) c)
              else save root io v c
          end
      end
  end.

(** One tick of the loop of [startPendingJoin]. [Panicked]: the receipt of a finished join is read. *)
Inductive tick := Stop (notice : option (list (string * json))) | Continue | Panicked.
Definition join_notice (handle status next : string) : list (string * json) :=
  [("kind", JStr "join_status"); ("connection", JStr handle); ("status", JStr status); ("next", JStr next)].

(** [setup] is [prepare] followed by [startBackground]. *)
Definition pending_tick (root : string) (io : option string) (answer : result joinStatus) (now : Z)
    (setup : pluginConnection -> vault -> option string * vault) (v : vault) (handle : string) : tick * vault :=
  match load v handle with
  | Err _ => (Stop None, v)
  | Ok saved =>
      if bool_decide (pc_PendingJoin saved = None) then (Stop None, v) else
      match refreshJoin root io answer v saved with
      | (Some e, saved, v) =>
          match pc_PendingJoin saved with
          | Some j => (if jr_ExpiresAt j <? now then Stop None else Continue, v)
          | None => (Panicked, v)
          end
      | (None, saved, v) =>
          match pc_PendingJoin saved with
          | Some j =>
              if bool_decide (jr_Status j = "pending") then (Continue, v)
              else (Stop (Some (join_notice handle (jr_Status j)
                                  "Access was not granted. Ask the creator for a new invite to try again.")), v)
          | None =>
              match setup saved v with
              | (Some e, v) =>
                  (Stop (Some (join_notice handle "joined" "Retry tincan_connect with this connection handle to finish setup."
                                 ++ [("setup_error", JStr e)])), v)
              | (None, v) => (Stop None, v)
              end
          end
      end
  end.

(** ** Peers ([connectionEvent], the part under [b.mu]) *)
Definition record_peer (root : string) (io : option string) (v : vault) (handle agent : string) (peer : pairedPeer)
    : option string * vault :=
  match load v handle with
  | Err e => (Some e, v)
  | Ok latest =>
      let '(err, _, v) := save root io v (put_Paired (<[agent := peer]> (pc_Paired latest)) latest) in (err, v)
  end.

(** ** Setting a connection up ([prepare]) *)
(** The requests, and what the server answers, as far as the broker reads it. *)
Inductive rest :=
| Discover
| Rest (method path : string) (body : option json)
| Raw (method path : string)
| PostHello (m : SendInput).
Record channelView := mkChannelView {
  cv_ID : string; cv_RoomID : string; cv_Private : bool; cv_Mode : string }.
Record roomView := mkRoomView { rv_ID : string; rv_Name : string; rv_Private : bool; rv_Archived : bool }.
Inductive reply_view :=
| IsProtocol (r : response)
| IsMe (id name profile : string) (admin claimed : bool)
| IsRooms (l : list roomView)
| IsChannels (l : list channelView)
| IsInvite (url : string) (expires : Z)
| IsClaim (url : string) (expires : Z) (claimed : bool)
| IsPosted (id : string).

(** What a set-up works on: the connection in memory, the vault, the scripts and the requests
    made so far. *)
Record session := mkSession {
  ss_conn : pluginConnection; ss_vault : vault; ss_answers : list (result reply_view);
  ss_saves : list (option string); ss_log : list rest }.
Definition setup (A : Type) : Type := session -> result A * session.
#[export] Instance setup_ret : MRet setup := fun _ a s => (Ok a, s).
#[export] Instance setup_bind : MBind setup := fun _ _ f m s =>
  match m s with (Ok a, s) => f a s | (Err e, s) => (Err e, s) end.

Definition stop {A} (e : string) : setup A := fun s => (Err e, s).
Definition conn : setup pluginConnection := fun s => (Ok (ss_conn s), s).
Definition update (f : pluginConnection -> pluginConnection) : setup unit := fun s =>
  (Ok tt, mkSession (f (ss_conn s)) (ss_vault s) (ss_answers s) (ss_saves s) (ss_log s)).
Definition send (q : rest) : setup reply_view := fun s =>
  let log := ss_log s ++ [q] in
  match ss_answers s with
  | a :: l => (a, mkSession (ss_conn s) (ss_vault s) l (ss_saves s) log)
  | [] => (Err "server unavailable", mkSession (ss_conn s) (ss_vault s) [] (ss_saves s) log)
  end.
Definition keep (root : string) : setup unit := fun s =>
  let '(io, l) := match ss_saves s with io :: l => (io, l) | [] => (None, []) end in
  let '(err, c, v) := save root io (ss_vault s) (ss_conn s) in
  (match err with Some e => Err e | None => Ok tt end, mkSession c v (ss_answers s) l (ss_log s)).
Definition reload : setup unit := fun s =>
  match load (ss_vault s) (pc_Handle (ss_conn s)) with
  | Err e => (Err e, s)
  | Ok c => (Ok tt, mkSession c (ss_vault s) (ss_answers s) (ss_saves s) (ss_log s))
  end.
(** A request whose answer is decoded. *)
Definition get {A} (q : rest) (decode : reply_view -> option A) : setup A :=
  a ← send q; match decode a with Some x => mret x | None => stop "unexpected answer" end.
Definition when (b : bool) (m : setup unit) : setup unit := if b then m else mret tt.

(** [strings.Fields], joined by single spaces: the separators are ASCII and other white space. *)
Fixpoint fields_go (fuel : nat) (l : list ascii) : list (list ascii) :=
  match fuel with
  | O => []
  | S fuel =>
      match trim_left l with
      | [] => []
      | l' => let fix take_word (l : list ascii) : list ascii * list ascii :=
                match l with
                | [] => ([], [])
                | a :: r => if bool_decide (trim_left l = l) then let '(x, y) := take_word r in (a :: x, y) else ([], l)
                end in
              let '(x, rest) := take_word l' in x :: fields_go fuel rest
      end
  end.
Definition Fields (s : string) : list string := of_bytes <$> fields_go (S (length (bytes s))) (bytes s).
Fixpoint join_words (l : list string) : string :=
  match l with [] => "" | [s] => s | s :: r => s +:+ " " +:+ join_words r end.
(** The first [n] runes of valid UTF-8: continuation bytes belong to the rune before. *)
Fixpoint take_runes (n : nat) (l : list ascii) : list ascii :=
  match l with
  | [] => []
  | a :: r => if cont a then a :: take_runes n r
              else match n with O => [] | S n => a :: take_runes n r end
  end.
Definition ellipsis : string := of_bytes [ascii_of_nat 226; ascii_of_nat 128; ascii_of_nat 166].
Definition lf : string := of_bytes [ascii_of_nat 10].

Definition connectionAnnouncement (c : pluginConnection) : string :=
  let text := pc_Name c +:+ " joined the room." in
  let text :=
    if bool_decide (pc_Profile c = "") then text else
    let summary := join_words (Fields (pc_Profile c)) in
    let summary := if 280 <? RuneCountInString summary
                   then of_bytes (take_runes 279 (bytes summary)) +:+ ellipsis else summary in
    text +:+ lf +:+ "About: " +:+ summary in
  let text := if bool_decide (pc_Intent c = "") then text else text +:+ lf +:+ "Current intent: " +:+ pc_Intent c in
  if bool_decide (pc_Profile c = "") && bool_decide (pc_Intent c = "") then text
  else text +:+ lf +:+ "Find my full profile in agents_list (" +:+ pc_AgentID c +:+ ").".

Definition hello_metadata : json := JObj [("tincan_connection", JStr "hello"); ("tincan_listener", JBool true)].
Definition hello_input (c : pluginConnection) : SendInput :=
  mkSendInput None (pc_ChannelID c) (connectionAnnouncement c) "" "" hello_metadata [] [] None
    ("connection_hello_" +:+ pc_AgentID c).

Section Prepare.
Variables (root : string) (server_url : string -> option url) (now : Z).

(** [refreshProtocol]. *)
Definition negotiated (c : pluginConnection) : setup unit := fun s =>
    let '(answer, s) := send Discover s in
    let answer := match answer with Ok (IsProtocol r) => Ok r | Ok _ => Err "unexpected answer" | Err e => Err e end in
    match refreshProtocol (server_url (cfg_Server (pc_Config c))) answer
            (mkNegotiation (cfg_CryptoPath (pc_Config c)) (pc_Protocol c)) with
    | (Some e, _) => (Err e, s)
    | (None, n) => update (put_Protocol (ng_Protocol n)) s
    end.
Definition negotiate : setup unit := c ← conn; negotiated c.

Definition room_name : setup unit :=
  c ← conn;
  when (bool_decide (pc_RoomName c = ""))
    (rooms ← get (Rest "GET" "/rooms" None) (fun a => match a with IsRooms l => Some l | _ => None end);
     match List.find (fun r => bool_decide (rv_ID r = pc_RoomID c)) rooms with
     | Some r => update (put_RoomName (rv_Name r))
     | None => mret tt
     end).

Definition as_channel_list (a : reply_view) : option (list channelView) :=
  match a with IsChannels l => Some l | _ => None end.
Definition first_channel : setup unit :=
  c ← conn;
  when (bool_decide (pc_ChannelID c = ""))
    (channels ← get (Rest "GET" "/channels" None) as_channel_list;
     match List.find (fun ch => bool_decide (cv_RoomID ch = pc_RoomID c) && negb (cv_Private ch)) channels with
     | Some ch => update (put_ChannelID (cv_ID ch));;
                  when (bool_decide (cv_ID ch = "")) (stop "shared room has no channel; create one before pairing")
     | None => stop "shared room has no channel; create one before pairing"
     end).

Definition room_mode : setup unit :=
  channels ← get (Raw "GET" "/channels") as_channel_list;
  c ← conn;
  match List.find (fun ch => bool_decide (cv_ID ch = pc_ChannelID c)) channels with
  | Some ch => update (put_Mode (cv_Mode ch))
  | None => mret tt
  end.

Definition share_link : setup unit :=
  c ← conn;
  when (bool_decide (pc_ShareURL c = "") || (negb (pc_ShareExpiresAt c =? 0) && (pc_ShareExpiresAt c <? now)))
    (i ← get (Rest "POST" "/invites" (Some (JObj [("room_id", JStr (pc_RoomID c))])))
           (fun a => match a with IsInvite url expires => Some (url, expires) | _ => None end);
     update (put_Share i.1 i.2);; keep root).

Definition claim_link (claimed : bool) : setup unit :=
  c ← conn;
  if negb (Supports (pc_Protocol c) "workspace-claim") || negb (pc_Admin c) || claimed then update (put_Claim "" 0)
  else
    when (bool_decide (pc_ClaimURL c = "") || negb (now <? pc_ClaimExpiresAt c))
      (l ← get (Rest "POST" "/workspace/claim" (Some (JObj [])))
             (fun a => match a with IsClaim url expires claimed => Some (url, expires, claimed) | _ => None end);
       when (negb l.2) (update (put_Claim l.1.1 l.1.2));; keep root).

Definition hello : setup unit :=
  c ← conn;
  when (bool_decide (pc_HelloID c = ""))
    (id ← get (PostHello (hello_input c)) (fun a => match a with IsPosted id => Some id | _ => None end);
     update (put_HelloID id)).

(** Everything that is read from the server, and the links. *)
Definition refresh_view : setup unit :=
  negotiate;;
  me ← get (Rest "GET" "/me" None)
         (fun a => match a with IsMe _ _ profile admin claimed => Some (profile, admin, claimed) | _ => None end);
  update (put_Me me.1.1 me.1.2);;
  room_name;; first_channel;; room_mode;; share_link;; claim_link me.2.

Definition prepare : setup unit :=
  c ← conn;
  if negb (bool_decide (pc_PendingJoin c = None))
  then stop "waiting for creator approval; resume this connection handle" else
  reload;; refresh_view;; hello;; keep root.

(** ** Importing a credential of this task ([importDirect]); [c] becomes the connection *)
Definition zero_plugin (handle : string) (config : Config) : pluginConnection :=
  mkPlugin None "" false None false "" None "" "" "" handle config "" "" "" "" "" "" "" "" 0 "" 0 "" ∅.
Definition server_config (server token : string) : Config := mkConfig None ∅ "" "" "" None server token.

Definition importDirect (random server token room : string) : setup unit :=
  match validateServer (server_url server) with
  | Some e => stop e
  | None =>
      if bool_decide (token = "") || bool_decide (room = "") then stop "use this task’s saved connection and shared room" else
      me ← get (Rest "GET" "/me" None) (fun a => match a with IsMe id name profile _ _ => Some (id, name, profile) | _ => None end);
      let '(id, name, profile) := me in
      if bool_decide (id = "") then stop "could not verify the saved connection" else
      rooms ← get (Rest "GET" "/rooms" None) (fun a => match a with IsRooms l => Some l | _ => None end);
      match List.find (fun r => bool_decide (rv_ID r = room) && negb (rv_Private r) && negb (rv_Archived r)) rooms with
      | None => stop "choose an active shared room belonging to this connection"
      | Some r =>
          update (fun _ =>
            mkPlugin None "" false None false "" None "" "" "" (ID "conn_" random) (server_config server token) id name
              profile "" (rv_ID r) (rv_Name r) "" "" 0 "" 0 "imported" ∅);;
          keep root
      end
  end.
End Prepare.
