(* ===== verification/BrokerTheorems.v ===== *)
(** * The connections of the plugin: properties

    What makes a saved connection sound, and what a later version of it keeps: one agent, one
    task, one announcement. Every operation, run by itself, keeps the vault sound and leaves each
    connection as it was or as a later version; operations that overlap are in
    [ConnectTheorems]. A connection announces itself once. *)
From S2P Require Import Prelude GoStrings Json Types Metadata Protocol Broker.

(** ** What a later version of a connection keeps *)
Record grows (c d : pluginConnection) : Prop := {
  gr_handle : pc_Handle d = pc_Handle c;
  gr_server : cfg_Server (pc_Config d) = cfg_Server (pc_Config c);
  gr_agent : pc_PendingJoin c = None -> pc_PendingJoin d = None /\
    pc_AgentID d = pc_AgentID c /\ pc_RoomID d = pc_RoomID c /\ cfg_Token (pc_Config d) = cfg_Token (pc_Config c);
  gr_hook : pc_HookSessionID c <> "" -> pc_HookHost d = pc_HookHost c /\ pc_HookSessionID d = pc_HookSessionID c;
  gr_codex : pc_CodexThreadID c <> "" -> pc_CodexThreadID d = pc_CodexThreadID c;
  gr_hello : pc_HelloID c <> "" -> pc_HelloID d = pc_HelloID c }.

#[export] Instance grows_preorder : PreOrder grows.
Proof.
  split; [by split|]. intros c d e [] []. split; try congruence.
  - intros Hp. destruct (gr_agent0 Hp) as (Hq & ? & ? & ?). destruct (gr_agent1 Hq) as (? & ? & ? & ?).
    split_and!; congruence.
  - intros Hs. destruct (gr_hook0 Hs) as [? E]. rewrite <- E in Hs. destruct (gr_hook1 Hs). split; congruence.
  - intros Ht. pose proof (gr_codex0 Ht) as E. rewrite <- E in Ht. rewrite (gr_codex1 Ht). done.
  - intros Hh. pose proof (gr_hello0 Hh) as E. rewrite <- E in Hh. rewrite (gr_hello1 Hh). done.
Qed.

(** A saved connection can be used, and belongs to one kind of task at most. *)
Record sound (root : string) (c : pluginConnection) : Prop := {
  so_handle : connectionHandle (pc_Handle c) = true;
  so_path : cfg_ConnectionPath (pc_Config c) = connection_path root (pc_Handle c);
  so_usable : cfg_Token (pc_Config c) = "" -> pc_PendingJoin c <> None;
  so_hook : pc_HookHost c = "" <-> pc_HookSessionID c = "";
  so_bound : pc_HookHost c = "" \/ pc_CodexThreadID c = "" }.

Definition vault_ok (root : string) (v : vault) : Prop :=
  map_Forall (fun h f => forall c, f = Saved c -> pc_Handle c = h /\ sound root c) v.

(** Every connection is still there, as a later version of itself. *)
Definition evolves (v v' : vault) : Prop :=
  forall h c, v !! h = Some (Saved c) -> exists d, v' !! h = Some (Saved d) /\ grows c d.
#[export] Instance evolves_preorder : PreOrder evolves.
Proof.
  split; [intros v h c Hc; by exists c|]. intros u v w Hu Hv h c Hc.
  destruct (Hu h c Hc) as (d & Hd & ?). destruct (Hv h d Hd) as (e & He & ?). exists e. split; [done|by etransitivity].
Qed.

Lemma load_Ok v h c : load v h = Ok c -> v !! h = Some (Saved c) /\ pc_Handle c = h.
Proof.
  unfold load. destruct (connectionHandle h); [|done]. simpl. destruct (v !! h) as [[|c']|]; [done| |done].
  destruct (bool_decide_reflect (pc_Handle c' = h)); simpl; [|done]. case_match; [done|]. by intros [= ->].
Qed.
Lemma vault_ok_load root v h c : vault_ok root v -> v !! h = Some (Saved c) -> load v h = Ok c /\ sound root c.
Proof.
  intros Hv Hc. destruct (Hv h (Saved c) Hc c eq_refl) as [<- Hs]. split; [|done]. unfold load.
  rewrite (so_handle _ _ Hs). simpl. rewrite Hc, bool_decide_eq_true_2 by done. simpl.
  pose proof (so_usable _ _ Hs) as Hu. repeat case_bool_decide; simpl; try done. by destruct Hu.
Qed.

(** What must hold of a connection for saving it to keep the vault sound. *)
Lemma save_sound root io v c err d v' latest :
  vault_ok root v -> load v (pc_Handle c) = Ok latest -> grows latest c ->
  (cfg_Token (pc_Config c) = "" -> pc_PendingJoin c <> None) ->
  (pc_HookHost c = "" <-> pc_HookSessionID c = "") -> (pc_HookHost c = "" \/ pc_CodexThreadID c = "") ->
  save root io v c = (err, d, v') ->
  vault_ok root v' /\ evolves v v' /\ grows c d /\ (v' = v \/ v' !! pc_Handle c = Some (Saved d)).
Proof.
  intros Hv Hl Hg Hu Hh Hb. unfold save. destruct (connectionHandle (pc_Handle c)) eqn:E; simpl;
    [|intros [= _ <- <-]; split_and!; [done|done|by split|by left]].
  assert (grows c (located root c)) as Hloc by by split.
  destruct io as [e|]; [intros [= _ <- <-]; split_and!; [done|done|done|by left]|]. intros [= _ <- <-].
  simpl. split_and!; [|intros h0 c0 Hc0|done|right; apply lookup_insert_eq].
  - apply map_Forall_insert_2; [|done]. intros c' [= <-]. split; [done|]. by split.
  - destruct (decide (h0 = pc_Handle c)) as [->|Hne]; [|exists c0; split; [rewrite lookup_insert_ne; done|done]].
    exists (located root c). split; [apply lookup_insert_eq|].
    apply load_Ok in Hl as [Hl _]. rewrite Hl in Hc0. injection Hc0 as ->. by etransitivity.
Qed.

(** ** One step of any process on the vault *)
Definition fine (root : string) (v v' : vault) : Prop := vault_ok root v' /\ evolves v v'.

Section Steps.
Variables (root : string) (v : vault).
Hypothesis ok : vault_ok root v.

Lemma fine_refl : fine root v v.
Proof using ok. by split. Qed.

Lemma loaded_sound h c : load v h = Ok c -> pc_Handle c = h /\ sound root c.
Proof using ok. intros [Hc <-]%load_Ok. split; [done|]. by eapply vault_ok_load. Qed.

(** A change to a loaded connection that is then saved. *)
Lemma resave_fine io h latest c err d v' :
  load v h = Ok latest -> grows latest c -> (cfg_Token (pc_Config c) = "" -> pc_PendingJoin c <> None) ->
  (pc_HookHost c = "" <-> pc_HookSessionID c = "") -> (pc_HookHost c = "" \/ pc_CodexThreadID c = "") ->
  save root io v c = (err, d, v') -> fine root v v'.
Proof using ok.
  intros Hl Hg Hu Hh Hb E. pose proof (loaded_sound _ _ Hl) as [Hh' _].
  assert (load v (pc_Handle c) = Ok latest) as Hl' by (by rewrite (gr_handle _ _ Hg), Hh').
  destruct (save_sound _ _ _ _ _ _ _ _ ok Hl' Hg Hu Hh Hb E) as (? & ? & _). by split.
Qed.

Lemma bindHook_fine io c host session err d v' : bindHook root io v c host session = (err, d, v') -> fine root v v'.
Proof using ok.
  unfold bindHook. test Hempty; [intros [= _ _ <-]; apply fine_refl|].
  destruct (validateHookBinding host session) eqn:Ev; [intros [= _ _ <-]; apply fine_refl|].
  destruct (load v (pc_Handle c)) as [latest|e] eqn:El; [|intros [= _ _ <-]; apply fine_refl].
  destruct (bool_decide_reflect (pc_CodexThreadID latest = "")) as [Ht|]; simpl; [|intros [= _ _ <-]; apply fine_refl].
  test Hw; [intros [= _ _ <-]; apply fine_refl|].
  test Hbound; [intros [= _ _ <-]; apply fine_refl|].
  pose proof (loaded_sound _ _ El) as [_ Hs].
  assert (host <> "" /\ session <> "") as [Hhost Hsession].
  { unfold validateHookBinding in Ev. rewrite Hempty in Ev. destruct (_ || _) eqn:E2; [done|]. bool_simpl.
    unfold hook_hosts in *. split; [set_solver|]. by intros ->. }
  destruct (save _ _ _ _) as [[err1 c1] v1] eqn:Es. intros Heq. assert (v' = v1) as -> by (by destruct err1; inversion Heq).
  eapply resave_fine; [exact El|..|exact Es]; simpl; [|by apply Hs|by split|by right].
  split; try done. simpl. intros Hsess. bool_simpl. rewrite (bool_decide_eq_false_2 _ Hsess) in Hbound. simpl in Hbound.
  destruct Hbound as [|Hb]; [done|]. bool_simpl. by split.
Qed.

Lemma bindCodex_fine host io target c thread err d v' :
  bindCodex root host io target v c thread = (err, d, v') -> fine root v v'.
Proof using ok.
  unfold bindCodex. case_bool_decide as Hhost; simpl; [|intros [= _ _ <-]; apply fine_refl].
  case_bool_decide; simpl; [|intros [= _ _ <-]; apply fine_refl].
  set (t := if bool_decide (thread = "") then _ else _).
  destruct (codexTaskID t) eqn:Et; simpl; [|intros [= _ _ <-]; apply fine_refl].
  test E0; [intros [= _ _ <-]; apply fine_refl|].
  destruct target as [tg|]; [|intros [= _ _ <-]; apply fine_refl].
  destruct (load v _) as [latest|e] eqn:El; [|intros [= _ _ <-]; apply fine_refl].
  destruct (bool_decide_reflect (pc_HookHost latest = "")) as [Hh|]; simpl; [|intros [= _ _ <-]; apply fine_refl].
  test Hbound; [intros [= _ _ <-]; apply fine_refl|]. intros Es.
  pose proof (loaded_sound _ _ El) as [_ Hs]. eapply resave_fine; [exact El|..|exact Es]; simpl; [|by apply Hs..|by left].
  split; try done. simpl. intros Hth. rewrite (bool_decide_eq_false_2 _ Hth) in Hbound. simpl in Hbound. by bool_simpl.
Qed.

Lemma refreshJoin_fine io answer c err d v' : refreshJoin root io answer v c = (err, d, v') -> fine root v v'.
Proof using ok.
  unfold refreshJoin. case_bool_decide; [intros [= _ _ <-]; apply fine_refl|].
  destruct answer as [s|e]; [|intros [= _ _ <-]; apply fine_refl].
  destruct (load v (pc_Handle c)) as [latest|e] eqn:El; [|intros [= _ _ <-]; apply fine_refl].
  destruct (pc_PendingJoin latest) as [j|] eqn:Ej; [|intros [= _ _ <-]; apply fine_refl]. cbv zeta.
  pose proof (loaded_sound _ _ El) as [_ Hs]. case_bool_decide as Hj.
  - test Hfull; [intros [= _ _ <-]; apply fine_refl|]. bool_simpl. intros Es.
    eapply resave_fine; [exact El|..|exact Es]; simpl; [|done|by apply Hs..].
    split; try done. simpl. by rewrite Ej.
  - intros Es. eapply resave_fine; [exact El|..|exact Es]; simpl; [|done|by apply Hs..].
    split; try done. simpl. by rewrite Ej.
Qed.

Lemma record_peer_fine io handle agent peer err v' : record_peer root io v handle agent peer = (err, v') -> fine root v v'.
Proof using ok.
  unfold record_peer. destruct (load v handle) as [latest|e] eqn:El; [|intros [= _ <-]; apply fine_refl].
  destruct (save _ _ _ _) as [[err1 c1] v1] eqn:Es. intros [= _ <-]. pose proof (loaded_sound _ _ El) as [_ Hs].
  eapply resave_fine; [exact El|..|exact Es]; simpl; [by split|by apply Hs..].
Qed.
End Steps.

(** ** Setting up *)
Definition keeps (Q : session -> Prop) {A} (m : setup A) : Prop := forall s, Q s -> Q (m s).2.
Lemma keeps_mret Q {A} (a : A) : keeps Q (mret a).
Proof. by intros s Hs. Qed.
Lemma keeps_stop Q {A} e : keeps Q (stop (A := A) e).
Proof. by intros s Hs. Qed.
Lemma keeps_conn Q : keeps Q conn.
Proof. by intros s Hs. Qed.
Lemma keeps_mbind Q {A B} (m : setup A) (f : A -> setup B) : keeps Q m -> (forall a, keeps Q (f a)) -> keeps Q (mbind f m).
Proof.
  intros Hm Hf s Hs. specialize (Hm s Hs). unfold mbind, setup_bind. destruct (m s) as [[a|e] s1]; [by apply Hf|done].
Qed.
Lemma keeps_when Q b m : keeps Q m -> keeps Q (when b m).
Proof. intros Hm. destruct b; [done|apply keeps_mret]. Qed.
Create HintDb setup discriminated.
#[local] Hint Resolve keeps_mret keeps_stop keeps_conn keeps_mbind keeps_when : setup.

(** A set-up under way: the vault is sound and grew from [v0]; the connection in memory is a
    later version of the saved one; no greeting was sent so far. *)
Definition fit (c : pluginConnection) : Prop :=
  (cfg_Token (pc_Config c) = "" -> pc_PendingJoin c <> None) /\
  (pc_HookHost c = "" <-> pc_HookSessionID c = "") /\ (pc_HookHost c = "" \/ pc_CodexThreadID c = "").
Definition is_hello (q : rest) : bool := match q with PostHello _ => true | _ => false end.
Definition silent (l : list rest) : Prop := Forall (fun q => is_hello q = false) l.
Record in_setup (root : string) (v0 : vault) (c0 : pluginConnection) (before : list rest) (s : session) : Prop := {
  is_vault : vault_ok root (ss_vault s);
  is_grown : evolves v0 (ss_vault s);
  is_latest : exists latest, load (ss_vault s) (pc_Handle (ss_conn s)) = Ok latest /\ grows latest (ss_conn s);
  is_fit : fit (ss_conn s);
  is_hello_id : (pc_Handle (ss_conn s), pc_AgentID (ss_conn s), pc_HelloID (ss_conn s)) = (pc_Handle c0, pc_AgentID c0, pc_HelloID c0);
  is_silent : exists l, ss_log s = before ++ l /\ silent l }.

(** What [prepare] assigns before it greets. *)
Definition minor (f : pluginConnection -> pluginConnection) : Prop :=
  forall c, grows c (f c) /\ pc_HelloID (f c) = pc_HelloID c /\ pc_AgentID (f c) = pc_AgentID c /\ (fit c -> fit (f c)).

Section Setup.
Variables (root : string) (server_url : string -> option url) (now : Z).
Variables (v0 : vault) (c0 : pluginConnection) (before : list rest).
Notation Q := (in_setup root v0 c0 before).

Lemma keeps_update f : minor f -> keeps Q (update f).
Proof.
  intros Hf s [Hv He (latest & Hl & Hg) Hfit Hid Hs]. destruct (Hf (ss_conn s)) as (Hgf & Hh & Ha & Hff). split; simpl; try done.
  - exists latest. rewrite (gr_handle _ _ Hgf). split; [done|by etransitivity].
  - by apply Hff.
  - by rewrite (gr_handle _ _ Hgf), Hh, Ha.
Qed.
Lemma keeps_send q : is_hello q = false -> keeps Q (send q).
Proof.
  intros Hq s [Hv He Hl Hfit Hid (l & Hlog & Hs)]. unfold send.
  assert (exists l', (ss_log s ++ [q]) = before ++ l' /\ silent l') as Hs'.
  { exists (l ++ [q]). rewrite Hlog, app_assoc. split; [done|]. apply Forall_app. split; [done|by apply Forall_singleton]. }
  by destruct (ss_answers s).
Qed.
Lemma keeps_get {A} q (d : reply_view -> option A) : is_hello q = false -> keeps Q (get q d).
Proof. intros Hq. apply keeps_mbind; [by apply keeps_send|]. intros a. destruct (d a); auto with setup. Qed.
Lemma keeps_keep : keeps Q (keep root).
Proof.
  intros s [Hv He (latest & Hl & Hg) (Hu & Hh & Hb) Hid Hs]. unfold keep.
  destruct (match ss_saves s with [] => _ | _ => _ end) as [io sl].
  destruct (save _ _ _ _) as [[err d] v'] eqn:E.
  destruct (save_sound _ _ _ _ _ _ _ _ Hv Hl Hg Hu Hh Hb E) as (Hv' & He' & Hgd & Hcase).
  assert ((pc_Handle d, pc_AgentID d, pc_HelloID d) = (pc_Handle c0, pc_AgentID c0, pc_HelloID c0) /\ fit d) as [Hid' Hfit'].
  { unfold save in E. destruct (connectionHandle _); simpl in E; [|by injection E as _ <- _].
    destruct io; injection E as _ <- _; by split. }
  split; simpl; try done; [by etransitivity|].
  destruct Hcase as [->|Hsaved]; [exists latest; rewrite (gr_handle _ _ Hgd); split; [done|by etransitivity]|].
  exists d. rewrite (gr_handle _ _ Hgd). split; [|done]. by eapply vault_ok_load.
Qed.
#[local] Hint Resolve keeps_keep : setup.

Ltac minor_update := apply keeps_update; intros ?; split_and!; [by split|done|done|by intros (? & ? & ?)].
Ltac setup_steps :=
  repeat first
    [ minor_update | by apply keeps_get
    | match goal with |- forall _, keeps _ _ => intros ? end
    | match goal with |- keeps _ (match ?x with _ => _ end) => destruct x end
    | apply keeps_when | apply keeps_mbind | solve [auto with setup] ].

Lemma keeps_negotiate : keeps Q (negotiate server_url).
Proof.
  apply keeps_mbind; [auto with setup|]. intros c s Hs. unfold negotiated.
  pose proof (keeps_send Discover eq_refl s Hs) as Hs1. destruct (send Discover s) as [a s1].
  destruct (refreshProtocol _ _ _) as [[e|] n]; [done|].
  apply (keeps_update (put_Protocol (ng_Protocol n))); [|done]. intros ?. split_and!; [by split|done|done|by intros (? & ? & ?)].
Qed.

Lemma keeps_before_claim :
  keeps Q (negotiate server_url) /\ keeps Q room_name /\ keeps Q first_channel /\ keeps Q room_mode /\
  keeps Q (share_link root now) /\ forall claimed, keeps Q (claim_link root now claimed).
Proof.
  split_and!; [apply keeps_negotiate|..]; intros; unfold room_name, first_channel, room_mode, share_link, claim_link; setup_steps.
Qed.

Lemma keeps_refresh : keeps Q (refresh_view root server_url now).
Proof.
  destruct keeps_before_claim as (K1 & K2 & K3 & K4 & K5 & K6).
  unfold refresh_view. apply keeps_mbind; [done|intros []]. apply keeps_mbind; [by apply keeps_get|intros me].
  apply keeps_mbind; [minor_update|intros []]. repeat (apply keeps_mbind; [done|intros []]). done.
Qed.

Lemma keep_saved s r s' : Q s -> keep root s = (r, s') ->
  vault_ok root (ss_vault s') /\ evolves v0 (ss_vault s') /\ ss_log s' = ss_log s /\
  (r = Ok tt -> load (ss_vault s') (pc_Handle c0) = Ok (ss_conn s') /\ ss_conn s' = located root (ss_conn s)).
Proof.
  intros Hq E. pose proof (keeps_keep s Hq) as Hq'. rewrite E in Hq'. simpl in Hq'.
  split_and!; [by destruct Hq'|by destruct Hq'| |].
  - unfold keep in E. destruct (match ss_saves s with [] => _ | _ => _ end). destruct (save _ _ _ _) as [[]]. by injection E as _ <-.
  - intros ->. unfold keep in E. destruct (match ss_saves s with [] => _ | _ => _ end) as [io sl].
    destruct (save _ _ _ _) as [[err d] v'] eqn:Es. destruct err; [done|]. injection E as <-. simpl.
    unfold save in Es. destruct (connectionHandle (pc_Handle (ss_conn s))) eqn:Eh; [|done]. simpl in Es.
    destruct io; [done|]. injection Es as <- <-. split; [|done].
    pose proof (is_hello_id _ _ _ _ _ Hq) as Hid. injection Hid as Hh _ _. rewrite <- Hh.
    eapply vault_ok_load; [apply Hq'|]. simpl. apply lookup_insert_eq.
Qed.

End Setup.

(** The greeting and the last save. *)
Definition greeted (c0 : pluginConnection) (l : list rest) : Prop :=
  silent l \/ (pc_HelloID c0 = "" /\ exists l1 m, l = l1 ++ [PostHello m] /\ silent l1 /\
    si_IdempotencyKey m = "connection_hello_" +:+ pc_AgentID c0).
Definition claimable (c : pluginConnection) : Prop :=
  pc_ClaimURL c <> "" -> pc_Admin c = true /\ Supports (pc_Protocol c) "workspace-claim" = true.

(** The state after the greeting was answered. *)
Lemma greeting_in_setup root v0 c0 before s l id answers :
  in_setup root v0 c0 before s -> pc_HelloID (ss_conn s) = "" -> ss_log s = before ++ l ->
  in_setup root v0 (put_HelloID id c0) (before ++ l ++ [PostHello (hello_input (ss_conn s))])
    (mkSession (put_HelloID id (ss_conn s)) (ss_vault s) answers (ss_saves s) (ss_log s ++ [PostHello (hello_input (ss_conn s))])).
Proof.
  intros [Hv He (latest & Hld & Hgr) Hf Hi Hsi] Hh Hl. injection Hi as Hhandle Hagent Hhello. split; simpl; try done.
  - exists latest. split; [done|]. destruct Hgr as [G1 G2 G3 G4 G5 G6]. split; simpl; try done.
    intros Hne. specialize (G6 Hne). congruence.
  - by rewrite Hhandle, Hagent.
  - exists []. rewrite Hl, app_nil_r, app_assoc. split; [done|constructor].
Qed.

#[local] Ltac refused :=
  match goal with
  | E : (Err _, _) = (?r, ?s'), Q : in_setup _ _ _ _ _ |- _ =>
      injection E as <- <-; split_and!; [by destruct Q|by destruct Q|assumption|done]
  end.

Lemma greet_saved root v0 c0 before s r s' : in_setup root v0 c0 before s -> claimable (ss_conn s) ->
  (hello;; keep root) s = (r, s') ->
  vault_ok root (ss_vault s') /\ evolves v0 (ss_vault s') /\ (exists l, ss_log s' = before ++ l /\ greeted c0 l) /\
  (r = Ok tt -> exists d, load (ss_vault s') (pc_Handle c0) = Ok d /\ claimable d).
Proof.
  intros Hq Hc E. destruct (is_silent _ _ _ _ _ Hq) as (l & Hl & Hs).
  unfold hello, when, mbind, setup_bind, conn in E. case_bool_decide as Hh.
  - unfold get, mbind, setup_bind, send in E. set (q := PostHello (hello_input (ss_conn s))) in *.
    pose proof (is_hello_id _ _ _ _ _ Hq) as Hid. injection Hid as Hhandle Hagent Hhello.
    assert (greeted c0 (l ++ [q])) as Hg.
    { right. split; [congruence|]. exists l, (hello_input (ss_conn s)). split_and!; [done|done|]. simpl. by rewrite Hagent. }
    assert (exists l', ss_log s ++ [q] = before ++ l' /\ greeted c0 l') as Hlog
      by (exists (l ++ [q]); split; [by rewrite Hl, app_assoc|done]).
    destruct (ss_answers s) as [|[a|e] answers]; [refused| |refused].
    destruct a; try (simpl in E; refused). unfold mret, setup_ret, update in E. simpl in E.
    pose proof (greeting_in_setup root v0 c0 before s l id answers Hq Hh Hl) as Hq2.
    apply (keep_saved _ _ _ _ _ _ _ Hq2) in E as (Hv & He & Hlg & Hr). split_and!; [done|done|by rewrite Hlg|].
    intros Hok. destruct (Hr Hok) as [Hload Hd]. exists (ss_conn s'). split; [done|]. by rewrite Hd.
  - destruct (keep_saved _ _ _ _ s r s' Hq E) as (Hv & He & Hlg & Hr). split_and!; [done|done| |].
    + exists l. rewrite Hlg. split; [done|by left].
    + intros Hok. destruct (Hr Hok) as [Hload Hd]. exists (ss_conn s'). split; [done|]. by rewrite Hd.
Qed.

Lemma keep_conn root s : ss_conn (keep root s).2 = ss_conn s \/ ss_conn (keep root s).2 = located root (ss_conn s).
Proof.
  unfold keep, save. destruct (match ss_saves s with [] => _ | _ => _ end) as [io l].
  destruct (connectionHandle _); simpl; [|by left]. destruct io; by right.
Qed.
Lemma claim_link_claimable root now claimed s s1 : claim_link root now claimed s = (Ok tt, s1) -> claimable (ss_conn s1).
Proof.
  unfold claim_link, mbind, setup_bind, conn. test Hoff.
  - intros [= <-]. by intros Hne.
  - bool_simpl. assert (forall c, pc_Admin c = pc_Admin (ss_conn s) -> pc_Protocol c = pc_Protocol (ss_conn s) -> claimable c) as Hany
      by (intros c E1 E2 _; rewrite E1, E2; by split).
    unfold when at 1. test Hold; [|intros [= <-]; by apply Hany].
    unfold get, mbind, setup_bind, send. destruct (ss_answers s) as [|[a|e] answers]; [done| |done].
    destruct a; try done. simpl. intros E.
    assert (pc_Admin (ss_conn s1) = pc_Admin (ss_conn s) /\ pc_Protocol (ss_conn s1) = pc_Protocol (ss_conn s)) as [? ?];
      [|by apply Hany].
    destruct claimed0; simpl in E;
      match type of E with keep root ?s2 = _ => destruct (keep_conn root s2) as [Hc|Hc] end; rewrite E in Hc; simpl in Hc; by rewrite Hc.
Qed.

Lemma setup_bind_ok {A B} (m : setup A) (f : A -> setup B) s b s' :
  mbind f m s = (Ok b, s') -> exists a s1, m s = (Ok a, s1) /\ f a s1 = (Ok b, s').
Proof. unfold mbind, setup_bind. destruct (m s) as [[a|e] s1]; [|done]. by exists a, s1. Qed.

Lemma refresh_claimable root server_url now s s1 :
  refresh_view root server_url now s = (Ok tt, s1) -> claimable (ss_conn s1).
Proof.
  unfold refresh_view. intros (? & ? & _ & E)%setup_bind_ok. apply setup_bind_ok in E as (me & ? & _ & E).
  do 5 apply setup_bind_ok in E as (? & ? & _ & E). by eapply claim_link_claimable.
Qed.

(** The whole of [prepare]. *)
Lemma prepare_spec root server_url now s r s' :
  vault_ok root (ss_vault s) -> prepare root server_url now s = (r, s') ->
  vault_ok root (ss_vault s') /\ evolves (ss_vault s) (ss_vault s') /\
  exists l, ss_log s' = ss_log s ++ l /\
    (r <> Ok tt /\ l = [] \/
     exists c0, load (ss_vault s) (pc_Handle (ss_conn s)) = Ok c0 /\ greeted c0 l /\
       (r = Ok tt -> exists d, load (ss_vault s') (pc_Handle c0) = Ok d /\ claimable d)).
Proof.
  intros Hv. unfold prepare at 1, mbind at 1, setup_bind at 1, conn at 1.
  case_bool_decide as Hp; cbn [negb];
    [|intros [= <- <-]; split_and!; [done|done|]; exists []; rewrite app_nil_r; split; [done|by left]].
  unfold mbind at 1, setup_bind at 1, reload at 1. destruct (load _ _) as [c0|e] eqn:El;
    [|intros [= <- <-]; split_and!; [done|done|]; exists []; rewrite app_nil_r; split; [done|by left]].
  set (s0 := mkSession _ _ _ _ _). set (v0 := ss_vault s). intros E.
  assert (in_setup root v0 c0 (ss_log s) s0) as H0.
  { destruct (load_Ok _ _ _ El) as [Hc Hh]. destruct (vault_ok_load _ _ _ _ Hv Hc) as [_ Hs].
    split; simpl; try done.
    - exists c0. rewrite Hh. by split.
    - by split_and!; [apply Hs|apply Hs|apply Hs].
    - exists []. rewrite app_nil_r. by split; [|constructor]. }
  pose proof (keeps_refresh root server_url now v0 c0 (ss_log s) s0 H0) as H1.
  pose proof (refresh_claimable root server_url now s0) as Hc.
  unfold mbind at 1, setup_bind at 1 in E. destruct (refresh_view _ _ _ s0) as [[[]|e] s1].
  - apply (greet_saved root v0 c0 (ss_log s)) in E as (Hv' & He & (l & Hl & Hg) & Hr); [|done|by apply Hc].
    split_and!; [done|done|]. exists l. split; [done|]. right. by exists c0.
  - injection E as <- <-. destruct (is_silent _ _ _ _ _ H1) as (l & Hl & Hs). split_and!; [apply H1|apply H1|].
    exists l. split; [done|]. right. exists c0. by split_and!; [|left|].
Qed.

Lemma import_fine root server_url random server token room s r s' :
  vault_ok root (ss_vault s) -> ss_vault s !! ID "conn_" random = None ->
  importDirect root server_url random server token room s = (r, s') -> fine root (ss_vault s) (ss_vault s').
Proof.
  intros Hv Hnew. unfold importDirect. destruct (validateServer _); [intros [= _ <-]; by split|].
  test Hempty; [intros [= _ <-]; by split|]. bool_simpl.
  unfold get, mbind, setup_bind, send. destruct (ss_answers s) as [|[a|e] answers]; [intros [= _ <-]; by split| |intros [= _ <-]; by split].
  destruct a; try (intros [= _ <-]; by split). unfold mret, setup_ret. simpl.
  case_bool_decide; [intros [= _ <-]; by split|]. simpl.
  destruct answers as [|[a|e] answers]; [intros [= _ <-]; by split| |intros [= _ <-]; by split].
  destruct a; try (intros [= _ <-]; by split). simpl.
  destruct (List.find _ l) as [room'|]; [|intros [= _ <-]; by split].
  unfold update, keep, save. simpl. destruct (match ss_saves s with [] => _ | _ => _ end) as [io sl].
  destruct (connectionHandle (ID "conn_" random)) eqn:Eh; simpl; [|intros [= _ <-]; by split].
  destruct io; intros [= _ <-]; simpl; [by split|]. split.
  - apply map_Forall_insert_2; [|done]. intros c [= <-]. split; [done|]. split; simpl; try done; by left.
  - intros h c Hc. exists c. split; [|done]. rewrite lookup_insert_ne; [done|]. intros <-. unfold pc_Handle in Hc. simpl in Hc. congruence.
Qed.

(** Setting up announces once. [prepare], on a sound vault and whatever the server answers and
    whichever saves fail, makes at most one greeting, as its last request, only when none was
    saved for the connection, and under a key that depends on the agent alone - so a repeated
    set-up whose save had failed greets under the same key. When it succeeds, the saved
    connection has a claim link only if the agent is an administrator and the server offers
    claiming. *)
Theorem prepare_announces_once root server_url now s r s' :
  vault_ok root (ss_vault s) -> prepare root server_url now s = (r, s') ->
  exists l, ss_log s' = ss_log s ++ l /\
    (silent l \/ exists l1 m c0, l = l1 ++ [PostHello m] /\ silent l1 /\
       load (ss_vault s) (pc_Handle (ss_conn s)) = Ok c0 /\ pc_HelloID c0 = "" /\
       si_IdempotencyKey m = "connection_hello_" +:+ pc_AgentID c0) /\
    (r = Ok tt -> exists d, load (ss_vault s') (pc_Handle (ss_conn s)) = Ok d /\
       (pc_ClaimURL d <> "" -> pc_Admin d = true /\ Supports (pc_Protocol d) "workspace-claim" = true)).
Proof.
  intros Hv E. destruct (prepare_spec _ _ _ _ _ _ Hv E) as (_ & _ & l & Hl & Hcase). exists l. split; [done|].
  destruct Hcase as [[Hr ->]|(c0 & Hld & Hg & Hr)]; [split; [left; by constructor|done]|].
  destruct (load_Ok _ _ _ Hld) as [_ Hh]. rewrite <- Hh. split; [|exact Hr].
  destruct Hg as [|(Hhello & l1 & m & -> & Hs & Hk)]; [by left|right]. exists l1, m, c0. rewrite Hh. by split_and!.
Qed.

(** An approved join whose save fails brings the plugin down. When the server approves a
    pending admission with complete credentials and the vault cannot be written, the loop that
    waits for the approval reads the expiry of the receipt that the join has just consumed. *)
Theorem join_save_failure_panics root e answer now setup v handle saved j :
  load v handle = Ok saved -> pc_PendingJoin saved = Some j -> js_Status answer = "joined" ->
  js_Token answer <> "" -> js_AgentID answer <> "" -> js_RoomID answer <> "" ->
  pending_tick root (Some e) (Ok answer) now setup v handle = (Panicked, v).
Proof.
  intros Hl Hp Hj Ht Ha Hr. pose proof (load_Ok _ _ _ Hl) as [_ Hh]. unfold pending_tick. rewrite Hl.
  rewrite bool_decide_eq_false_2 by congruence. unfold refreshJoin. rewrite bool_decide_eq_false_2 by congruence.
  rewrite Hh, Hl, Hp. simpl. rewrite bool_decide_eq_true_2, !bool_decide_eq_false_2 by done. simpl.
  unfold save. simpl. assert (connectionHandle (pc_Handle saved) = true) as ->; [|done].
  rewrite Hh. unfold load in Hl. by destruct (connectionHandle handle).
Qed.

(** ** The theorems at concrete inputs *)
Definition demo_url (s : string) : option url := Some (mkURL "https" "tincan.example" "tincan.example" false "" "" false "").
Definition demo_handle : string := ID "conn_" "0123456789abcdef".
Definition importing : session :=
  mkSession (zero_plugin "" (server_config "" "")) ∅
    [Ok (IsMe "agent" "Ada" "helps" true false); Ok (IsRooms [mkRoomView "rm_1" "General" false false])] [] [].
Notation imported := (importDirect "/state" demo_url "0123456789abcdef" "https://tincan.example" "token" "rm_1" importing).
Definition saved_conn : pluginConnection :=
  located "/state" (mkPlugin None "" false None false "" None "" "" "" demo_handle
    (server_config "https://tincan.example" "token") "agent" "Ada" "helps" "" "rm_1" "General" "" "" 0 "" 0 "imported" ∅).
Lemma imported_eq : ss_vault imported.2 = {[demo_handle := Saved saved_conn]}.
Proof. vm_compute. reflexivity. Qed.
Definition setting_up : session :=
  mkSession (put_HelloID "" saved_conn) {[demo_handle := Saved (put_HelloID "" saved_conn)]}
    [Ok (IsProtocol (mkResponse 404 (Ok 0) None)); Ok (IsMe "agent" "Ada" "helps" false false);
     Ok (IsChannels [mkChannelView "ch_1" "rm_1" false "standard"]); Ok (IsChannels []);
     Ok (IsInvite "https://tincan.example/join#x" 100); Ok (IsPosted "msg_1")] [] [].
Notation set_up := (prepare "/state" demo_url 7 setting_up).
Example set_up_greets : is_ok set_up.1 = true /\ existsb is_hello (ss_log set_up.2) = true.
Proof. vm_compute. done. Qed.
Lemma setting_up_ok : vault_ok "/state" (ss_vault setting_up).
Proof. apply map_Forall_singleton. intros c [= <-]. split; [done|]. split; simpl; try done; by left. Qed.
Lemma prepare_announces_once_witness :
  exists l, ss_log set_up.2 = ss_log setting_up ++ l /\
    (silent l \/ exists l1 m c0, l = l1 ++ [PostHello m] /\ silent l1 /\
       load (ss_vault setting_up) (pc_Handle (ss_conn setting_up)) = Ok c0 /\ pc_HelloID c0 = "" /\
       si_IdempotencyKey m = "connection_hello_" +:+ pc_AgentID c0) /\
    (set_up.1 = Ok tt -> exists d, load (ss_vault set_up.2) (pc_Handle (ss_conn setting_up)) = Ok d /\
       (pc_ClaimURL d <> "" -> pc_Admin d = true /\ Supports (pc_Protocol d) "workspace-claim" = true)).
Proof. exact (prepare_announces_once "/state" demo_url 7 setting_up _ _ setting_up_ok (surjective_pairing set_up)). Defined.

Definition pending_conn : pluginConnection :=
  put_PendingJoin (Some (mkJoinReceipt false "" "req" "receipt" "pending" "words" 100))
    (zero_plugin demo_handle (server_config "https://tincan.example" "")).
Lemma pending_loads : load {[demo_handle := Saved pending_conn]} demo_handle = Ok pending_conn.
Proof. vm_compute. reflexivity. Qed.
Lemma join_save_failure_panics_witness :
  pending_tick "/state" (Some "disk full") (Ok (mkJoinStatus "joined" "token" "agent" "rm_1")) 7 (fun _ v => (None, v))
    {[demo_handle := Saved pending_conn]} demo_handle = (Panicked, {[demo_handle := Saved pending_conn]}).
Proof.
  exact (join_save_failure_panics "/state" "disk full" (mkJoinStatus "joined" "token" "agent" "rm_1") 7 (fun _ v => (None, v)) _
    demo_handle pending_conn _ pending_loads eq_refl eq_refl ltac:(discriminate) ltac:(discriminate) ltac:(discriminate)).
Defined.
