(* ===== verification/Bridge.v ===== *)
(** * The inbox bridge between processes

    [cmd/tincan/plugin_inbox_owner.go], with [getInbox] and [close] of [plugin.go]: several
    plugin processes share a vault; the one that holds an inbox serves the inbox tools of the
    others over a local port, under a secret it publishes beside the vault. Owner files are
    keyed by connection handle. The outcome of listening, writing and opening, and the random
    bytes, are taken from scripts. *)
From S2P Require Import Prelude GoStrings Json Types Broker.

Record inboxOwnerReference := mkRef { or_ControllerOnly : bool; or_Port : Z; or_Secret : string }.
Notation owner_files := (gmap string (saved inboxOwnerReference)).

(** ** Calls *)
Record tool_call := mkCall { tl_Name : string; tl_Arguments : json }.

Definition inbox_tools : list string :=
  ["inbox_plan"; "inbox_requests"; "inbox_outcome"; "inbox_decide"; "inbox_policy_set"; "inbox_wait"; "inbox_next";
   "inbox_claim"; "inbox_release"; "inbox_reply"; "inbox_ack"; "tincan_status"; "tincan_pairing_wait"].
Definition inboxOwnerTool (name : string) : bool := bool_decide (name ∈ inbox_tools).
Definition controller_tools : list string := ["inbox_requests"; "inbox_decide"; "inbox_policy_set"; "inbox_plan"].

(** The error of the decoding is ignored: the last string under the key counts. *)
Fixpoint last_connection (members : list (string * json)) (h : string) : string :=
  match members with
  | [] => h
  | (k, v) :: rest =>
      last_connection rest (match v with JStr s => if field_match "connection" k then s else h | _ => h end)
  end.
Definition inboxOwnerHandle (args : json) : string :=
  match args with JObj members => last_connection members "" | _ => "" end.

(** ** A process *)
(** [br_inboxes] has the inboxes it holds; [br_port] is the port of its bridge, once started;
    [br_paths] are the owner files it has written. *)
Record bridge := mkBridge {
  br_host : string; br_stopped : bool; br_tools : bool; br_inboxes : gset string; br_port : option Z;
  br_refs : gmap string inboxOwnerReference; br_paths : list string; br_errors : gmap string string }.
Definition new_bridge (host : string) : bridge := mkBridge host false false ∅ None ∅ [] ∅.
Definition with_inbox (h : string) (b : bridge) : bridge :=
  mkBridge (br_host b) (br_stopped b) (br_tools b) ({[h]} ∪ br_inboxes b) (br_port b) (br_refs b) (br_paths b) (br_errors b).
Definition with_port (port : Z) (b : bridge) : bridge :=
  mkBridge (br_host b) (br_stopped b) (br_tools b) (br_inboxes b) (Some port) (br_refs b) (br_paths b) (br_errors b).
Definition with_ref (h : string) (r : inboxOwnerReference) (b : bridge) : bridge :=
  mkBridge (br_host b) (br_stopped b) (br_tools b) (br_inboxes b) (br_port b) (<[h := r]> (br_refs b)) (br_paths b ++ [h]) (br_errors b).
Definition with_error (h e : string) (b : bridge) : bridge :=
  mkBridge (br_host b) (br_stopped b) (br_tools b) (br_inboxes b) (br_port b) (br_refs b) (br_paths b) (<[h := e]> (br_errors b)).
Definition with_tools (b : bridge) : bridge :=
  mkBridge (br_host b) (br_stopped b) true (br_inboxes b) (br_port b) (br_refs b) (br_paths b) (br_errors b).
Definition with_stopped (b : bridge) : bridge :=
  mkBridge (br_host b) true (br_tools b) (br_inboxes b) (br_port b) (br_refs b) (br_paths b) (br_errors b).

(** ** Publishing ([publishInboxOwner]) *)
Record publish_script := mkPublish {
  pb_listen : result Z;          (* the port, when the bridge is started *)
  pb_connect : option string;    (* the private session to its own tools *)
  pb_random : string;            (* the secret's bytes *)
  pb_write : option string }.    (* writing and renaming the owner file *)

(** The bridge, started if need be. *)
Definition start_bridge (sc : publish_script) (b : bridge) : result bridge :=
  match br_port b with
  | Some _ => Ok b
  | None =>
      match pb_listen sc with
      | Err e => Err ("start local inbox bridge: " +:+ e)
      | Ok port => match pb_connect sc with Some e => Err e | None => Ok (with_port port b) end
      end
  end.
Definition publishInboxOwner (sc : publish_script) (c : pluginConnection) (b : bridge) (files : owner_files)
    : option string * bridge * owner_files :=
  if negb (br_tools b) then (None, b, files) else
  match start_bridge sc b with
  | Err e => (Some e, b, files)
  | Ok b =>
      if negb (connectionHandle (pc_Handle c)) then (Some errHandle, b, files) else
      let ref := mkRef (pc_Worker c) (default 0 (br_port b)) (ID "" (pb_random sc)) in
      match pb_write sc with
      | Some e => (Some e, b, files)
      | None => (None, with_ref (pc_Handle c) ref b, <[pc_Handle c := Saved ref]> files)
      end
  end.

(** [getInbox]: [opened] is the outcome of opening the inbox, which takes its lock. A bridge
    that cannot be published leaves the inbox usable. *)
Definition getInbox (sc : publish_script) (opened : option string) (c : pluginConnection) (b : bridge) (files : owner_files)
    : option string * bridge * owner_files :=
  if br_stopped b then (Some "plugin is shutting down", b, files) else
  if bool_decide (pc_Handle c ∈ br_inboxes b) then (None, b, files) else
  if negb (connectionHandle (pc_Handle c)) then (Some errHandle, b, files) else
  match opened with
  | Some e => (Some e, b, files)
  | None =>
      match publishInboxOwner sc c (with_inbox (pc_Handle c) b) files with
      | (Some e, b, files) => (None, with_error (pc_Handle c) e b, files)
      | (None, b, files) => (None, b, files)
      end
  end.

(** The first part of [close]: the bridge ends and its files go, but for the [stuck] ones that
    cannot be removed; the locks are still held. *)
Definition remove_files (paths : list string) (files : owner_files) : owner_files := foldr delete files paths.
Definition close_bridge (stuck : list string) (b : bridge) (files : owner_files) : bridge * owner_files :=
  (with_stopped b, match br_port b with Some _ => remove_files (filter (fun h => h ∉ stuck) (br_paths b)) files | None => files end).

(** [addInboxBridgeReadiness]. *)
Definition addInboxBridgeReadiness (h : string) (b : bridge) : json :=
  JObj [("available", JBool (match br_port b, br_refs b !! h with
                             | Some _, Some r => negb (bool_decide (or_Secret r = "")) && negb (br_stopped b)
                             | _, _ => false end));
        ("error", JStr (if bool_decide (h ∈ br_inboxes b) then default "" (br_errors b !! h) else ""))].

(** ** Serving ([serveInboxOwner]) *)
Record http_request := mkHttp {
  hq_Method : string; hq_Path : string; hq_Origin : string; hq_Authorization : string;
  hq_Body : option tool_call }. (* [None]: too long, or no call *)
Inductive served := Refused (status : Z) (text : string) | Called (c : tool_call).

Definition serveInboxOwner (b : bridge) (r : http_request) : served :=
  if negb (bool_decide (hq_Method r = "POST")) || negb (bool_decide (hq_Path r = "/inbox")) || negb (bool_decide (hq_Origin r = ""))
  then Refused 403 "unsupported inbox request" else
  match hq_Body r with
  | None => Refused 400 "invalid inbox request"
  | Some c =>
      if negb (inboxOwnerTool (tl_Name c)) then Refused 400 "invalid inbox request" else
      let h := inboxOwnerHandle (tl_Arguments c) in
      let live := bool_decide (h ∈ br_inboxes b) && negb (br_stopped b) in
      match br_refs b !! h with
      | None => Refused 403 "inbox owner unavailable"
      | Some ref =>
          if negb live || negb (bool_decide (hq_Authorization r = "Bearer " +:+ or_Secret ref))
          then Refused 403 "inbox owner unavailable"
          else if or_ControllerOnly ref && negb (bool_decide (tl_Name c ∈ controller_tools))
          then Refused 403 "owned worker bridge only accepts controller decisions"
          else Called c
      end
  end.

(** ** Calling ([addInboxOwnerRouting], [forwardInboxOwner]) *)
Inductive routing := Next | ToolError (e : string) | Forward (r : inboxOwnerReference).
(** [unreadable]: the owner file is there but cannot be read. *)
Definition addInboxOwnerRouting (unreadable : bool) (b : bridge) (files : owner_files) (c : tool_call) : routing :=
  if negb (inboxOwnerTool (tl_Name c)) || bool_decide (br_host b = "codex-worker") then Next else
  let h := inboxOwnerHandle (tl_Arguments c) in
  if negb (connectionHandle h) then Next else
  if br_stopped b then ToolError "plugin is shutting down" else
  if bool_decide (h ∈ br_inboxes b) then Next else
  match files !! h with
  | None => Next
  | Some file =>
      if unreadable then ToolError "cannot read the parent's inbox bridge; stop without taking over" else
      match file with
      | Saved ref =>
          if (or_Port ref <? 1) || (65535 <? or_Port ref) || negb (len (or_Secret ref) =? 32)
          then ToolError "invalid parent inbox bridge; stop without taking over" else Forward ref
      | Garbled => ToolError "invalid parent inbox bridge; stop without taking over"
      end
  end.

(** The request that is sent to the port of the reference. *)
Definition forwardInboxOwner (ref : inboxOwnerReference) (c : tool_call) : http_request :=
  mkHttp "POST" "/inbox" "" ("Bearer " +:+ or_Secret ref) (Some c).
Definition errBridgeGone : string :=
  "parent inbox bridge unavailable or cancelled; stop without retrying or taking over; retain any worker claim for recovery".
Definition errBridgeFailed : string :=
  "parent inbox bridge failed; stop without retrying or taking over; retain any worker claim for recovery".

(** ** The processes of a device *)
(** [wd_locks] has the process that holds the lock of each inbox (by handle), [wd_ports] the one
    that listens on a port, and [wd_drawn] the random bytes drawn so far. *)
Record world := mkWorld {
  wd_bridges : gmap Z bridge; wd_files : owner_files; wd_locks : gmap string Z; wd_ports : gmap Z Z; wd_drawn : gset string }.

(** Where a tool call of a process is executed. *)
Inductive call_end := Here | There (pid : Z) | Stopped (e : string).
Definition tool_called (w : world) (b : bridge) (unreadable : bool) (c : tool_call) : call_end :=
  match addInboxOwnerRouting unreadable b (wd_files w) c with
  | Next => Here
  | ToolError e => Stopped e
  | Forward ref =>
      match wd_ports w !! or_Port ref ≫= fun pid => b ← wd_bridges w !! pid; Some (pid, b) with
      | None => Stopped errBridgeGone
      | Some (pid, owner) =>
          match serveInboxOwner owner (forwardInboxOwner ref c) with
          | Called _ => There pid
          | Refused _ _ => Stopped errBridgeFailed
          end
      end
  end.

(** A port of the bridge, if it was started by this call, is new; locks are exclusive. *)
Definition listens (pid : Z) (before after : bridge) (ports : gmap Z Z) : gmap Z Z :=
  match br_port before, br_port after with
  | None, Some port => <[port := pid]> ports
  | _, _ => ports
  end.
Definition free_port (ports : gmap Z Z) (sc : publish_script) : Prop :=
  forall port, pb_listen sc = Ok port -> 1 <= port <= 65535 /\ ports !! port = None.
Definition fresh_secret (w : world) (sc : publish_script) : Prop :=
  len (pb_random sc) = 16 /\ pb_random sc ∉ wd_drawn w.

Inductive world_step : world -> world -> Prop :=
| Starts w pid host : wd_bridges w !! pid = None ->
    world_step w (mkWorld (<[pid := new_bridge host]> (wd_bridges w)) (wd_files w) (wd_locks w) (wd_ports w) (wd_drawn w))
| Serves w pid b : wd_bridges w !! pid = Some b ->
    world_step w (mkWorld (<[pid := with_tools b]> (wd_bridges w)) (wd_files w) (wd_locks w) (wd_ports w) (wd_drawn w))
| Opens w pid b c sc opened err b' files : wd_bridges w !! pid = Some b ->
    free_port (wd_ports w) sc -> fresh_secret w sc ->
    (opened = None -> wd_locks w !! pc_Handle c = None) ->
    getInbox sc opened c b (wd_files w) = (err, b', files) ->
    world_step w (mkWorld (<[pid := b']> (wd_bridges w)) files
      (if bool_decide (pc_Handle c ∈ br_inboxes b' ∖ br_inboxes b) then <[pc_Handle c := pid]> (wd_locks w) else wd_locks w)
      (listens pid b b' (wd_ports w)) ({[pb_random sc]} ∪ wd_drawn w))
| Publishes w pid b c sc err b' files : wd_bridges w !! pid = Some b -> br_stopped b = false ->
    pc_Handle c ∈ br_inboxes b -> free_port (wd_ports w) sc -> fresh_secret w sc ->
    publishInboxOwner sc c b (wd_files w) = (err, b', files) ->
    world_step w (mkWorld (<[pid := b']> (wd_bridges w)) files (wd_locks w) (listens pid b b' (wd_ports w)) ({[pb_random sc]} ∪ wd_drawn w))
| Closes w pid b stuck : wd_bridges w !! pid = Some b -> br_stopped b = false ->
    world_step w (mkWorld (<[pid := (close_bridge stuck b (wd_files w)).1]> (wd_bridges w)) (close_bridge stuck b (wd_files w)).2
      (wd_locks w) (filter (fun kv => kv.2 <> pid) (wd_ports w)) (wd_drawn w))
| Ends w pid : (* it exits or crashes, which frees its locks and ports; its files stay *)
    world_step w (mkWorld (delete pid (wd_bridges w)) (wd_files w)
      (filter (fun kv => kv.2 <> pid) (wd_locks w)) (filter (fun kv => kv.2 <> pid) (wd_ports w)) (wd_drawn w)).
Definition no_world : world := mkWorld ∅ ∅ ∅ ∅ ∅.
