(* ===== verification/BridgeTheorems.v ===== *)
(** * The inbox bridge: properties

    In every reachable state of the device's processes the owner files of the live bridges are
    theirs, so that a call finds the process that holds the inbox, and no other executes it. *)
From S2P Require Import Prelude GoStrings Json Types Broker Bridge.

(** What one process keeps, given the locks, the ports and the files. *)
Record keeps_inboxes (w : world) (pid : Z) (b : bridge) : Prop := {
  ki_locks : forall h, h ∈ br_inboxes b -> wd_locks w !! h = Some pid;
  ki_port : forall port, br_port b = Some port -> 1 <= port <= 65535 /\ (br_stopped b = false -> wd_ports w !! port = Some pid);
  ki_refs : forall h r, br_refs b !! h = Some r -> h ∈ br_inboxes b /\ br_port b = Some (or_Port r) /\
    len (or_Secret r) = 32 /\ connectionHandle h = true /\ (br_stopped b = false -> wd_files w !! h = Some (Saved r));
  ki_paths : forall h, h ∈ br_paths b -> h ∈ br_inboxes b }.
Definition orderly (w : world) : Prop := map_Forall (keeps_inboxes w) (wd_bridges w).

(** Another process is not disturbed as long as its locks, ports and files stay. *)
Lemma keeps_inboxes_frame w w' pid b : keeps_inboxes w pid b ->
  (forall h, wd_locks w !! h = Some pid -> wd_locks w' !! h = Some pid) ->
  (forall port, wd_ports w !! port = Some pid -> wd_ports w' !! port = Some pid) ->
  (forall h, h ∈ br_inboxes b -> br_stopped b = false -> wd_files w' !! h = wd_files w !! h) ->
  keeps_inboxes w' pid b.
Proof.
  intros [Hl Hp Hr Hpa] Hlocks Hports Hfiles. split; [eauto| | |done].
  - intros port E. destruct (Hp port E). eauto.
  - intros h r E. destruct (Hr h r E) as (Hi & ? & ? & ? & Hf). split_and!; [done..|]. intros Hs. rewrite Hfiles by done. by apply Hf.
Qed.

Lemma len_secret random : len random = 16 -> len (ID "" random) = 32.
Proof. intros E. unfold ID. rewrite len_app, len_hex, E. done. Qed.

(** Publishing: the process has the reference it wrote. *)
Lemma publish_keeps w pid b c sc err b' files drawn : keeps_inboxes w pid b -> br_stopped b = false -> pc_Handle c ∈ br_inboxes b ->
  free_port (wd_ports w) sc -> len (pb_random sc) = 16 -> publishInboxOwner sc c b (wd_files w) = (err, b', files) ->
  keeps_inboxes (mkWorld (wd_bridges w) files (wd_locks w) (listens pid b b' (wd_ports w)) drawn) pid b' /\
  (forall h, h <> pc_Handle c -> files !! h = wd_files w !! h) /\ br_inboxes b' = br_inboxes b /\ br_stopped b' = false /\
  (forall port q, wd_ports w !! port = Some q -> listens pid b b' (wd_ports w) !! port = Some q).
Proof.
  intros Hk Hs Hi Hfree Hlen E. unfold publishInboxOwner in E.
  assert (forall b1, start_bridge sc b = Ok b1 -> keeps_inboxes (mkWorld (wd_bridges w) (wd_files w) (wd_locks w) (listens pid b b1 (wd_ports w)) drawn) pid b1 /\
    br_inboxes b1 = br_inboxes b /\ br_stopped b1 = false /\ br_refs b1 = br_refs b /\ br_paths b1 = br_paths b /\ is_Some (br_port b1) /\
    (forall port q, wd_ports w !! port = Some q -> listens pid b b1 (wd_ports w) !! port = Some q)) as Hstart.
  { unfold start_bridge, listens. intros b1 E1. destruct (br_port b) as [p|] eqn:Ep.
    - injection E1 as <-. rewrite Ep. split_and!; [|done..|eauto|done]. by apply (keeps_inboxes_frame w).
    - destruct (pb_listen sc) as [port|] eqn:El; [|done]. destruct (pb_connect sc); [done|]. injection E1 as <-. simpl.
      destruct (Hfree port El) as [Hr Hn]. split_and!; [|done..|eauto|].
      + destruct Hk as [Hl Hp Hrf Hpa]. split; simpl; [done| | |done].
        * intros p [= <-]. split; [done|]. intros _. apply lookup_insert_eq.
        * intros h r Eh. destruct (Hrf h r Eh) as (_ & E' & _). congruence.
      + intros p q Eq. rewrite lookup_insert_ne; [done|]. congruence. }
  assert (keeps_inboxes (mkWorld (wd_bridges w) (wd_files w) (wd_locks w) (listens pid b b (wd_ports w)) drawn) pid b) as Hk0.
  { apply (keeps_inboxes_frame w); [done|done| |done]. intros port. simpl. unfold listens. by destruct (br_port b). }
  assert (forall port q, wd_ports w !! port = Some q -> listens pid b b (wd_ports w) !! port = Some q) as Hsame
    by (unfold listens; by destruct (br_port b)).
  destruct (br_tools b); simpl in E; [|by injection E as <- <- <-].
  destruct (start_bridge sc b) as [b1|] eqn:E1; [|by injection E as <- <- <-].
  destruct (Hstart b1 eq_refl) as (Hk1 & Hi1 & Hs1 & Hrefs & Hpaths & [port Hport] & Hsame1).
  destruct (connectionHandle (pc_Handle c)) eqn:Eh; simpl in E; [|by injection E as <- <- <-].
  destruct (pb_write sc); [by injection E as <- <- <-|]. injection E as <- <- <-.
  destruct Hk1 as [Hl Hp Hrf Hpa]. split_and!; [|intros h Hne; by rewrite lookup_insert_ne|done..].
  split; simpl; [done|done| |].
  - intros h r. destruct (decide (pc_Handle c = h)) as [<-|Hne].
    + rewrite !lookup_insert_eq. intros [= <-]. rewrite Hport. simpl. split_and!; [by rewrite Hi1|done|by apply len_secret|done|done].
    + rewrite !lookup_insert_ne by done. apply Hrf.
  - intros h [Hh| ->%list_elem_of_singleton]%elem_of_app; [by apply Hpa|by rewrite Hi1].
Qed.

Lemma removed_other paths files h : h ∉ paths -> remove_files paths files !! h = files !! h.
Proof.
  induction paths as [|p paths IH]; [done|]. intros [Hp Hn]%not_elem_of_cons. simpl. rewrite lookup_delete_ne by done. by apply IH.
Qed.

(** Another process's inboxes are none of this one's. *)
Lemma apart w p q b c h : p <> q -> keeps_inboxes w p b -> keeps_inboxes w q c -> h ∈ br_inboxes b -> h ∈ br_inboxes c -> False.
Proof. intros Hne Hb Hc H1%(ki_locks _ _ _ Hb) H2%(ki_locks _ _ _ Hc). congruence. Qed.

(** One process changes. *)
Lemma orderly_update w w' pid b' : orderly w -> wd_bridges w' = <[pid := b']> (wd_bridges w) -> keeps_inboxes w' pid b' ->
  (forall q c, q <> pid -> keeps_inboxes w q c -> keeps_inboxes w' q c) -> orderly w'.
Proof.
  intros Ho E Hb Hq. unfold orderly. rewrite E. intros q c [[<- <-]|[Hne Hc]]%lookup_insert_Some; [done|]. apply Hq; [done|]. by apply Ho.
Qed.

(** What the owner of an inbox writes touches no other process. *)
Lemma others_kept w pid b h files ports locks drawn bridges : keeps_inboxes w pid b -> h ∈ br_inboxes b ->
  (forall h', h' <> h -> files !! h' = wd_files w !! h') -> (forall h' q, q <> pid -> wd_locks w !! h' = Some q -> locks !! h' = Some q) ->
  (forall port q, wd_ports w !! port = Some q -> ports !! port = Some q) ->
  forall q c, q <> pid -> keeps_inboxes w q c -> keeps_inboxes (mkWorld bridges files locks ports drawn) q c.
Proof.
  intros Hb Hi Hf Hl Hp q c Hne Hc. apply (keeps_inboxes_frame w); simpl; [done|by intros h'; apply Hl|by intros p; apply Hp|].
  intros h' Hh' _. apply Hf. intros ->. by apply (apart w q pid c b h).
Qed.

Lemma open_orderly w pid b c sc opened err b' files : orderly w -> wd_bridges w !! pid = Some b ->
  free_port (wd_ports w) sc -> len (pb_random sc) = 16 -> (opened = None -> wd_locks w !! pc_Handle c = None) ->
  getInbox sc opened c b (wd_files w) = (err, b', files) ->
  orderly (mkWorld (<[pid := b']> (wd_bridges w)) files
      (if bool_decide (pc_Handle c ∈ br_inboxes b' ∖ br_inboxes b) then <[pc_Handle c := pid]> (wd_locks w) else wd_locks w)
      (listens pid b b' (wd_ports w)) ({[pb_random sc]} ∪ wd_drawn w)).
Proof.
  intros Ho Hb Hfree Hlen Hlock E. assert (Hk := Ho pid b Hb). unfold getInbox in E.
  assert (b' = b -> files = wd_files w -> orderly (mkWorld (<[pid := b']> (wd_bridges w)) files
      (if bool_decide (pc_Handle c ∈ br_inboxes b' ∖ br_inboxes b) then <[pc_Handle c := pid]> (wd_locks w) else wd_locks w)
      (listens pid b b' (wd_ports w)) ({[pb_random sc]} ∪ wd_drawn w))) as Hsame.
  { intros -> ->. rewrite bool_decide_eq_false_2 by set_solver.
    assert (forall q d, keeps_inboxes w q d -> keeps_inboxes (mkWorld (<[pid := b]> (wd_bridges w)) (wd_files w) (wd_locks w)
      (listens pid b b (wd_ports w)) ({[pb_random sc]} ∪ wd_drawn w)) q d) as Hall.
    { intros q d Hd. apply (keeps_inboxes_frame w); [done|done| |done]. intros port. unfold listens. simpl. by destruct (br_port b). }
    eapply orderly_update; [exact Ho|done|by apply Hall|]. intros q d _. apply Hall. }
  destruct (br_stopped b) eqn:Hst; cbn [negb] in E; [injection E as <- <- <-; by apply Hsame|].
  destruct (decide (pc_Handle c ∈ br_inboxes b)) as [Hin|Hin];
    [rewrite (bool_decide_eq_true_2 _ Hin) in E; injection E as <- <- <-; by apply Hsame|rewrite (bool_decide_eq_false_2 _ Hin) in E].
  destruct (connectionHandle (pc_Handle c)) eqn:Hh; simpl in E; [|injection E as <- <- <-; by apply Hsame].
  destruct opened; [injection E as <- <- <-; by apply Hsame|]. clear Hsame. specialize (Hlock eq_refl).
  destruct (publishInboxOwner _ _ _ _) as [[perr b1] files1] eqn:Ep.
  set (w1 := mkWorld (wd_bridges w) (wd_files w) (<[pc_Handle c := pid]> (wd_locks w)) (wd_ports w) (wd_drawn w)).
  assert (keeps_inboxes w1 pid (with_inbox (pc_Handle c) b)) as Hk1.
  { destruct Hk as [Hl Hp Hr Hpa]. split; simpl; [|done| |set_solver].
    - intros h [->%elem_of_singleton|Hx]%elem_of_union; [apply lookup_insert_eq|].
      rewrite lookup_insert_ne; [by apply Hl|]. intros <-. done.
    - intros h r Er. destruct (Hr h r Er) as (? & ? & ? & ? & ?). split_and!; [set_solver|done..]. }
  destruct (publish_keeps w1 pid _ c sc perr b1 files1 ({[pb_random sc]} ∪ wd_drawn w) Hk1 Hst ltac:(set_solver) Hfree Hlen Ep)
    as (Hk' & Hfiles & Hib & Hst' & Hports).
  assert (files = files1 /\ br_inboxes b' = br_inboxes b1 /\ br_port b' = br_port b1 /\ forall w', keeps_inboxes w' pid b1 -> keeps_inboxes w' pid b')
    as (-> & Hib' & Hport & Hk'').
  { destruct perr; injection E as <- <- <-; split_and!; try done. intros w' [? ? ? ?]. by split. }
  assert (listens pid b b' (wd_ports w) = listens pid (with_inbox (pc_Handle c) b) b1 (wd_ports w)) as Hlis
    by (unfold listens; simpl; by rewrite Hport).
  rewrite bool_decide_eq_true_2 by (rewrite Hib', Hib; simpl; set_solver). rewrite Hlis.
  eapply orderly_update; [exact Ho|done| |].
  - apply Hk''. by eapply keeps_inboxes_frame; [exact Hk'|..].
  - intros q d Hne Hd. apply (others_kept w1 pid (with_inbox (pc_Handle c) b) (pc_Handle c)); try done; [simpl; set_solver|].
    apply (keeps_inboxes_frame w); [done|simpl; intros h Eh|done|done].
    rewrite lookup_insert_ne; [done|]. intros <-. congruence.
Qed.

Lemma step_orderly w w' : orderly w -> world_step w w' -> orderly w'.
Proof.
  intros Ho Hs. destruct Hs as
    [w pid host Hnew|w pid b Hb|w pid b c sc opened err b' files Hb Hfree [Hlen _] Hlock E|w pid b c sc err b' files Hb Hs Hi Hfree [Hlen _] E
    |w pid b stuck Hb Hs|w pid].
  - eapply orderly_update; [exact Ho|done|by split; simpl; set_solver|]. intros q c _ Hc. by apply (keeps_inboxes_frame w).
  - eapply orderly_update; [exact Ho|done| |intros q c _ Hc; by apply (keeps_inboxes_frame w)].
    destruct (Ho pid b Hb) as [Hl Hp Hr Hpa]. by split.
  - by eapply open_orderly.
  - destruct (publish_keeps w pid b c sc err b' files ({[pb_random sc]} ∪ wd_drawn w) (Ho pid b Hb) Hs Hi Hfree Hlen E)
      as (Hk' & Hfiles & _ & _ & Hports).
    eapply orderly_update; [exact Ho|done|by eapply keeps_inboxes_frame; [exact Hk'|..]|].
    by apply (others_kept w pid b (pc_Handle c)); [apply Ho|..].
  - assert (Hk := Ho pid b Hb). eapply orderly_update; [exact Ho|done| |].
    + destruct Hk as [Hl Hp Hr Hpa]. split; simpl; [done| | |done].
      * intros port E. by destruct (Hp port E).
      * intros h r E. destruct (Hr h r E) as (? & ? & ? & ? & ?). done.
    + intros q c Hne Hc. apply (keeps_inboxes_frame w); simpl; [done|done| |].
      * intros port E. by apply map_lookup_filter_Some.
      * intros h Hh _. destruct (br_port b); [|done]. apply removed_other. intros [_ Hp]%list_elem_of_filter.
        apply (apart w q pid c b h); [done..|]. by apply (ki_paths _ _ _ Hk).
  - intros q c Hc. simpl in Hc. apply lookup_delete_Some in Hc as [Hne Hc]. apply (keeps_inboxes_frame w); simpl; [by apply Ho| | |done].
    all: intros x E; by apply map_lookup_filter_Some.
Qed.

Lemma reachable_orderly w : rtc world_step no_world w -> orderly w.
Proof. intros Hr. refine (rtc_ind_r orderly no_world _ _ w Hr); [apply map_Forall_empty|]. intros x y _ Hs Hx. by eapply step_orderly. Qed.

(** ** Secrets *)
(** Every secret was drawn once, for one connection in one process. *)
Definition secrets_drawn (w : world) : Prop :=
  forall pid b h r, wd_bridges w !! pid = Some b -> br_refs b !! h = Some r -> exists s, s ∈ wd_drawn w /\ or_Secret r = ID "" s.
Definition secrets_apart (w : world) : Prop :=
  forall pid b h r pid' b' h' r', wd_bridges w !! pid = Some b -> br_refs b !! h = Some r ->
    wd_bridges w !! pid' = Some b' -> br_refs b' !! h' = Some r' -> or_Secret r = or_Secret r' -> pid = pid' /\ h = h'.

(** The references of a process are old ones or one with the new secret. *)
Definition refs_grow (random : string) (b b' : bridge) : Prop :=
  br_refs b' = br_refs b \/ exists h r, br_refs b' = <[h := r]> (br_refs b) /\ or_Secret r = ID "" random.
Lemma publish_refs sc c b files err b' files' : publishInboxOwner sc c b files = (err, b', files') -> refs_grow (pb_random sc) b b'.
Proof.
  unfold publishInboxOwner. destruct (br_tools b); simpl; [|by intros [= <- <- <-]; left].
  destruct (start_bridge sc b) as [b1|] eqn:E1; [|by intros [= <- <- <-]; left].
  assert (br_refs b1 = br_refs b) as Er.
  { revert E1. unfold start_bridge. destruct (br_port b); [by intros [= <-]|]. destruct (pb_listen sc); [|done].
    destruct (pb_connect sc); [done|]. by intros [= <-]. }
  destruct (connectionHandle _); simpl; [|by intros [= <- <- <-]; left]. destruct (pb_write sc); intros [= <- <- <-]; [by left|].
  right. eexists _, _. simpl. rewrite Er. done.
Qed.
Lemma open_refs sc opened c b files err b' files' : getInbox sc opened c b files = (err, b', files') -> refs_grow (pb_random sc) b b'.
Proof.
  unfold getInbox. destruct (br_stopped b); [by intros [= <- <- <-]; left|]. case_bool_decide; [by intros [= <- <- <-]; left|].
  destruct (connectionHandle _); simpl; [|by intros [= <- <- <-]; left]. destruct opened; [by intros [= <- <- <-]; left|].
  destruct (publishInboxOwner _ _ _ _) as [[perr b1] files1] eqn:Ep. apply publish_refs in Ep.
  by destruct perr; intros [= <- <- <-].
Qed.

Definition private (w : world) : Prop := secrets_drawn w /\ secrets_apart w.
Lemma refs_grow_private w pid b b' random files locks ports : private w -> wd_bridges w !! pid = Some b ->
  random ∉ wd_drawn w -> refs_grow random b b' ->
  private (mkWorld (<[pid := b']> (wd_bridges w)) files locks ports ({[random]} ∪ wd_drawn w)).
Proof.
  intros [Hd Ha] Hb Hf Hg.
  assert (forall q d h r, <[pid := b']> (wd_bridges w) !! q = Some d -> br_refs d !! h = Some r ->
    (exists d0, wd_bridges w !! q = Some d0 /\ br_refs d0 !! h = Some r) \/ q = pid /\ br_refs b' = <[h := r]> (br_refs b) /\ or_Secret r = ID "" random) as Hold.
  { intros q d h r [[<- <-]|[Hne Hq]]%lookup_insert_Some Hr; [|eauto]. destruct Hg as [E|(h0 & r0 & E & Er)]; [left; rewrite E in Hr; eauto|].
    rewrite E in Hr. apply lookup_insert_Some in Hr as [[<- <-]|[Hne Hr]]; [by right|left; eauto]. }
  assert (forall q d h r, wd_bridges w !! q = Some d -> br_refs d !! h = Some r -> or_Secret r <> ID "" random) as Hnew.
  { intros q d h r Hq Hr E. destruct (Hd q d h r Hq Hr) as (s & Hs & E'). rewrite E in E'. apply (inj (ID "")) in E'. congruence. }
  split.
  - intros q d h r Hq Hr. simpl in *. destruct (Hold q d h r Hq Hr) as [(d0 & Hq0 & Hr0)|(_ & _ & E)].
    + destruct (Hd q d0 h r Hq0 Hr0) as (s & Hs & E). exists s. split; [set_solver|done].
    + exists random. split; [set_solver|done].
  - intros q d h r q' d' h' r' Hq Hr Hq' Hr' E. simpl in *.
    destruct (Hold q d h r Hq Hr) as [(d0 & Hq0 & Hr0)|(-> & E1 & Es)], (Hold q' d' h' r' Hq' Hr') as [(d0' & Hq0' & Hr0')|(-> & E1' & Es')].
    + by apply (Ha q d0 h r q' d0' h' r').
    + exfalso. apply (Hnew q d0 h r Hq0 Hr0). congruence.
    + exfalso. apply (Hnew q' d0' h' r' Hq0' Hr0'). congruence.
    + split; [done|]. destruct (decide (h = h')); [done|]. exfalso. rewrite E1 in E1'.
      apply (f_equal (lookup h')) in E1'. rewrite lookup_insert_eq, lookup_insert_ne in E1' by done.
      by apply (Hnew pid b h' r' Hb E1').
Qed.
Lemma refs_same_private w w' : private w -> wd_drawn w' = wd_drawn w ->
  (forall q d, wd_bridges w' !! q = Some d -> br_refs d = ∅ \/ exists d0, wd_bridges w !! q = Some d0 /\ br_refs d = br_refs d0) -> private w'.
Proof.
  intros [Hd Ha] Edr Hq. split.
  - intros q d h r H1 H2. rewrite Edr. destruct (Hq q d H1) as [E|(d0 & H1' & E)]; rewrite E in H2; [by rewrite lookup_empty in H2|eauto].
  - intros q d h r q' d' h' r' H1 H2 H1' H2' E. destruct (Hq q d H1) as [E0|(d0 & H3 & E0)]; rewrite E0 in H2; [by rewrite lookup_empty in H2|].
    destruct (Hq q' d' H1') as [E0'|(d0' & H3' & E0')]; rewrite E0' in H2'; [by rewrite lookup_empty in H2'|]. by apply (Ha q d0 h r q' d0' h' r').
Qed.

Lemma step_private w w' : private w -> world_step w w' -> private w'.
Proof.
  intros Hp Hs. destruct Hs as
    [w pid host Hnew|w pid b Hb|w pid b c sc opened err b' files Hb Hfree [_ Hf] Hlock E|w pid b c sc err b' files Hb Hs Hi Hfree [_ Hf] E
    |w pid b stuck Hb Hs|w pid].
  3: { apply open_refs in E. by apply (refs_grow_private w pid b). }
  3: { apply publish_refs in E. by apply (refs_grow_private w pid b). }
  all: apply (refs_same_private w); [done|done|]; simpl; intros q d.
  4: { intros [_ Hq]%lookup_delete_Some. right. eauto. }
  all: intros [[<- <-]|[_ Hq]]%lookup_insert_Some; [|right; by eauto]; simpl; first [by left|right; by eauto].
Qed.
Lemma reachable_private w : rtc world_step no_world w -> private w.
Proof.
  intros Hr. refine (rtc_ind_r private no_world _ _ w Hr); [|intros x y _ Hs Hx; by eapply step_private].
  split; intros pid b; simpl; by rewrite lookup_empty.
Qed.

(** ** The properties *)
(** C20. The bridge serves nobody without the capability. Whatever request reaches a process - from
    another process of the plugin, a browser or any other program - it runs a tool only if
    the process holds the lock of that connection's inbox and is not shutting down, the
    request is a plain POST without a browser's origin that carries the secret this process
    published for this connection, which no reference of another connection or process has,
    and the tool is an inbox tool - one of the four of the controller, for an owned worker. *)
Theorem bridge_needs_capability w pid b request c :
  rtc world_step no_world w -> wd_bridges w !! pid = Some b -> serveInboxOwner b request = Called c ->
  let h := inboxOwnerHandle (tl_Arguments c) in
  wd_locks w !! h = Some pid /\ br_stopped b = false /\
  hq_Method request = "POST" /\ hq_Origin request = "" /\ hq_Body request = Some c /\ tl_Name c ∈ inbox_tools /\
  exists r, br_refs b !! h = Some r /\ hq_Authorization request = "Bearer " +:+ or_Secret r /\
    (or_ControllerOnly r = true -> tl_Name c ∈ controller_tools) /\
    forall pid' b' h' r', wd_bridges w !! pid' = Some b' -> br_refs b' !! h' = Some r' -> or_Secret r' = or_Secret r -> pid' = pid /\ h' = h.
Proof.
  intros Hr Hb. pose proof (reachable_orderly w Hr pid b Hb) as Hk. destruct (reachable_private w Hr) as [_ Ha].
  unfold serveInboxOwner. test E; [done|]. destruct (hq_Body request) as [c'|] eqn:Eb; [|done]. unfold inboxOwnerTool.
  test Et; [done|]. destruct (br_refs b !! _) as [r|] eqn:Er; [|done]. test El; [done|]. test Ec; [done|]. intros [= ->]. cbv zeta.
  bool_simpl. apply (ki_refs _ _ _ Hk) in Er as Hri. destruct Hri as (Hi & _). split_and!; [by apply (ki_locks _ _ _ Hk)|done..|].
  exists r. split_and!; [done|done| |].
  - intros Hc. rewrite Hc in Ec. by destruct Ec as [|?%negb_false_iff%bool_decide_eq_true].
  - intros pid' b' h' r' Hb' Hr' Es. by apply (Ha pid' b' h' r' pid b _ r).
Qed.

(** A call finds the owner of the inbox. While a process that is not shutting down has the
    bridge of a connection published, an inbox tool that any other process of the plugin is
    asked to run on the connection is run by that process - or refused there, for what an
    owned worker's bridge does not allow - after any history of processes that started,
    opened, published, shut down with files left behind, crashed and had their ports reused. *)
Theorem bridge_finds_owner w pid b owner o r c :
  rtc world_step no_world w -> wd_bridges w !! pid = Some b -> wd_bridges w !! owner = Some o ->
  inboxOwnerTool (tl_Name c) = true -> br_host b <> "codex-worker" -> br_stopped b = false ->
  br_stopped o = false -> br_refs o !! inboxOwnerHandle (tl_Arguments c) = Some r -> pid <> owner ->
  tool_called w b false c =
    if or_ControllerOnly r && bool_decide (tl_Name c ∉ controller_tools) then Stopped errBridgeFailed else There owner.
Proof.
  intros Hr Hb Ho Ht Hh Hsb Hso Href Hne. pose proof (reachable_orderly w Hr) as Hw.
  assert (Hkb := Hw pid b Hb). assert (Hko := Hw owner o Ho).
  destruct (ki_refs _ _ _ Hko _ _ Href) as (Hi & Hport & Hlen & Hc & Hf). specialize (Hf Hso).
  destruct (ki_port _ _ _ Hko _ Hport) as [Hrange Hp]. specialize (Hp Hso).
  unfold tool_called, addInboxOwnerRouting. rewrite Ht, (bool_decide_eq_false_2 _ Hh), Hc, Hsb. cbn [negb orb].
  rewrite bool_decide_eq_false_2 by (intros Hi'; by apply (apart w pid owner b o (inboxOwnerHandle (tl_Arguments c)))).
  rewrite Hf, Hlen, (proj2 (Z.ltb_ge _ _)), (proj2 (Z.ltb_ge _ _)) by lia. cbn [negb orb Z.eqb Pos.eqb].
  rewrite Hp. cbn [mbind option_bind]. rewrite Ho. cbn [mbind option_bind].
  unfold serveInboxOwner, forwardInboxOwner. simpl. rewrite Ht, Href, Hso, !bool_decide_eq_true_2 by done. cbn [negb orb andb].
  rewrite bool_decide_not. by destruct (or_ControllerOnly r && _).
Qed.

(** ** The theorems at concrete inputs *)
(** A first process opens an inbox and crashes; a second one opens it and gets the first one's
    port; a third has only read the vault. *)
Definition crashed_secret : string := "0123456789abcdef".
Definition live_secret : string := "fedcba9876543210".
Definition bridged : pluginConnection := zero_plugin (ID "conn_" "0123456789abcdef") (server_config "https://tincan.example" "token").
Definition publishing (random : string) : publish_script := mkPublish (Ok 4242) None random None.
Definition start_at (pid : Z) (w : world) : world :=
  mkWorld (<[pid := new_bridge "claude"]> (wd_bridges w)) (wd_files w) (wd_locks w) (wd_ports w) (wd_drawn w).
Definition serve_at (pid : Z) (w : world) : world :=
  mkWorld (<[pid := with_tools (new_bridge "claude")]> (wd_bridges w)) (wd_files w) (wd_locks w) (wd_ports w) (wd_drawn w).
Definition opened (sc : publish_script) (w : world) : option string * bridge * owner_files :=
  getInbox sc None bridged (with_tools (new_bridge "claude")) (wd_files w).
Definition open_at (pid : Z) (random : string) (w : world) : world :=
  mkWorld (<[pid := (opened (publishing random) w).1.2]> (wd_bridges w)) (opened (publishing random) w).2
    (if bool_decide (pc_Handle bridged ∈ br_inboxes (opened (publishing random) w).1.2 ∖ br_inboxes (with_tools (new_bridge "claude")))
     then <[pc_Handle bridged := pid]> (wd_locks w) else wd_locks w)
    (listens pid (with_tools (new_bridge "claude")) (opened (publishing random) w).1.2 (wd_ports w)) ({[random]} ∪ wd_drawn w).
Definition end_at (pid : Z) (w : world) : world :=
  mkWorld (delete pid (wd_bridges w)) (wd_files w)
    (filter (fun kv => kv.2 <> pid) (wd_locks w)) (filter (fun kv => kv.2 <> pid) (wd_ports w)) (wd_drawn w).

Lemma start_step pid w : wd_bridges w !! pid = None -> world_step w (start_at pid w).
Proof. intros E. by apply (Starts w pid "claude"). Qed.
Lemma serve_step pid w : wd_bridges w !! pid = Some (new_bridge "claude") -> world_step w (serve_at pid w).
Proof. intros E. exact (Serves w pid (new_bridge "claude") E). Qed.
Lemma open_step pid random w : wd_bridges w !! pid = Some (with_tools (new_bridge "claude")) ->
  wd_ports w !! 4242 = None -> len random = 16 -> random ∉ wd_drawn w -> wd_locks w !! pc_Handle bridged = None -> world_step w (open_at pid random w).
Proof.
  intros E Hp Hl Hd Hk. eapply (Opens w pid (with_tools (new_bridge "claude")) bridged (publishing random) None (opened (publishing random) w).1.1); [exact E| |by split|done|].
  - intros port [= <-]. by split.
  - unfold opened. by destruct (getInbox _ _ _ _ _) as [[]].
Qed.

Definition first_life : world := open_at 1 crashed_secret (serve_at 1 (start_at 1 no_world)).
Definition second_life : world := serve_at 2 (start_at 2 (end_at 1 first_life)).
Definition device : world := start_at 3 (open_at 2 live_secret second_life).
Definition serving : bridge := (opened (publishing live_secret) second_life).1.2.

Lemma second_life_frees : wd_ports second_life !! 4242 = None /\ wd_locks second_life !! pc_Handle bridged = None.
Proof. split; vm_compute; reflexivity. Qed.
Lemma device_reached : rtc world_step no_world device.
Proof.
  eapply rtc_l; [by apply (start_step 1)|]. eapply rtc_l; [by apply (serve_step 1)|].
  eapply rtc_l; [apply (open_step 1 crashed_secret); [done|done|done|set_solver|done]|].
  eapply rtc_l; [exact (Ends first_life 1)|]. fold (end_at 1 first_life).
  eapply rtc_l; [apply (start_step 2); vm_compute; reflexivity|]. eapply rtc_l; [apply (serve_step 2); vm_compute; reflexivity|]. fold second_life.
  eapply rtc_l; [apply (open_step 2 live_secret); [done|apply second_life_frees|done| |apply second_life_frees]|].
  - apply not_elem_of_union. split; [|vm_compute; intros E; inversion E]. rewrite elem_of_singleton. discriminate.
  - apply rtc_once, start_step. vm_compute. reflexivity.
Qed.

Definition device_call (name : string) : tool_call := mkCall name (JObj [("connection", JStr (pc_Handle bridged))]).
Definition capability : inboxOwnerReference := mkRef false 4242 (ID "" live_secret).
Example device_calls :
  tool_called device (new_bridge "claude") false (device_call "inbox_claim") = There 2 /\
  tool_called second_life (new_bridge "claude") false (device_call "inbox_claim") = Stopped errBridgeGone.
Proof. split; vm_compute; reflexivity. Qed.
Lemma device_serving : wd_bridges device !! 2 = Some serving.
Proof. vm_compute. reflexivity. Qed.
Lemma device_third : wd_bridges device !! 3 = Some (new_bridge "claude").
Proof. vm_compute. reflexivity. Qed.
Lemma serving_live : br_stopped serving = false.
Proof. vm_compute. reflexivity. Qed.
Lemma serving_ref : br_refs serving !! inboxOwnerHandle (tl_Arguments (device_call "inbox_claim")) = Some capability.
Proof. vm_compute. reflexivity. Qed.
Lemma serving_answers : serveInboxOwner serving (forwardInboxOwner capability (device_call "inbox_claim")) = Called (device_call "inbox_claim").
Proof. vm_compute. reflexivity. Qed.

Lemma bridge_finds_owner_witness : tool_called device (new_bridge "claude") false (device_call "inbox_claim") =
  if or_ControllerOnly capability && bool_decide (tl_Name (device_call "inbox_claim") ∉ controller_tools) then Stopped errBridgeFailed else There 2.
Proof.
  exact (bridge_finds_owner device 3 (new_bridge "claude") 2 serving capability (device_call "inbox_claim") device_reached device_third
    device_serving eq_refl ltac:(discriminate) eq_refl serving_live serving_ref ltac:(discriminate)).
Defined.

Lemma bridge_needs_capability_witness :
  let h := inboxOwnerHandle (tl_Arguments (device_call "inbox_claim")) in
  let request := forwardInboxOwner capability (device_call "inbox_claim") in
  wd_locks device !! h = Some 2 /\ br_stopped serving = false /\
  hq_Method request = "POST" /\ hq_Origin request = "" /\ hq_Body request = Some (device_call "inbox_claim") /\
  tl_Name (device_call "inbox_claim") ∈ inbox_tools /\
  exists r, br_refs serving !! h = Some r /\ hq_Authorization request = "Bearer " +:+ or_Secret r /\
    (or_ControllerOnly r = true -> tl_Name (device_call "inbox_claim") ∈ controller_tools) /\
    forall pid' b' h' r', wd_bridges device !! pid' = Some b' -> br_refs b' !! h' = Some r' -> or_Secret r' = or_Secret r -> pid' = 2 /\ h' = h.
Proof.
  exact (bridge_needs_capability device 2 serving (forwardInboxOwner capability (device_call "inbox_claim")) (device_call "inbox_claim")
    device_reached device_serving serving_answers).
Defined.
