(* ===== verification/Target.v ===== *)
(** * The runtime of a Codex task

    [cmd/tincan/codex_target.go]: where the control connection goes, and which credential goes
    with it. The launch configuration is the environment and the command lines of the
    ancestors of the process; reading them, URLs beyond what [net/url] parses, lower case
    beyond ASCII and joining paths are parameters. *)
From S2P Require Import Prelude GoStrings Json Types Metadata Protocol Broker.

Section Target.
(** [net/url] and [net]: parsing, the port, the text of a URL whose host was replaced, and
    whether a host is a loopback address. *)
Context (url_parse : string -> option url) (Port : url -> string) (url_text : url -> string) (loopback_ip : string -> bool).
Context (ToLower : string -> string) (join : string -> string -> string).

Definition unix_prefix : string := "unix://".
Definition defaultCodexTarget : codexTarget := mkTarget unix_prefix "" "" "default_socket".

(** ** Validation *)
Definition envName (s : string) : bool :=
  match bytes s with
  | a :: r => (byte_in 65 90 a || byte_in 97 122 a || (code a =? 95)) && forallb (fun a => alnum a || (code a =? 95)) r
  | [] => false
  end.
Definition socket_chars : string := of_bytes [ascii_of_nat 0; ascii_of_nat 13; ascii_of_nat 10; "?"%char; "#"%char].

Definition validateCodexTarget (t : codexTarget) : option string :=
  if negb (bool_decide (tg_TokenEnv t = "")) && negb (envName (tg_TokenEnv t))
  then Some "Codex auth reference must be an environment variable name, never a token"
  else if negb (bool_decide (tg_TokenEnv t = "")) && negb (bool_decide (tg_TokenFile t = ""))
  then Some "multiple Codex auth sources"
  else if HasPrefix (tg_Endpoint t) unix_prefix then
    let path := TrimPrefix (tg_Endpoint t) unix_prefix in
    if ContainsAny path socket_chars || (negb (bool_decide (path = "")) && negb (IsAbs path))
    then Some "Codex socket path must be absolute"
    else if negb (bool_decide (tg_TokenEnv t = "")) || negb (bool_decide (tg_TokenFile t = ""))
    then Some "Unix socket targets do not use bearer auth"
    else None
  else
    match url_parse (tg_Endpoint t) with
    | None => Some "Codex endpoint must be unix://, unix:///absolute/path, or ws(s)://host:port without credentials, query, or fragment"
    | Some u =>
        if u_User u || bool_decide (u_Hostname u = "") || bool_decide (Port u = "")
           || (negb (bool_decide (u_Scheme u = "ws")) && negb (bool_decide (u_Scheme u = "wss")))
           || (negb (bool_decide (u_Path u = "")) && negb (bool_decide (u_Path u = "/")))
           || negb (bool_decide (u_RawQuery u = "")) || u_ForceQuery u || negb (bool_decide (u_Fragment u = ""))
        then Some "Codex endpoint must be unix://, unix:///absolute/path, or ws(s)://host:port without credentials, query, or fragment"
        else if bool_decide (u_Scheme u = "ws") && negb (bool_decide (u_Hostname u = "localhost")) && negb (loopback_ip (u_Hostname u))
        then Some "non-local Codex WebSockets require wss://"
        else if negb (bool_decide (tg_TokenFile t = "")) && negb (IsAbs (tg_TokenFile t))
        then Some "Codex token-file reference must be absolute"
        else None
    end.

(** ** The credential ([token]) *)
Definition credential_limit : Z := 16 * 1024.
Definition header_chars : string := of_bytes [ascii_of_nat 13; ascii_of_nat 10; ascii_of_nat 0].
(** [env] is the environment; [files] the files, with what reading them fails with. *)
Definition token (env : string -> string) (files : string -> option (result string)) (t : codexTarget) : result string :=
  let of_env := if bool_decide (tg_TokenEnv t = "") then "" else env (tg_TokenEnv t) in
  tok ← (if bool_decide (tg_TokenFile t = "") then Ok of_env else
         match files (tg_TokenFile t) with
         | None => Err "Codex endpoint credential file is unavailable"
         | Some (Err _) => Err "Codex endpoint credential file is invalid"
         | Some (Ok data) => if credential_limit <? len data then Err "Codex endpoint credential file is invalid"
                             else Ok (TrimSpace data)
         end);
  if (negb (bool_decide (tg_TokenEnv t = "")) || negb (bool_decide (tg_TokenFile t = ""))) && bool_decide (tok = "")
  then Err "Codex endpoint credential is unavailable in this runtime"
  else if (credential_limit <? len tok) || ContainsAny tok header_chars then Err "invalid Codex endpoint credential"
  else Ok tok.

(** ** Command lines ([argvFlag], [targetFromArgs]) *)
Fixpoint argvFlag (args : list string) (name : string) : string :=
  match args with
  | [] => ""
  | arg :: rest =>
      if bool_decide (arg = "--") then "" else
      if HasPrefix arg (name +:+ "=") then TrimPrefix arg (name +:+ "=") else
      match rest with
      | next :: _ => if bool_decide (arg = name) then next else argvFlag rest name
      | [] => ""
      end
  end.

Definition executable_name (path : string) : string := TrimSuffix (ToLower (Base path)) ".exe".
(** A wildcard address denotes the local listener. *)
Definition local_listener (listen : string) : string :=
  match url_parse listen with
  | Some u =>
      if bool_decide (u_Scheme u = "ws") || bool_decide (u_Scheme u = "wss") then
        let at_host host name := mkURL (u_Scheme u) host name (u_User u) (u_Path u) (u_RawQuery u) (u_ForceQuery u) (u_Fragment u) in
        if bool_decide (u_Hostname u = "0.0.0.0") then url_text (at_host ("127.0.0.1:" +:+ Port u) "127.0.0.1")
        else if bool_decide (u_Hostname u = "::") then url_text (at_host ("[::1]:" +:+ Port u) "::1")
        else listen
      else listen
  | None => listen
  end.
Definition targetFromArgs (args : list string) (cwd : string) : option codexTarget :=
  match args with
  | [] => None
  | exe :: args =>
      let exe := executable_name exe in
      if negb (bool_decide (exe = "codex")) && negb (HasPrefix exe "codex-") then None else
      let remote := argvFlag args "--remote" in
      if negb (bool_decide (remote = "")) then
        let path := TrimPrefix remote unix_prefix in
        let remote := if HasPrefix remote unix_prefix && negb (bool_decide (remote = unix_prefix)) && negb (IsAbs path)
                      then unix_prefix +:+ join cwd path else remote in
        Some (mkTarget remote (argvFlag args "--remote-auth-token-env") "" "cli_remote")
      else if negb (bool_decide ("app-server" ∈ args)) then None else
      let listen := argvFlag args "--listen" in
      if bool_decide (listen ∈ [""; "stdio://"; "off"]) then None else
      let file := argvFlag args "--ws-token-file" in
      let file := if negb (bool_decide (file = "")) && negb (IsAbs file) then join cwd file else file in
      Some (mkTarget (local_listener listen) "" file "app_server_listen")
  end.

(** ** Discovery ([discoverCodexTarget], [approvedCodexTarget]) *)
(** The launch configuration: the environment, and the ancestors that the walk visits, nearest
    first, with their executable, their command line unless it is unreadable, and their
    working directory. *)
Record ancestor := mkAncestor { an_Exe : option string; an_Args : option (list string); an_Cwd : string }.
Record launch := mkLaunch { la_Env : string -> string; la_Ancestors : list ancestor }.

Definition ancestor_target (a : ancestor) : option codexTarget :=
  args ← an_Args a; targetFromArgs args (an_Cwd a).
Definition environment_target (l : launch) : codexTarget :=
  mkTarget (la_Env l "TINCAN_CODEX_REMOTE") (la_Env l "TINCAN_CODEX_REMOTE_AUTH_TOKEN_ENV") "" "tincan_environment".
Definition validated (t : codexTarget) : result codexTarget :=
  match validateCodexTarget t with Some e => Err e | None => Ok t end.

Definition discoverCodexTarget (l : launch) : result codexTarget :=
  if negb (bool_decide (la_Env l "TINCAN_CODEX_REMOTE" = "")) then validated (environment_target l) else
  match head (omap ancestor_target (take 16 (la_Ancestors l))) with
  | Some t => validated t
  | None => Ok defaultCodexTarget
  end.

Definition sameCodexTarget (a b : codexTarget) : bool :=
  bool_decide (tg_Endpoint a = tg_Endpoint b) && bool_decide (tg_TokenEnv a = tg_TokenEnv b) && bool_decide (tg_TokenFile a = tg_TokenFile b).
Definition approvedCodexTarget (l : launch) (requested : option codexTarget) : result codexTarget :=
  trusted ← discoverCodexTarget l;
  match requested with
  | Some r =>
      if sameCodexTarget r trusted then Ok trusted
      else Err "Codex target must match trusted launch configuration; configure TINCAN_CODEX_REMOTE and TINCAN_CODEX_REMOTE_AUTH_TOKEN_ENV before starting the plugin"
  | None => Ok trusted
  end.
Definition targetFor (l : launch) (c : pluginConnection) : result codexTarget := approvedCodexTarget l (pc_CodexTarget c).
Definition selectCodexTarget (l : launch) (c : pluginConnection) (explicit : option codexTarget) : option string * pluginConnection :=
  match approvedCodexTarget l explicit with
  | Err e => (Some e, c)
  | Ok t => (None, put_Codex (pc_CodexThreadID c) (Some t) c)
  end.

Definition isCodexExecutable (exe : string) : bool := bool_decide (executable_name exe ∈ ["codex"; "codex-app-server"]).
Definition launchedByCodex (l : launch) : bool :=
  existsb (fun a => match an_Exe a with Some exe => isCodexExecutable exe | None => false end) (take 16 (la_Ancestors l)).

(** ** Dialling ([openCodexTarget]) *)
(** Where the connection goes, and the bearer that goes with it: a local socket, or an
    endpoint. *)
Inductive destination := Socket (path : string) | WebSocket (endpoint : string).
Record dial := mkDial { di_To : destination; di_Bearer : option string }.
(** [home] is the outcome of looking up the home directory. *)
Definition control_socket (l : launch) (home : result string) : result string :=
  dir ← (if negb (bool_decide (la_Env l "CODEX_HOME" = "")) then Ok (la_Env l "CODEX_HOME")
         else h ← home; Ok (join h ".codex"));
  Ok (join dir "app-server-control/app-server-control.sock").
Definition openCodexTarget (l : launch) (home : result string) (files : string -> option (result string)) (t : codexTarget)
    : result dial :=
  match validateCodexTarget t with
  | Some e => Err e
  | None =>
      to ← (if HasPrefix (tg_Endpoint t) unix_prefix then
              let socket := TrimPrefix (tg_Endpoint t) unix_prefix in
              p ← (if bool_decide (socket = "") then control_socket l home else Ok socket); Ok (Socket p)
            else Ok (WebSocket (tg_Endpoint t)));
      tok ← token (la_Env l) files t;
      Ok (mkDial to (if bool_decide (tok = "") then None else Some ("Bearer " +:+ tok)))
  end.
(** What the broker does for a connection before every call: [targetFor], then the dial. *)
Definition dial_connection (l : launch) (home : result string) (files : string -> option (result string)) (c : pluginConnection)
    : result dial := t ← targetFor l c; openCodexTarget l home files t.
End Target.

(** ** The runtime of a Codex task: properties

    The control connection goes where the launch configuration says, and a credential only
    over TLS or to this machine. *)

Section Target.
Context (url_parse : string -> option url) (Port : url -> string) (url_text : url -> string) (loopback_ip : string -> bool).
Context (ToLower : string -> string) (join : string -> string -> string).
#[local] Abbreviation validate := (validateCodexTarget url_parse Port loopback_ip).
#[local] Abbreviation discover := (discoverCodexTarget url_parse Port url_text loopback_ip ToLower join).
#[local] Abbreviation dialled := (dial_connection url_parse Port url_text loopback_ip ToLower join).
#[local] Abbreviation from_args := (ancestor_target url_parse Port url_text ToLower join).

(** The target is one of the launch configuration: the environment's when there is one, else
    that of the nearest of the first sixteen ancestors that has one, else the default. *)
Definition configured (l : launch) (t : codexTarget) : Prop :=
  if bool_decide (la_Env l "TINCAN_CODEX_REMOTE" = "")
  then t = default defaultCodexTarget (head (omap from_args (take 16 (la_Ancestors l))))
  else t = environment_target l.

Lemma discover_configured l t : discover l = Ok t -> configured l t /\ validate t = None.
Proof.
  unfold discoverCodexTarget, configured, validated. intros E. case_bool_decide as Ee; simpl in E.
  - destruct (head _) as [t'|]; [|by injection E as <-]. simpl. destruct (validate t') eqn:Ev; [done|]. by injection E as <-.
  - destruct (validate (environment_target l)) eqn:Ev; [done|]. by injection E as <-.
Qed.

(** Where a credential may go. *)
Definition private_endpoint (endpoint : string) : Prop :=
  exists u, url_parse endpoint = Some u /\ u_User u = false /\ u_RawQuery u = "" /\ u_Fragment u = "" /\
    (u_Scheme u = "wss" \/ u_Scheme u = "ws" /\ (u_Hostname u = "localhost" \/ loopback_ip (u_Hostname u) = true)).

Lemma validate_endpoint t : validate t = None -> HasPrefix (tg_Endpoint t) unix_prefix = false -> private_endpoint (tg_Endpoint t).
Proof.
  clear url_text join ToLower. unfold validateCodexTarget. intros E Hp. rewrite Hp in E. passes E. passes E.
  destruct (url_parse (tg_Endpoint t)) as [u|] eqn:Eu; [|done]. exists u. passes E.
  destruct (decide (u_Scheme u = "wss")) as [Hs|Hs]; [by bool_simpl; split_and!; [..|left]|]. passes E. bool_simpl.
  split_and!; [done..|right].
  destruct (decide (u_Scheme u = "ws")) as [Hw|Hw]; [|by rewrite !bool_decide_eq_false_2 in * by done; naive_solver].
  split; [done|]. destruct (decide (u_Hostname u = "localhost")) as [|Hl]; [by left|right].
  rewrite (bool_decide_eq_true_2 _ Hw), (bool_decide_eq_false_2 _ Hl) in *. destruct (loopback_ip _); naive_solver.
Qed.
Lemma validate_socket t : validate t = None -> HasPrefix (tg_Endpoint t) unix_prefix = true -> tg_TokenEnv t = "" /\ tg_TokenFile t = "".
Proof.
  unfold validateCodexTarget. intros E Hp. rewrite Hp in E. passes E. passes E. passes E. passes E. by bool_simpl.
Qed.

(** The text of a credential: short, and no header can be smuggled in. *)
Definition plain_credential (tok : string) : Prop :=
  tok <> "" /\ len tok <= credential_limit /\ ContainsAny tok header_chars = false.
Lemma token_plain env files t tok : token env files t = Ok tok ->
  (tg_TokenEnv t = "" -> tg_TokenFile t = "" -> tok = "") /\ (tok <> "" -> plain_credential tok).
Proof.
  unfold token. intros (tok' & E1 & E2)%bind_ok. passes E2. passes E2. injection E2 as ->. split.
  - intros Ee Ef. rewrite Ee, Ef, !bool_decide_eq_true_2 in E1 by done. by injection E1.
  - intros Hne. bool_simpl. done.
Qed.

(** C19. A credential goes only where the launch configuration sends it, and not in the clear. When
    the control connection of a task is dialled, whatever target was saved with the
    connection or requested by the model: the destination is the one the environment or the
    command line of an ancestor names - a saved target that differs is refused -, a bearer is
    sent only to an endpoint over TLS or on this machine, never to a socket or along with
    credentials, a query or a fragment in the address, and it is a short text that cannot
    smuggle in a header. *)
Theorem credential_stays_private l home files c d :
  dialled l home files c = Ok d ->
  exists t, configured l t /\ (forall saved, pc_CodexTarget c = Some saved -> tg_Endpoint saved = tg_Endpoint t /\
      tg_TokenEnv saved = tg_TokenEnv t /\ tg_TokenFile saved = tg_TokenFile t) /\
    match di_To d with
    | Socket path => di_Bearer d = None /\ (tg_Endpoint t = unix_prefix +:+ path \/ tg_Endpoint t = unix_prefix)
    | WebSocket endpoint => endpoint = tg_Endpoint t /\ private_endpoint endpoint /\
        match di_Bearer d with
        | Some bearer => exists tok, token (la_Env l) files t = Ok tok /\ bearer = "Bearer " +:+ tok /\ plain_credential tok
        | None => True
        end
    end.
Proof.
  unfold dial_connection, targetFor, approvedCodexTarget. intros (t & (t' & Ed & Ea)%bind_ok & Eo)%bind_ok.
  destruct (discover_configured l t' Ed) as [Hc Hv].
  assert (t = t' /\ forall saved, pc_CodexTarget c = Some saved -> sameCodexTarget saved t' = true) as [-> Hsame].
  { destruct (pc_CodexTarget c) as [r|]; [|by injection Ea as ->]. destruct (sameCodexTarget r t') eqn:Es; [|done].
    injection Ea as ->. split; [done|]. by intros saved [= <-]. }
  exists t'. split_and!; [done| |].
  - intros saved Hs. specialize (Hsame saved Hs). unfold sameCodexTarget in Hsame. by bool_simpl.
  - unfold openCodexTarget in Eo. rewrite Hv in Eo. apply bind_ok in Eo as (to & Eto & (tok & Etok & [= <-])%bind_ok).
    destruct (token_plain _ _ _ _ Etok) as [Hnone Hplain]. destruct (HasPrefix (tg_Endpoint t') unix_prefix) eqn:Ep.
    + apply bind_ok in Eto as (p & Epath & [= <-]). destruct (validate_socket t' Hv Ep) as [He Hf]. rewrite (Hnone He Hf). simpl. split; [done|].
      apply HasPrefix_spec in Ep as [path Ep]. rewrite Ep, TrimPrefix_app in Epath. rewrite Ep.
      case_bool_decide as Hempty; [right; by rewrite Hempty|left; congruence].
    + injection Eto as <-. simpl. split_and!; [done|by apply validate_endpoint|]. case_bool_decide; [done|]. exists tok. auto.
Qed.
End Target.

(** ** The theorem at a concrete input *)
Definition demo_endpoint : string := "ws://127.0.0.1:4500".
Definition demo_parse (s : string) : option url :=
  if bool_decide (s = demo_endpoint) then Some (mkURL "ws" "127.0.0.1:4500" "127.0.0.1" false "" "" false "") else None.
Definition demo_port (u : url) : string := "4500".
Definition demo_ip (s : string) : bool := bool_decide (s = "127.0.0.1").
Definition same_text (s : string) : string := s.
Definition join_path (a b : string) : string := a +:+ "/" +:+ b.
(** Codex was started with a remote and the name of a variable that has its credential. *)
Definition demo_launch : launch :=
  mkLaunch (fun name => if bool_decide (name = "CODEX_AUTH") then "s3cret" else "")
    [mkAncestor None (Some ["/bin/sh"]) "/"; mkAncestor None (Some ["/opt/codex"; "--remote"; demo_endpoint; "--remote-auth-token-env=CODEX_AUTH"]) "/work"].
Definition demo_target : codexTarget := mkTarget demo_endpoint "CODEX_AUTH" "" "cli_remote".
Definition bound_conn (t : codexTarget) : pluginConnection := put_Codex "" (Some t) (zero_plugin "conn_" (server_config "https://tincan.example" "token")).
Definition demo_dial (t : codexTarget) : result dial :=
  dial_connection demo_parse demo_port u_Host demo_ip same_text join_path demo_launch (Ok "/home/a") (fun _ => None) (bound_conn t).
Example demo_dials :
  demo_dial demo_target = Ok (mkDial (WebSocket demo_endpoint) (Some "Bearer s3cret")) /\
  is_ok (demo_dial (mkTarget "wss://elsewhere:443" "CODEX_AUTH" "" "")) = false.
Proof. split; vm_compute; reflexivity. Qed.
Lemma demo_dialled : demo_dial demo_target = Ok (mkDial (WebSocket demo_endpoint) (Some "Bearer s3cret")).
Proof. vm_compute. reflexivity. Qed.

Lemma credential_stays_private_witness :
  exists t, configured demo_parse demo_port u_Host same_text join_path demo_launch t /\
    (forall saved, pc_CodexTarget (bound_conn demo_target) = Some saved -> tg_Endpoint saved = tg_Endpoint t /\
      tg_TokenEnv saved = tg_TokenEnv t /\ tg_TokenFile saved = tg_TokenFile t) /\
    (demo_endpoint = tg_Endpoint t /\ private_endpoint demo_parse demo_ip demo_endpoint /\
     exists tok, token (la_Env demo_launch) (fun _ => None) t = Ok tok /\ "Bearer s3cret" = "Bearer " +:+ tok /\ plain_credential tok).
Proof.
  exact (credential_stays_private demo_parse demo_port u_Host demo_ip same_text join_path demo_launch (Ok "/home/a") (fun _ => None)
    (bound_conn demo_target) (mkDial (WebSocket demo_endpoint) (Some "Bearer s3cret")) demo_dialled).
Defined.
