(* ===== verification/Addresses.v ===== *)
(** * Invitations as addresses

    [connectAddress] ([plugin.go]), [cryptoJoinAddress], [cryptoInvite] ([encryption.go]) and
    [admissionFragment] ([encryption_admission.go]): a share address carries the server's
    token in its fragment, followed, in an encrypted room, by the creator's key, a secret and
    the workspace. Fragments, queries and base64 are those of [net/url] and [encoding/base64];
    the part of an address before its fragment is parsed by a parameter. *)
From S2P Require Import Prelude GoStrings Json Types Protocol Broker.

(** ** [strings.Cut], [Split] at one byte *)
Fixpoint strip (p l : list ascii) : option (list ascii) :=
  match p, l with
  | [], _ => Some l
  | a :: p, b :: l => if Ascii.eqb a b then strip p l else None
  | _ :: _, [] => None
  end.
Fixpoint cut_bytes (sep l : list ascii) : option (list ascii * list ascii) :=
  match strip sep l with
  | Some rest => Some ([], rest)
  | None => match l with
            | [] => None
            | a :: r => '(before, after) ← cut_bytes sep r; Some (a :: before, after)
            end
  end.
Definition Cut (s sep : string) : option (string * string) :=
  '(before, after) ← cut_bytes (bytes sep) (bytes s); Some (of_bytes before, of_bytes after).
Definition contains (s sep : string) : bool := match Cut s sep with Some _ => true | None => false end.
Fixpoint split_bytes (c : ascii) (l : list ascii) : list (list ascii) :=
  match l with
  | [] => [[]]
  | a :: r =>
      let parts := split_bytes c r in
      if Ascii.eqb a c then [] :: parts
      else match parts with p :: ps => (a :: p) :: ps | [] => [[a]] end
  end.
Definition Split (s : string) (c : ascii) : list string := of_bytes <$> split_bytes c (bytes s).
Example Cut_ex : Cut "a.e2ee.b.e2ee.c" ".e2ee." = Some ("a", "b.e2ee.c") /\ Cut "abc" "x" = None /\ Split "a..b" "." = ["a"; ""; "b"].
Proof. repeat split. Qed.

(** ** [base64.RawURLEncoding] *)
Definition digit64 (n : N) : ascii :=
  if (n <? 26)%N then ascii_of_N (65 + n) else if (n <? 52)%N then ascii_of_N (71 + n)
  else if (n <? 62)%N then ascii_of_N (n - 4) else if (n =? 62)%N then "-" else "_".
Definition value64 (a : ascii) : option N :=
  let n := N_of_ascii a in
  if byte_in 65 90 a then Some (n - 65)%N else if byte_in 97 122 a then Some (n - 71)%N
  else if byte_in 48 57 a then Some (n + 4)%N else if Ascii.eqb a "-" then Some 62%N
  else if Ascii.eqb a "_" then Some 63%N else None.
Fixpoint encode64 (l : list N) : list N :=
  match l with
  | [] => []
  | [a] => [a / 4; a mod 4 * 16]%N
  | [a; b] => [a / 4; a mod 4 * 16 + b / 16; b mod 16 * 4]%N
  | a :: b :: c :: r => ([a / 4; a mod 4 * 16 + b / 16; b mod 16 * 4 + c / 64; c mod 64] ++ encode64 r)%N
  end.
Fixpoint decode64 (l : list N) : option (list N) :=
  match l with
  | [] => Some []
  | [_] => None
  | [x; y] => Some [x * 4 + y / 16]%N
  | [x; y; z] => Some [x * 4 + y / 16; y mod 16 * 16 + z / 4]%N
  | x :: y :: z :: w :: r => rest ← decode64 r; Some ([x * 4 + y / 16; y mod 16 * 16 + z / 4; z mod 4 * 64 + w] ++ rest)%N
  end.
Definition EncodeToString (s : string) : string := of_bytes (digit64 <$> encode64 (N_of_ascii <$> bytes s)).
(** Line breaks are skipped, and the bits beyond the last whole byte are not looked at. *)
Definition DecodeString (s : string) : option string :=
  digits ← mapM value64 (filter (fun a => code a <> 10 /\ code a <> 13) (bytes s));
  l ← decode64 digits;
  Some (of_bytes (ascii_of_N <$> l)).
Example base64_ex : EncodeToString "Tincan!" = "VGluY2FuIQ" /\ DecodeString "VGluY2FuIQ" = Some "Tincan!" /\ DecodeString "VGluY" = None.
Proof. repeat split; vm_compute; reflexivity. Qed.

(** ** Escapes of [net/url] *)
Definition unhex (a : ascii) : option N :=
  let n := N_of_ascii a in
  if byte_in 48 57 a then Some (n - 48)%N else if byte_in 97 102 a then Some (n - 87)%N
  else if byte_in 65 70 a then Some (n - 55)%N else None.
Fixpoint unescape (plus : bool) (l : list ascii) : option (list ascii) :=
  match l with
  | [] => Some []
  | a :: r =>
      if Ascii.eqb a "%" then
        match r with
        | h :: k :: r => x ← unhex h; y ← unhex k; rest ← unescape plus r; Some (ascii_of_N (x * 16 + y) :: rest)
        | _ => None
        end
      else rest ← unescape plus r; Some ((if plus && Ascii.eqb a "+" then " "%char else a) :: rest)
  end.
Definition unescaped : list ascii := bytes "-_.~$&+,/:;=?@!()*".
Definition shouldEscape (a : ascii) : bool := negb (alnum a) && bool_decide (a ∉ unescaped).
Definition upper_hex (n : N) : ascii := ascii_of_N (if (n <? 10)%N then 48 + n else 55 + n)%N.
Fixpoint escape (l : list ascii) : list ascii :=
  match l with
  | [] => []
  | a :: r =>
      if shouldEscape a then "%"%char :: upper_hex (N_of_ascii a / 16) :: upper_hex (N_of_ascii a mod 16) :: escape r
      else a :: escape r
  end.
Definition encoded_chars : list ascii := bytes "!$&'()*+,;=:@[]%".
Definition validEncoded (l : list ascii) : bool :=
  forallb (fun a => bool_decide (a ∈ encoded_chars) || negb (shouldEscape a)) l.

(** [url.ParseQuery], keys with their values in order; [None] for any error. *)
Definition query_pair (l : list ascii) : option (option (string * string)) :=
  if bool_decide (";"%char ∈ l) then None
  else if bool_decide (l = []) then Some None
  else
    let '(k, v) := match cut_bytes ["="%char] l with Some (k, v) => (k, v) | None => (l, []) end in
    k ← unescape true k; v ← unescape true v; Some (Some (of_bytes k, of_bytes v)).
Definition ParseQuery (q : string) : option (list (string * string)) :=
  if bool_decide (q = "") then Some [] else omap id <$> mapM query_pair (split_bytes "&" (bytes q)).

(** ** Addresses *)
(** [ad_Raw] is [RawFragment]: the fragment as it was written, when that is not its default
    escape. The fragment of [ad_Base] is not used. *)
Record address (base : Type) := mkAddress { ad_Base : base; ad_Fragment : string; ad_Raw : string }.
Arguments mkAddress {base} _ _ _.
Arguments ad_Base {base} _.
Arguments ad_Fragment {base} _.
Arguments ad_Raw {base} _.
Definition with_fragment {base} (f : string) (a : address base) : address base := mkAddress (ad_Base a) f (ad_Raw a).

Section Addresses.
(** What [net/url] keeps of an address before the fragment, its fields, and how it is printed. *)
Context {base : Type} (base_url : base -> url).
Variables (parse_base : string -> option base) (base_string : base -> string).

Definition Parse (raw : string) : option (address base) :=
  let '(u, f) := default (raw, "") (Cut raw "#") in
  b ← parse_base u;
  if bool_decide (f = "") then Some (mkAddress b "" "") else
  d ← unescape false (bytes f);
  Some (mkAddress b (of_bytes d) (if bool_decide (escape d = bytes f) then "" else f)).
Definition EscapedFragment (a : address base) : string :=
  if bool_decide (ad_Raw a <> "") && validEncoded (bytes (ad_Raw a))
     && bool_decide (unescape false (bytes (ad_Raw a)) = Some (bytes (ad_Fragment a)))
  then ad_Raw a
  else if bool_decide (ad_Fragment a = "*") then "*" else of_bytes (escape (bytes (ad_Fragment a))).
Definition address_string (a : address base) : string :=
  base_string (ad_Base a) +:+ (if bool_decide (ad_Fragment a = "") then "" else "#" +:+ EscapedFragment a).
Definition url_of (a : address base) : url :=
  let b := base_url (ad_Base a) in
  Protocol.mkURL (u_Scheme b) (u_Host b) (u_Hostname b) (u_User b) (u_Path b) (u_RawQuery b) (u_ForceQuery b) (ad_Fragment a).

(** A referral: no query, or one [ref] of at most 100 bytes. *)
Definition referral_only (q : list (string * string)) : bool :=
  match q with
  | [] => true
  | [(k, v)] => bool_decide (k = "ref") && (len v <=? 100)
  | _ => false
  end.
Definition connectAddress (raw fallback : string) : result (string * string) :=
  if bool_decide (raw = "") then
    match validateServer (url_of <$> Parse fallback) with Some e => Err e | None => Ok (fallback, "") end
  else
    match Parse raw with
    | None => Err "paste the complete Tincan share URL, including its #invite fragment"
    | Some a =>
        let u := base_url (ad_Base a) in
        if u_User u || negb (bool_decide (u_Path u = "/join")) || bool_decide (ad_Fragment a = "")
        then Err "paste the complete Tincan share URL, including its #invite fragment" else
        match ParseQuery (u_RawQuery u) with
        | None => Err "share URLs only support an optional referral code"
        | Some q =>
            if negb (referral_only q) then Err "share URLs only support an optional referral code" else
            let server := u_Scheme u +:+ "://" +:+ u_Host u in
            match validateServer (url_of <$> Parse server) with
            | Some e => Err e
            | None => Ok (server, ad_Fragment a)
            end
        end
    end.

(** ** The parts of an encrypted invitation: the address without its secret, the secret and the
    workspace *)
Definition errAutomatic : string := "invalid automatic invitation".
Definition admissionFragment (raw : string) : result (string * string * string) :=
  match Parse raw with
  | None => Err "invalid invitation"
  | Some a =>
      match Cut (ad_Fragment a) ".auto." with
      | None => Ok (raw, "", "")
      | Some (base, extra) =>
          match Split extra "." with
          | [s; w] =>
              if negb (contains base ".e2ee.") then Err errAutomatic else
              match DecodeString s, DecodeString w with
              | Some secret, Some workspace =>
                  if negb (len secret =? 32) || (len workspace =? 0) || (128 <? len workspace)
                  then Err errAutomatic else Ok (address_string (with_fragment base a), secret, workspace)
              | _, _ => Err errAutomatic
              end
          | _ => Err errAutomatic
          end
      end
  end.

(** The address with the server's token only, and the pinned key, empty when there is none. *)
Definition cryptoJoinAddress (raw : string) : result (string * string) :=
  match admissionFragment raw with
  | Err e => Err e
  | Ok (raw, _, _) =>
      match Parse raw with
      | None => Err "cannot parse the invitation"
      | Some a =>
          match Cut (ad_Fragment a) ".e2ee." with
          | None => Ok (raw, "")
          | Some (token, pin) =>
              match DecodeString pin with
              | Some root =>
                  if negb (len root =? 32) || bool_decide (token = "") then Err "invalid encrypted invitation"
                  else Ok (address_string (with_fragment token a), root)
              | None => Err "invalid encrypted invitation"
              end
          end
      end
  end.

Definition cryptoInvite (raw root : string) : string :=
  match Parse raw with
  | None => raw
  | Some a =>
      if bool_decide (ad_Fragment a = "") then raw else
      let token := match Cut (ad_Fragment a) ".e2ee." with Some (t, _) => t | None => ad_Fragment a end in
      address_string (with_fragment (token +:+ ".e2ee." +:+ EncodeToString root) a)
  end.
(** The address [issueCryptoInvite] returns. *)
Definition automatic_invite (pinned secret workspace : string) : string :=
  pinned +:+ ".auto." +:+ EncodeToString secret +:+ "." +:+ EncodeToString workspace.
End Addresses.
