(* ===== verification/Flags.v ===== *)
(** * Flags of a command

    [flag.FlagSet.Parse] of Go's library, as the commands use it: one or two dashes, a value after
    an equals sign or in the next argument, switches without one, and the end of the flags at the
    first argument that is none, or after two dashes. *)
From S2P Require Import Prelude GoStrings Json Types Protocol Broker Addresses.

(** A flag takes any text, is a switch, or takes what [set] accepts, in the form it is read back. *)
Inductive flag_kind := FText | FSwitch | FValue (set : string -> option string).
Definition ParseBool (s : string) : option bool :=
  if bool_decide (s ∈ ["1"; "t"; "T"; "true"; "TRUE"; "True"]) then Some true
  else if bool_decide (s ∈ ["0"; "f"; "F"; "false"; "FALSE"; "False"]) then Some false else None.
Definition bool_text (b : bool) : string := if b then "true" else "false".
(** [Value.Set]. *)
Definition set_flag (k : flag_kind) (value : string) : option string :=
  match k with FText => Some value | FSwitch => bool_text <$> ParseBool value | FValue set => set value end.

Inductive parsed :=
| Parsed (given : gmap string string) (rest : list string)
| HelpWanted (* [flag.ErrHelp] *)
| BadFlags (e : string).

Definition lookup_flag (formal : list (string * flag_kind)) (name : string) : option flag_kind :=
  snd <$> List.find (fun kv => bool_decide (kv.1 = name)) formal.

(** What an argument is: no flag, the end of the flags, or a name with what follows an equals sign. *)
Inductive argument := NoFlag | EndOfFlags | BadSyntax | AFlag (name : string) (value : option string).
Definition read_argument (s : string) : argument :=
  match bytes s with
  | "-"%char :: b :: l =>
      if Ascii.eqb b "-" && bool_decide (l = []) then EndOfFlags else
      let name := if Ascii.eqb b "-" then l else b :: l in
      match name with
      | [] => BadSyntax
      | c :: _ =>
          if Ascii.eqb c "-" || Ascii.eqb c "=" then BadSyntax else
          match Cut (of_bytes name) "=" with
          | Some (name, value) => AFlag name (Some value)
          | None => AFlag (of_bytes name) None
          end
      end
  | _ => NoFlag
  end.

Section Parse.
Variable formal : list (string * flag_kind).
Definition undefined (name : string) : parsed :=
  if bool_decide (name = "help") || bool_decide (name = "h") then HelpWanted
  else BadFlags ("flag provided but not defined: -" +:+ name).
Fixpoint ParseFlags (args : list string) (given : gmap string string) : parsed :=
  match args with
  | [] => Parsed given []
  | s :: args' =>
      match read_argument s with
      | NoFlag => Parsed given args
      | EndOfFlags => Parsed given args'
      | BadSyntax => BadFlags ("bad flag syntax: " +:+ s)
      | AFlag name value =>
          match lookup_flag formal name with
          | None => undefined name
          | Some FSwitch =>
              match set_flag FSwitch (default "true" value) with
              | Some v => ParseFlags args' (<[name := v]> given)
              | None => BadFlags ("invalid boolean value for -" +:+ name)
              end
          | Some k =>
              match value, args' with
              | Some v, _ =>
                  match set_flag k v with
                  | Some v => ParseFlags args' (<[name := v]> given)
                  | None => BadFlags ("invalid value for flag -" +:+ name)
                  end
              | None, v :: args'' =>
                  match set_flag k v with
                  | Some v => ParseFlags args'' (<[name := v]> given)
                  | None => BadFlags ("invalid value for flag -" +:+ name)
                  end
              | None, [] => BadFlags ("flag needs an argument: -" +:+ name)
              end
          end
      end
  end.
End Parse.
(** The value of a text flag, and of a switch. *)
Definition text_flag (given : gmap string string) (name initial : string) : string := default initial (given !! name).
Definition switch_flag (given : gmap string string) (name : string) : bool := bool_decide (given !! name = Some "true").

Example ParseFlags_ex :
  ParseFlags [("server", FText); ("e2ee", FSwitch)] ["--server"; "https://a"; "-e2ee"; "--"; "--x"] ∅
    = Parsed {[ "server" := "https://a"; "e2ee" := "true" ]} ["--x"] /\
  ParseFlags [("server", FText)] ["-server=a=b"; "rest"; "-server"; "c"] ∅ = Parsed {[ "server" := "a=b" ]} ["rest"; "-server"; "c"] /\
  ParseFlags [("e2ee", FSwitch)] ["--e2ee"; "false"] ∅ = Parsed {[ "e2ee" := "true" ]} ["false"] /\
  ParseFlags [("e2ee", FSwitch)] ["--help"] ∅ = HelpWanted.
Proof. repeat split; vm_compute; reflexivity. Qed.
