(* ===== verification/AddressesTheorems.v ===== *)
(** * Invitations as addresses: properties

    What a creator puts into an invitation is what the joining device reads out of it, and only
    the server's token is left in the address it joins with. *)
From S2P Require Import Prelude GoStrings Json Types Protocol Broker Addresses.

(** ** Cutting *)
Lemma strip_app p l : strip p (p ++ l) = Some l.
Proof. induction p as [|a p IH]; cbn; [done|]. by rewrite Ascii.eqb_refl. Qed.
Lemma strip_Some p l r : strip p l = Some r -> l = p ++ r.
Proof.
  revert l. induction p as [|a p IH]; intros [|b l]; cbn; try (intros; by simplify_eq).
  destruct (Ascii.eqb_spec a b) as [->|]; [|done]. intros ->%IH. done.
Qed.
Lemma cut_skip c sep p l : c ∉ p ->
  cut_bytes (c :: sep) (p ++ l) = '(before, after) ← cut_bytes (c :: sep) l; Some (p ++ before, after).
Proof.
  induction p as [|a p IH]; intros Hc; cbn [app].
  - by destruct (cut_bytes _ l) as [[b r]|].
  - apply not_elem_of_cons in Hc as [Hne Hc]. cbn [cut_bytes strip].
    destruct (Ascii.eqb_spec c a) as [->|]; [done|]. rewrite IH by done. by destruct (cut_bytes _ l) as [[b r]|].
Qed.
Lemma cut_found c sep p l : c ∉ p -> cut_bytes (c :: sep) (p ++ (c :: sep) ++ l) = Some (p, l).
Proof.
  intros. rewrite cut_skip by done. change ((c :: sep) ++ l) with (c :: (sep ++ l)). cbn.
  rewrite Ascii.eqb_refl, strip_app. cbn. by rewrite app_nil_r.
Qed.
Lemma cut_none c sep p : c ∉ p -> cut_bytes (c :: sep) p = None.
Proof. intros. by rewrite <- (app_nil_r p), cut_skip. Qed.
(** A separator that ends in [c] is not found where [c] is not. *)
Lemma strip_none c p q l : c ∈ p -> c ∉ q -> (length p <= length q)%nat -> strip p (q ++ l) = None.
Proof.
  intros Hp Hq Hl. destruct (strip p (q ++ l)) as [r|] eqn:E; [|done]. apply strip_Some in E.
  assert (Ht : take (length p) (q ++ l) = p) by (rewrite E; apply take_app_length).
  rewrite take_app_le in Ht by done. exfalso. apply Hq. rewrite <- Ht in Hp. apply elem_of_take in Hp as (i & Hi & _). by apply list_elem_of_lookup_2 in Hi.
Qed.

(** ** Base64 *)
Definition alphabet (a : ascii) : Prop := value64 a <> None.
Lemma alphabet_spec a : alphabet a ->
  shouldEscape a = false /\ a <> "."%char /\ a <> "#"%char /\ a <> "%"%char /\ code a <> 10 /\ code a <> 13.
Proof.
  unfold alphabet. destruct a as [[] [] [] [] [] [] [] []]; vm_compute; intros Hv;
    (by destruct (Hv eq_refl)) || (repeat split; discriminate).
Qed.
Lemma digit_value n : (n < 64)%N -> value64 (digit64 n) = Some n.
Proof.
  intros Hn. assert (Hall : forallb (fun n => bool_decide (value64 (digit64 n) = Some n)) (N.of_nat <$> seq 0 64) = true) by by vm_compute.
  rewrite forallb_forall in Hall. apply (bool_decide_eq_true_1 _), Hall, list_elem_of_In, list_elem_of_fmap.
  exists (N.to_nat n). split; [lia|]. apply elem_of_seq. lia.
Qed.

(** Three bytes at a time. *)
Lemma triples_ind (P : list N -> Prop) :
  P [] -> (forall a, P [a]) -> (forall a b, P [a; b]) -> (forall a b c r, P r -> P (a :: b :: c :: r)) -> forall l, P l.
Proof.
  intros H0 H1 H2 H3. fix IH 1. intros [|a [|b [|c r]]]; [done|apply H1|apply H2|]. apply H3, IH.
Qed.
Definition byte (n : N) : Prop := (n < 256)%N.
Lemma encode64_digits l : Forall byte l -> Forall (fun n => (n < 64)%N) (encode64 l).
Proof.
  unfold byte. induction l as [|a|a b|a b c r IH] using triples_ind; intros Hl; cbn;
    repeat (apply Forall_cons in Hl as [? Hl]); repeat constructor; auto; zify; Z.to_euclidean_division_equations; lia.
Qed.
Lemma decode_encode64 l : Forall byte l -> decode64 (encode64 l) = Some l.
Proof.
  unfold byte. induction l as [|a|a b|a b c r IH] using triples_ind; intros Hl; cbn [encode64 decode64 app]; repeat (apply Forall_cons in Hl as [? Hl]).
  - done.
  - do 2 f_equal. zify. Z.to_euclidean_division_equations; lia.
  - do 2 f_equal; [|f_equal]; zify; Z.to_euclidean_division_equations; lia.
  - rewrite IH by done. cbn. do 2 f_equal; [|f_equal; [|f_equal]]; zify; Z.to_euclidean_division_equations; lia.
Qed.

Lemma encode_alphabet s : Forall alphabet (bytes (EncodeToString s)).
Proof.
  unfold EncodeToString. rewrite bytes_of_bytes. apply Forall_fmap.
  eapply Forall_impl; [apply encode64_digits, Forall_fmap, Forall_true; intros a; apply N_ascii_bounded|].
  intros n Hn. cbn. unfold alphabet. by rewrite digit_value.
Qed.
Lemma filter_all {A} (P : A -> Prop) `{forall x, Decision (P x)} (l : list A) : Forall P l -> filter P l = l.
Proof. induction 1 as [|a l Ha _ IH]; [done|]. by rewrite filter_cons_True, IH. Qed.
Lemma decode_encode s : DecodeString (EncodeToString s) = Some s.
Proof.
  assert (Hb : Forall byte (N_of_ascii <$> bytes s)).
  { apply Forall_fmap, Forall_true. intros a. apply N_ascii_bounded. }
  unfold DecodeString. rewrite filter_all.
  2:{ eapply Forall_impl; [apply encode_alphabet|]. intros a Ha%alphabet_spec. tauto. }
  unfold EncodeToString. rewrite bytes_of_bytes.
  assert (Hm : mapM value64 (digit64 <$> encode64 (N_of_ascii <$> bytes s)) = Some (encode64 (N_of_ascii <$> bytes s))).
  { pose proof (encode64_digits _ Hb) as Hd. induction Hd as [|n l Hn _ IH]; [done|].
    rewrite fmap_cons. cbn. rewrite digit_value by done. cbn. by rewrite IH. }
  rewrite Hm. cbn. rewrite decode_encode64 by done. cbn. f_equal. rewrite <- list_fmap_compose.
  rewrite (list_fmap_ext _ id) by (intros; apply ascii_N_embedding). by rewrite list_fmap_id, of_bytes_bytes.
Qed.
Lemma encode_length s : len s = 32 -> length (bytes (EncodeToString s)) = 43%nat.
Proof.
  unfold len. intros Hl. unfold EncodeToString. rewrite bytes_of_bytes, length_fmap.
  assert (Hlen : length (N_of_ascii <$> bytes s) = 32%nat) by (rewrite length_fmap, length_bytes; lia).
  revert Hlen. generalize (N_of_ascii <$> bytes s). intros l Hlen.
  do 32 (destruct l as [|? l]; [done|]). by destruct l.
Qed.

(** ** Fragments *)
Lemma unhex_upper a :
  unhex (upper_hex (N_of_ascii a / 16)) = Some (N_of_ascii a / 16)%N /\
  unhex (upper_hex (N_of_ascii a mod 16)) = Some (N_of_ascii a mod 16)%N.
Proof. by destruct a as [[] [] [] [] [] [] [] []]. Qed.
Lemma unescaped_percent a : shouldEscape a = false -> a <> "%"%char.
Proof. intros Ha ->. by vm_compute in Ha. Qed.
Lemma unescape_cons a l : a <> "%"%char -> unescape false (a :: l) = cons a <$> unescape false l.
Proof. intros Ha. cbn. apply Ascii.eqb_neq in Ha as ->. by destruct (unescape false l). Qed.
Lemma unescape_escape l : unescape false (escape l) = Some l.
Proof.
  induction l as [|a l IH]; [done|]. cbn [escape]. destruct (shouldEscape a) eqn:E.
  - cbn [unescape]. rewrite Ascii.eqb_refl. destruct (unhex_upper a) as [-> ->]. cbn. rewrite IH. cbn.
    replace (N_of_ascii a / 16 * 16 + N_of_ascii a mod 16)%N with (N_of_ascii a);
      [by rewrite ascii_N_embedding | rewrite (N.div_mod (N_of_ascii a) 16) at 1; lia].
  - rewrite unescape_cons by (by apply unescaped_percent). by rewrite IH.
Qed.
Lemma unescape_plain l : Forall (fun a => a <> "%"%char) l -> unescape false l = Some l.
Proof. induction 1 as [|a l Ha _ IH]; [done|]. rewrite unescape_cons by done. by rewrite IH. Qed.
Lemma unescape_app l k d : Forall (fun a => a <> "%"%char) k ->
  unescape false l = Some d -> unescape false (l ++ k) = Some (d ++ k).
Proof.
  intros Hk. remember (length l) as n eqn:Hn. revert l d Hn. induction n as [n IH] using lt_wf_ind. intros l d Hn Hl.
  destruct l as [|a l]; [injection Hl as <-; by apply unescape_plain|]. cbn in Hn.
  destruct (decide (a = "%"%char)) as [->|Ha].
  - destruct l as [|h [|j l]]; try discriminate Hl. cbn in Hl, Hn |- *.
    destruct (unhex h) as [x|], (unhex j) as [y|]; try done. cbn in Hl |- *.
    destruct (unescape false l) as [r|] eqn:E; [|done]. injection Hl as <-.
    by rewrite (IH (length l) ltac:(lia) l r).
  - rewrite unescape_cons in Hl by done. apply fmap_Some in Hl as (r & Hr & ->).
    cbn [app]. rewrite unescape_cons by done. by rewrite (IH (length l) ltac:(lia) l r).
Qed.

#[local] Instance bytes_inj : Inj (=) (=) bytes.
Proof. intros a b E. by rewrite <- (of_bytes_bytes a), E, of_bytes_bytes. Qed.

Lemma str_nil_r s : s +:+ "" = s.
Proof. apply (inj bytes). by rewrite bytes_app, app_nil_r. Qed.

(** ** The fragment of an invitation *)
Definition pin (token root : string) : string := token +:+ ".e2ee." +:+ EncodeToString root.
Definition auto (secret workspace : string) : string := ".auto." +:+ EncodeToString secret +:+ "." +:+ EncodeToString workspace.
Definition dotless (s : string) : Prop := "."%char ∉ bytes s.

Lemma encoded_dotless s : "."%char ∉ bytes (EncodeToString s).
Proof. intros Hin. pose proof (encode_alphabet s) as Hf. rewrite Forall_forall in Hf. apply Hf, alphabet_spec in Hin. tauto. Qed.
Lemma encoded_plain s : Forall (fun c => c <> "%"%char) (bytes (EncodeToString s)).
Proof. eapply Forall_impl; [apply encode_alphabet|]. intros a Ha%alphabet_spec. tauto. Qed.

Lemma cut_pin token root : dotless token -> Cut (pin token root) ".e2ee." = Some (token, EncodeToString root).
Proof.
  intros Ht. unfold Cut, pin. rewrite !bytes_app. change (bytes ".e2ee.") with ("."%char :: bytes "e2ee.").
  rewrite cut_found by done. cbn. by rewrite !of_bytes_bytes.
Qed.
(** Only what follows the key can be taken for the automatic part. *)
Lemma cut_auto_bytes e l : "."%char ∉ e -> length e = 43%nat ->
  cut_bytes (bytes ".auto.") (bytes ".e2ee." ++ e ++ l) =
  '(before, after) ← cut_bytes (bytes ".auto.") l; Some (bytes ".e2ee." ++ e ++ before, after).
Proof.
  intros He Hl. assert (Hn : strip (bytes "auto.") (e ++ l) = None).
  { apply (strip_none "."); [vm_compute; set_solver|done|rewrite Hl; cbn; lia]. }
  pose proof (cut_skip "." (bytes "auto.") e l He) as Hs. cbn in Hn, Hs |- *. rewrite Hn, Hs.
  by destruct (cut_bytes _ l) as [[b r]|].
Qed.
Lemma cut_auto token root y : dotless token -> len root = 32 ->
  Cut (pin token root +:+ y) ".auto." = '(before, after) ← Cut y ".auto."; Some (pin token root +:+ before, after).
Proof.
  intros Ht Hr. unfold Cut, pin. rewrite !bytes_app, <- !(assoc (++)).
  pose proof (cut_skip "." (bytes "auto.") (bytes token) (bytes ".e2ee." ++ bytes (EncodeToString root) ++ bytes y) Ht) as Hs.
  change ("."%char :: bytes "auto.") with (bytes ".auto.") in Hs. rewrite Hs.
  rewrite cut_auto_bytes by (apply encoded_dotless || by apply encode_length).
  destruct (cut_bytes _ (bytes y)) as [[b r]|]; [|done]. cbn -[bytes]. do 2 f_equal.
  apply (inj bytes). rewrite !bytes_app, !bytes_of_bytes. by rewrite <- !(assoc (++)).
Qed.

Lemma length_pin token root : (String.length token < String.length (pin token root))%nat.
Proof. rewrite <- !length_bytes. unfold pin. rewrite !bytes_app, !length_app. cbn. lia. Qed.
Lemma pin_token token root : token <> pin token root.
Proof. intros E. pose proof (length_pin token root). rewrite <- E in *. lia. Qed.
Lemma pin_auto token root secret workspace : pin token root <> pin token root +:+ auto secret workspace.
Proof. intros E%(f_equal String.length). rewrite <- !length_bytes in E. unfold auto in E. rewrite !bytes_app, !length_app in E. change (length (bytes ".auto.")) with 6%nat in E. lia. Qed.

Lemma cut_automatic token root secret workspace : dotless token -> len root = 32 ->
  Cut (pin token root +:+ auto secret workspace) ".auto." = Some (pin token root, EncodeToString secret +:+ "." +:+ EncodeToString workspace).
Proof.
  intros Ht Hr. rewrite cut_auto by done. unfold Cut, auto. rewrite bytes_app.
  pose proof (cut_found "." (bytes "auto.") [] (bytes (EncodeToString secret +:+ "." +:+ EncodeToString workspace)) ltac:(set_solver)) as Hc.
  cbn [app] in Hc. change ("."%char :: bytes "auto." ++ ?k) with (bytes ".auto." ++ k) in Hc.
  change ("."%char :: bytes "auto.") with (bytes ".auto.") in Hc. rewrite Hc. cbn.
  rewrite of_bytes_bytes. do 2 f_equal. apply (inj bytes). by rewrite bytes_app, app_nil_r.
Qed.
Lemma split_dotless l : "."%char ∉ l -> split_bytes "." l = [l].
Proof.
  induction l as [|a l IH]; [done|]. intros [Ha Hl]%not_elem_of_cons. cbn. rewrite IH by done.
  by destruct (Ascii.eqb_spec a "."); [congruence|].
Qed.
Lemma split_two l k : "."%char ∉ l -> "."%char ∉ k -> split_bytes "." (l ++ "."%char :: k) = [l; k].
Proof.
  intros Hl Hk. induction l as [|a l IH]; cbn; [by rewrite split_dotless|].
  apply not_elem_of_cons in Hl as [Ha Hl]. rewrite IH by done.
  by destruct (Ascii.eqb_spec a "."); [congruence|].
Qed.

Section Addresses.
Context {base : Type} (base_url : base -> url) (parse_base : string -> option base) (base_string : base -> string).
#[local] Notation Parse := (Parse parse_base).
#[local] Notation address_string := (address_string base_string).
#[local] Notation connectAddress := (connectAddress base_url parse_base).
#[local] Notation admissionFragment := (admissionFragment parse_base base_string).
#[local] Notation cryptoJoinAddress := (cryptoJoinAddress parse_base base_string).
#[local] Notation cryptoInvite := (cryptoInvite parse_base base_string).

(** A share address is printed so that it reads back, and the sign that starts the fragment is
    escaped elsewhere. *)
Definition prints (b : base) : Prop := parse_base (base_string b) = Some b /\ "#"%char ∉ bytes (base_string b).
Hypothesis share_prints : forall s b, parse_base s = Some b -> u_User (base_url b) = false -> u_Path (base_url b) = "/join" -> prints b.

(** The raw fragment of a parsed address stands for its fragment. *)
Lemma Parse_raw s a : Parse s = Some a ->
  parse_base (default (s, "") (Cut s "#")).1 = Some (ad_Base a) /\
  (ad_Raw a = "" \/ unescape false (bytes (ad_Raw a)) = Some (bytes (ad_Fragment a))).
Proof.
  unfold Addresses.Parse. destruct (default _ _) as [u f]. cbn. destruct (parse_base u) as [b|]; cbn; [|done].
  case_bool_decide; [intros [= <-]; auto|]. destruct (unescape false (bytes f)) as [d|] eqn:E; cbn; [|done].
  intros [= <-]. cbn. split; [done|]. case_bool_decide; [auto|]. right. by rewrite bytes_of_bytes.
Qed.
Lemma escaped_reads (a : address base) : unescape false (bytes (EscapedFragment a)) = Some (bytes (ad_Fragment a)).
Proof.
  unfold EscapedFragment. test E; [by bool_simpl|].
  clear E. case_bool_decide as Hs; [by rewrite Hs|]. by rewrite bytes_of_bytes, unescape_escape.
Qed.
(** With another fragment than the one parsed, the default escape is printed. *)
Lemma escaped_default (a : address base) f : (ad_Raw a = "" \/ unescape false (bytes (ad_Raw a)) = Some (bytes (ad_Fragment a))) ->
  f <> ad_Fragment a -> EscapedFragment (with_fragment f a) = if bool_decide (f = "*") then "*" else of_bytes (escape (bytes f)).
Proof.
  intros Hr Hf. unfold EscapedFragment. cbn [with_fragment ad_Raw ad_Fragment].
  test E; [|done]. exfalso. apply Hf. bool_simpl.
  destruct Hr as [Hr|Hr]; [done|]. assert (Hb : bytes f = bytes (ad_Fragment a)) by congruence.
  by rewrite <- (of_bytes_bytes f), Hb, of_bytes_bytes.
Qed.

(** Reading back what is printed, with a plain text after it. *)
Lemma parse_string (a : address base) y : prints (ad_Base a) -> ad_Fragment a <> "" ->
  Forall (fun c => c <> "%"%char) (bytes y) ->
  exists r, Parse (address_string a +:+ y) = Some (mkAddress (ad_Base a) (ad_Fragment a +:+ y) r).
Proof.
  intros [Hp Hh] Hf Hy. unfold Addresses.Parse, Addresses.address_string.
  rewrite (bool_decide_eq_false_2 _ Hf).
  assert (Hc : Cut ((base_string (ad_Base a) +:+ ("#" +:+ EscapedFragment a)) +:+ y) "#"
               = Some (base_string (ad_Base a), EscapedFragment a +:+ y)).
  { unfold Cut. change (bytes "#") with ["#"%char]. rewrite !bytes_app. rewrite <- (assoc (++)).
    change (bytes "#") with ["#"%char]. rewrite <- (assoc (++)), cut_found by done. cbn.
    by rewrite of_bytes_bytes, <- bytes_app, of_bytes_bytes. }
  rewrite Hc. cbn [default from_option id]. rewrite Hp. cbn.
  pose proof (unescape_app _ (bytes y) _ Hy (escaped_reads a)) as Hu. rewrite <- !bytes_app in Hu.
  rewrite bool_decide_eq_false_2.
  - rewrite Hu. cbn. rewrite of_bytes_bytes. eauto.
  - intros He. rewrite He in Hu. cbn in Hu. apply Hf. destruct (ad_Fragment a); [done|]. by rewrite bytes_app in Hu.
Qed.

Lemma parse_printed (a : address base) : prints (ad_Base a) -> ad_Fragment a <> "" ->
  exists r, Parse (address_string a) = Some (mkAddress (ad_Base a) (ad_Fragment a) r).
Proof.
  intros Hp Hf. destruct (parse_string a "" Hp Hf) as [r E]; [by constructor|]. rewrite !str_nil_r in E. eauto.
Qed.

(** ** Issuing and reading *)
(** The printed form of an address with another fragment than it was parsed with. *)
Lemma string_default (a : address base) f : (ad_Raw a = "" \/ unescape false (bytes (ad_Raw a)) = Some (bytes (ad_Fragment a))) ->
  f <> ad_Fragment a -> address_string (with_fragment f a) = address_string (mkAddress (ad_Base a) f "").
Proof.
  intros Hr Hf. unfold Addresses.address_string. rewrite escaped_default by done. cbn.
reflexivity.
Qed.

Lemma read_pinned x p s w b token root r : admissionFragment x = Ok (p, s, w) ->
  Parse p = Some (mkAddress b (pin token root) r) -> dotless token -> token <> "" -> len root = 32 ->
  cryptoJoinAddress x = Ok (address_string (mkAddress b token ""), root).
Proof.
  intros Hx Hp Hd Ht Hr. pose proof (Parse_raw _ _ Hp) as [_ Hraw]. unfold Addresses.cryptoJoinAddress. rewrite Hx, Hp. cbn [ad_Fragment].
  rewrite cut_pin by done. rewrite decode_encode, Hr. cbn [negb orb Z.eqb]. rewrite (bool_decide_eq_false_2 _ Ht).
  rewrite string_default; [done|done|]. apply pin_token.
Qed.


Lemma admission_automatic (a : address base) token root secret workspace :
  prints (ad_Base a) -> ad_Fragment a = pin token root -> dotless token -> len root = 32 -> len secret = 32 ->
  0 < len workspace <= 128 ->
  admissionFragment (automatic_invite (address_string a) secret workspace)
  = Ok (address_string (mkAddress (ad_Base a) (pin token root) ""), secret, workspace).
Proof.
  intros Hp Hf Ht Hr Hs Hw. unfold automatic_invite.
  change (".auto." +:+ EncodeToString secret +:+ "." +:+ EncodeToString workspace) with (auto secret workspace).
  destruct (parse_string a (auto secret workspace)) as [r E]; [done| | |].
  { rewrite Hf. pose proof (length_pin token root). intros E. rewrite E in *. cbn in *. lia. }
  { unfold auto. rewrite !bytes_app. repeat apply Forall_app_2; try apply encoded_plain; by repeat constructor. }
  unfold Addresses.admissionFragment. rewrite E. pose proof (Parse_raw _ _ E) as [_ Hraw]. cbn [ad_Fragment ad_Base ad_Raw] in *.
  rewrite Hf, cut_automatic by done. rewrite Hf in Hraw.
  assert (Hsp : Split (EncodeToString secret +:+ "." +:+ EncodeToString workspace) "." = [EncodeToString secret; EncodeToString workspace]).
  { unfold Split. rewrite !bytes_app. change (bytes ".") with ["."%char]. cbn [app].
    rewrite split_two by apply encoded_dotless. cbn. by rewrite !of_bytes_bytes. }
  rewrite Hsp. unfold contains. rewrite cut_pin by done. cbn [negb].
  rewrite !decode_encode, Hs. replace (_ || _ || _) with false by (symmetry; rewrite !orb_false_iff; lia).
  rewrite string_default; [done|done|]. apply pin_auto.
Qed.

Lemma connect_parsed raw fallback server token : raw <> "" -> connectAddress raw fallback = Ok (server, token) ->
  exists a, Parse raw = Some a /\ token = ad_Fragment a /\ token <> "" /\ prints (ad_Base a) /\
    forall clean r, clean <> "" -> Parse clean = Some (mkAddress (ad_Base a) token r) -> connectAddress clean fallback = Ok (server, token).
Proof using share_prints.
  intros Hne. unfold Addresses.connectAddress. rewrite (bool_decide_eq_false_2 _ Hne).
  destruct (Parse raw) as [a|] eqn:E; [|done]. test Hg; [done|].
  assert (Hs : u_User (base_url (ad_Base a)) = false /\ u_Path (base_url (ad_Base a)) = "/join" /\ ad_Fragment a <> "")
    by (clear -Hg; bool_simpl; done). destruct Hs as (Hu & Hj & Hf).
  destruct (ParseQuery _) as [q|] eqn:Hq; [|done]. test Hr; [done|]. destruct (validateServer _) eqn:Hv; [done|].
  intros [= <- <-]. exists a. apply Parse_raw in E as Hb. destruct Hb as [Hb _].
  split_and!; [done..|by eapply share_prints|]. intros clean r Hc Hp. rewrite (bool_decide_eq_false_2 _ Hc), Hp. cbn [ad_Base ad_Fragment].
  by rewrite Hg, Hq, Hr, Hv.
Qed.

(** C24. A join reads out of an invitation what the creator put in. From a share address with the
    server's token, pinning the creator's key and adding a secret for automatic admission give
    addresses from which the joining device recovers exactly the key, the secret and the
    workspace; and what it joins with is an address to the same server whose fragment is the
    token alone, so neither the key nor the secret reaches the server with it. (For a token
    without dots, keys and secrets of 32 bytes, and a workspace identifier of 1 to 128 bytes.) *)
Theorem invitation_roundtrip raw fallback server token root secret workspace :
  raw <> "" -> connectAddress raw fallback = Ok (server, token) -> dotless token ->
  len root = 32 -> len secret = 32 -> 0 < len workspace <= 128 ->
  let pinned := cryptoInvite raw root in
  exists clean, connectAddress clean fallback = Ok (server, token) /\
    admissionFragment pinned = Ok (pinned, "", "") /\ cryptoJoinAddress pinned = Ok (clean, root) /\
    cryptoJoinAddress (automatic_invite pinned secret workspace) = Ok (clean, root) /\
    exists base, admissionFragment (automatic_invite pinned secret workspace) = Ok (base, secret, workspace).
Proof using share_prints.
  intros Hne Hc Ht Hr Hs Hw pinned. destruct (connect_parsed _ _ _ _ Hne Hc) as (a & Ha & Hf & Hn & Hp & Hagain).
  assert (Epin : pinned = address_string (with_fragment (pin token root) a)).
  { unfold pinned, Addresses.cryptoInvite. rewrite Ha, <- Hf, (bool_decide_eq_false_2 _ Hn).
    unfold Cut. change (bytes ".e2ee.") with ("."%char :: bytes "e2ee."). by rewrite cut_none. }
  assert (Hpn : pin token root <> "") by (pose proof (length_pin token root) as Hl; intros E; rewrite E in Hl; cbn in Hl; lia).
  destruct (parse_printed (with_fragment (pin token root) a) Hp Hpn) as [r1 E1]. rewrite <- Epin in E1.
  destruct (parse_printed (mkAddress (ad_Base a) token "") Hp Hn) as [r2 E2].
  destruct (parse_printed (mkAddress (ad_Base a) (pin token root) "") Hp Hpn) as [r3 E3].
  assert (Hadm : admissionFragment pinned = Ok (pinned, "", "")).
  { unfold Addresses.admissionFragment. rewrite E1. cbn [ad_Fragment with_fragment]. by rewrite <- (str_nil_r (pin token root)), cut_auto. }
  pose proof (admission_automatic (with_fragment (pin token root) a) token root secret workspace Hp eq_refl Ht Hr Hs Hw) as Hauto.
  rewrite <- Epin in Hauto. cbn [with_fragment ad_Base] in Hauto, E1.
  exists (address_string (mkAddress (ad_Base a) token "")). split_and!; [|done|by eapply read_pinned..|eauto].
  eapply Hagain, E2. intros E. apply (f_equal bytes) in E. unfold Addresses.address_string in E. cbn [ad_Fragment ad_Base] in E.
  rewrite (bool_decide_eq_false_2 _ Hn), bytes_app in E. by apply app_nil in E as [_ E].
Qed.
End Addresses.

(** ** At a concrete address *)
Definition demo_base (b : bool) : url := Protocol.mkURL "https" "tincan.dev" "tincan.dev" false (if b then "/join" else "") "" false "".
Definition demo_print (b : bool) : string := if b then "https://tincan.dev/join" else "https://tincan.dev".
Definition demo_parse (s : string) : option bool :=
  if bool_decide (s = demo_print true) then Some true else if bool_decide (s = demo_print false) then Some false else None.
Lemma demo_prints s b : demo_parse s = Some b -> u_User (demo_base b) = false -> u_Path (demo_base b) = "/join" ->
  prints demo_parse demo_print b.
Proof. intros _ _. destruct b; [|done]. intros _. split; [done|]. apply (bool_decide_unpack _). by vm_compute. Qed.
Definition demo_link : string := "https://tincan.dev/join#inv_4f1a".
Definition demo_root : string := "0123456789abcdef0123456789ABCDEF".
Definition demo_secret : string := "abcdefghijklmnopqrstuvwxyz012345".

Lemma invitation_roundtrip_witness :
  let pinned := cryptoInvite demo_parse demo_print demo_link demo_root in
  exists clean, connectAddress demo_base demo_parse clean "https://tincan.dev" = Ok ("https://tincan.dev", "inv_4f1a") /\
    admissionFragment demo_parse demo_print pinned = Ok (pinned, "", "") /\ cryptoJoinAddress demo_parse demo_print pinned = Ok (clean, demo_root) /\
    cryptoJoinAddress demo_parse demo_print (automatic_invite pinned demo_secret "ws_1") = Ok (clean, demo_root) /\
    exists base, admissionFragment demo_parse demo_print (automatic_invite pinned demo_secret "ws_1") = Ok (base, demo_secret, "ws_1").
Proof.
  apply (invitation_roundtrip demo_base demo_parse demo_print demo_prints demo_link "https://tincan.dev" "https://tincan.dev"
           "inv_4f1a" demo_root demo_secret "ws_1").
  - discriminate.
  - vm_compute. reflexivity.
  - apply (bool_decide_unpack _). vm_compute. exact I.
  - reflexivity.
  - reflexivity.
  - vm_compute. split; [reflexivity|discriminate].
Defined.
