(* ===== verification/Rooms.v ===== *)
(** * Creating and joining encrypted rooms

    [createLocalEncryptedRoom], [createEncryptedRoom] ([room_encryption.go]),
    [joinIndependentRoom] ([room_crypto_routes.go]), with [newCrypto], [cryptoConnectionInput]
    ([encryption.go]) and [prepareAdmissionJoin] ([encryption_admission.go]). The connection's
    configuration is changed in memory and saved in between; its file is [cn_saved], and the
    outcomes of saving it are a script. What [age] and [crypto/ed25519] generate is taken from
    a script, too. *)
From S2P Require Import Prelude GoStrings Json Types Crypto Roster Metadata History Inbox.
From S2P Require Import Encryption Mls Groups Messages Admission Routes Broker Addresses.

(** ** A new identity ([newCrypto]) *)
(** The directory and lock of the path, the generated keys, the randomness of the key package,
    the history key and its file. *)
Record key_script := mkKeys {
  ks_lock : option string; ks_identity : result Identity; ks_mls : string; ks_key : result string; ks_file : option string }.

Definition new_state (i : Identity) (root server mls package : string) (creator : bool) : cryptoState :=
  mkCrypto "" "" "" [] ∅ ∅ creator ∅ None i root server "" "" 0 "" 2 package mls "" 0 0 zero_roster None ∅ ∅ ∅ ∅ ∅ 0 0.

Section Rooms.
Context `{!Primitives}.
Variable ToLower : string -> string.

Definition errExists : string := "encryption identity already exists; resume the saved connection".
Definition with_group (path : string) (g : group) (saves : list (option string)) (w : world) : world :=
  mkWorld (w_state w) (w_disk w) (w_history w) saves (w_net w) (w_random w) (w_now w) (w_log w) (w_files w) (<[path := g]> (w_groups w)).
Definition drop_saves (saves : list (option string)) (w : world) : world :=
  mkWorld (w_state w) (w_disk w) (w_history w) saves (w_net w) (w_random w) (w_now w) (w_log w) (w_files w) (w_groups w).
(** The state of the new device; without a pinned root it is the root itself. *)
Definition new_device (ks : key_script) (server root : string) : result (cryptoState * string) :=
  i ← ks_identity ks;
  d ← identity_device i "";
  let creator := bool_decide (root = "") in
  let root := if creator then dev_SigningKey d else root in
  keys ← mls (ks_mls ks) (mkMLSRequest "key_package" "" (id_SigningKey i) "" "" "" "");
  key ← ks_key ks;
  match ks_file ks with
  | Some e => Err e
  | None => Ok (new_state i root server (rp_State keys) (rp_Data keys) creator, key)
  end.
Definition newCrypto (ks : key_script) (path server root : string) : M unit := fun w =>
  match ks_lock ks with
  | Some e => (Err e, w)
  | None =>
      if bool_decide (is_Some (w_groups w !! path)) then (Err errExists, w) else
      match new_device ks server root with
      | Err e => (Err e, w)
      | Ok (st, key) =>
          match w_saves w with
          | Some e :: l => (Err e, drop_saves l w)
          | l => (Ok tt, with_group path (mkGroup st (Ok key) no_files) (tail l) w)
          end
      end
  end.

(** ** What a connection request carries ([cryptoConnectionInput]) *)
Definition proof_json (p : AdmissionProof) : json :=
  JObj [("invite_hash", JStr (ap_InviteHash p)); ("workspace_id", JStr (ap_WorkspaceID p)); ("mac", bytes_json (ap_MAC p))].
Definition connection_input (invite : string) : M (list (string * json)) :=
  s ← gets id;
  d ← lift (device_of s "");
  if bool_decide (invite = "") then mret [("device", device_json d)] else
  proof ← lift (JoinProof (cs_Identity s) invite d);
  mret ([("device", device_json d); ("root", bytes_json (cs_Root s))]
        ++ match cs_JoinAdmission s with Some p => [("admission", proof_json p)] | None => [] end
        ++ [("proof", bytes_json proof)]).
Definition cryptoConnectionInput (c : Config) (invite : string) : M (list (string * json)) := locked c (connection_input invite).

Section Addresses.
Context {base : Type} (base_url : base -> Protocol.url) (parse_base : string -> option base) (base_string : base -> string).
#[local] Notation connectAddress := (connectAddress base_url parse_base).
#[local] Notation cryptoJoinAddress := (cryptoJoinAddress parse_base base_string).

(** [issueCryptoInvite] of [Admission], with the address it parses and the one it returns. *)
Definition issue_address (raw : string) (expires : Z) (roomID : string) : M string :=
  s ← gets id;
  let pinned := cryptoInvite parse_base base_string raw (cs_Root s) in
  let token := '(clean, _) ← cryptoJoinAddress pinned; '(_, token) ← connectAddress clean (cs_Server s); Ok token in
  secret ← issueCryptoInvite token expires roomID;
  mret (match secret with Some secret => automatic_invite pinned secret (cs_WorkspaceID s) | None => pinned end).

(** The proof for automatic admission, from the secret of the invitation ([prepareAdmissionJoin]). *)
Definition admit_with (secret workspace token : string) : M unit :=
  s ← gets id;
  d ← lift (device_of s "");
  let hash := admissionInviteHash token in
  modify (put_JoinAdmission (Some (mkAdmissionProof hash workspace (AdmissionMAC secret (cs_Root s) workspace hash d)))).
Definition prepareAdmissionJoin (c : Config) (raw : string) : M unit :=
  '(_, secret, workspace) ← lift (admissionFragment parse_base base_string raw);
  if bool_decide (secret = "") then mret tt else
  '(clean, _) ← lift (cryptoJoinAddress raw);
  '(_, token) ← lift (connectAddress clean (cfg_Server c));
  locked c (admit_with secret workspace token).
End Addresses.

(** ** The configuration of the connection *)
(** [cn_saved]: what this call has saved, if anything. *)
Record room_session := mkConn { cn_config : Config; cn_saved : option Config; cn_ios : list (option string); cn_world : world }.
Definition R (A : Type) : Type := room_session -> result A * room_session.
#[local] Instance R_ret : MRet R := fun _ a s => (Ok a, s).
#[local] Instance R_bind : MBind R := fun _ _ f m s =>
  match m s with (Ok a, s) => f a s | (Err e, s) => (Err e, s) end.
Definition crypto {A} (m : M A) : R A := fun s =>
  let '(r, w) := m (cn_world s) in (r, mkConn (cn_config s) (cn_saved s) (cn_ios s) w).
Definition config : R Config := fun s => (Ok (cn_config s), s).
Definition update (f : Config -> Config) : R unit := fun s => (Ok tt, mkConn (f (cn_config s)) (cn_saved s) (cn_ios s) (cn_world s)).
Definition throw {A} (e : string) : R A := fun s => (Err e, s).
Definition catch {A} (m : R A) : R (result A) := fun s => let '(r, s) := m s in (Ok r, s).
(** Saving the configuration; [locate] notes the path of the file in it ([save] of the plugin). *)
Definition save_config (locate : Config -> Config) : R unit := fun s =>
  let c := locate (cn_config s) in
  match cn_ios s with
  | Some e :: l => (Err e, mkConn c (cn_saved s) l (cn_world s))
  | l => (Ok tt, mkConn c (Some c) (tail l) (cn_world s))
  end.
Variable persist : R unit.

Definition set_Pending (v : option pendingRoomCreation) (c : Config) : Config :=
  mkConfig v (cfg_CryptoRooms c) (cfg_EncryptionRoom c) (cfg_ConnectionPath c) (cfg_CryptoPath c) (cfg_PendingJoin c) (cfg_Server c) (cfg_Token c).
(** The route to the keys of a new room; the first one is the connection's own. *)
Definition add_room (room path : string) (c : Config) : Config :=
  mkConfig (cfg_PendingEncryptedRoom c) (<[room := path]> (cfg_CryptoRooms c)) (cfg_EncryptionRoom c) (cfg_ConnectionPath c)
    (if bool_decide (cfg_CryptoPath c = "") then path else cfg_CryptoPath c) (cfg_PendingJoin c) (cfg_Server c) (cfg_Token c).

(** ** Creating a room ([createLocalEncryptedRoom]) *)
Record room_script := mkRoomScript { rs_room : string; rs_device : string; rs_keys : key_script }.
Definition device_path (base random : string) : string := base +:+ ".rooms/" +:+ ID "device_" random +:+ ".json".

Definition begin_creation (sc : room_script) (path name : string) : R pendingRoomCreation :=
  c ← config;
  match cfg_PendingEncryptedRoom c with
  | Some p => mret p
  | None =>
      let p := mkPendingRoomCreation (ID "rm_mls_" (rs_room sc)) name (device_path path (rs_device sc)) in
      crypto (newCrypto (rs_keys sc) (prc_Path p) (cfg_Server c) "");;
      update (set_Pending (Some p));;
      persist;;
      mret p
  end.
Definition creation_request (p : pendingRoomCreation) (input : list (string * json)) : request :=
  RawCall "POST" "/e2ee/rooms" (Some (JObj ([("name", JStr (prc_Name p)); ("room_id", JStr (prc_ID p))] ++ input))).

Definition plain_channel (ch : channelInfo) : bool :=
  bool_decide (ch_Mode ch = "standard") && bool_decide (RoomForChannel (ch_ID ch) = "") && negb (HasPrefix (ch_ID ch) "ch_e2ee_").
(** Under the new room's keys: what is plain already is noted and saved before the group starts. *)
Definition start_group (room : string) : M unit :=
  modify (put_RoomID room);;
  channels ← ask GetChannels as_channels;
  modify (fun s => put_InitialPlainChannels (cs_InitialPlainChannels s ++ (ch_ID <$> List.filter plain_channel channels)) s);;
  save_state;;
  ensureCrypto ToLower.

(** What becomes of the server's answer; the error of the setup is returned beside it. *)
Definition settle_creation (p : pendingRoomCreation) (candidate : Config) (v : result answer) : R (answer * option string) :=
  match v with
  | Err e => (if HasPrefix e "HTTP 4" then update (set_Pending None);; persist else mret tt);; throw e
  | Ok a =>
      match as_room a with
      | Err e => throw e
      | Ok room =>
          if negb (bool_decide (room = prc_ID p)) then throw "room creation identity changed" else
          update (add_room room (prc_Path p) ∘ set_Pending None);;
          persist;;
          r ← catch (crypto (locked candidate (start_group room)));
          mret (a, match r with Ok _ => None | Err e => Some e end)
      end
  end.
Definition request_creation (p : pendingRoomCreation) : R (answer * option string) :=
  c ← config;
  let candidate := set_Crypto (prc_Path p) "" (cfg_CryptoRooms c) c in
  input ← crypto (cryptoConnectionInput candidate "");
  v ← catch (crypto (call (creation_request p input)));
  settle_creation p candidate v.
Definition createLocalEncryptedRoom (sc : room_script) (path name : string) : R (answer * option string) :=
  p ← begin_creation sc path name;
  if negb (bool_decide (prc_Name p = name))
  then throw ("finish the pending encrypted room creation by retrying its original name: " +:+ prc_Name p)
  else request_creation p.

(** ** Joining a room ([joinIndependentRoom]) *)
Section Join.
Context {base : Type} (base_url : base -> Protocol.url) (parse_base : string -> option base) (base_string : base -> string).

Definition join_base (configPath : string) (c : Config) : string :=
  if negb (bool_decide (cfg_CryptoPath c = "")) then cfg_CryptoPath c
  else (if bool_decide (cfg_ConnectionPath c = "") then configPath else cfg_ConnectionPath c) +:+ ".e2ee.json".
Definition joinIndependentRoom (sc : room_script) (configPath raw : string) : R (string * string) :=
  c ← config;
  '(clean, root) ← crypto (lift (cryptoJoinAddress parse_base base_string raw));
  if bool_decide (root = "") then throw "use the encrypted invitation from this room's creator" else
  '(server, invite) ← crypto (lift (connectAddress base_url parse_base clean (cfg_Server c)));
  if negb (bool_decide (server = cfg_Server c)) then throw "invitation belongs to another server" else
  let candidate := set_Crypto (device_path (join_base configPath c) (rs_device sc)) "" (cfg_CryptoRooms c) c in
  crypto (newCrypto (rs_keys sc) (cfg_CryptoPath candidate) (cfg_Server c) root);;
  crypto (prepareAdmissionJoin base_url parse_base base_string candidate raw);;
  name ← crypto (ask (RawCall "GET" "/me" None) as_agent);
  input ← crypto (cryptoConnectionInput candidate invite);
  '(room, receipt) ← crypto (ask (RawCall "POST" "/e2ee/join-existing"
      (Some (JObj ([("invite", JStr invite); ("name", JStr name); ("profile", JStr "")] ++ input)))) as_admission);
  if negb (HasPrefix room "rm_mls_") || bool_decide (receipt = "") then throw "incomplete room admission response" else
  crypto (locked candidate (modify (put_RoomJoinReceipt receipt ∘ put_RoomID room)));;
  update (add_room room (cfg_CryptoPath candidate));;
  persist;;
  mret (room, "The room admission is saved. The creator can approve this device; then use this same connection and room_id.").
End Join.
End Rooms.

(** ** In the plugin ([createEncryptedRoom], and the call of [joinIndependentRoom])

    [c] is the connection as the tool call loaded it; it is saved whole, over whatever the vault
    holds by then. *)
Definition crypto_path (root handle : string) : string := root +:+ "/" +:+ handle +:+ ".e2ee.json".
Definition in_plugin {A} (root : string) (m : R unit -> R A) (ios : list (option string)) (meanwhile : vault -> vault)
    (v : vault) (c : pluginConnection) (w : world) : result A * vault * world :=
  let '(r, s) := m (save_config (with_path (connection_path root (pc_Handle c)))) (mkConn (pc_Config c) None ios w) in
  (r, match cn_saved s with Some config => <[pc_Handle c := Saved (put_Config config c)]> (meanwhile v) | None => meanwhile v end, cn_world s).
Definition createEncryptedRoom `{!Primitives} (ToLower : string -> string) (root : string) (sc : room_script) (name : string)
    (ios : list (option string)) (meanwhile : vault -> vault) (v : vault) (c : pluginConnection) (w : world) :=
  in_plugin root (fun persist => createLocalEncryptedRoom ToLower persist sc (crypto_path root (pc_Handle c)) name) ios meanwhile v c w.
