(* ===== verification/RoomsTheorems.v ===== *)
(** * Creating and joining encrypted rooms: properties

    An interrupted creation that is retried, with nothing else saved in between, is the same
    request under the same keys; what the server grants is routed to those keys. Saving a
    connection that was loaded earlier loses what was saved in between. *)
From S2P Require Import Prelude GoStrings Json Types Crypto Toy Roster RosterTheorems Metadata History Inbox.
From S2P Require Import Encryption Mls MlsFacts Groups Messages Invariants Admission Scenario Routes Broker Addresses Rooms.

(** ** Which requests create rooms *)
Definition creates (q : request) : Prop :=
  match q with RawCall method path _ => method = "POST" /\ path = "/e2ee/rooms" | _ => False end.
#[local] Instance creates_dec q : Decision (creates q).
Proof. destruct q; apply _. Defined.
Definition creations (l : list request) : list request := filter creates l.

(** Routine requests create nothing. *)
Definition creates_as (before : list request) (w : world) : Prop := creations (w_log w) = before.
#[local] Instance creates_stable before : Stable (creates_as before).
Proof.
  unfold creates_as. split.
  - by intros f _ w.
  - intros w Hw. unfold save_state. by destruct (w_saves w) as [|[e|] l].
  - intros q Hq w Hw. unfold call. destruct (w_net w) as [|a l]; cbn; unfold creations in *; rewrite filter_app, Hw;
      by destruct q; cbn in *; rewrite ?app_nil_r.
  - intros w Hw. unfold random. by destruct (w_random w).
Qed.

Section Rooms.
Context `{!Primitives}.
Variables (ToLower : string -> string) (locate : Config -> Config).
Hypothesis locate_keeps : forall c, cfg_PendingEncryptedRoom (locate c) = cfg_PendingEncryptedRoom c /\
  cfg_CryptoRooms (locate c) = cfg_CryptoRooms c.

(** Reading the device of a group leaves everything but the scripts as it was. *)
Lemma input_world c g w : cfg_CryptoPath c <> "" -> w_groups w !! cfg_CryptoPath c = Some g ->
  exists r w', cryptoConnectionInput c "" w = (r, w') /\ w_groups w' = w_groups w /\ w_log w' = w_log w /\ w_net w' = w_net w /\
    (forall v, r = Ok v -> exists d, device_of (gr_state g) "" = Ok d /\ v = [("device", device_json d)]).
Proof.
  clear. intros Hp Hg. unfold cryptoConnectionInput, locked. rewrite bool_decide_eq_false_2, Hg by done.
  destruct g as [s h f]. unfold withCrypto. cbv zeta. unfold enter at 1 2. cbn [w_disk gr_state].
  assert (Hsame : <[cfg_CryptoPath c := mkGroup s h f]> (w_groups w) = w_groups w) by by apply insert_id.
  destruct (identity_device _ _) as [d0|e]; [|do 2 eexists; split; [reflexivity|]; by cbn; rewrite Hsame].
  case_bool_decide; [do 2 eexists; split; [reflexivity|]; by cbn; rewrite Hsame|].
  unfold connection_input. cbn. unfold mbind, M_bind, lift, gets, save_state. cbn.
  destruct (device_of s "") as [d|e] eqn:Ed; cbn; destruct (w_saves w) as [|[e'|] l]; cbn;
    (do 2 eexists; split; [reflexivity|]; cbn; rewrite Hsame; split_and!; [done..|]; naive_solver).
Qed.

Definition device_request (p : pendingRoomCreation) (d : Device) : request := creation_request p [("device", device_json d)].
(** The next answer settles the creation: the server made the room, or refused it. *)
Definition answered (p : pendingRoomCreation) (net : list (result answer)) : bool :=
  match net with
  | Ok a :: _ => match as_room a with Ok id => bool_decide (id = prc_ID p) | Err _ => false end
  | Err e :: _ => HasPrefix e "HTTP 4"
  | [] => false
  end.

(** The attempt up to its request. *)
Lemma pending_creation sc path name p s : cfg_PendingEncryptedRoom (cn_config s) = Some p ->
  createLocalEncryptedRoom ToLower (save_config locate) sc path name s =
  if negb (bool_decide (prc_Name p = name))
  then (Err ("finish the pending encrypted room creation by retrying its original name: " +:+ prc_Name p), s)
  else request_creation ToLower (save_config locate) p s.
Proof.
  clear. intros Hp. unfold createLocalEncryptedRoom, begin_creation, mbind, R_bind, mret, R_ret, config. cbv beta iota.
  cbv beta iota. rewrite Hp. cbv beta iota. by destruct (negb _).
Qed.
Lemma request_spec p g s : prc_Path p <> "" -> w_groups (cn_world s) !! prc_Path p = Some g ->
  let c := cn_config s in
  exists w, w_groups w = w_groups (cn_world s) /\ w_log w = w_log (cn_world s) /\ w_net w = w_net (cn_world s) /\
  ((exists e, request_creation ToLower (save_config locate) p s = (Err e, mkConn c (cn_saved s) (cn_ios s) w)) \/
   exists d, device_of (gr_state g) "" = Ok d /\
     request_creation ToLower (save_config locate) p s =
     settle_creation ToLower (save_config locate) p (set_Crypto (prc_Path p) "" (cfg_CryptoRooms c) c) (call (device_request p d) w).1
       (mkConn c (cn_saved s) (cn_ios s) (call (device_request p d) w).2)).
Proof.
  clear. intros Hne Hg c.
  destruct (input_world (set_Crypto (prc_Path p) "" (cfg_CryptoRooms c) c) g (cn_world s) Hne Hg)
    as (r & w & Hi & Hgr & Hl & Hn & Hd). exists w. split_and!; [done..|].
  unfold request_creation, mbind, R_bind, config, crypto, catch. fold c. rewrite Hi. destruct r as [v|e].
  - right. destruct (Hd v eq_refl) as (d & Hdev & ->). exists d. split; [done|].
    fold (device_request p d). cbn. by destruct (call (device_request p d) w).
  - left. by exists e.
Qed.

(** ** An attempt whose answer does not settle the creation *)
Lemma settle_unanswered p candidate v l s : answered p (v :: l) = false ->
  exists e, settle_creation ToLower (save_config locate) p candidate v s = (Err e, s).
Proof.
  clear. unfold settle_creation. destruct v as [a|e]; cbn.
  - destruct (as_room a) as [id|e]; [|eexists; reflexivity]. intros ->. by eexists.
  - intros ->. eexists. reflexivity.
Qed.
(** Requests for the room [p] with the device of its keys, and no others. *)
Definition asks (p : pendingRoomCreation) (g : group) (l : list request) : Prop :=
  Forall (fun q => exists d, device_of (gr_state g) "" = Ok d /\ q = device_request p d) l.
Lemma asks_same p g d l : asks p g l -> device_of (gr_state g) "" = Ok d -> l = replicate (length l) (device_request p d).
Proof.
  clear. intros Hl Hd. induction Hl as [|q l (d' & Hd' & ->) _ IH]; [done|]. cbn. assert (d' = d) as -> by congruence. by f_equal.
Qed.
Lemma unanswered_attempt sc path name p g s r s' : cfg_PendingEncryptedRoom (cn_config s) = Some p -> prc_Path p <> "" ->
  w_groups (cn_world s) !! prc_Path p = Some g -> answered p (w_net (cn_world s)) = false ->
  createLocalEncryptedRoom ToLower (save_config locate) sc path name s = (r, s') ->
  (exists e, r = Err e) /\ cn_saved s' = cn_saved s /\ w_groups (cn_world s') = w_groups (cn_world s) /\
  exists l, asks p g l /\ creations (w_log (cn_world s')) = creations (w_log (cn_world s)) ++ l.
Proof.
  clear. intros Hp Hne Hg Ha. rewrite (pending_creation _ _ _ p) by done. destruct (negb _).
  { intros [= <- <-]. split_and!; [eauto|done|done|]. exists []. split; [constructor|by rewrite app_nil_r]. }
  destruct (request_spec p g s Hne Hg) as (w & Hgr & Hl & Hn & [[e ->] | (d & Hd & ->)]).
  { intros [= <- <-]. cbn. split_and!; [eauto|done..|]. exists []. split; [constructor|by rewrite app_nil_r, Hl]. }
  unfold call. rewrite Hn. intros Hs.
  assert (Hset : forall v l w1, answered p (v :: l) = false ->
    settle_creation ToLower (save_config locate) p (set_Crypto (prc_Path p) "" (cfg_CryptoRooms (cn_config s)) (cn_config s)) v (mkConn (cn_config s) (cn_saved s) (cn_ios s) w1) = (r, s') ->
    w_groups w1 = w_groups w -> w_log w1 = w_log w ++ [device_request p d] ->
    (exists e, r = Err e) /\ cn_saved s' = cn_saved s /\ w_groups (cn_world s') = w_groups (cn_world s) /\
    exists l, asks p g l /\ creations (w_log (cn_world s')) = creations (w_log (cn_world s)) ++ l).
  { intros v l w1 Hv Hr H1 H2. destruct (settle_unanswered p (set_Crypto (prc_Path p) "" (cfg_CryptoRooms (cn_config s)) (cn_config s)) v l
      (mkConn (cn_config s) (cn_saved s) (cn_ios s) w1) Hv) as [e He]. rewrite He in Hr. injection Hr as <- <-. cbn.
    split_and!; [eauto|done|congruence|]. exists [device_request p d]. split; [apply Forall_singleton; by exists d|].
    unfold creations. by rewrite H2, filter_app, Hl. }
  destruct (w_net (cn_world s)) as [|a l]; cbn [fst snd] in Hs.
  - by apply (Hset (Err "network unavailable") [] _ eq_refl Hs).
  - by apply (Hset a l _ Ha Hs).
Qed.

(** ** Attempts, one after the other *)
Record attempt := mkAttempt { at_script : room_script; at_name : string; at_ios : list (option string); at_around : surroundings }.
(** An attempt loads the connection; what it saved is what is there afterwards. *)
Definition attempted (path : string) (a : attempt) (c : Config) (w : world) : result (answer * option string) * Config * world :=
  let '(r, s) := createLocalEncryptedRoom ToLower (save_config locate) (at_script a) path (at_name a) (mkConn c None (at_ios a) (meet (at_around a) w)) in
  (r, default c (cn_saved s), cn_world s).
Fixpoint retried (path : string) (l : list attempt) (c : Config) (w : world) : Config * world :=
  match l with
  | [] => (c, w)
  | a :: l => let '(_, c, w) := attempted path a c w in retried path l c w
  end.
Definition unanswered (p : pendingRoomCreation) (a : attempt) : Prop := answered p (su_net (at_around a)) = false.

(** Nothing was asked for yet, or all that was is the pending room, with the device of its keys. *)
Definition one_creation (before : list request) (c : Config) (w : world) : Prop :=
  match cfg_PendingEncryptedRoom c with
  | None => creations (w_log w) = before
  | Some p => prc_Path p <> "" /\ exists g, w_groups w !! prc_Path p = Some g /\
      exists l, asks p g l /\ creations (w_log w) = before ++ l
  end.

Lemma pending_attempt path a p g c w : cfg_PendingEncryptedRoom c = Some p -> prc_Path p <> "" -> w_groups w !! prc_Path p = Some g ->
  unanswered p a -> exists w1 l, (attempted path a c w).1.2 = c /\ (attempted path a c w).2 = w1 /\ w_groups w1 !! prc_Path p = Some g /\
    asks p g l /\ creations (w_log w1) = creations (w_log w) ++ l.
Proof.
  clear. intros Hp Hne Hg Ha. unfold attempted. destruct (createLocalEncryptedRoom _ _ _ _ _ _) as [r s] eqn:E.
  apply (unanswered_attempt _ _ _ p g) in E as (_ & Hs & Hgr & l & Hl & Hn); [|done..]. cbn in Hs, Hgr, Hn |- *.
  exists (cn_world s), l. rewrite Hs, Hgr. done.
Qed.
Lemma newCrypto_world ks path server root w r w' : newCrypto ks path server root w = (r, w') ->
  w_log w' = w_log w /\ w_net w' = w_net w /\ (r = Ok tt -> exists g, w_groups w' !! path = Some g).
Proof.
  clear. unfold newCrypto. destruct (ks_lock ks); [by intros [= <- <-]|]. case_bool_decide; [by intros [= <- <-]|].
  destruct (new_device _ _ _) as [[st key]|e]; [|by intros [= <- <-]].
  destruct (w_saves w) as [|[e|] l]; intros [= <- <-]; (split_and!; [done..|]); try done; intros _; eexists; apply lookup_insert_eq.
Qed.
Lemma first_attempt path a c w : cfg_PendingEncryptedRoom c = None -> (forall p, unanswered p a) ->
  one_creation (creations (w_log w)) (attempted path a c w).1.2 (attempted path a c w).2.
Proof using locate_keeps.
  intros Hp Ha. unfold attempted. destruct (createLocalEncryptedRoom _ _ _ _ _ _) as [r s] eqn:E.
  set (p := mkPendingRoomCreation (ID "rm_mls_" (rs_room (at_script a))) (at_name a) (device_path path (rs_device (at_script a)))).
  set (w0 := meet (at_around a) w) in *.
  assert (prc_Path p <> "") as Hne by (clear; cbn; unfold device_path; destruct path; discriminate).
  destruct (newCrypto (rs_keys (at_script a)) (prc_Path p) (cfg_Server c) "" w0) as [k w1] eqn:Ek.
  destruct (newCrypto_world _ _ _ _ _ _ _ Ek) as (Hlog & Hnet & Hgroup).
  assert (forall r0 s0, begin_creation (save_config locate) (at_script a) path (at_name a) (mkConn c None (at_ios a) w0) = (r0, s0) ->
    (exists e, r0 = Err e /\ cn_saved s0 = None /\ w_log (cn_world s0) = w_log w0) \/
    (r0 = Ok p /\ cn_saved s0 = Some (cn_config s0) /\ cfg_PendingEncryptedRoom (cn_config s0) = Some p /\ cn_world s0 = w1 /\ k = Ok tt)) as Hbegin.
  { intros r0 s0. unfold begin_creation, mbind, R_bind, mret, R_ret, config, crypto, update, save_config. cbv beta iota. cbn [cn_config].
    rewrite Hp. cbv beta iota zeta. cbn [cn_world cn_config cn_saved cn_ios]. fold p. rewrite Ek. destruct k as [[]|e]; cbn [cn_world cn_config cn_saved cn_ios].
    - destruct (at_ios a) as [|[e|] ios]; cbn [cn_world cn_config cn_saved cn_ios]; intros [= <- <-]; [right|left; by exists e|right];
        (split_and!; [done..| |done|done]); cbn; by rewrite (proj1 (locate_keeps _)).
    - intros [= <- <-]. left. by exists e. }
  unfold createLocalEncryptedRoom in E. unfold mbind at 1, R_bind at 1 in E.
  destruct (begin_creation _ _ _ _ _) as [r0 s0] eqn:Eb. destruct (Hbegin _ _ eq_refl) as [(e & -> & Hs & Hl)|(-> & Hs & Hp0 & Hw & ->)].
  { injection E as <- <-. rewrite Hs. cbn [default]. unfold one_creation. cbn. rewrite Hp. by rewrite Hl. }
  destruct (Hgroup eq_refl) as [g Hg].
  assert (createLocalEncryptedRoom ToLower (save_config locate) (at_script a) path (at_name a) s0 = (r, s)) as E2.
  { rewrite (pending_creation _ _ _ p) by exact Hp0. cbn [prc_Name p] in E |- *. rewrite bool_decide_eq_true_2 in E |- * by done. exact E. }
  assert (answered p (w_net (cn_world s0)) = false) as Hans by (rewrite Hw, Hnet; apply Ha).
  rewrite <- Hw in Hg. destruct (unanswered_attempt _ _ _ p g _ _ _ Hp0 Hne Hg Hans E2) as (_ & Hs2 & Hg2 & l & Hl & Hn).
  rewrite Hs2, Hs. cbn. unfold one_creation. rewrite Hp0. split; [done|]. exists g. rewrite Hg2. split; [done|]. exists l. split; [done|].
  rewrite Hn, Hw, Hlog. done.
Qed.
Lemma retried_pending path p g l c w : cfg_PendingEncryptedRoom c = Some p -> prc_Path p <> "" -> w_groups w !! prc_Path p = Some g ->
  Forall (unanswered p) l -> exists w' asked, retried path l c w = (c, w') /\ w_groups w' !! prc_Path p = Some g /\
    asks p g asked /\ creations (w_log w') = creations (w_log w) ++ asked.
Proof.
  clear. intros Hp Hne. revert w. induction l as [|a l IH]; intros w Hg Hl; cbn.
  { exists w, []. split_and!; [done..|constructor|by rewrite app_nil_r]. }
  apply Forall_cons in Hl as [Ha Hl]. destruct (pending_attempt path a p g c w Hp Hne Hg Ha) as (w1 & l1 & Hc & Hw & Hg1 & H1 & Hn).
  destruct (attempted path a c w) as [[r c1] w2]. cbn in Hc, Hw. subst c1 w2.
  destruct (IH w1 Hg1 Hl) as (w' & l2 & Hr & Hg' & H2 & Hm). exists w', (l1 ++ l2). split_and!; [done..|by apply Forall_app|].
  by rewrite Hm, Hn, (assoc (++)).
Qed.

(** C23. An interrupted creation is one request. Ask for a new encrypted room any number of times, one
    attempt after the other, under whatever names, with saves that fail, and with no definite
    answer of the server - no answer, an error that is no refusal, an answer that cannot be
    read. Then no room was asked for at all, or the creation of one room is pending, saved with
    its identifier, its name and its new keys, and every creation that was asked for was of that
    room with the device of those keys. And once a creation is pending, it and its keys stay
    as they are until the server answers it. So an answer that was lost cannot lead to a second
    room - as long as nothing else saves the connection between its attempts, which each load it:
    a call that loaded the connection earlier saves it whole, without the pending creation
    ([ConnectTheorems.stale_save_forgets_creation]). *)
Theorem creation_is_one_request path l c w c' w' : retried path l c w = (c', w') ->
  (cfg_PendingEncryptedRoom c = None -> Forall (fun a => forall p, unanswered p a) l ->
     one_creation (creations (w_log w)) c' w') /\
  (forall p g d, cfg_PendingEncryptedRoom c = Some p -> prc_Path p <> "" -> w_groups w !! prc_Path p = Some g ->
     device_of (gr_state g) "" = Ok d -> Forall (unanswered p) l ->
     cfg_PendingEncryptedRoom c' = Some p /\ w_groups w' !! prc_Path p = Some g /\
     exists n, creations (w_log w') = creations (w_log w) ++ replicate n (device_request p d)).
Proof using locate_keeps.
  intros Hr. split.
  - intros Hp Hl. revert c w Hp Hr. induction l as [|a l IH]; intros c w Hp; cbn.
    { intros [= <- <-]. unfold one_creation. by rewrite Hp. }
    apply Forall_cons in Hl as [Ha Hl]. pose proof (first_attempt path a c w Hp Ha) as Hone. destruct (attempted path a c w) as [[r c1] w1].
    cbn in Hone. intros Hr. unfold one_creation in Hone. destruct (cfg_PendingEncryptedRoom c1) as [p|] eqn:Hp1.
    + destruct Hone as (Hne & g & Hg & l1 & H1 & Hn).
      destruct (retried_pending path p g l c1 w1 Hp1 Hne Hg) as (w2 & l2 & Hr2 & Hg2 & H2 & Hm); [eapply Forall_impl; [exact Hl|by intros x Hx]|].
      rewrite Hr2 in Hr. injection Hr as <- <-. unfold one_creation. rewrite Hp1. split; [done|]. exists g. split; [done|].
      exists (l1 ++ l2). split; [by apply Forall_app|]. by rewrite Hm, Hn, (assoc (++)).
    + rewrite <- Hone. by apply (IH Hl c1 w1).
  - intros p g d Hp Hne Hg Hd Hl. destruct (retried_pending path p g l c w Hp Hne Hg Hl) as (w2 & l2 & Hr2 & Hg2 & H2 & Hm).
    rewrite Hr2 in Hr. injection Hr as <- <-. split_and!; [done..|]. exists (length l2). by rewrite Hm, (asks_same p g d l2 H2 Hd) at 1.
Qed.

(** ** A granted room *)
Definition saves_next (saves : list (option string)) : Prop := match saves with Some _ :: _ => False | _ => True end.
Lemma identity_any i a b d : identity_device i a = Ok d -> exists d', identity_device i b = Ok d'.
Proof.
  clear. unfold identity_device. destruct (age_recipient _); [|done]. destruct (negb _); [done|]. destruct (negb _); [done|]. eauto.
Qed.
Lemma input_ok c g d w : cfg_CryptoPath c <> "" -> w_groups w !! cfg_CryptoPath c = Some g ->
  device_of (gr_state g) "" = Ok d -> cs_Server (gr_state g) = cfg_Server c -> saves_next (w_saves w) ->
  exists w', cryptoConnectionInput c "" w = (Ok [("device", device_json d)], w').
Proof.
  clear. intros Hp Hg Hd Hs Hn. unfold cryptoConnectionInput, locked. rewrite bool_decide_eq_false_2, Hg by done.
  destruct g as [s h f]. cbn in Hd, Hs. assert (Hi : exists d0, identity_device (cs_Identity s) (cs_AgentID s) = Ok d0).
  { unfold device_of in Hd. apply bind_ok in Hd as (d1 & Hd1 & _). by eapply identity_any. }
  destruct Hi as [d0 Hi]. unfold withCrypto. cbv zeta. unfold enter at 1 2. cbn [w_disk gr_state]. rewrite Hi.
  rewrite bool_decide_eq_false_2 by auto. unfold connection_input. cbn. unfold mbind, M_bind, lift, gets, save_state. cbn.
  rewrite Hd. cbn. destruct (w_saves w) as [|[e|] l]; [by eexists|done|by eexists].
Qed.
Lemma locked_creates {A} (m : M A) c w : (forall before, inv (creates_as before) m) ->
  creations (w_log (locked c m w).2) = creations (w_log w).
Proof.
  clear. intros Hm. unfold locked. case_bool_decide; [done|]. destruct (w_groups w !! _) as [g|]; [|done].
  pose proof (inv_withCrypto_from (creates_as (creations (w_log w))) m (cfg_Server c) (enter g w) (Hm _) eq_refl) as Hc.
  by destruct (withCrypto _ _ _).
Qed.
Lemma inv_start_group room before : inv (creates_as before) (start_group ToLower room).
Proof.
  clear. unfold start_group. apply inv_bind; [by apply stable_modify|intros _]. apply inv_bind; [auto with inv|intros l].
  apply inv_bind; [by apply stable_modify|intros _]. apply inv_bind; [apply inv_save; apply _|intros _]. auto with inv.
Qed.

(** A granted room is served under the keys it was created with. When the server answers a
    pending creation with its room and the connection can be saved, the call succeeds - with
    the error of the group's setup beside the answer, if that failed -, exactly one creation
    request was made, the creation is no longer pending, and the saved connection routes calls
    for the room to the keys whose device the request carried; other rooms keep theirs. *)
Theorem granted_room_uses_its_keys p g d sc path c saved ios w a l :
  cfg_PendingEncryptedRoom c = Some p -> prc_Path p <> "" -> prc_ID p <> "" -> w_groups w !! prc_Path p = Some g ->
  device_of (gr_state g) "" = Ok d -> cs_Server (gr_state g) = cfg_Server c ->
  w_net w = Ok a :: l -> as_room a = Ok (prc_ID p) -> saves_next (w_saves w) -> saves_next ios ->
  exists setup s' c', createLocalEncryptedRoom ToLower (save_config locate) sc path (prc_Name p) (mkConn c saved ios w) = (Ok (a, setup), s') /\
    creations (w_log (cn_world s')) = creations (w_log w) ++ [device_request p d] /\
    cn_saved s' = Some c' /\ cfg_PendingEncryptedRoom c' = None /\
    cfg_CryptoRooms c' = <[prc_ID p := prc_Path p]> (cfg_CryptoRooms c) /\
    forall w1, cryptoConfigForRoom c' (prc_ID p) w1 = (Ok (set_Crypto (prc_Path p) (prc_ID p) (cfg_CryptoRooms c') c'), w1).
Proof using locate_keeps.
  intros Hp Hne Hid Hg Hd Hs Hnet Ha Hsv Hios. rewrite (pending_creation _ _ _ p), bool_decide_eq_true_2 by done. cbn [negb].
  destruct (input_ok (set_Crypto (prc_Path p) "" (cfg_CryptoRooms c) c) g d w Hne Hg Hd Hs Hsv) as [w1 Hin].
  destruct (input_world (set_Crypto (prc_Path p) "" (cfg_CryptoRooms c) c) g w Hne Hg) as (r & w2 & Hin' & Hgr & Hl & Hn & _).
  rewrite Hin in Hin'. injection Hin' as <- <-.
  unfold request_creation, mbind, R_bind, config, crypto, catch. cbn [cn_world cn_config]. rewrite Hin. cbn [cn_world cn_config cn_saved cn_ios].
  fold (device_request p d). unfold call. rewrite Hn, Hnet. unfold settle_creation. rewrite Ha, bool_decide_eq_true_2 by done.
  cbn [negb]. unfold mbind, R_bind, update, save_config, catch, crypto. cbn [cn_world cn_config cn_saved cn_ios].
  set (w2 := mkWorld _ _ _ _ _ _ _ _ _ _). set (c' := locate _).
  assert (Hc' : cfg_PendingEncryptedRoom c' = None /\ cfg_CryptoRooms c' = <[prc_ID p := prc_Path p]> (cfg_CryptoRooms c))
    by apply locate_keeps. destruct Hc' as [Hpend Hrooms].
  set (cand := set_Crypto _ _ _ _). pose proof (locked_creates (start_group ToLower (prc_ID p)) cand w2 (inv_start_group _)) as Hcr.
  destruct (locked cand (start_group ToLower (prc_ID p)) w2) as [r w3] eqn:El. cbn [snd] in Hcr.
  exists (match r with Ok _ => None | Err e => Some e end), (mkConn c' (Some c') (tail ios) w3), c'. split_and!.
  - destruct ios as [|[e|] ios']; [|done|]; cbn [cn_world tail]; rewrite El; reflexivity.
  - cbn. rewrite Hcr. unfold w2. cbn. unfold creations. by rewrite filter_app, Hl.
  - done.
  - done.
  - done.
  - intros w4. unfold cryptoConfigForRoom. rewrite bool_decide_eq_false_2 by done. rewrite Hrooms, lookup_insert_eq. cbn.
    by rewrite bool_decide_eq_false_2.
Qed.
End Rooms.

(** ** Saving a connection loaded before *)
Section Stale.
Context `{!Primitives}.
Variables (ToLower : string -> string).

Lemma settle_saved locate p candidate v s b s' : settle_creation ToLower (save_config locate) p candidate v s = (Ok b, s') -> is_Some (cn_saved s').
Proof.
  unfold settle_creation. destruct v as [a|e].
  - destruct (as_room a) as [id|e]; [|done]. destruct (negb _); [done|].
    unfold mbind, R_bind, update, save_config, catch, crypto. cbn [cn_config cn_ios cn_saved cn_world].
    destruct (cn_ios s) as [|[e|] l]; [|done|]; cbn [cn_world tail];
      destruct (locked _ _ _) as [r w]; intros [= _ <-]; by eexists.
  - unfold mbind, R_bind, update, save_config. destruct (HasPrefix e "HTTP 4"); cbn; [|done].
    by destruct (cn_ios s) as [|[e'|] l].
Qed.
Lemma created_saved locate sc path name s b s' :
  createLocalEncryptedRoom ToLower (save_config locate) sc path name s = (Ok b, s') -> is_Some (cn_saved s').
Proof.
  unfold createLocalEncryptedRoom. unfold mbind at 1, R_bind at 1. destruct (begin_creation _ _ _ _ s) as [[p|e] s1]; [|done].
  destruct (negb _); [done|]. unfold request_creation, mbind at 1, R_bind at 1, config. cbv zeta.
  unfold mbind at 1, R_bind at 1. destruct (crypto _ s1) as [[input|e] s2]; [|done].
  unfold mbind, R_bind. destruct (catch _ s2) as [[v|e] s3]; [|done]. apply settle_saved.
Qed.

(** A room creation undoes what was saved meanwhile. The plugin loads the connection, talks to
    the server, and saves the connection it loaded, whole. Whatever was done to the saved
    connection in between - a hook session or a task bound to it, a peer recorded - is gone
    after a successful creation: the vault has the bindings and peers the call started from. *)
Theorem creation_undoes_bindings root sc name ios meanwhile v c w b v' w' :
  createEncryptedRoom ToLower root sc name ios meanwhile v c w = (Ok b, v', w') ->
  exists config, v' !! pc_Handle c = Some (Saved (put_Config config c)) /\
    pc_HookSessionID (put_Config config c) = pc_HookSessionID c /\ pc_CodexThreadID (put_Config config c) = pc_CodexThreadID c /\
    pc_Paired (put_Config config c) = pc_Paired c.
Proof.
  unfold createEncryptedRoom, in_plugin. destruct (createLocalEncryptedRoom _ _ _ _ _ _) as [r s] eqn:E.
  intros [= -> <- _]. apply created_saved in E as [config Ec]. rewrite Ec. exists config. by rewrite lookup_insert_eq.
Qed.
End Stale.

(** ** At concrete inputs *)
Definition plans_path : string := "/vault/conn.e2ee.json.rooms/device_1.json".
Definition plans : pendingRoomCreation := mkPendingRoomCreation "rm_mls_1" "Plans" plans_path.
Definition plans_state : cryptoState := new_state (mkIdentity "age-a" (demo_key +:+ demo_key)) demo_key room_server "group" (demo_key +:+ demo_key) true.
Definition plans_group : group := mkGroup plans_state (Ok demo_key) no_files.
Definition plans_config : Config := mkConfig (Some plans) ∅ "" "" "" None room_server "token".
Definition plans_world (net : list (result answer)) : world :=
  mkWorld plans_state plans_state (Ok demo_key) [] net [] 0 [] no_files {[plans_path := plans_group]}.
Definition plans_device : Device := value (mkDevice "" "" "" 0 "") (device_of plans_state "").
Lemma plans_device_ok : device_of (gr_state plans_group) "" = Ok plans_device.
Proof. vm_compute. reflexivity. Qed.
Definition no_keys : key_script := mkKeys None (Err "no randomness") "" (Err "no randomness") None.
Definition plans_script : room_script := mkRoomScript "" "" no_keys.
(** The answer to the first attempt is lost, the second one comes under another name, the third is garbled. *)
Definition plans_attempt (name : string) (net : list (result answer)) : attempt :=
  mkAttempt plans_script name [] (mkSurroundings (Ok demo_key) [] net [] 0).
Definition plans_attempts : list attempt :=
  [plans_attempt "Plans" []; plans_attempt "Other" []; plans_attempt "Plans" [Ok AnsOther]].
Definition plans_retried : Config * world := retried ascii_lower id "/vault/conn.e2ee.json" plans_attempts plans_config (plans_world []).
Lemma id_keeps c : cfg_PendingEncryptedRoom (id c) = cfg_PendingEncryptedRoom c /\ cfg_CryptoRooms (id c) = cfg_CryptoRooms c.
Proof. done. Qed.
Lemma creation_is_one_request_witness :
  (cfg_PendingEncryptedRoom plans_config = None -> Forall (fun a => forall p, unanswered p a) plans_attempts ->
     one_creation (creations (w_log (plans_world []))) plans_retried.1 plans_retried.2) /\
  (forall p g d, cfg_PendingEncryptedRoom plans_config = Some p -> prc_Path p <> "" -> w_groups (plans_world []) !! prc_Path p = Some g ->
     device_of (gr_state g) "" = Ok d -> Forall (unanswered p) plans_attempts ->
     cfg_PendingEncryptedRoom plans_retried.1 = Some p /\ w_groups plans_retried.2 !! prc_Path p = Some g /\
     exists n, creations (w_log plans_retried.2) = creations (w_log (plans_world [])) ++ replicate n (device_request p d)).
Proof.
  apply (creation_is_one_request ascii_lower id id_keeps "/vault/conn.e2ee.json" plans_attempts plans_config (plans_world [])).
  apply surjective_pairing.
Defined.
Example plans_posts : length (creations (w_log plans_retried.2)) = 2%nat /\
  creations (w_log plans_retried.2) = replicate 2 (device_request plans plans_device).
Proof. vm_compute. done. Qed.

(** From the beginning: the first attempt makes the keys and saves the creation, its answer is lost. *)
Definition toy_keys (random : string) (rq : MLSRequest) : result MLSResponse :=
  if bool_decide (rq_Op rq = "key_package") then Ok (mkMLSResponse "group" (demo_key +:+ demo_key) "" "" "" 0 []) else toy_group random rq.
Definition keys_primitives : Primitives := toy_with digest64 toy_keys.
Definition new_keys : key_script := mkKeys None (Ok (mkIdentity "age-a" (demo_key +:+ demo_key))) demo_key (Ok demo_key) None.
Definition new_config : Config := mkConfig None ∅ "" "" "" None room_server "token".
Definition new_world (net : list (result answer)) : world :=
  mkWorld plans_state plans_state (Ok demo_key) [] net [] 0 [] no_files ∅.
Definition new_attempts : list attempt :=
  (fun x => mkAttempt (mkRoomScript "1" "1" new_keys) x.1 x.2 (mkSurroundings (Ok demo_key) [] [] [] 0))
    <$> [("Plans", []); ("Plans", [Some "disk full"]); ("Other", [])].
Example new_creation :
  let x := @retried keys_primitives ascii_lower id "/vault/conn.e2ee.json" new_attempts new_config (new_world []) in
  prc_Name <$> cfg_PendingEncryptedRoom x.1 = Some "Plans" /\ length (creations (w_log x.2)) = 2%nat.
Proof. vm_compute. done. Qed.

Lemma granted_room_uses_its_keys_witness :
  exists setup s' c', createLocalEncryptedRoom ascii_lower (save_config id) plans_script "" "Plans" (mkConn plans_config None [] (plans_world [Ok (AnsRoom "rm_mls_1")]))
      = (Ok (AnsRoom "rm_mls_1", setup), s') /\
    creations (w_log (cn_world s')) = creations [] ++ [device_request plans plans_device] /\
    cn_saved s' = Some c' /\ cfg_PendingEncryptedRoom c' = None /\ cfg_CryptoRooms c' = <["rm_mls_1" := plans_path]> ∅ /\
    forall w1, cryptoConfigForRoom c' "rm_mls_1" w1 = (Ok (set_Crypto plans_path "rm_mls_1" (cfg_CryptoRooms c') c'), w1).
Proof.
  apply (granted_room_uses_its_keys ascii_lower id (fun c => conj eq_refl eq_refl) plans plans_group plans_device plans_script "" plans_config
           None [] (plans_world [Ok (AnsRoom "rm_mls_1")]) (AnsRoom "rm_mls_1") []).
  all: first [exact plans_device_ok | discriminate | reflexivity | exact I].
Defined.

(** A session is bound to the connection while the room is made. *)
Definition loaded : pluginConnection :=
  mkPlugin None "" false None false "" None "" "" "" "conn_0123456789abcdef0123456789abcdef" plans_config "agent" "Ada" "" ""
    "room" "Room" "" "" 0 "" 0 "" ∅.
Definition shelf : vault := {[ pc_Handle loaded := Saved loaded ]}.
Definition bound : vault := (bindHook "/vault" None shelf loaded "claude" "session-1").2.
Lemma bound_to : exists c, bound !! pc_Handle loaded = Some (Saved c) /\ pc_HookSessionID c = "session-1".
Proof. eexists. split; vm_compute; reflexivity. Qed.
Definition made := createEncryptedRoom ascii_lower "/vault" plans_script "Plans" [] (fun _ => bound) shelf loaded (plans_world [Ok (AnsRoom "rm_mls_1")]).
Definition made_answer : answer * option string := value (AnsOther, None) made.1.1.
Lemma made_ok : made = (Ok made_answer, made.1.2, made.2).
Proof.
  assert (Ha : is_ok made.1.1 = true) by (vm_compute; reflexivity). unfold made_answer.
  destruct made as [[r v] w]. cbn in *. by destruct r.
Qed.
Lemma creation_undoes_bindings_witness :
  exists config, made.1.2 !! pc_Handle loaded = Some (Saved (put_Config config loaded)) /\
    pc_HookSessionID (put_Config config loaded) = "" /\ pc_CodexThreadID (put_Config config loaded) = "" /\
    pc_Paired (put_Config config loaded) = ∅.
Proof.
  exact (creation_undoes_bindings ascii_lower "/vault" plans_script "Plans" [] (fun _ => bound) shelf loaded
    (plans_world [Ok (AnsRoom "rm_mls_1")]) made_answer made.1.2 made.2 made_ok).
Defined.
