(* ===== verification/Backup.v ===== *)
(** * History backups

    [backupHistory] and [restoreHistory] ([encryption_history.go]): the archive of message keys
    of a group is written out as it is, sealed under the device's history key, and taken into
    another device's archive under that device's key. [encryptionRejections]
    ([encryption_rejections.go]) lists what was quarantined. A file is its text, and what
    reading or writing it yields is an argument. *)
From stdpp Require Import sorting.
From S2P Require Import Prelude GoStrings Json Types Crypto Roster Metadata History.
From S2P Require Import Encryption Mls Groups Protocol Broker Addresses.

Record historyBackup := mkBackup {
  hb_RoomID : string; hb_Version : Z; hb_WorkspaceID : string; hb_Root : string; hb_Archive : gmap string string }.

(** ** The JSON of a backup *)
Definition backup_json (b : historyBackup) : json :=
  object [("room_id", omit_string (hb_RoomID b)); ("version", Some (JInt (hb_Version b)));
          ("workspace_id", Some (JStr (hb_WorkspaceID b))); ("root", Some (bytes_json (hb_Root b)));
          ("archive", Some (map_json bytes_json (hb_Archive b)))].

Definition decode_archived (kv : string * json) : option (string * string) := b ← decode_bytes kv.2 ""; Some (kv.1, b).
(** A member repeated stands for its last value. *)
Definition decode_archive (v : json) (old : gmap string string) : option (gmap string string) :=
  match v with
  | JNull => Some ∅
  | JObj members => l ← mapM decode_archived members; Some (list_to_map (rev l) ∪ old)
  | _ => None
  end.
Definition decode_backup (v : json) : option historyBackup :=
  decode_object
    [("room_id", fun v b => x ← decode_string v (hb_RoomID b); Some (mkBackup x (hb_Version b) (hb_WorkspaceID b) (hb_Root b) (hb_Archive b)));
     ("version", fun v b => x ← decode_int v (hb_Version b); Some (mkBackup (hb_RoomID b) x (hb_WorkspaceID b) (hb_Root b) (hb_Archive b)));
     ("workspace_id", fun v b => x ← decode_string v (hb_WorkspaceID b); Some (mkBackup (hb_RoomID b) (hb_Version b) x (hb_Root b) (hb_Archive b)));
     ("root", fun v b => x ← decode_bytes v (hb_Root b); Some (mkBackup (hb_RoomID b) (hb_Version b) (hb_WorkspaceID b) x (hb_Archive b)));
     ("archive", fun v b => x ← decode_archive v (hb_Archive b); Some (mkBackup (hb_RoomID b) (hb_Version b) (hb_WorkspaceID b) (hb_Root b) x))]
    v (mkBackup "" 0 "" "" ∅).

Section Backup.
Context `{!Primitives}.
Variable ToLower : string -> string.

(** ** Writing ([io]: making, writing and closing the file): the text of the file, a line, and
    the number of entries. *)
Definition backupHistory (path : string) (io : option string) : M (string * Z) :=
  s ← gets id;
  require ((cs_Protocol s =? 2) && negb (bool_decide (cs_WorkspaceID s = "")))
    "history backup requires an initialized MLS workspace";;
  historyKey;;
  require (negb (bool_decide (path = ""))) "choose a private history backup path";;
  check io;;
  mret (json_text (backup_json (mkBackup (cs_RoomID s) 2 (cs_WorkspaceID s) (cs_Root s) (cs_Archive s))) +:+ lf,
        Z.of_nat (size (cs_Archive s))).

(** ** Reading *)
(** The parts of an entry's identity: a message and the digest of its payload. *)
Definition entry_id (id : string) : bool :=
  match Split id ":" with
  | [m; h] => HasPrefix m "msg_" && (len m =? 36) && (len h =? 64) && forallb hex_any (bytes (drop_str 4 m +:+ h))
  | _ => false
  end.
Definition entry_context (workspace id : string) : string := workspace +:+ "/" +:+ id.
Definition entry_fits (x : archiveEntry) : bool := (len (ae_Key x) =? 32) && (len (ae_Payload x) <=? MaxPlaintextBytes).
Definition restored_index (key : string) (x : archiveEntry) : option (list Z) :=
  if 0 <? len (ae_Payload x)
  then (fun b => historyIndex ToLower key (bd_Text b)) <$> (json_parse (ae_Payload x) ≫= decode_body) else None.
Definition set_index (id : string) (i : option (list Z)) (m : gmap string (list Z)) : gmap string (list Z) :=
  match i with Some i => <[id := i]> m | None => m end.

(** Entries the device has are passed over, once they are authenticated. *)
Fixpoint restore_entries (oldKey newKey workspace : string) (live : gmap string string) (l : list (string * string))
    (imported : gmap string string) (indexes : gmap string (list Z)) : M (gmap string string * gmap string (list Z)) :=
  match l with
  | [] => mret (imported, indexes)
  | (id, sealed) :: l =>
      require (entry_id id) "invalid history entry identity";;
      match OpenLocal oldKey sealed (entry_context workspace id) with
      | Err _ => fail "history backup authentication failed; check its recovery key"
      | Ok plain =>
          match json_parse plain ≫= decode_entry with
          | None => fail "invalid archived content"
          | Some entry =>
              require (entry_fits entry) "invalid archived content";;
              if bool_decide (is_Some (live !! id)) then restore_entries oldKey newKey workspace live l imported indexes else
              nonce ← random;
              resealed ← lift (SealLocal newKey nonce plain (entry_context workspace id));
              restore_entries oldKey newKey workspace live l (<[id := resealed]> imported) (set_index id (restored_index newKey entry) indexes)
          end
      end
  end.

(** [file]: the text of the backup or the error of opening it; [key_file]: the recovery key's
    file, when a path is given. *)
Definition backup_limit : Z := 128 * 1024 * 1024.
Definition recovery_key (key_file : option (result string)) : M string := fun w =>
  let key := match key_file with Some k => k
             | None => match w_history w with Ok k => Ok k | Err _ => Err "history recovery key must be an owner-only regular file" end end in
  (match key with Ok k => if len k =? 32 then Ok k else Err "invalid history recovery key" | Err e => Err e end, w).
Definition restoreHistory (file : result string) (key_file : option (result string)) : M Z :=
  s ← gets id;
  require ((cs_Protocol s =? 2) && negb (bool_decide (cs_WorkspaceID s = "")))
    "join the encrypted workspace with a new verified device before importing history";;
  data ← lift file;
  require (len data <=? backup_limit) "history backup exceeds limit";;
  match json_parse data ≫= decode_backup with
  | None => fail "history backup belongs to another workspace or protocol"
  | Some b =>
      require ((hb_Version b =? 2) && bool_decide (hb_RoomID b = cs_RoomID s) && bool_decide (hb_WorkspaceID b = cs_WorkspaceID s)
               && bool_decide (hb_Root b = cs_Root s)) "history backup belongs to another workspace or protocol";;
      oldKey ← recovery_key key_file;
      newKey ← historyKey;
      '(imported, indexes) ← restore_entries oldKey newKey (cs_WorkspaceID s) (cs_Archive s) (map_to_list (hb_Archive b)) ∅ ∅;
      modify (fun s => put_SearchIndex (indexes ∪ cs_SearchIndex s) (put_Archive (imported ∪ cs_Archive s) s));;
      mret (Z.of_nat (size imported))
  end.

(** ** Quarantined messages, by the order of the journal *)
#[local] Instance seq_le_dec : RelDecision (fun a b : rejectedMLSMessage => rj_Seq a <= rj_Seq b).
Proof. intros a b. apply _. Defined.
Definition encryptionRejections : M (list rejectedMLSMessage) :=
  s ← gets id;
  mret (merge_sort (fun a b => rj_Seq a <= rj_Seq b) ((map_to_list (cs_Rejected s)).*2)).
End Backup.
