(* ===== verification/BackupTheorems.v ===== *)
(** * History backups: properties

    What one device saved another one restores, under its own key; a restore is all or nothing,
    takes authentic entries only, and never touches what the device had. *)
From stdpp Require Import sorting.
From S2P Require Import Prelude GoStrings Json Types Crypto Toy Roster RosterTheorems Metadata History.
From S2P Require Import Encryption Mls MlsFacts MlsTheorems Groups Protocol Broker Addresses ProgressTheorems Backup.

(** Everything but the archive and its index is as before. *)
Definition history_only (s s' : cryptoState) : Prop :=
  s' = put_SearchIndex (cs_SearchIndex s') (put_Archive (cs_Archive s') s).

(** ** A backup is read as it was written *)
Lemma decode_members (m : gmap string string) l : l ≡ₚ map_to_list (bytes_json <$> m) ->
  exists l', mapM decode_archived l = Some l' /\ l' ≡ₚ map_to_list m.
Proof.
  rewrite map_to_list_fmap. intros (l' & -> & Hl')%Permutation_map_inv. exists l'. split; [|done].
  clear. induction l' as [|[k v] l' IH]; [done|]. cbn [map].
  change (mapM decode_archived (prod_map id bytes_json (k, v) :: map (prod_map id bytes_json) l'))
    with (x ← decode_archived (k, bytes_json v); r ← mapM decode_archived (map (prod_map id bytes_json) l'); Some (x :: r)).
  rewrite IH. unfold bytes_json. case_bool_decide; by subst.
Qed.

Lemma decode_archive_json (m : gmap string string) : decode_archive (map_json bytes_json m) ∅ = Some m.
Proof.
  destruct (decode_members m (merge_sort key_le (map_to_list (bytes_json <$> m)))) as (l & Hl & Hp).
  { apply merge_sort_Permutation. }
  unfold decode_archive, map_json. rewrite Hl. simpl. f_equal. rewrite (right_id_L ∅ (∪)).
  assert (rev l ≡ₚ map_to_list m) as Hr by (by rewrite <- Permutation_rev).
  rewrite (list_to_map_proper _ (map_to_list m)), list_to_map_to_list; [done| |done].
  rewrite Hr. apply NoDup_fst_map_to_list.
Qed.

Lemma decode_backup_json room ws root archive :
  decode_backup (backup_json (mkBackup room 2 ws root archive)) = Some (mkBackup room 2 ws root archive).
Proof.
  unfold backup_json, decode_backup, decode_object, object, omit_string, bytes_json at 1.
  cbn [hb_RoomID hb_Version hb_WorkspaceID hb_Root hb_Archive].
  pose proof (decode_archive_json archive) as Ha. set (a := map_json bytes_json archive) in *. clearbody a.
  transitivity (b ← (x ← decode_archive a ∅; Some (mkBackup room 2 ws root x)); Some b); [|by rewrite Ha].
  repeat case_bool_decide; subst; reflexivity.
Qed.

Section Backup.
Context `{!Primitives}.
Variable ToLower : string -> string.

(** An entry that a restore accepts, and what it opens to. *)
Definition opens (key workspace id sealed plain : string) (x : archiveEntry) : Prop :=
  OpenLocal key sealed (entry_context workspace id) = Ok plain /\ json_parse plain ≫= decode_entry = Some x.
Definition sound_entry (key workspace id sealed : string) : Prop :=
  entry_id id = true /\ exists plain x, opens key workspace id sealed plain x /\ entry_fits x = true.
Definition sound_archive (key workspace : string) (archive : gmap string string) : Prop :=
  map_Forall (sound_entry key workspace) archive.

(** ** One entry *)
Definition takes (old new ws : string) (live : gmap string string) (id sealed : string)
    (x : archiveEntry) (nonce resealed : string) : Prop :=
  live !! id = None /\ exists plain, opens old ws id sealed plain x /\ entry_fits x = true /\ SealLocal new nonce plain (entry_context ws id) = Ok resealed.

Lemma restore_step old new ws live id sealed l imported indexes w r w' :
  restore_entries ToLower old new ws live ((id, sealed) :: l) imported indexes w = (r, w') ->
  (exists e, r = Err e /\ w_state w' = w_state w) \/
  sound_entry old ws id sealed /\
  ((is_Some (live !! id) /\ restore_entries ToLower old new ws live l imported indexes w = (r, w')) \/
   exists w1 nonce resealed x, random w = (Ok nonce, w1) /\ takes old new ws live id sealed x nonce resealed /\
     restore_entries ToLower old new ws live l (<[id := resealed]> imported) (set_index id (restored_index ToLower new x) indexes) w1 = (r, w')).
Proof.
  cbn. unfold mbind at 1, M_bind at 1, require at 1. destruct (entry_id id) eqn:Ei; [|intros [= <- <-]; left; by eexists].
  cbn. destruct (OpenLocal old sealed _) as [plain|e] eqn:Eo; [|intros [= <- <-]; left; by eexists].
  destruct (json_parse plain ≫= decode_entry) as [x|] eqn:Ex; [|intros [= <- <-]; left; by eexists].
  destruct (entry_fits x) eqn:Ef; [|intros [= <- <-]; left; by eexists].
  assert (sound_entry old ws id sealed) by (split; [done|]; by exists plain, x).
  destruct (decide (is_Some (live !! id))) as [Hl|Hl].
  { rewrite bool_decide_eq_true_2 by done. by right; split; [|left]. }
  rewrite bool_decide_eq_false_2 by done. apply eq_None_not_Some in Hl.
  destruct (random_ok w) as (nonce & w1 & Hw & Hst & _).
  unfold mbind, M_bind, require. cbn. rewrite Hw.
  destruct (SealLocal new nonce plain _) as [c|e] eqn:Es; cbn; [|intros [= <- <-]; left; by eexists].
  intros Hr. right. split; [done|]. right. exists w1, nonce, c, x. split; [done|]. split; [|done].
  split; [done|]. by exists plain.
Qed.

(** ** The loop *)
Lemma restore_entries_run old new ws live l : forall imported indexes w r w',
  restore_entries ToLower old new ws live l imported indexes w = (r, w') -> NoDup l.*1 ->
  w_state w' = w_state w /\
  forall imp idx, r = Ok (imp, idx) ->
    Forall (fun e => sound_entry old ws e.1 e.2) l /\
    (forall id, id ∉ l.*1 \/ is_Some (live !! id) -> imp !! id = imported !! id /\ idx !! id = indexes !! id) /\
    (forall id sealed, (id, sealed) ∈ l -> live !! id = None -> exists x nonce resealed,
       takes old new ws live id sealed x nonce resealed /\ imp !! id = Some resealed /\
       forall i, restored_index ToLower new x = Some i -> idx !! id = Some i).
Proof.
  induction l as [|[id sealed] l IH]; intros imported indexes w r w' Hr Hd.
  { injection Hr as <- <-. split; [done|]. intros imp idx [= <- <-]. split_and!; [done..|]. by intros ? ? ?%elem_of_nil. }
  rewrite fmap_cons, NoDup_cons in Hd. destruct Hd as [Hni Hd]. cbn in Hni.
  apply restore_step in Hr as [(e & -> & Hst)|[Hs [[Hl Hr]|(w1 & nonce & c & x & Hw & Ht & Hr)]]]; [done| |].
  - destruct (IH _ _ _ _ _ Hr Hd) as [Hst Hok]. split; [done|]. intros imp idx ->.
    destruct (Hok _ _ eq_refl) as (Hf & Hi & Hn). split_and!; [by constructor| |].
    + intros k Hk. apply Hi. rewrite fmap_cons, not_elem_of_cons in Hk. naive_solver.
    + intros k s [[= -> ->]|Hin]%elem_of_cons Hlive; [by rewrite Hlive in Hl; destruct Hl|by apply Hn].
  - apply random_state in Hw. destruct (IH _ _ _ _ _ Hr Hd) as [Hst Hok]. split; [congruence|]. intros imp idx ->.
    destruct (Hok _ _ eq_refl) as (Hf & Hi & Hn). destruct (Ht) as [Hlive _]. split_and!; [by constructor| |].
    + intros k Hk. rewrite fmap_cons, not_elem_of_cons in Hk.
      assert (k <> id) as Hne by (intros ->; rewrite Hlive in Hk; destruct Hk as [[]|[? ?]]; done).
      destruct (Hi k) as [-> ->]; [naive_solver|]. rewrite lookup_insert_ne by done.
      unfold set_index. by destruct (restored_index _ _ _); rewrite ?lookup_insert_ne by done.
    + intros k s [[= -> ->]|Hin]%elem_of_cons Hk; [|by apply Hn]. exists x, nonce, c.
      destruct (Hi id) as [-> ->]; [by left|]. split_and!; [done|by rewrite lookup_insert_eq|].
      intros i Hx. unfold set_index. by rewrite Hx, lookup_insert_eq.
Qed.

Lemma restore_entries_total old new ws live l : len new = 32 -> Forall (fun e => sound_entry old ws e.1 e.2) l ->
  forall imported indexes w, exists out w', restore_entries ToLower old new ws live l imported indexes w = (Ok out, w').
Proof.
  intros Hk. induction 1 as [|[id sealed] l [Hid (plain & x & [Ho Hx] & Hf)] _ IH]; intros imported indexes w; [by eexists _, _|].
  cbn in Hid, Ho, Hx, Hf |- *. unfold mbind at 1, M_bind at 1, require at 1. rewrite Hid. cbn. rewrite Ho.
  rewrite Hx. unfold mbind at 1, M_bind at 1, require. rewrite Hf. cbn.
  destruct (decide (is_Some (live !! id))) as [Hl|Hl].
  { rewrite bool_decide_eq_true_2 by done. apply IH. }
  rewrite bool_decide_eq_false_2 by done. destruct (random_ok w) as (nonce & w1 & Hw & _).
  unfold mbind, M_bind. rewrite Hw. unfold SealLocal. rewrite Hk. apply IH.
Qed.

Lemma restore_entries_sound old new ws live (archive : gmap string string) w imp idx w' :
  restore_entries ToLower old new ws live (map_to_list archive) ∅ ∅ w = (Ok (imp, idx), w') ->
  w_state w' = w_state w /\ sound_archive old ws archive /\
  (forall id, archive !! id = None \/ is_Some (live !! id) -> imp !! id = None /\ idx !! id = None) /\
  (forall id sealed, archive !! id = Some sealed -> live !! id = None -> exists x nonce resealed,
     takes old new ws live id sealed x nonce resealed /\ imp !! id = Some resealed /\
     forall i, restored_index ToLower new x = Some i -> idx !! id = Some i).
Proof.
  intros Hr. apply restore_entries_run in Hr as [Hst Hok]; [|apply NoDup_fst_map_to_list].
  destruct (Hok _ _ eq_refl) as (Hf & Hi & Hn). split_and!; [done| | |].
  - intros id sealed Hl. rewrite Forall_forall in Hf. by apply (Hf (id, sealed)), elem_of_map_to_list.
  - intros id Hid. rewrite <- (lookup_empty (M := gmap string) (A := string) id), <- (lookup_empty (M := gmap string) (A := list Z) id).
    apply Hi. destruct Hid as [Hid|]; [left|by right]. intros ([k s] & -> & Hin%elem_of_map_to_list)%list_elem_of_fmap. cbn in Hid. by rewrite Hid in Hin.
  - intros id sealed Hl. by apply Hn, elem_of_map_to_list.
Qed.

(** ** The whole restore *)
Lemma m_bind_either {A B} (m : M A) (f : A -> M B) w r w' : (m ≫= f) w = (r, w') ->
  (exists e, r = Err e /\ m w = (Err e, w')) \/ exists a w1, m w = (Ok a, w1) /\ f a w1 = (r, w').
Proof. unfold mbind, M_bind. destruct (m w) as [[a|e] w1]; [right; by exists a, w1|]. intros [= <- <-]. left. by exists e. Qed.

Lemma restore_inv file key_file w r w' : restoreHistory ToLower file key_file w = (r, w') ->
  (exists e, r = Err e /\ w_state w' = w_state w) \/
  exists data b old new imp idx w1,
    r = Ok (Z.of_nat (size imp)) /\ file = Ok data /\ json_parse data ≫= decode_backup = Some b /\
    hb_RoomID b = cs_RoomID (w_state w) /\ hb_WorkspaceID b = cs_WorkspaceID (w_state w) /\ hb_Root b = cs_Root (w_state w) /\
    fst (recovery_key key_file w) = Ok old /\ w_history w = Ok new /\
    restore_entries ToLower old new (cs_WorkspaceID (w_state w)) (cs_Archive (w_state w)) (map_to_list (hb_Archive b)) ∅ ∅ w = (Ok (imp, idx), w1) /\
    w_state w' = put_SearchIndex (idx ∪ cs_SearchIndex (w_state w)) (put_Archive (imp ∪ cs_Archive (w_state w)) (w_state w)).
Proof.
  unfold restoreHistory. intros Hr. apply m_bind_either in Hr as [(? & ? & ?)|(s & ? & [[= ->] ->]%gets_inv & Hr)]; [done|].
  apply m_bind_either in Hr as [(? & -> & [_ [_ ->]]%require_err)|([] & ? & [_ ->]%require_ok & Hr)]; [by left; eexists|].
  apply m_bind_either in Hr as [(? & -> & [_ ->]%lift_inv)|(data & ? & [<- ->]%lift_inv & Hr)]; [by left; eexists|].
  apply m_bind_either in Hr as [(? & -> & [_ [_ ->]]%require_err)|([] & ? & [_ ->]%require_ok & Hr)]; [by left; eexists|].
  destruct (json_parse data ≫= decode_backup) as [b|] eqn:Eb; [|injection Hr as <- <-; left; by eexists].
  apply m_bind_either in Hr as [(? & -> & [_ [_ ->]]%require_err)|([] & ? & [Eg ->]%require_ok & Hr)]; [by left; eexists|].
  apply m_bind_either in Hr as [(? & -> & Ek)|(old & w1 & Ek & Hr)]; unfold recovery_key in Ek; injection Ek as Ek <-; [by left; eexists|].
  apply m_bind_either in Hr as [(? & -> & Eh)|(new & w1 & Eh & Hr)]; unfold historyKey in Eh; injection Eh as Eh <-; [by left; eexists|].
  apply m_bind_either in Hr as [(e & -> & Er)|([imp idx] & w1 & Er & Hr)].
  { left. exists e. split; [done|]. by eapply restore_entries_run in Er as [? _]; [|apply NoDup_fst_map_to_list]. }
  apply restore_entries_sound in Er as Hs. destruct Hs as [Hst _]. right. exists data, b, old, new, imp, idx, w1.
  rewrite !andb_true_iff, !bool_decide_eq_true in Eg. destruct Eg as [[[_ ?] ?] ?].
  assert (w_history w = Ok new) by (destruct (w_history w); [case_match|]; naive_solver).
  injection Hr as <- <-. unfold id in *. cbn. split_and!; try done. by rewrite Hst.
Qed.

(** C26. A restore is all or nothing. When it fails, the device's state is as it was. When it
    succeeds, the file is a backup of this room, workspace and root, every entry of it was
    authenticated under the recovery key with its own identity and is a message key with a
    payload within the limit, and nothing but the archive and its index changed: every entry
    the device had is kept as it was, with its index, and so is whatever the backup does not
    name. *)
Theorem restore_is_safe file key_file w r w' : restoreHistory ToLower file key_file w = (r, w') ->
  match r with
  | Err _ => w_state w' = w_state w
  | Ok _ => exists data b old,
      file = Ok data /\ json_parse data ≫= decode_backup = Some b /\ fst (recovery_key key_file w) = Ok old /\
      hb_RoomID b = cs_RoomID (w_state w) /\ hb_WorkspaceID b = cs_WorkspaceID (w_state w) /\ hb_Root b = cs_Root (w_state w) /\
      sound_archive old (cs_WorkspaceID (w_state w)) (hb_Archive b) /\
      history_only (w_state w) (w_state w') /\
      forall id, is_Some (cs_Archive (w_state w) !! id) \/ hb_Archive b !! id = None ->
        cs_Archive (w_state w') !! id = cs_Archive (w_state w) !! id /\
        cs_SearchIndex (w_state w') !! id = cs_SearchIndex (w_state w) !! id
  end.
Proof.
  intros [(e & -> & Hst)|(data & b & old & new & imp & idx & w1 & -> & -> & Hb & Hroom & Hws & Hroot & Hk & _ & Hr & Hst)]%restore_inv; [done|].
  apply restore_entries_sound in Hr as (_ & Hs & Hi & _). exists data, b, old. split_and!; try done.
  - unfold history_only. by rewrite Hst.
  - rewrite Hst. cbn. intros id Hid. destruct (Hi id) as [Himp Hidx]; [naive_solver|].
    by rewrite !lookup_union, Himp, Hidx, !(left_id_L None (∪)).
Qed.

(** One unusable entry makes the whole backup useless: when some entry of a backup opens to
    content that does not fit (a payload over the limit, or a key that is not 32 bytes), every
    restore of that file with that key fails, on every device, and nothing is restored, not
    even the entries that are in order. (The sender of a message chooses how long its payload is,
    and a payload is archived before its length is checked.) *)
Theorem unfit_entry_blocks_restore data b old key_file id sealed plain x w :
  json_parse data ≫= decode_backup = Some b -> fst (recovery_key key_file w) = Ok old ->
  hb_Archive b !! id = Some sealed -> opens old (cs_WorkspaceID (w_state w)) id sealed plain x -> entry_fits x = false ->
  exists e w', restoreHistory ToLower (Ok data) key_file w = (Err e, w') /\ w_state w' = w_state w.
Proof.
  intros Hb Hk Hid [Ho Hx] Hf. destruct (restoreHistory ToLower (Ok data) key_file w) as [r w'] eqn:Hr.
  apply restore_inv in Hr as [(e & -> & Hst)|(d & b' & old' & new & imp & idx & w1 & -> & [= <-] & Hb' & _ & _ & _ & Hk' & _ & Hr & _)]; [by exists e, w'|].
  exfalso. rewrite Hk in Hk'. injection Hk' as <-. rewrite Hb in Hb'. injection Hb' as <-.
  apply restore_entries_sound in Hr as (_ & Hs & _). destruct (Hs id sealed Hid) as (_ & plain' & x' & [Ho' Hx'] & Hf').
  rewrite Ho in Ho'. injection Ho' as <-. rewrite Hx in Hx'. injection Hx' as <-. congruence.
Qed.
End Backup.

(** ** From one device to another *)
Section Restoring.
Context `{!Primitives}.
Variable ToLower : string -> string.

(** [Encoder.Encode] ends the text with a line feed, which [Unmarshal] passes over; sealing is
    authenticated encryption, with a nonce of 12 bytes and a tag of 16. *)
Hypothesis line_parses : forall b, json_parse (json_text (backup_json b) +:+ lf) = Some (backup_json b).
Hypothesis aead_opens : forall key nonce data context, len key = 32 ->
  aead_open key (aead_seal key nonce data context) context = Ok data.
Hypothesis aead_size : forall key nonce data context, len key = 32 -> 28 <= len (aead_seal key nonce data context).

Lemma backup_text path io w text n wb : backupHistory path io w = (Ok (text, n), wb) ->
  exists key, w_history w = Ok key /\ len key = 32 /\ cs_WorkspaceID (w_state w) <> "" /\
    json_parse text ≫= decode_backup =
      Some (mkBackup (cs_RoomID (w_state w)) 2 (cs_WorkspaceID (w_state w)) (cs_Root (w_state w)) (cs_Archive (w_state w))).
Proof using line_parses.
  unfold backupHistory. intros Hr. m_inv. unfold id in *.
  match goal with Hk : historyKey _ = _ |- _ => unfold historyKey in Hk; injection Hk as Hk <- end.
  match goal with Hk : context [w_history w] |- _ => destruct (w_history w) as [key|] eqn:Eh; [|done]; destruct (Z.eqb_spec (len key) 32); [|done] end.
  exists key. split_and!; try done.
  - intros He. rewrite He in *. match goal with Hg : _ = true |- _ => by rewrite andb_comm in Hg end.
  - rewrite line_parses. apply decode_backup_json.
Qed.

(** C25. What a device backs up, another device of the room restores with the first one's key: with
    archives whose entries are in order and a file within the limit, the restore succeeds, every
    entry the second device did not have opens under its own key to the plain text it had on
    the first one, searchable by its text where its payload is a message, and what
    the second device had, and all the rest of its state, is unchanged. *)
Theorem backup_restores path io w1 text n wb w old new :
  backupHistory path io w1 = (Ok (text, n), wb) -> w_history w1 = Ok old ->
  sound_archive old (cs_WorkspaceID (w_state w1)) (cs_Archive (w_state w1)) -> len text <= backup_limit ->
  cs_Protocol (w_state w) = 2 -> cs_RoomID (w_state w) = cs_RoomID (w_state w1) ->
  cs_WorkspaceID (w_state w) = cs_WorkspaceID (w_state w1) -> cs_Root (w_state w) = cs_Root (w_state w1) ->
  w_history w = Ok new -> len new = 32 ->
  exists k w', restoreHistory ToLower (Ok text) (Some (Ok old)) w = (Ok k, w') /\
    history_only (w_state w) (w_state w') /\
    (forall id, is_Some (cs_Archive (w_state w) !! id) -> cs_Archive (w_state w') !! id = cs_Archive (w_state w) !! id) /\
    (forall id sealed plain x, cs_Archive (w_state w1) !! id = Some sealed -> cs_Archive (w_state w) !! id = None ->
       opens old (cs_WorkspaceID (w_state w1)) id sealed plain x ->
       exists resealed, cs_Archive (w_state w') !! id = Some resealed /\
         opens new (cs_WorkspaceID (w_state w1)) id resealed plain x /\
         forall i, restored_index ToLower new x = Some i -> cs_SearchIndex (w_state w') !! id = Some i).
Proof using line_parses aead_opens aead_size.
  intros Hb Hold Hs Hlen Hp Hroom Hws Hroot Hnew Hk. apply backup_text in Hb as (key & Hh & Hkey & Hne & Hb).
  rewrite Hold in Hh. injection Hh as <-.
  assert (exists imp idx w2, restore_entries ToLower old new (cs_WorkspaceID (w_state w1)) (cs_Archive (w_state w))
    (map_to_list (cs_Archive (w_state w1))) ∅ ∅ w = (Ok (imp, idx), w2)) as (imp & idx & w2 & Hr).
  { destruct (restore_entries_total ToLower old new (cs_WorkspaceID (w_state w1)) (cs_Archive (w_state w)) (map_to_list (cs_Archive (w_state w1))) Hk)
      with (imported := ∅ : gmap string string) (indexes := ∅ : gmap string (list Z)) (w := w) as ([imp idx] & w2 & ->); [|by eexists _, _, _].
    apply Forall_forall. intros [id sealed] Hin%elem_of_map_to_list. by apply Hs. }
  exists (Z.of_nat (size imp)). eexists. split.
  { unfold restoreHistory. erewrite m_step by reflexivity. unfold id.
    rewrite (m_step _ _ _ tt w) by (apply require_true; rewrite Hp, Hws; by rewrite bool_decide_eq_false_2).
    rewrite (m_step _ _ _ text w) by done. rewrite (m_step _ _ _ tt w) by (apply require_true; by apply Z.leb_le).
    rewrite Hb. cbn [hb_RoomID hb_Version hb_WorkspaceID hb_Root hb_Archive].
    rewrite (m_step _ _ _ tt w) by (apply require_true; by rewrite Hroom, Hws, Hroot, !bool_decide_eq_true_2).
    rewrite (m_step _ _ _ old w) by (unfold recovery_key; by rewrite Hkey).
    rewrite (m_step _ _ _ new w) by (unfold historyKey; by rewrite Hnew, Hk).
    rewrite Hws. rewrite (m_step _ _ _ _ _ Hr). reflexivity. }
  apply restore_entries_sound in Hr as (Hst & _ & Hi & Hn). cbn. rewrite Hst. split_and!; [done| |].
  - intros id Hid. cbn. destruct (Hi id) as [Himp _]; [by right|]. by rewrite lookup_union, Himp, (left_id_L None (∪)).
  - intros id sealed plain x Hl Hno [Ho Hx]. destruct (Hn id sealed Hl Hno) as (x' & nonce & c & (_ & plain' & [Ho' Hx'] & _ & Hc) & Himp & Hidx).
    rewrite Ho in Ho'. injection Ho' as <-. rewrite Hx in Hx'. injection Hx' as <-. cbn. exists c. split_and!.
    + rewrite lookup_union, Himp. by destruct (cs_Archive (w_state w) !! id).
    + split; [|done]. by apply (SealLocal_opens aead_opens aead_size) in Hc as [? _].
    + intros i Hx'. apply lookup_union_Some_l. by apply Hidx.
Qed.
End Restoring.

(** ** Instances *)
(** A reader that passes over a last character it does not need. *)
#[local] Instance toy_lines : Primitives := {|
  json_text := json_string;
  json_parse := fun s => match toy_parse s with Some v => Some v | None => toy_parse (of_bytes (removelast (bytes s))) end;
  sha256_hex := fun s => s; ed_sign := @ed_sign (toy no_module); ed_verify := @ed_verify (toy no_module); seed_matches := @seed_matches (toy no_module);
  hmac := @hmac (toy no_module); age_recipient := @age_recipient (toy no_module); age_parse := @age_parse (toy no_module);
  age_encrypt := @age_encrypt (toy no_module); age_decrypt := @age_decrypt (toy no_module);
  aead_seal := fun _ _ data _ => toy_header +:+ data; aead_open := fun _ data _ => Ok (drop_str 28 data); mls := no_module |}.

Lemma toy_line_parses v : json_parse (json_text v +:+ lf) = Some v.
Proof.
  change (match toy_parse (json_string v +:+ lf) with Some v => Some v
          | None => toy_parse (of_bytes (removelast (bytes (json_string v +:+ lf)))) end = Some v).
  assert (bytes (json_string v +:+ lf) = put v ++ [ascii_of_nat 10]) as He.
  { unfold json_string, lf. by rewrite bytes_app, !bytes_of_bytes. }
  assert (toy_parse (json_string v +:+ lf) = None) as ->.
  { unfold toy_parse. rewrite He, length_app, get_put; [done|lia]. }
  rewrite He, removelast_last. apply toy_parse_text.
Qed.
Lemma toy_lines_opens key nonce data context : len key = 32 ->
  aead_open key (aead_seal key nonce data context) context = Ok data.
Proof. intros _. apply toy_opens. Qed.
Lemma toy_lines_size key nonce data context : len key = 32 -> 28 <= len (aead_seal key nonce data context).
Proof. intros _. apply toy_size. Qed.

Definition demo_payload : string := json_string (JObj [("text", JStr "deploy at noon")]).
Definition demo_entry (payload_key : string) : string :=
  toy_header +:+ json_string (entry_json (mkArchiveEntry payload_key demo_payload)).
Definition demo_id : string :=
  "msg_00000000000000000000000000000001:0000000000000000000000000000000000000000000000000000000000000002".
Definition demo_own_id : string :=
  "msg_00000000000000000000000000000009:0000000000000000000000000000000000000000000000000000000000000002".
Definition demo_device_world (id : string) (entry key : string) : world :=
  let s := put_Archive {[id := entry]} (demo_state "a") in mkWorld s s (Ok key) [] [] [] 10 [] no_files ∅.
Definition demo_first (k : string) : world := demo_device_world demo_id (demo_entry k) demo_key.
Definition demo_second_key : string := "012345abcdefghijklmnopqrstuvwxyz".
Definition demo_second : world := demo_device_world demo_own_id (demo_entry demo_key) demo_second_key.
Definition demo_text (k : string) : string :=
  match (backupHistory "/private/history.json" None (demo_first k)).1 with Ok (t, _) => t | Err _ => "" end.

Lemma demo_backed_up k : backupHistory "/private/history.json" None (demo_first k) = (Ok (demo_text k, 1), demo_first k).
Proof. reflexivity. Qed.
Lemma demo_text_read k : json_parse (demo_text k) ≫= decode_backup =
  Some (mkBackup "rm_mls_1" 2 "ws" demo_key {[demo_id := demo_entry k]}).
Proof. destruct (backup_text (fun b => toy_line_parses (backup_json b)) _ _ _ _ _ _ (demo_backed_up k)) as (key & _ & _ & _ & ->). reflexivity. Qed.

Lemma demo_sound : sound_archive demo_key "ws" {[demo_id := demo_entry demo_key]}.
Proof.
  apply map_Forall_singleton. split; [reflexivity|]. eexists _, _. split; [split|]; vm_compute; reflexivity.
Qed.
Lemma demo_text_fits : len (demo_text demo_key) <= backup_limit.
Proof. vm_compute. discriminate. Qed.

Lemma backup_restores_witness : exists k w',
  restoreHistory ascii_lower (Ok (demo_text demo_key)) (Some (Ok demo_key)) demo_second = (Ok k, w') /\
  history_only (w_state demo_second) (w_state w') /\
  (forall id, is_Some (cs_Archive (w_state demo_second) !! id) -> cs_Archive (w_state w') !! id = cs_Archive (w_state demo_second) !! id) /\
  (forall id sealed plain x, cs_Archive (w_state (demo_first demo_key)) !! id = Some sealed -> cs_Archive (w_state demo_second) !! id = None ->
     opens demo_key "ws" id sealed plain x ->
     exists resealed, cs_Archive (w_state w') !! id = Some resealed /\
       opens demo_second_key "ws" id resealed plain x /\
       forall i, restored_index ascii_lower demo_second_key x = Some i -> cs_SearchIndex (w_state w') !! id = Some i).
Proof.
  apply (backup_restores ascii_lower (fun b => toy_line_parses (backup_json b)) toy_lines_opens toy_lines_size "/private/history.json" None
           (demo_first demo_key) (demo_text demo_key) 1 (demo_first demo_key) demo_second demo_key demo_second_key
           (demo_backed_up demo_key) eq_refl demo_sound demo_text_fits); reflexivity.
Defined.

Definition demo_restored : result Z * world :=
  restoreHistory ascii_lower (Ok (demo_text demo_key)) (Some (Ok demo_key)) demo_second.
Lemma restore_is_safe_witness : match demo_restored.1 with
  | Err _ => w_state demo_restored.2 = w_state demo_second
  | Ok _ => exists data b old,
      Ok (demo_text demo_key) = Ok data /\ json_parse data ≫= decode_backup = Some b /\
      fst (recovery_key (Some (Ok demo_key)) demo_second) = Ok old /\
      hb_RoomID b = cs_RoomID (w_state demo_second) /\ hb_WorkspaceID b = cs_WorkspaceID (w_state demo_second) /\
      hb_Root b = cs_Root (w_state demo_second) /\ sound_archive old (cs_WorkspaceID (w_state demo_second)) (hb_Archive b) /\
      history_only (w_state demo_second) (w_state demo_restored.2) /\
      forall id, is_Some (cs_Archive (w_state demo_second) !! id) \/ hb_Archive b !! id = None ->
        cs_Archive (w_state demo_restored.2) !! id = cs_Archive (w_state demo_second) !! id /\
        cs_SearchIndex (w_state demo_restored.2) !! id = cs_SearchIndex (w_state demo_second) !! id
  end.
Proof.
  apply (restore_is_safe ascii_lower (Ok (demo_text demo_key)) (Some (Ok demo_key)) demo_second). unfold demo_restored.
  by destruct (restoreHistory _ _ _ _).
Defined.

(** A key of another length. *)
Definition demo_plain : string := json_string (entry_json (mkArchiveEntry "short" demo_payload)).
Lemma demo_opens : opens demo_key "ws" demo_id (demo_entry "short") demo_plain (mkArchiveEntry "short" demo_payload).
Proof. split; vm_compute; reflexivity. Qed.
Lemma unfit_entry_blocks_restore_witness : exists e w',
  restoreHistory ascii_lower (Ok (demo_text "short")) (Some (Ok demo_key)) demo_second = (Err e, w') /\
  w_state w' = w_state demo_second.
Proof.
  apply (unfit_entry_blocks_restore ascii_lower (demo_text "short") _ demo_key (Some (Ok demo_key)) demo_id (demo_entry "short")
           demo_plain _ demo_second (demo_text_read "short") eq_refl eq_refl demo_opens). reflexivity.
Defined.
