(* ===== verification/Export.v ===== *)
(** * Exporting a workspace

    [cryptoExport] ([encryption.go]): the server's archive, with its messages and attachments
    decrypted on the device. The archive is given by its entries, each with what opening,
    decoding and reading it yields; creating and writing the entries of the output takes the
    next outcomes of the world's saves. *)
From S2P Require Import Prelude GoStrings Json Types Crypto Roster Metadata History Inbox.
From S2P Require Import Encryption Mls Groups Messages Admission Routes Broker Addresses.

(** [ee_Messages], [ee_Blobs]: what decoding the entry line by line gives, until its end or an error. *)
Record export_entry := mkEntry {
  ee_Name : string; ee_Open : option string; ee_Messages : list Message * option string;
  ee_Blobs : list (string * string) * option string; ee_Data : result string }.
Inductive exported := OutMessages (l : list Message) | OutData (data : string).
(** The entries written, how many could not be opened because they predate the device, and how
    many were rejected. *)
Record export_run := mkRun { er_out : list (string * exported); er_locked : Z; er_rejected : Z }.
Definition add_out (o : string * exported) (locked rejected : Z) (x : export_run) : export_run :=
  mkRun (er_out x ++ [o]) (er_locked x + locked) (er_rejected x + rejected).

Section Exporting.
Context `{!Primitives}.
Variable ToLower : string -> string.

Definition write_entry : M unit := write_files (fun f => f).

(** ** Attachments of standard channels *)
Fixpoint blob_channels (l : list (string * string)) (known : gmap string bool) : M (gmap string bool) :=
  match l with
  | [] => mret known
  | (id, channel) :: l => r ← attempt (requirePlainChannel channel); blob_channels l (<[id := is_ok r]> known)
  end.
Fixpoint plain_blobs (l : list export_entry) (known : gmap string bool) : M (gmap string bool) :=
  match l with
  | [] => mret known
  | x :: l =>
      known ← (if bool_decide (ee_Name x = "blobs.jsonl") then
                 check (ee_Open x);;
                 known ← blob_channels (fst (ee_Blobs x)) known;
                 check (snd (ee_Blobs x));; mret known
               else mret known);
      plain_blobs l known
  end.

(** ** Messages *)
(** What is left of a message that cannot be opened: by then its sender is verified, and no error
    is noted in it. *)
Definition locked_message (m : Message) : Message :=
  match msg_Encrypted m with Some e => set_Authentic (env_SenderID e) m | None => m end.
Definition export_message (c : Config) (m : Message) : M (Message * Z) :=
  r ← attempt (decryptRoomMessage ToLower c m);
  match r with
  | Ok m => mret (m, 0)
  | Err e => if bool_decide (e = errBeforeJoin) then mret (locked_message m, 1) else fail e
  end.
Definition rejected_count (m : Message) : Z := if bool_decide (msg_EncryptionError m = "") then 0 else 1.
Fixpoint export_messages (c : Config) (l : list Message) (out : list Message) (locked rejected : Z)
    : M (list Message * Z * Z) :=
  match l with
  | [] => mret (out, locked, rejected)
  | m :: l =>
      '(m, n) ← export_message c m;
      write_entry;;
      export_messages c l (out ++ [m]) (locked + n) (rejected + rejected_count m)
  end.

(** ** Attachments *)
Definition is_true (b : option bool) : bool := default false b.
(** The name in the output, the data, and how it counts. *)
Definition export_attachment (c : Config) (known : gmap string bool) (name : string) (data : string)
    : M (string * string * Z * Z) :=
  match Split name "/" with
  | [_; id; base] =>
      let data := read_limited (MaxFileEnvelopeBytes + 1) data in
      r ← attempt (openRoomFile ToLower c id "" data);
      if HasPrefix id "blob_plain_" || is_true (known !! id) then mret ("attachments/" +:+ id +:+ "/" +:+ base, data, 0, 0) else
      match r with
      | Ok (at', plain) => mret ("attachments/" +:+ att_ID at' +:+ "/" +:+ att_Name at', plain, 0, 0)
      | Err e =>
          if bool_decide (e = errBeforeJoin) then mret (name, data, 1, 0)
          else if bool_decide (e = ErrMLSApplicationRejected) then mret (name, data, 0, 1)
          else fail e
      end
  | _ => fail "invalid attachment export path"
  end.

(** ** The archive *)
Definition unsafe_name (name : string) : bool :=
  bool_decide (is_Some (String.index 0 ".." name)) || HasPrefix name "/" || bool_decide (is_Some (String.index 0 "\" name)).
Definition export_one (c : Config) (known : gmap string bool) (x : export_entry) (run : export_run) : M export_run :=
  require (negb (bool_decide (ee_Name x = "EXPORT_ERROR.txt"))) "server export was incomplete";;
  require (negb (unsafe_name (ee_Name x))) "invalid export entry";;
  check (ee_Open x);;
  if bool_decide (ee_Name x = "messages.jsonl") then
    write_entry;;
    '(out, locked, rejected) ← export_messages c (fst (ee_Messages x)) [] 0 0;
    check (snd (ee_Messages x));;
    mret (add_out (ee_Name x, OutMessages out) locked rejected run)
  else if HasPrefix (ee_Name x) "attachments/" then
    require (bool_decide (length (Split (ee_Name x) "/") = 3%nat)) "invalid attachment export path";;
    data ← lift (ee_Data x);
    '(name, plain, locked, rejected) ← export_attachment c known (ee_Name x) data;
    write_entry;;
    mret (add_out (name, OutData plain) locked rejected run)
  else
    write_entry;;
    data ← lift (ee_Data x);
    mret (add_out (ee_Name x, OutData data) 0 0 run).
Fixpoint export_all (c : Config) (known : gmap string bool) (l : list export_entry) (run : export_run) : M export_run :=
  match l with
  | [] => mret run
  | x :: l => run ← export_one c known x run; export_all c known l run
  end.

(** [archive]: what the download, kept in a temporary file, opens to; [io]: creating the output. The
    last two writes are the note of the counts and the end of the output. *)
Definition cryptoExport (c : Config) (archive : result (list export_entry)) (io : option string) : M export_run :=
  _ ← raw "GET" "/export" None;
  l ← lift archive;
  known ← plain_blobs l ∅;
  check io;;
  run ← export_all c known l (mkRun [] 0 0);
  write_entry;;
  write_entry;;
  mret run.
End Exporting.
