(* ===== verification/Tools.v ===== *)
(** * The tools of an agent

    [encryptedTool] and [contentTool] ([encryption.go]): what a tool call does
    on a connection with keys; and the handler that the plugin registers for every tool of the
    server ([serverWithTools], [plugin.go]), which also serves connections without keys. The
    arguments are a map of decoded values. [url.PathEscape], [url.Values.Encode], [fmt.Sprint]
    and [base64.StdEncoding] are parameters. *)
From S2P Require Import Prelude GoStrings Json Types Crypto Roster Metadata History Inbox Protocol.
From S2P Require Import Encryption Mls Groups Messages Admission Routes Broker Addresses Rooms Backup Export.

#[local] Existing Instance R_ret.
#[local] Existing Instance R_bind.

(** What a tool shows; an error it shows is the [Err] of a [tool_outcome]. *)
Inductive tool_value :=
| VCall (c : call_result)
| VAnswer (a : answer)
| VDone
| VPolicy (automatic : bool)
| VRejections (l : list rejectedMLSMessage)
| VBackup (text : string) (entries : Z)
| VRestored (entries : Z)
| VAttachment (a : Attachment)
| VFile (a : Attachment) (data : string)
| VRequests (l : list (admissionRequest * string))
| VJoined (room next : string)
| VCreated (a : answer) (setup : option string)
| VExport (run : export_run)
| VEvents (l : list inboxEvent)
| VTool (a : answer). (* what the server's tool returned *)
Definition tool_outcome : Type := result tool_value.
Definition tool_args : Type := gmap string json.

(** [args[k].(string)], [args[k] == nil], [args[k].(bool)]. *)
Definition arg (args : tool_args) (k : string) : string := match args !! k with Some (JStr s) => s | _ => "" end.
Definition missing (args : tool_args) (k : string) : bool :=
  match args !! k with None | Some JNull => true | _ => false end.
Definition flag (args : tool_args) (k : string) : option bool :=
  match args !! k with Some (JBool b) => Some b | _ => None end.
Definition args_json (args : tool_args) : json := map_json (fun v => v) args.

Definition contentTool (name : string) : bool :=
  Contains ["message_send"; "messages_search"; "attachment_upload"; "a2a_enable"; "a2a_tasks"; "a2a_task_update"] name.
(** Tools that work on one encrypted room. *)
Definition one_room_tools : list string :=
  ["encryption_rotate"; "encryption_revoke"; "encryption_deny"; "encryption_admission_policy"; "encryption_history_backup";
   "encryption_history_restore"; "encryption_rejections"].
(** The cases of the switch of [encryptedTool]. *)
Definition handled_tools : list string :=
  ["encryption_join_room"; "room_member_update"; "encryption_admission_policy"; "encryption_rejections"; "encryption_rotate";
   "encryption_history_backup"; "encryption_history_restore"; "message_send"; "messages_search"; "attachment_upload";
   "attachment_download"; "encryption_requests"; "encryption_approve"; "encryption_deny"; "encryption_revoke";
   "invite_create"; "data_export"; "events_wait"].

(** The files of a call: the new room's keys, the output of a backup, a backup and its key, the
    connection's file, the archive of an export and its output. *)
Record tool_files := mkToolFiles {
  tf_room : room_script; tf_backup : option string; tf_file : result string; tf_key : option (result string);
  tf_saved : result Config; tf_archive : result (list export_entry); tf_export : option string }.

Definition zero_state : cryptoState :=
  mkCrypto "" "" "" [] ∅ ∅ false ∅ None (mkIdentity "" "") "" "" "" "" 0 "" 0 "" "" "" 0 0 zero_roster None ∅ ∅ ∅ ∅ ∅ 0 0.
(** On a state of its own, which is not kept. *)
Definition standalone {A} (m : M A) : M A := fun w =>
  let '(r, v) := m (enter (mkGroup zero_state (Err "") no_files) w) in
  (r, mkWorld (w_state w) (w_disk w) (w_history w) (w_saves v) (w_net v) (w_random v) (w_now v) (w_log v) (w_files w) (w_groups v)).

Section Tools.
Context `{!Primitives}.
Variables (ToLower DetectContentType number : string -> string) (url_parse : string -> option url).
Variables (PathEscape : string -> string) (Encode : gmap string string -> string) (Sprint : json -> string)
  (StdDecode : string -> option string).
Context {base : Type} (base_url : base -> Protocol.url) (parse_base : string -> option base) (base_string : base -> string).

(** [localToolResult]. *)
Definition local_result {A} (f : A -> tool_value) (m : R A) : R tool_outcome :=
  r ← catch m; mret (match r with Ok a => Ok (f a) | Err e => Err e end).

(** ** The cases *)
(** Saving the connection after a join: only the keys' paths go into its file. *)
Definition persist_join (file : result Config) : R unit :=
  c ← config;
  if bool_decide (cfg_ConnectionPath c = "") then save_config (fun c => c) else
  match file with
  | Err e => throw e
  | Ok s =>
      if negb (bool_decide (cfg_Token s = cfg_Token c) && bool_decide (cfg_Server s = cfg_Server c))
      then throw "saved connection changed"
      else fun x =>
        match cn_ios x with
        | Some e :: l => (Err e, mkConn (cn_config x) (cn_saved x) l (cn_world x))
        | l => (Ok tt, mkConn (cn_config x) (Some (set_Crypto (cfg_CryptoPath c) (cfg_EncryptionRoom s) (cfg_CryptoRooms c) s)) (tail l) (cn_world x))
        end
  end.

Definition member_path (room agent : string) : string := "/rooms/" +:+ PathEscape room +:+ "/members/" +:+ PathEscape agent.
(** [encryptedRoomMember] from its configuration. *)
Definition room_member (c : Config) (room agent : string) (present : bool) : M tool_value :=
  c ← cryptoConfigForRoom c room;
  if negb (bool_decide (cfg_EncryptionRoom c = "")) then
    if present then fail "create a room invitation, then have the existing agent call encryption_join_room to establish fresh keys for this room"
    else VRequests <$> manage_rooms ToLower c "" "" agent false
  else (fun _ => VDone) <$> locked c (encryptedRoomMember ToLower room agent present).
Definition room_member_update (c : Config) (args : tool_args) : M tool_value :=
  rooms ← ask GetRooms as_rooms;
  match flag args "present" with
  | None => fail "provide present as a boolean"
  | Some present =>
      let room := arg args "room_id" in
      if existsb (fun r => bool_decide (rm_ID r = room) && bool_decide (rm_Mode r = "e2ee")) rooms
      then room_member c room (arg args "agent_id") present
      else VAnswer <$> raw (if present then "PUT" else "DELETE") (member_path room (arg args "agent_id")) None
  end.

(** [None]: not a boolean. *)
Definition automatic_arg (args : tool_args) : option (option bool) :=
  match args !! "automatic_invites" with None => Some None | Some (JBool b) => Some (Some b) | Some _ => None end.

(** (A call with both [query] and [q] keeps either of them.) *)
Definition search_query (args : tool_args) : gmap string string :=
  list_to_map ((fun kv => (if bool_decide (kv.1 = "query") then "q" else kv.1,
                           if bool_decide (kv.1 = "metadata") then json_text kv.2 else Sprint kv.2))
               <$> map_to_list (delete "connection" args)).

Definition attachment_upload (c : Config) (args : tool_args) : M Attachment :=
  match StdDecode (arg args "data") with
  | None => fail "illegal base64 data"
  | Some data =>
      let channel := arg args "channel_id" in
      let name := arg args "name" in
      if HasPrefix channel "ch_plain_" then standalone (cryptoUpload ToLower DetectContentType channel name data)
      else locked c (ensureCrypto ToLower;; cryptoUpload ToLower DetectContentType channel name data)
  end.
Definition attachment_download (c : Config) (args : tool_args) : M tool_value :=
  let id := arg args "attachment_id" in
  '(filename, mime, data) ← ask (RawCall "GET" ("/blobs/" +:+ PathEscape id) None) as_blob;
  let data := read_limited (MaxFileEnvelopeBytes + 1) data in
  if HasPrefix id "blob_plain_" then mret (VFile (mkAttachment id filename mime (len data)) data)
  else (fun x => VFile x.1 x.2) <$> openRoomFile ToLower c id "" data.

Definition bad_request_id (id : string) : bool := negb (HasPrefix id "jr_") || ContainsAny id "/\?#".

(** The events the server's tool returned, with their messages decrypted; what cannot be read is
    left out. *)
Fixpoint open_events (c : Config) (l : list inboxEvent) (out : list inboxEvent) : M (list inboxEvent) :=
  match l with
  | [] => mret out
  | e :: l =>
      if negb (bool_decide (ev_Kind e = "message")) then open_events c l (out ++ [e]) else
      require (bool_decide (ev_ChannelID e = msg_ChannelID (ev_Payload e))) "event routing was modified";;
      r ← attempt (decryptRoomMessage ToLower c (ev_Payload e));
      match r with
      | Err x => if bool_decide (x = errBeforeJoin) then open_events c l out else fail x
      | Ok m => if bool_decide (msg_EncryptionError m = "") then open_events c l (out ++ [set_Payload m e]) else open_events c l out
      end
  end.
Definition events_wait (c : Config) (a : answer) : M tool_value :=
  match as_tool a with
  | Ok (true, _) => mret (VTool a)
  | Ok (false, Some l) => VEvents <$> open_events c l []
  | _ => fail "invalid encrypted event response"
  end.

Definition pass (name : string) (args : tool_args) : R answer := crypto (call (CallTool name (args_json args))).

(** ** [encryptedTool]; [c] is the routed configuration, and so is the one a join extends *)
Definition tool_dispatch (saved : option Config) (fs : tool_files) (configPath : string) (c : Config) (name : string) (args : tool_args) : R tool_outcome :=
  let str := arg args in
  let run {A} (f : A -> tool_value) (m : M A) := local_result f (crypto m) in
  let under {A} (f : A -> tool_value) (m : M A) := run f (locked c m) in
  let request method path v := run VCall (callContext ToLower number url_parse saved c method path v) in
  if bool_decide (name = "encryption_join_room") then
    local_result (fun x => VJoined x.1 x.2)
      (joinIndependentRoom (persist_join (tf_saved fs)) base_url parse_base base_string (tf_room fs) configPath (str "invite"))
  else if bool_decide (name = "room_member_update") then run id (room_member_update c args)
  else if bool_decide (name = "encryption_admission_policy") then
    match automatic_arg args with
    | None => mret (Err "automatic_invites must be a boolean")
    | Some automatic => under VPolicy (encryptionAdmissionPolicy ToLower automatic)
    end
  else if bool_decide (name = "encryption_rejections") then under VRejections encryptionRejections
  else if bool_decide (name = "encryption_rotate") then under (fun _ => VDone) (rotateMLS ToLower)
  else if bool_decide (name = "encryption_history_backup") then under (fun x => VBackup x.1 x.2) (backupHistory (str "out") (tf_backup fs))
  else if bool_decide (name = "encryption_history_restore") then under VRestored (restoreHistory ToLower (tf_file fs) (tf_key fs))
  else if bool_decide (name = "message_send") then request "POST" "/messages" (Some (args_json args))
  else if bool_decide (name = "messages_search") then request "GET" ("/messages?" +:+ Encode (search_query args)) None
  else if bool_decide (name = "attachment_upload") then run VAttachment (attachment_upload c args)
  else if bool_decide (name = "attachment_download") then run id (attachment_download c args)
  else if bool_decide (name = "encryption_requests") then run VRequests (manage_rooms ToLower c "" "" "" false)
  else if bool_decide (name = "encryption_approve") then run VRequests (manage_rooms ToLower c (str "request_id") (str "fingerprint") "" false)
  else if bool_decide (name = "encryption_deny") then
    if bad_request_id (str "request_id") then mret (Err "invalid request ID")
    else request "POST" ("/e2ee/requests/" +:+ str "request_id" +:+ "/deny") (Some (JObj []))
  else if bool_decide (name = "encryption_revoke") then run VRequests (manage_rooms ToLower c "" "" (str "agent_id") false)
  else if bool_decide (name = "invite_create") then request "POST" "/invites" (Some (args_json args))
  else if bool_decide (name = "data_export") then run VExport (cryptoExport ToLower c (tf_archive fs) (tf_export fs))
  else if bool_decide (name = "events_wait") then a ← pass name args; run id (events_wait c a)
  else a ← pass name args; mret (Ok (VTool a)).

Definition encryptedTool (saved : option Config) (fs : tool_files) (configPath name : string) (args : tool_args) : R tool_outcome :=
  c ← config;
  if bool_decide (1 < Z.of_nat (size (cfg_CryptoRooms c))) && missing args "room_id" && Contains one_room_tools name
  then mret (Err "specify room_id to select the encrypted room") else
  r ← catch (crypto (routeCryptoCall url_parse c "/" (Some (args_json args))));
  match r with
  | Err e => mret (Err e)
  | Ok c => update (fun _ => c);; tool_dispatch saved fs configPath c name args
  end.

(** ** Without keys: content only on a channel that is not encrypted *)
Definition keyless_tool (name : string) (args : tool_args) : M tool_outcome :=
  r ← (if contentTool name then attempt (requirePlainChannel (arg args "channel_id")) else mret (Ok tt));
  match r with
  | Err e => mret (Err e)
  | Ok _ => a ← call (CallTool name (args_json args)); mret (Ok (VTool a))
  end.

(** ** The plugin's handler of a tool of the server *)
Definition plugin_tool (root : string) (fs : tool_files) (ios : list (option string)) (meanwhile : vault -> vault)
    (saved : option Config) (name : string) (args : tool_args) (v : vault) (w : world) : result tool_outcome * vault * world :=
  match load v (arg args "connection") with
  | Err e => (Err e, v, w)
  | Ok c =>
      let args := delete "connection" args in
      let e2ee := bool_decide (flag args "e2ee" = Some true) in
      match checkServerTool (pc_Protocol c) name e2ee with
      | Some e => (Ok (Err e), v, w)
      | None =>
          if bool_decide (name = "room_create") && e2ee then
            in_plugin root (fun persist => local_result (fun x => VCreated x.1 x.2)
              (createLocalEncryptedRoom ToLower persist (tf_room fs) (crypto_path root (pc_Handle c)) (arg args "name"))) ios meanwhile v c w
          else if bool_decide (name = "encryption_join_room") then
            in_plugin root (fun persist => local_result (fun x => VJoined x.1 x.2)
              (joinIndependentRoom persist base_url parse_base base_string (tf_room fs) "" (arg args "invite"))) ios meanwhile v c w
          else if negb (bool_decide (cfg_CryptoPath (pc_Config c) = "")) then
            in_plugin root (fun _ => encryptedTool saved fs "" name args) ios meanwhile v c w
          else if isLocalCryptoTool name then (Ok (Err "this tool requires an encrypted workspace"), v, w)
          else let '(r, w) := keyless_tool name args w in (r, meanwhile v, w)
      end
  end.
End Tools.
