(* ===== verification/ToolsTheorems.v ===== *)
(** * The tools of an agent: properties

    Which of a tool's content leaves the device in the clear, with keys and without; what the tools
    do that the switch of [encryptedTool] does not name; and what an export makes of a message that
    the device cannot open. *)
From S2P Require Import Prelude GoStrings Json Types Crypto Toy Roster RosterTheorems Metadata History Inbox Protocol.
From S2P Require Import Encryption Mls MlsFacts Groups MlsTheorems Messages Invariants Admission Scenario MessagesTheorems.
From S2P Require Import Routes RoutesTheorems Broker Addresses Rooms Backup Export Tools.

#[local] Existing Instance R_ret.
#[local] Existing Instance R_bind.
#[local] Existing Instance covered_stable.

Section Upload.
Context `{!Primitives}.
Variables (ToLower DetectContentType : string -> string).

(** ** Uploading a file *)
Lemma inv_read {A} (Q : world -> Prop) (f : cryptoState -> M A) w :
  inv Q (f (w_state w)) -> Q w -> Q ((s ← gets id; f s) w).2.
Proof. intros Hf Hw. by apply Hf. Qed.

Lemma upload_covered extra groups before channel name data w : covered extra groups before w ->
  (plainCryptoChannel (w_state w) channel = true -> extra (PostUpload channel name data)) ->
  covered extra groups before (cryptoUpload ToLower DetectContentType channel name data w).2.
Proof.
  intros Hw Hx. unfold cryptoUpload. apply (inv_read (covered extra groups before)); [|done].
  apply inv_bind; [auto with inv|intros _]. destruct (plainCryptoChannel (w_state w) channel).
  { apply inv_bind; [apply covered_call; right; by apply Hx|auto with inv]. }
  do 4 (apply inv_bind; [auto with inv|intros ?]). cbv zeta.
  apply (inv_bind_post _ ciphered).
  - inv_steps.
  - intros v e v' _ He. destruct (cs_Protocol _ =? 2); m_inv; [by eapply sealMLS_ciphered|].
    match goal with Hl : Ok _ = Seal _ _ _ _ _ _ |- _ => symmetry in Hl; by eapply Seal_ciphered end.
  - intros e He. apply inv_bind; [inv_steps|intros _]. apply inv_bind.
    + apply inv_bind; [apply covered_call; left|auto with inv]. split; [done|]. by exists e.
    + inv_steps.
Qed.
End Upload.

Section Tools.
Context `{!Primitives}.
Variables (ToLower DetectContentType number : string -> string) (url_parse : string -> option url).
Variables (PathEscape : string -> string) (Encode : gmap string string -> string) (Sprint : json -> string)
  (StdDecode : string -> option string).
Context {base : Type} (base_url : base -> Protocol.url) (parse_base : string -> option base) (base_string : base -> string).
#[local] Notation tool_dispatch := (tool_dispatch ToLower DetectContentType number url_parse PathEscape Encode Sprint StdDecode base_url parse_base base_string).
#[local] Notation encryptedTool := (encryptedTool ToLower DetectContentType number url_parse PathEscape Encode Sprint StdDecode base_url parse_base base_string).
#[local] Notation plugin_tool := (plugin_tool ToLower DetectContentType number url_parse PathEscape Encode Sprint StdDecode base_url parse_base base_string).

(** ** Running a tool *)
Lemma local_crypto {A} (f : A -> tool_value) (m : M A) s :
  local_result f (crypto m) s =
  (Ok (match (m (cn_world s)).1 with Ok a => Ok (f a) | Err e => Err e end),
   mkConn (cn_config s) (cn_saved s) (cn_ios s) (m (cn_world s)).2).
Proof. unfold local_result, catch, mbind, R_bind, crypto. by destruct (m (cn_world s)) as [[a|e] w]. Qed.

Definition routed_to (c : Config) (args : tool_args) (w : world) : result Config :=
  (routeCryptoCall url_parse c "/" (Some (args_json args)) w).1.
Lemma encrypted_tool saved fs path name args s : Contains one_room_tools name = false ->
  encryptedTool saved fs path name args s =
  match routed_to (cn_config s) args (cn_world s) with
  | Err e => (Ok (Err e), s)
  | Ok c => tool_dispatch saved fs path c name args (mkConn c (cn_saved s) (cn_ios s) (cn_world s))
  end.
Proof.
  intros Hn. unfold Tools.encryptedTool, routed_to. unfold mbind at 1, R_bind at 1, config. rewrite Hn, andb_false_r.
  unfold mbind at 1, R_bind at 1, catch, crypto. destruct (routeCryptoCall _ _ _ _ _) as [r w'] eqn:Er.
  apply route_world in Er as ->. destruct s as [c saved' ios w]. by destruct r.
Qed.

Lemma dispatch_send saved fs path c args :
  tool_dispatch saved fs path c "message_send" args =
  local_result VCall (crypto (callContext ToLower number url_parse saved c "POST" "/messages" (Some (args_json args)))).
Proof. reflexivity. Qed.
Lemma dispatch_upload saved fs path c args :
  tool_dispatch saved fs path c "attachment_upload" args =
  local_result VAttachment (crypto (attachment_upload ToLower DetectContentType StdDecode c args)).
Proof. reflexivity. Qed.

(** The keys stay with a connection when a call is routed. *)
Lemma routed_keys c args w c1 : routed_to c args w = Ok c1 -> cfg_CryptoPath c <> "" -> cfg_CryptoPath c1 <> "".
Proof.
  unfold routed_to, routeCryptoCall, cryptoConfigForChannel. destruct (url_parse "/") as [u|]; [|done].
  destruct (decode_scope _) as [[channel room]|]; [|done]. intros Hr Hc.
  assert (forall room, (cryptoConfigForRoom c room w).1 = Ok c1 -> cfg_CryptoPath c1 <> "") as Hroom.
  { clear Hr room. intros room. unfold cryptoConfigForRoom. case_bool_decide; [by intros [= <-]|].
    destruct (negb _) eqn:Ep; [intros [= <-]; cbn; by apply negb_true_iff, bool_decide_eq_false in Ep|].
    unfold mbind, M_bind, get_groups. destruct (_ || _); [by intros [= <-]|]. destruct (HasPrefix _ _); [done|by intros [= <-]]. }
  case_bool_decide; by eapply Hroom.
Qed.
Lemma current_keys saved c : cfg_CryptoPath c <> "" -> cfg_CryptoPath (currentCryptoConfig saved c) <> "".
Proof.
  intros Hc. unfold currentCryptoConfig. case_bool_decide; [done|]. destruct saved as [s|]; [|done].
  destruct (_ && _) eqn:E; [|done]. bool_simpl. cbn. by case_bool_decide.
Qed.

(** ** Where content may be seen *)
(** Without keys: the server was asked first, and lists the channel as one that is not encrypted. *)
Definition asked_plain (channel : string) (w : world) (log : list request) : Prop :=
  exists l net ch rest, w_net w = Ok (AnsChannels l) :: net /\
    List.find (fun ch => bool_decide (ch_ID ch = channel)) l = Some ch /\ ch_Mode ch <> "e2ee" /\
    log = GetChannels :: rest.
(** With keys: the channel's identifier is that of a plain one, or the group to which the call is
    routed lists it. *)
Definition posts_plain (saved : option Config) (c1 : Config) (args : tool_args) (w : world) : Prop :=
  HasPrefix (body_channel (Some (args_json args))) "ch_plain_" = true \/
  exists c2 g input, routeCryptoCall url_parse (currentCryptoConfig saved c1) "/messages" (Some (args_json args)) w = (Ok c2, w) /\
    w_groups w !! cfg_CryptoPath c2 = Some g /\ decode_send (args_json args) = Some input /\
    plainCryptoChannel (w_state (ensureCrypto ToLower (enter g w)).2) (si_ChannelID input) = true.
Definition uploads_plain (c1 : Config) (channel : string) (w : world) : Prop :=
  HasPrefix channel "ch_plain_" = true \/
  exists g, w_groups w !! cfg_CryptoPath c1 = Some g /\
    plainCryptoChannel (w_state (ensureCrypto ToLower (enter g w)).2) channel = true.
(** Where what a call sends in the clear may go, with the requests it made: with keys, to a plain
    channel; without, to a channel listed as plain beforehand - or to none. The check of a
    connection without keys ([requirePlainChannel]) lets a call pass whose arguments have no text
    under the very key [channel_id], and its content goes to the server with nothing asked. *)
Inductive plain_target (saved : option Config) (c : Config) (name : string) (args : tool_args) (w : world)
    (log : list request) : Prop :=
| pt_keys c1 : cfg_CryptoPath c <> "" -> routed_to c args w = Ok c1 ->
    (if decide (name = "message_send") then posts_plain saved c1 args w else uploads_plain c1 (arg args "channel_id") w) ->
    plain_target saved c name args w log
| pt_listed : cfg_CryptoPath c = "" -> arg args "channel_id" <> "" -> asked_plain (arg args "channel_id") w log ->
    plain_target saved c name args w log
| pt_unnamed : cfg_CryptoPath c = "" -> arg args "channel_id" = "" -> log = [CallTool name (args_json args)] ->
    plain_target saved c name args w log.

(** What a run added to the log, and that the outboxes stay sealed. *)
Definition runs_hidden (P : Prop) (w w' : world) : Prop :=
  sealed_groups (w_groups w') /\ exists l, w_log w' = w_log w ++ l /\ (Forall hides l \/ P).
Lemma runs_same P w : sealed_groups (w_groups w) -> runs_hidden P w w.
Proof. intros Hw. split; [done|]. exists []. rewrite app_nil_r. split; [done|]. by left. Qed.
Lemma runs_none (P : list request -> Prop) w : sealed_groups (w_groups w) ->
  sealed_groups (w_groups w) /\ exists l, w_log w = w_log w ++ l /\ (Forall hides l \/ P l).
Proof. intros Hw. split; [done|]. exists []. rewrite app_nil_r. split; [done|]. by left. Qed.
Lemma upload_hidden c args w : sealed_groups (w_groups w) ->
  runs_hidden (uploads_plain c (arg args "channel_id") w) w (attachment_upload ToLower DetectContentType StdDecode c args w).2.
Proof.
  intros Hw. unfold attachment_upload. destruct (StdDecode _) as [data|]; [|by apply runs_same].
  set (channel := arg args "channel_id"). set (name := arg args "name"). destruct (HasPrefix channel "ch_plain_") eqn:Ep.
  - assert (covered (fun _ => True) (w_groups w) (w_log w) (cryptoUpload ToLower DetectContentType channel name data (enter (mkGroup zero_state (Err "") no_files) w)).2) as [_ _ _ (l & Hl & _) Hg].
    { apply upload_covered; [|done]. split; try done. exists []. by rewrite app_nil_r. }
    unfold standalone. destruct (cryptoUpload _ _ _ _ _ _) as [r v]. cbn in *. split; [cbn; by rewrite Hg|].
    exists l. split; [done|]. right. by left.
  - destruct (w_groups w !! cfg_CryptoPath c) as [g|] eqn:Eg.
    2: { unfold locked. rewrite Eg. case_bool_decide; by apply runs_same. }
    set (P := plainCryptoChannel (w_state (ensureCrypto ToLower (enter g w)).2) channel = true).
    destruct (locked c _ w) as [r w'] eqn:El. cbn.
    eapply (locked_covered (fun _ => P)) in El as (Hs & l & Hl & Ha); [| |done].
    2: { intros g' Hg' Hcov. rewrite Eg in Hg'. injection Hg' as <-.
         pose proof (inv_ensureCrypto (covered (fun _ => P) (w_groups w) (w_log w)) ToLower _ Hcov) as He.
         unfold mbind, M_bind. unfold P. unfold P in He. destruct (ensureCrypto ToLower (enter g w)) as [[[]|e] w1]; [|done].
         apply upload_covered; [exact He|auto]. }
    split; [done|]. exists l. split; [done|].
    destruct (plainCryptoChannel (w_state (ensureCrypto ToLower (enter g w)).2) channel) eqn:Epl.
    + right. right. by exists g.
    + left. eapply Forall_impl; [exact Ha|]. intros q [Hq|Hq]; [done|]. unfold P in Hq. congruence.
Qed.

Lemma keyless_hidden saved c name args w : cfg_CryptoPath c = "" -> sealed_groups (w_groups w) -> contentTool name = true ->
  sealed_groups (w_groups (keyless_tool name args w).2) /\
  exists l, w_log (keyless_tool name args w).2 = w_log w ++ l /\ (Forall hides l \/ plain_target saved c name args w l).
Proof.
  intros Hk Hw Hn. unfold keyless_tool, requirePlainChannel. rewrite Hn. set (channel := arg args "channel_id").
  assert (Hcall : forall q w, w_log (call q w).2 = w_log w ++ [q] /\ w_groups (call q w).2 = w_groups w)
    by (intros q v; unfold call; by destruct (w_net v)).
  case_bool_decide as Hc.
  { unfold attempt, mbind, M_bind. cbn. destruct (Hcall (CallTool name (args_json args)) w) as [Hl Hg].
    destruct (call _ w) as [[a|e] w1]; cbn in *; (split; [by rewrite Hg|]); eexists; (split; [exact Hl|]);
      right; by apply pt_unnamed. }
  unfold attempt, mbind, M_bind, ask. unfold mbind, M_bind. destruct (Hcall GetChannels w) as [Hl1 Hg1].
  assert (Forall hides [GetChannels]) as Hh by by repeat constructor.
  destruct (call GetChannels w) as [[a|e] w1] eqn:Ea; cbn in Hl1, Hg1;
    [|cbn; split; [by rewrite Hg1|]; exists [GetChannels]; by auto].
  assert (sealed_groups (w_groups w1) /\ exists l, w_log w1 = w_log w ++ l /\
            (Forall hides l \/ plain_target saved c name args w l)) as Hasked
    by (split; [by rewrite Hg1|]; exists [GetChannels]; by auto).
  destruct a; try exact Hasked. cbn. destruct (List.find _ _) as [ch|] eqn:Ef; [|exact Hasked].
  unfold require. destruct (decide (ch_Mode ch = "e2ee")) as [He|He]; [by rewrite bool_decide_eq_true_2|].
  rewrite bool_decide_eq_false_2 by done. cbn. destruct (Hcall (CallTool name (args_json args)) w1) as [Hl2 Hg2].
  assert (plain_target saved c name args w [GetChannels; CallTool name (args_json args)]) as Hp.
  { apply pt_listed; [done|done|]. unfold call in Ea. destruct (w_net w) as [|x net] eqn:En; [done|].
    injection Ea as -> _. by exists l, net, ch, [CallTool name (args_json args)]. }
  destruct (call _ w1) as [[a|e] w2]; cbn in *; (split; [by rewrite Hg2, Hg1|]);
    exists [GetChannels; CallTool name (args_json args)]; (split; [by rewrite Hl2, Hl1, <- app_assoc|by right]).
Qed.

(** C6. A tool's content leaves the device in the clear only for a plain channel, or for none. Let an
    agent call [message_send] or [attachment_upload] through the plugin, whatever the server
    answers and whichever saves fail. Then every request made hides content, and the outboxes of
    all rooms stay sealed, except in three cases. On a connection with keys, the channel is plain
    by its identifier or by the signed membership and the local snapshot of the group to which
    the call is routed. On a connection without keys, the call names a channel, and before its
    content is sent the server's list of channels was asked and has it as a plain one. Or the
    connection has no keys and the arguments have no text under exactly [channel_id] - it is
    missing, empty, no string, or spelled with other capitals: then the content goes to the
    server at once and nothing is asked. *)
Theorem content_stays_on_plain_channels root fs ios meanwhile saved name args v w c u r v' w' :
  name = "message_send" \/ name = "attachment_upload" ->
  load v (arg args "connection") = Ok c -> sealed_groups (w_groups w) ->
  url_parse "/messages" = Some u -> url_Query u "channel_id" = "" ->
  plugin_tool root fs ios meanwhile saved name args v w = (r, v', w') ->
  sealed_groups (w_groups w') /\ exists l, w_log w' = w_log w ++ l /\
    (Forall hides l \/ plain_target saved (pc_Config c) name (delete "connection" args) w l).
Proof.
  intros Hname Hload Hw Hu Hq Hr.
  unfold Tools.plugin_tool in Hr. rewrite Hload in Hr. set (a := delete "connection" args) in *. cbv zeta in Hr.
  destruct (checkServerTool _ _ _) as [e|]; [injection Hr as _ _ <-; by apply runs_none|].
  rewrite (bool_decide_eq_false_2 (name = "room_create")), (bool_decide_eq_false_2 (name = "encryption_join_room")) in Hr by (by destruct Hname as [->| ->]).
  cbn [andb] in Hr. destruct (decide (cfg_CryptoPath (pc_Config c) = "")) as [Hk|Hk].
  { rewrite bool_decide_eq_true_2 in Hr by done. cbn [negb] in Hr.
    replace (isLocalCryptoTool name) with false in Hr by (by destruct Hname as [->| ->]).
    pose proof (keyless_hidden saved (pc_Config c) name a w Hk Hw ltac:(by destruct Hname as [->| ->])) as Hh.
    destruct (keyless_tool name a w) as [r1 w1]. by injection Hr as _ _ <-. }
  rewrite bool_decide_eq_false_2 in Hr by done. cbn [negb] in Hr. unfold in_plugin in Hr.
  rewrite encrypted_tool in Hr by (by destruct Hname as [->| ->]). cbn [cn_config cn_saved cn_ios cn_world] in Hr.
  destruct (routed_to (pc_Config c) a w) as [c1|e] eqn:Ec; [|injection Hr as _ _ <-; by apply runs_none].
  destruct Hname as [-> | ->].
  - rewrite dispatch_send, local_crypto in Hr. injection Hr as _ _ <-. cbn [cn_world].
    destruct (callContext _ _ _ _ _ _ _ _ w) as [r2 w2] eqn:Em.
    eapply plaintext_only_on_plain_channels in Em as (Hs & l & Hl & Hh); [|by eapply current_keys, routed_keys|done..].
    split; [done|]. exists l. split; [done|]. destruct Hh as [Hh|Hh]; [by left|right; by apply (pt_keys _ _ _ _ _ _ c1)].
  - rewrite dispatch_upload, local_crypto in Hr. injection Hr as _ _ <-. cbn [cn_world].
    destruct (upload_hidden c1 a w Hw) as (Hs & l & Hl & Hh). split; [done|]. exists l. split; [done|].
    destruct Hh as [Hh|Hh]; [by left|right; by apply (pt_keys _ _ _ _ _ _ c1)].
Qed.

(** ** What the switch does not name *)
Lemma dispatch_other saved fs path c name args : Contains handled_tools name = false ->
  tool_dispatch saved fs path c name args = (a ← pass name args; mret (Ok (VTool a))).
Proof.
  intros Hn. unfold Contains, handled_tools in Hn. apply bool_decide_eq_false in Hn. rewrite !not_elem_of_cons in Hn.
  unfold Tools.tool_dispatch. cbv zeta. rewrite !bool_decide_eq_false_2 by tauto. reflexivity.
Qed.
Lemma one_room_handled name : Contains handled_tools name = false -> Contains one_room_tools name = false.
Proof.
  clear. unfold Contains. rewrite !bool_decide_eq_false. intros Hn Hin. apply Hn. revert Hin.
  unfold one_room_tools, handled_tools. set_solver.
Qed.

(** What [encryptedTool] does not name goes to the server as it is, on a connection with keys
    just as well: any such tool, so [a2a_task_update] or [page_create], is called with the agent's
    arguments, content included, and nothing is asked about the channel first. Without keys,
    [a2a_task_update] (like [a2a_enable] and [a2a_tasks]) is refused for a channel that the
    server lists as encrypted, after that one question. *)
Theorem unlisted_tools_unchecked root fs ios meanwhile saved name args v w c c1 :
  Contains handled_tools name = false -> name <> "room_create" ->
  load v (arg args "connection") = Ok c -> checkServerTool (pc_Protocol c) name (bool_decide (flag (delete "connection" args) "e2ee" = Some true)) = None ->
  cfg_CryptoPath (pc_Config c) <> "" -> routed_to (pc_Config c) (delete "connection" args) w = Ok c1 ->
  w_log (plugin_tool root fs ios meanwhile saved name args v w).2 = w_log w ++ [CallTool name (args_json (delete "connection" args))] /\
  forall l net ch args', contentTool name = true -> w_net w = Ok (AnsChannels l) :: net -> arg args' "channel_id" <> "" ->
    List.find (fun ch => bool_decide (ch_ID ch = arg args' "channel_id")) l = Some ch -> ch_Mode ch = "e2ee" ->
    exists e, (keyless_tool name args' w).1 = Ok (Err e) /\ w_log (keyless_tool name args' w).2 = w_log w ++ [GetChannels].
Proof.
  intros Hn Hc Hload Hsup Hk Hroute. split.
  - assert (name <> "encryption_join_room") as Hj by (by intros ->).
    unfold Tools.plugin_tool. rewrite Hload. cbv zeta. rewrite Hsup.
    rewrite (bool_decide_eq_false_2 _ Hc), (bool_decide_eq_false_2 _ Hj), (bool_decide_eq_false_2 _ Hk). cbn [andb negb].
    unfold in_plugin. rewrite encrypted_tool by (by apply one_room_handled). cbn [cn_config cn_saved cn_ios cn_world].
    rewrite Hroute, dispatch_other by done. unfold pass, crypto, mbind, R_bind, call. cbn.
    by destruct (w_net w) as [|[a|e] net].
  - intros l net ch args' Hcontent Hnet Hid Hfind Hmode. unfold keyless_tool, requirePlainChannel, ask, attempt, mbind, M_bind, call.
    rewrite Hcontent, bool_decide_eq_false_2 by done. rewrite Hnet. cbn. rewrite Hfind. unfold require.
    rewrite bool_decide_eq_true_2 by done. by eexists.
Qed.
End Tools.

(** ** Exporting *)
Section Exporting.
Context `{!Primitives}.
Variable ToLower : string -> string.

(** Two actions that leave the same world and fail alike. *)
Definition error {A} (r : result A) : option string := match r with Ok _ => None | Err e => Some e end.
Definition alike {A} (x y : M A) : Prop := forall w, (x w).2 = (y w).2 /\ error (x w).1 = error (y w).1.
Lemma alike_refl {A} (m : M A) : alike m m.
Proof. by intros w. Qed.
Lemma alike_bind {A B} (m : M A) (f g : A -> M B) : (forall a, alike (f a) (g a)) -> alike (m ≫= f) (m ≫= g).
Proof. intros Hf w. unfold mbind, M_bind. destruct (m w) as [[a|e] w1]; [apply Hf|done]. Qed.
Lemma alike_locked {A} c (x y : M A) : alike x y -> alike (locked c x) (locked c y).
Proof.
  intros Hxy w. unfold locked. case_bool_decide; [done|]. destruct (w_groups w !! _) as [g|]; [|done].
  unfold withCrypto. cbv zeta. destruct (identity_device _ _); [|done]. case_bool_decide; [done|].
  match goal with |- context [x ?v] => destruct (Hxy v) as [Hw He]; destruct (x v) as [r w1], (y v) as [r' w2] end.
  cbn in Hw, He. subst w2. destruct (save_state w1) as [saved w2]. cbn. split; [done|].
  by destruct r, r', saved; simplify_eq/=.
Qed.

(** The relay's text plays no part in opening a message. *)
Definition set_MessageText (t : string) (m : Message) : Message :=
  mkMessage (msg_EncryptionError m) (msg_Encrypted m) (msg_Context m) (msg_ReplyPreview m) (msg_Seq m) (msg_ID m)
    (msg_ChannelID m) (msg_AgentID m) (msg_AgentName m) t (msg_Metadata m) (msg_Attachments m) (msg_Mentions m) (msg_ReplyTo m) (msg_CreatedAt m).
Lemma alike_decrypt t m : alike (decryptMessage ToLower m) (decryptMessage ToLower (set_MessageText t m)).
Proof.
  unfold decryptMessage. apply alike_bind. intros s. change (msg_Encrypted (set_MessageText t m)) with (msg_Encrypted m).
  destruct (msg_Encrypted m) as [e|]; [|by intros w; unfold require; destruct (plainCryptoChannel _ _)].
  do 4 (apply alike_bind; intros ?). cbv zeta. apply alike_bind. intros s'.
  destruct (bool_decide _); [by intros w|]. do 2 (apply alike_bind; intros ?).
  destruct (json_parse _ ≫= decode_body) as [body|]; [|apply alike_refl]. apply alike_bind. by intros ? w.
Qed.
Lemma alike_room c t m : is_Some (msg_Encrypted m) -> alike (decryptRoomMessage ToLower c m) (decryptRoomMessage ToLower c (set_MessageText t m)).
Proof.
  intros [e He]. unfold decryptRoomMessage. change (msg_Encrypted (set_MessageText t m)) with (msg_Encrypted m). rewrite He.
  apply alike_bind. intros c2. apply alike_locked, alike_bind. intros _. apply alike_decrypt.
Qed.

(** An export shows what the relay made up as what the sender wrote. When the device cannot open
    a message because it predates its membership, the message goes into the export with its
    verified sender and no note of an error, but with the text that came with it, which nobody
    has signed: whatever text [t] the relay puts beside the envelope, opening takes the same
    course, and [t] is exported under the sender's name. The message only adds to the count of
    entries that could not be opened. *)
Theorem export_keeps_relay_text c m e t w w' : msg_Encrypted m = Some e ->
  decryptRoomMessage ToLower c m w = (Err errBeforeJoin, w') ->
  exists out, export_message ToLower c (set_MessageText t m) w = (Ok (out, 1), w') /\
    msg_Text out = t /\ msg_AgentName out = env_SenderID e /\ msg_EncryptionError out = "" /\ rejected_count out = 0.
Proof.
  intros He Hd. destruct (alike_room c t m ltac:(by exists e) w) as [Hw Herr]. rewrite Hd in Hw, Herr. cbn in Hw, Herr.
  unfold export_message, attempt, mbind, M_bind.
  destruct (decryptRoomMessage ToLower c (set_MessageText t m) w) as [[m'|e'] w1]; [done|]. cbn in Hw, Herr. injection Herr as <-. subst w1.
  rewrite bool_decide_eq_true_2 by done. eexists. split; [reflexivity|]. unfold locked_message. cbn. by rewrite He.
Qed.
End Exporting.

(** ** The theorems at concrete inputs *)
Definition tool_handle : string := ID "conn_" "0123456789abcdef".
Definition desk_vault : vault := {[tool_handle := Saved (zero_plugin tool_handle desk_config)]}.
Definition no_room : room_script := mkRoomScript "" "" (mkKeys None (Err "") "" (Err "") None).
Definition no_tool_files : tool_files := mkToolFiles no_room None (Err "no file") None (Err "no file") (Err "no archive") None.
Definition desk_args : tool_args :=
  {["connection" := JStr tool_handle; "channel_id" := JStr room_channel; "text" := JStr "hello"; "idempotency_key" := JStr "key-1"]}.
Definition no_url (u : unit) : Protocol.url := Protocol.mkURL "" "" "" false "" "" false "".
Definition desk_tool (name : string) : result tool_outcome * vault * world :=
  @plugin_tool room_primitives ascii_lower (fun s => s) (fun s => s) desk_paths (fun s => s) (fun _ => "") (fun _ => "") Some
    unit no_url (fun _ => None) (fun _ => "") "/connections" no_tool_files [] (fun v => v)
    None name desk_args desk_vault desk_world.

(** The message is posted inside an envelope. *)
Example desk_tool_posts :
  (fun q => match q with PostMessage m => bool_decide (is_Some (si_Encrypted m)) | _ => false end) <$>
    last (w_log (desk_tool "message_send").2) = Some true.
Proof. vm_compute. reflexivity. Qed.
#[local] Notation desk_url := (mkURL "/messages" (fun _ => "")).
Lemma desk_load : load desk_vault (arg desk_args "connection") = Ok (zero_plugin tool_handle desk_config).
Proof. vm_compute. reflexivity. Qed.
Lemma desk_parts name : desk_tool name = ((desk_tool name).1.1, (desk_tool name).1.2, (desk_tool name).2).
Proof. by destruct (desk_tool name) as [[r v] w]. Qed.
Lemma content_stays_on_plain_channels_witness :
  sealed_groups (w_groups (desk_tool "message_send").2) /\ exists l, w_log (desk_tool "message_send").2 = w_log desk_world ++ l /\
    (Forall hides l \/ @plain_target room_primitives ascii_lower desk_paths None desk_config "message_send" (delete "connection" desk_args) desk_world l).
Proof.
  exact (@content_stays_on_plain_channels room_primitives ascii_lower (fun s => s) (fun s => s) desk_paths (fun s => s) (fun _ => "") (fun _ => "") Some
    unit no_url (fun _ => None) (fun _ => "") "/connections" no_tool_files [] (fun v => v) None "message_send" desk_args desk_vault desk_world
    (zero_plugin tool_handle desk_config) desk_url (desk_tool "message_send").1.1 (desk_tool "message_send").1.2 (desk_tool "message_send").2 (or_introl eq_refl) desk_load desk_sealed eq_refl eq_refl (desk_parts "message_send")).
Defined.

(** Without keys, a call that spells the key otherwise: its content goes out with nothing asked. *)
Definition odd_args : tool_args := {["Channel_ID" := JStr room_channel; "text" := JStr "hello"]}.
Example unnamed_channel_is_unasked :
  let c := zero_plugin tool_handle (set_Crypto "" "" (cfg_CryptoRooms desk_config) desk_config) in
  w_log (@plugin_tool room_primitives ascii_lower (fun s => s) (fun s => s) desk_paths (fun s => s) (fun _ => "") (fun _ => "") Some
    unit no_url (fun _ => None) (fun _ => "") "/connections" no_tool_files [] (fun v => v)
    None "message_send" (<["connection" := JStr tool_handle]> odd_args) {[tool_handle := Saved c]} desk_world).2
  = w_log desk_world ++ [CallTool "message_send" (args_json odd_args)].
Proof. vm_compute. reflexivity. Qed.

Lemma desk_routes : @routed_to desk_paths desk_config (delete "connection" desk_args) desk_world = Ok desk_routed.
Proof. vm_compute. reflexivity. Qed.
Lemma unlisted_tools_unchecked_witness :
  w_log (desk_tool "a2a_task_update").2 = w_log desk_world ++ [CallTool "a2a_task_update" (args_json (delete "connection" desk_args))] /\
  forall l net ch args', contentTool "a2a_task_update" = true -> w_net desk_world = Ok (AnsChannels l) :: net -> arg args' "channel_id" <> "" ->
    List.find (fun ch => bool_decide (ch_ID ch = arg args' "channel_id")) l = Some ch -> ch_Mode ch = "e2ee" ->
    exists e, (keyless_tool "a2a_task_update" args' desk_world).1 = Ok (Err e) /\
      w_log (keyless_tool "a2a_task_update" args' desk_world).2 = w_log desk_world ++ [GetChannels].
Proof.
  exact (@unlisted_tools_unchecked room_primitives ascii_lower (fun s => s) (fun s => s) desk_paths (fun s => s) (fun _ => "") (fun _ => "") Some
    unit no_url (fun _ => None) (fun _ => "") "/connections" no_tool_files [] (fun v => v) None "a2a_task_update" desk_args desk_vault desk_world
    (zero_plugin tool_handle desk_config) desk_routed eq_refl ltac:(discriminate) desk_load eq_refl ltac:(discriminate) desk_routes).
Defined.

(** The device of [b] joins with epoch 2, and the message is of epoch 1. *)
Definition early_roster : Roster :=
  signed_by_owner (mkRoster "rm_mls_1" None None [] 0 "ws" 1 "" [demo_device "a" demo_key] "" 2 "" "").
Definition late_roster : Roster :=
  signed_by_owner (mkRoster "rm_mls_1" None None [] 0 "ws" 2 (Roster_Hash early_roster)
                     [demo_device "a" demo_key; demo_device "b" key_b] "" 2 "commit" "").
Definition late_state : cryptoState :=
  mkCrypto "" "rm_mls_1" "" [] ∅ ∅ false ∅ None (mkIdentity "age-b" (key_b +:+ key_b)) demo_key
    room_server "ws" "b" 2 (Roster_Hash late_roster) 2 (demo_key +:+ demo_key) "group" "" 2 2 late_roster None ∅ ∅ ∅ ∅ ∅ 0 0.
Definition early_envelope : Envelope :=
  match sealMLS ascii_lower (set_Refs [] None [] (set_Route "ws" room_channel "a" "key-1" zero_envelope)) early_roster
          (json_text (body_json (mkBody "hello" (JObj []) []))) (member "a" demo_key []) with
  | (Ok e, _) => e
  | _ => zero_envelope
  end.
Definition early_message : Message :=
  mkMessage "" (Some early_envelope) None None 7 (MessageID early_envelope) room_channel "a" "A. Relay" "" (JObj []) [] [] None 0.
Definition late_world : world :=
  mkWorld late_state late_state (Ok demo_key) []
    [Ok (AnsMe "b" "ws" false); Ok (AnsStatus 2 demo_key 2); Ok (AnsRows []); Ok (AnsRoster late_roster); Ok (AnsRoster early_roster)]
    draws 0 [] no_files {["/keys" := mkGroup late_state (Ok demo_key) no_files]}.
Definition late_read : result Message * world := decryptRoomMessage ascii_lower desk_config early_message late_world.
Lemma late_fails : late_read = (Err errBeforeJoin, late_read.2).
Proof. vm_compute. reflexivity. Qed.
Lemma export_keeps_relay_text_witness :
  exists out, export_message ascii_lower desk_config (set_MessageText "wire the deposit today" early_message) late_world = (Ok (out, 1), late_read.2) /\
    msg_Text out = "wire the deposit today" /\ msg_AgentName out = env_SenderID early_envelope /\
    msg_EncryptionError out = "" /\ rejected_count out = 0.
Proof.
  exact (export_keeps_relay_text ascii_lower desk_config early_message early_envelope "wire the deposit today" late_world late_read.2
    eq_refl late_fails).
Defined.
