(* ===== verification/Connect.v ===== *)
(** * Connecting

    A new agent from an invitation, or in a workspace of its own ([pluginBroker.connect],
    [plugin.go]), with the name it goes by ([recognizableName], [plugin_background.go]); and the
    tool [tincan_connect], from its arguments to what it shows ([connectionReadiness]). *)
From S2P Require Import Prelude GoStrings Json Types Crypto Roster Metadata History Inbox Protocol.
From S2P Require Import Encryption Mls Groups Messages Admission Routes Broker Addresses Rooms.

(** ** Names ([recognizableName]) *)
(** [utf8.DecodeRuneInString]: the width of the first rune, one for an invalid byte. *)
Definition rune_size (l : list ascii) : nat :=
  match l with
  | [] => 0%nat
  | a :: b :: r =>
      if code a <? 128 then 1%nat
      else if byte_in 194 223 a && cont b then 2%nat
      else match r with
           | c :: r => if lead3 a b && cont c then 3%nat
                       else match r with d :: _ => if lead4 a b && cont c && cont d then 4%nat else 1%nat | [] => 1%nat end
           | [] => 1%nat
           end
  | _ => 1%nat
  end.
(** [utf8.DecodeLastRuneInString] on the reversed bytes: back over at most three continuation
    bytes before the last byte, to the byte that starts a rune which ends here. *)
Fixpoint rune_start (fuel : nat) (taken before : list ascii) : list ascii :=
  match fuel, before with
  | S fuel, a :: r => if cont a then rune_start fuel (a :: taken) r else a :: taken
  | _, _ => []
  end.
Definition last_rune_size (rev_bytes : list ascii) : nat :=
  match rev_bytes with
  | [] => 0%nat
  | a :: r =>
      if code a <? 128 then 1%nat
      else let tail := rune_start 3 [a] r in
           if bool_decide (rune_size tail = length tail) && bool_decide (tail <> []) then length tail else 1%nat
  end.
Fixpoint cut_runes (fuel : nat) (rev_bytes : list ascii) : list ascii :=
  match fuel with
  | O => rev_bytes
  | S fuel => if bool_decide (64 < length rev_bytes)%nat then cut_runes fuel (drop (last_rune_size rev_bytes) rev_bytes) else rev_bytes
  end.
Definition cut_name (s : string) : string := of_bytes (rev (cut_runes (length (bytes s)) (rev (bytes s)))).

Definition slashes (s : string) : string := of_bytes (map (fun a => if Ascii.eqb a "\" then "/"%char else a) (bytes s)).
Definition recognizableName (name projectPath host : string) : string :=
  let name :=
    if blank name then
      let path := if bool_decide (projectPath = "") then "workspace" else projectPath in
      let name := Base (TrimRight "/" (slashes path)) in
      let name := if bool_decide (name = "") || bool_decide (name = ".") || bool_decide (name = "/") then "workspace" else name in
      if bool_decide (host = "") then name else name +:+ "-" +:+ host
    else name in
  cut_name (TrimSpace name).

(** ** The vault, its saves, and the world of the calls *)
Record link := mkDial { di_vault : vault; di_ios : list (option string); di_world : world }.
Definition C (A : Type) : Type := link -> result A * link.
#[export] Instance C_ret : MRet C := fun _ a s => (Ok a, s).
#[export] Instance C_bind : MBind C := fun _ _ f m s =>
  match m s with (Ok a, s) => f a s | (Err e, s) => (Err e, s) end.
Definition of_M {A} (m : M A) : C A := fun s => let '(r, w) := m (di_world s) in (r, mkDial (di_vault s) (di_ios s) w).
Definition of_result {A} (r : result A) : C A := fun s => (r, s).
Definition demand (b : bool) (e : string) : C unit := of_result (if b then Ok tt else Err e).
(** [b.save(c)]: the connection as it is then, with its path. *)
Definition store (root : string) (c : pluginConnection) : C pluginConnection := fun s =>
  let '(io, l) := match di_ios s with io :: l => (io, l) | [] => (None, []) end in
  let '(err, c, v) := save root io (di_vault s) c in
  (match err with Some e => Err e | None => Ok c end, mkDial v l (di_world s)).

Record connectionContext := mkContext {
  cx_Encrypted : bool; cx_Profile : string; cx_Intent : string; cx_AgentMetadata : option AgentMetadata }.
(** The drawn handle and name suffix, the answer on the protocol, and the new keys. *)
Record connect_script := mkConnectScript {
  cs_handle : string; cs_suffix : string; cs_discovery : result response; cs_keys : key_script }.
(** Of the build and the platform. *)
Record platform := mkPlatform { pf_version : string; pf_os : string; pf_arch : string }.

Section Connect.
Context `{!Primitives}.
Variables (ToLower : string -> string) (root host : string) (own_server : string) (pf : platform).
Variable server_url : string -> option Protocol.url.
Context {base : Type} (base_url : base -> Protocol.url) (parse_base : string -> option base) (base_string : base -> string).

Definition intent_fits (intent : string) : bool := ValidString intent && (RuneCountInString intent <=? 500).
Definition agent_name (name suffix : string) : result string :=
  let name := TrimSpace name in
  let name := if bool_decide (name = "") then recognizableName "" "" host else name in
  if 64 <? len name then Err "choose an agent name under 65 bytes" else Ok (name +:+ "-" +:+ take_str 6 (hex suffix)).
Definition fresh_connection (handle server name profile intent : string) : pluginConnection :=
  mkPlugin None "" false None false "" None "" "" "" handle (server_config server "") "" name profile intent "" "" "" "" 0 "" 0 "" ∅.

(** The protocol of the server, before anything is asked of it. *)
Definition negotiated_protocol (answer : result response) (c : pluginConnection) : result pluginConnection :=
  match refreshProtocol (server_url (cfg_Server (pc_Config c))) answer (mkNegotiation (cfg_CryptoPath (pc_Config c)) (pc_Protocol c)) with
  | (Some e, _) => Err e
  | (None, n) => Ok (put_Protocol (ng_Protocol n) c)
  end.

(** The request for a new agent: its path and its members; new keys where they are needed. *)
Definition plain_request (invite workspace name : string) : string * list (string * json) :=
  if bool_decide (invite = "") then ("/bootstrap", [("name", JStr workspace); ("agent_name", JStr name)])
  else ("/join", [("invite", JStr invite); ("name", JStr name)]).
Definition with_keys (path : string) (c : pluginConnection) : pluginConnection :=
  put_Config (set_Crypto path "" (cfg_CryptoRooms (pc_Config c)) (pc_Config c)) c.
Definition connect_request (sc : connect_script) (encrypted : bool) (rawURL pinned invite workspace : string) (c : pluginConnection)
    : C (pluginConnection * string * list (string * json)) :=
  let '(endpoint, input) := plain_request invite workspace (pc_Name c) in
  if negb encrypted then mret (c, endpoint, input) else
  let c := with_keys (crypto_path root (pc_Handle c)) c in
  of_M (newCrypto (cs_keys sc) (cfg_CryptoPath (pc_Config c)) (cfg_Server (pc_Config c)) pinned);;
  of_M (prepareAdmissionJoin base_url parse_base base_string (pc_Config c) rawURL);;
  more ← of_M (cryptoConnectionInput (pc_Config c) invite);
  mret (c, "/e2ee" +:+ endpoint, input ++ more).

(** ** What becomes of the answer *)
(** A join that waits for its approval. *)
Definition set_Device (automatic : bool) (fingerprint : string) (j : JoinReceipt) : JoinReceipt :=
  mkJoinReceipt automatic fingerprint (jr_RequestID j) (jr_Receipt j) (jr_Status j) fingerprint (jr_ExpiresAt j).
Definition device_receipt (j : JoinReceipt) : M JoinReceipt :=
  s ← gets id;
  d ← lift (device_of s "");
  mret (set_Device (bool_decide (is_Some (cs_JoinAdmission s))) (Fingerprint d) j).
Definition await_approval (c : pluginConnection) (j : JoinReceipt) : C pluginConnection :=
  j ← (if bool_decide (cfg_CryptoPath (pc_Config c) = "") then mret j else of_M (locked (pc_Config c) (device_receipt j)));
  store root (put_PendingJoin (Some j) c).

(** A granted agent: its credential is saved before the group is set up, without the bare link. *)
Definition granted (j : joinedAnswer) (c : pluginConnection) : pluginConnection :=
  put_Claim (jd_ClaimURL j) (jd_ClaimExpiresAt j) (put_Share (jd_ShareURL j) (jd_ShareExpiresAt j) (put_RoomName (jd_RoomName j)
    (put_Joined (with_token (jd_Token j) (pc_Config c)) (jd_AgentID j) (jd_RoomID j) c))).
Definition set_up (j : joinedAnswer) (c : pluginConnection) : C pluginConnection :=
  let keyed := negb (bool_decide (cfg_CryptoPath (pc_Config c) = "")) in
  let c := granted j c in
  c ← store root (if keyed then put_Share "" (jd_ShareExpiresAt j) c else c);
  c ← (if keyed then
         url ← of_M (locked (pc_Config c) (ensureCrypto ToLower;;
                       issue_address base_url parse_base base_string (jd_ShareURL j) (jd_ShareExpiresAt j) (jd_RoomID j)));
         mret (put_Share url (jd_ShareExpiresAt j) c)
       else mret c);
  store root c.
Definition settle_connect (c : pluginConnection) (j : joinedAnswer) (r : JoinReceipt) : C pluginConnection :=
  if bool_decide (jr_Status r = "pending") then await_approval c r else
  demand (negb (bool_decide (jd_Token j = "")) && negb (bool_decide (jd_AgentID j = "")) && negb (bool_decide (jd_RoomID j = "")))
    "server returned an incomplete connection";;
  set_up j c.

Definition agent_members (profile : string) (m : AgentMetadata) : list (string * json) :=
  [("profile", JStr profile); ("agent_metadata", default JNull (json_parse (encode_metadata m)))].
Definition connect (sc : connect_script) (rawURL name workspace : string) (intro : connectionContext) : C pluginConnection :=
  profile ← of_result (NormalizeProfile (cx_Profile intro));
  metadata ← of_result (localAgentMetadata (pf_version pf) (pf_os pf) (pf_arch pf) (cx_AgentMetadata intro));
  let intent := TrimSpace (cx_Intent intro) in
  demand (intent_fits intent) "use at most 500 characters for your current intent";;
  '(clean, pinned) ← of_result (cryptoJoinAddress parse_base base_string rawURL);
  demand (negb (cx_Encrypted intro && negb (bool_decide (rawURL = "")) && bool_decide (pinned = "")))
    "use the complete pinned encrypted invitation";;
  '(server, invite) ← of_result (connectAddress base_url parse_base clean own_server);
  name ← of_result (agent_name name (cs_suffix sc));
  c ← of_result (negotiated_protocol (cs_discovery sc) (fresh_connection (ID "conn_" (cs_handle sc)) server name profile intent));
  let encrypted := cx_Encrypted intro || negb (bool_decide (pinned = "")) in
  demand (negb encrypted || Supports (pc_Protocol c) "e2ee") "this server does not support encrypted rooms";;
  '(c, endpoint, input) ← connect_request sc encrypted rawURL pinned invite workspace c;
  '(j, r) ← of_M (ask (RawCall "POST" endpoint (Some (JObj (input ++ agent_members profile metadata)))) as_connected);
  settle_connect c j r.

(** ** The tool ([tincan_connect]) *)
Record connect_input := mkConnectInput {
  ti_ImportConnection : string; ti_ImportServer : string; ti_ImportRoomID : string; ti_CodexRemote : string;
  ti_CodexRemoteAuthTokenEnv : string; ti_HookHost : string; ti_HookSessionID : string; ti_CodexThreadID : string;
  ti_ProjectPath : string; ti_Encrypted : bool; ti_URL : string; ti_Name : string; ti_Workspace : string; ti_Profile : string;
  ti_Intent : string; ti_Connection : string; ti_AgentMetadata : option AgentMetadata }.
(** What [approvedCodexTarget] ([Target]) makes of the requested runtime and what the runtime then answers, the answers of the setup's server, the end of
    [startPendingJoin] and of [startBackground], and the time. *)
Record tool_script := mkToolScript {
  tl_approve : codexTarget -> result codexTarget; tl_target : result codexTarget; tl_join : result joinStatus; tl_import : string;
  tl_answers : list (result reply_view); tl_pending : option string; tl_background : option string; tl_now : Z }.

(** What the tool shows: an error alone, or a connection by its handle - waiting for its approval,
    not set up yet, or listening. *)
Inductive connect_end := Refused (e : string) | Waiting (c : pluginConnection) | Unfinished (c : pluginConnection) (e : string) | Listening (c : pluginConnection).

Definition in_setup {A} (m : setup A) (sc : tool_script) (c : pluginConnection) : C (pluginConnection * list (result reply_view)) := fun s =>
  let '(r, t) := m (mkSession c (di_vault s) (tl_answers sc) (di_ios s) []) in
  (match r with Ok _ => Ok (ss_conn t, ss_answers t) | Err e => Err e end, mkDial (ss_vault t) (ss_saves t) (di_world s)).
Definition take_io (m : option string -> vault -> option string * pluginConnection * vault) : C pluginConnection := fun s =>
  let '(io, l) := match di_ios s with io :: l => (io, l) | [] => (None, []) end in
  let '(err, c, v) := m io (di_vault s) in
  (match err with Some e => Err e | None => Ok c end, mkDial v l (di_world s)).

Definition check_input (sc : tool_script) (i : connect_input) : option string :=
  match validateHookBinding (ti_HookHost i) (ti_HookSessionID i) with
  | Some e => Some e
  | None =>
      let codex := bool_decide (host = "codex") in
      let remote := negb (bool_decide (ti_CodexRemote i = "")) || negb (bool_decide (ti_CodexRemoteAuthTokenEnv i = "")) in
      if (codex && negb (bool_decide (ti_HookHost i = ""))) || (negb codex && negb (bool_decide (ti_CodexThreadID i = "")))
      then Some "session binding must match the current harness"
      else if codex && bool_decide (ti_Connection i = "") && negb (codexTaskID (ti_CodexThreadID i))
      then Some "read CODEX_THREAD_ID in this task shell and pass codex_thread_id before connecting"
      else if remote && negb codex then Some "codex_remote is only valid in Codex"
      else if remote then
        match tl_approve sc (mkTarget (ti_CodexRemote i) (ti_CodexRemoteAuthTokenEnv i) "" "connect_argument") with
        | Err e => Some e
        | Ok _ => None
        end
      else None
  end.

Definition project_words (path : string) : string :=
  of_bytes (map (fun a => if Ascii.eqb a "-" || Ascii.eqb a "_" then " "%char else a) (bytes (recognizableName "" path ""))).
Definition workspace_of (i : connect_input) : string :=
  if blank (ti_Workspace i) && negb (bool_decide (ti_ProjectPath i = "")) then project_words (ti_ProjectPath i) else ti_Workspace i.
Definition find_connection (sc : tool_script) (cs : connect_script) (i : connect_input) : C pluginConnection :=
  if negb (bool_decide (ti_ImportConnection i = "")) then
    demand (bool_decide (ti_Connection i = "") && bool_decide (ti_URL i = "")) "use your saved direct connection or an invite, not both";;
    '(c, _) ← in_setup (importDirect root server_url (tl_import sc) (ti_ImportServer i) (ti_ImportConnection i) (ti_ImportRoomID i)) sc
                (zero_plugin "" (server_config "" ""));
    mret c
  else if negb (bool_decide (ti_Connection i = "")) then
    demand (bool_decide (ti_ImportServer i = "") && bool_decide (ti_ImportRoomID i = "")) "import fields require import_connection";;
    demand (bool_decide (ti_URL i = "")) "resume a connection or join a URL, not both";;
    c ← (fun s => (load (di_vault s) (ti_Connection i), s));
    demand (bool_decide (pc_CodexThreadID c = "") || bool_decide (ti_CodexThreadID i = "") || bool_decide (pc_CodexThreadID c = ti_CodexThreadID i))
      "connection belongs to another Codex task";;
    mret c
  else connect cs (ti_URL i) (recognizableName (ti_Name i) (ti_ProjectPath i) host) (workspace_of i)
         (mkContext (ti_Encrypted i) (ti_Profile i) (ti_Intent i) (ti_AgentMetadata i)).

Definition bind_connection (sc : tool_script) (i : connect_input) (c : pluginConnection) : C pluginConnection :=
  demand (negb (ti_Encrypted i && bool_decide (cfg_CryptoPath (pc_Config c) = "")))
    "Use room_create with e2ee=true to opt in for a new room after subscribing";;
  demand (negb (pc_Worker c)) "owned workers must resume through tincan worker --connection";;
  c ← (if bool_decide (ti_HookHost i = "") && bool_decide (ti_HookSessionID i = "") then mret c
       else take_io (fun io v => bindHook root io v c (ti_HookHost i) (ti_HookSessionID i)));
  c ← (if bool_decide (host = "codex") then take_io (fun io v => bindCodex root host io (tl_target sc) v c (ti_CodexThreadID i)) else mret c);
  if bool_decide (pc_PendingJoin c = None) then mret c else take_io (fun io v => refreshJoin root io (tl_join sc) v c).

Definition finish_connection (sc : tool_script) (c : pluginConnection) : C connect_end :=
  match pc_PendingJoin c with
  | Some j =>
      match (if bool_decide (jr_Status j = "pending") then tl_pending sc else None) with
      | Some e => mret (Refused e)
      | None => mret (Waiting c)
      end
  | None => fun s =>
      match in_setup (prepare root server_url (tl_now sc)) sc c s with
      | (Err e, s) => (Ok (Unfinished c e), s)
      | (Ok (c, _), s) => (Ok (match tl_background sc with Some e => Unfinished c e | None => Listening c end), s)
      end
  end.

Definition connect_tool (sc : tool_script) (cs : connect_script) (i : connect_input) (s : link) : connect_end * link :=
  match check_input sc i with
  | Some e => (Refused e, s)
  | None =>
      match (c ← find_connection sc cs i; c ← bind_connection sc i c; finish_connection sc c) s with
      | (Ok r, s) => (r, s)
      | (Err e, s) => (Refused e, s)
      end
  end.
End Connect.

(** ** What a view says of itself ([connectionReadiness]) *)
Record view_facts := mkFacts {
  vf_setup_error : bool; vf_listening : bool; vf_idle_wake : bool; vf_listener_required : bool; vf_delivery : string }.
Definition connectionReadiness (f : view_facts) : string :=
  if vf_setup_error f then "needs_attention"
  else if vf_idle_wake f && vf_listening f then "ready"
  else if vf_listening f then
    if vf_listener_required f then "starting"
    else if bool_decide (vf_delivery f = "delegated_listener") then "experimental" else "listening"
  else "needs_attention".
