(* ===== verification/ConnectTheorems.v ===== *)
(** * Connecting: properties

    A granted agent is kept whatever happens next, but its handle can be lost; what the
    shortening of a name keeps; and what the processes of a device, whose operations overlap,
    leave of the connections they make and change. *)
From S2P Require Import Prelude GoStrings Json Types Crypto Roster Metadata History Inbox Protocol.
From S2P Require Import Encryption Mls MlsFacts Groups Messages Toy Scenario Admission Routes Broker BrokerTheorems Addresses Rooms RoomsTheorems Connect.

(** ** Names *)
(** A whole rune. *)
Definition rune (l : list ascii) : bool :=
  match l with
  | [a] => code a <? 128
  | [a; b] => byte_in 194 223 a && cont b
  | [a; b; c] => lead3 a b && cont c
  | [a; b; c; d] => lead4 a b && cont c && cont d
  | _ => false
  end.
Lemma byte_in_iff lo hi a : byte_in lo hi a = true <-> lo <= code a <= hi.
Proof. unfold byte_in. rewrite andb_true_iff, !Z.leb_le. done. Qed.
Lemma byte_out_iff lo hi a : byte_in lo hi a = false <-> code a < lo \/ hi < code a.
Proof. unfold byte_in. rewrite andb_false_iff, !Z.leb_gt. done. Qed.
Lemma lead3_facts a b : lead3 a b = true -> 224 <= code a <= 239 /\ 128 <= code b <= 191.
Proof.
  unfold lead3, cont. rewrite !orb_true_iff, !andb_true_iff, !orb_true_iff, !Z.eqb_eq, !byte_in_iff. lia.
Qed.
Lemma lead4_facts a b : lead4 a b = true -> 240 <= code a <= 244 /\ 128 <= code b <= 191.
Proof.
  unfold lead4, cont. rewrite !orb_true_iff, !andb_true_iff, !Z.eqb_eq, !byte_in_iff. lia.
Qed.
Lemma lead3_range a b : code a < 224 \/ 239 < code a -> lead3 a b = false.
Proof. destruct (lead3 a b) eqn:E; [|done]. apply lead3_facts in E. lia. Qed.

Lemma rune_cases r : rune r = true ->
  (exists a, r = [a] /\ code a < 128) \/
  (exists a t, r = a :: t /\ 192 <= code a /\ Forall (fun b => 128 <= code b <= 191) t /\ t <> [] /\ (length t <= 3)%nat).
Proof.
  destruct r as [|a [|b [|c [|d [|e r]]]]]; cbn; try done.
  - rewrite Z.ltb_lt. left. by exists a.
  - rewrite andb_true_iff. unfold cont. rewrite !byte_in_iff. intros [Ha Hb]. right. exists a, [b].
    split_and!; [done|lia|by repeat constructor; lia|done|cbn; lia].
  - rewrite andb_true_iff. intros [Hab%lead3_facts Hc%byte_in_iff]. right. exists a, [b; c].
    split_and!; [done|lia|by repeat constructor; lia|done|cbn; lia].
  - rewrite !andb_true_iff. intros [[Hab%lead4_facts Hc%byte_in_iff] Hd%byte_in_iff]. right. exists a, [b; c; d].
    split_and!; [done|lia|by repeat constructor; lia|done|cbn; lia].
Qed.

Lemma rune_size_whole r : rune r = true -> rune_size r = length r.
Proof.
  destruct r as [|a [|b [|c [|d [|e r]]]]]; cbn; try done.
  - intros H. apply andb_true_iff in H as H2. destruct H2 as [Ha%byte_in_iff _]. rewrite H. destruct (Z.ltb_spec (code a) 128); [lia|done].
  - intros H. apply andb_true_iff in H as H2. destruct H2 as [Hab%lead3_facts _]. rewrite H.
    destruct (Z.ltb_spec (code a) 128); [lia|]. by rewrite (proj2 (byte_out_iff 194 223 a)) by lia.
  - intros H. apply andb_true_iff in H as H2. destruct H2 as [[Hab%lead4_facts _]%andb_true_iff _]. rewrite H.
    destruct (Z.ltb_spec (code a) 128); [lia|]. by rewrite (proj2 (byte_out_iff 194 223 a)), (lead3_range a b) by lia.
Qed.

Lemma valid_first l : valid_bytes l = true -> l = [] \/ exists r l', l = r ++ l' /\ rune r = true /\ valid_bytes l' = true.
Proof.
  destruct l as [|a l]; [by left|]. cbn. destruct (code a <? 128) eqn:Ea; [intros Hl; right; by exists [a], l|].
  destruct l as [|b l]; [done|]. destruct (byte_in 194 223 a && cont b) eqn:Eb; [intros Hl; right; by exists [a; b], l|].
  destruct l as [|c l]; [done|]. destruct (lead3 a b && cont c) eqn:Ec; [intros Hl; right; by exists [a; b; c], l|].
  destruct l as [|d l]; [done|]. destruct (lead4 a b && cont c && cont d) eqn:Ed; [intros Hl; right; by exists [a; b; c; d], l|done].
Qed.
Lemma valid_rune r l : rune r = true -> valid_bytes (r ++ l) = valid_bytes l.
Proof.
  destruct r as [|a [|b [|c [|d [|e r]]]]]; cbn; try done.
  - by intros ->.
  - intros H. apply andb_true_iff in H as H2. destruct H2 as [Ha%byte_in_iff _]. rewrite H. destruct (Z.ltb_spec (code a) 128); [lia|done].
  - intros H. apply andb_true_iff in H as H2. destruct H2 as [Hab%lead3_facts _]. rewrite H.
    destruct (Z.ltb_spec (code a) 128); [lia|]. by rewrite (proj2 (byte_out_iff 194 223 a)) by lia.
  - intros H. apply andb_true_iff in H as H2. destruct H2 as [[Hab%lead4_facts _]%andb_true_iff _]. rewrite H.
    destruct (Z.ltb_spec (code a) 128); [lia|]. by rewrite (proj2 (byte_out_iff 194 223 a)), (lead3_range a b) by lia.
Qed.
Lemma valid_last l : valid_bytes l = true -> l = [] \/ exists l' r, l = l' ++ r /\ rune r = true /\ valid_bytes l' = true.
Proof.
  remember (length l) as n eqn:Hn. revert l Hn. induction n as [n IH] using lt_wf_ind. intros l -> Hl.
  apply valid_first in Hl as [->|(r & l2 & -> & Hr & Hl2)]; [by left|right].
  destruct (IH (length l2)) with (l := l2) as [->|(l3 & r' & -> & Hr' & Hl3)]; [|done..| |].
  - rewrite length_app. destruct r; [done|cbn; lia].
  - exists [], r. by rewrite app_nil_r.
  - exists (r ++ l3), r'. rewrite app_assoc. split_and!; [done..|]. by rewrite valid_rune.
Qed.

Lemma rune_start_back fuel taken t l a : Forall (fun b => 128 <= code b <= 191) t -> 192 <= code a -> (length t < fuel)%nat ->
  rune_start fuel taken (rev t ++ a :: l) = a :: t ++ taken.
Proof.
  intros Ht Ha. revert fuel taken Ht. induction t as [|b t IH] using rev_ind; intros [|fuel] taken Ht Hf; try (rewrite ?length_app in Hf; cbn in Hf; lia).
  - cbn. unfold cont. rewrite (proj2 (byte_out_iff 128 191 a)) by lia. done.
  - rewrite rev_app_distr. cbn. apply Forall_app in Ht as [Ht [Hb _]%Forall_cons_1]. unfold cont.
    rewrite (proj2 (byte_in_iff 128 191 b)) by lia. rewrite IH; [|done|rewrite length_app in Hf; cbn in Hf; lia].
    by rewrite <- app_assoc.
Qed.
Lemma last_size l r : rune r = true -> last_rune_size (rev (l ++ r)) = length r.
Proof.
  intros Hr. rewrite rev_app_distr. destruct (rune_cases r Hr) as [(a & -> & Ha)|(a & t & -> & Ha & Ht & Hne & Hlen)].
  - cbn. destruct (Z.ltb_spec (code a) 128); [done|lia].
  - destruct t as [|b t _] using rev_ind; [done|]. cbn [rev]. rewrite rev_app_distr. cbn [rev app]. unfold last_rune_size.
    apply Forall_app in Ht as [Ht [Hb _]%Forall_cons_1]. destruct (Z.ltb_spec (code b) 128); [lia|].
    rewrite <- app_assoc. cbn [app]. rewrite length_app in Hlen. cbn in Hlen.
    rewrite (rune_start_back 3 [b] t (rev l) a Ht Ha) by lia. cbn [app].
    rewrite !bool_decide_eq_true_2; [done|done|by apply rune_size_whole].
Qed.

Lemma last_size_bounds l : l <> [] -> (1 <= last_rune_size l <= 4)%nat.
Proof.
  destruct l as [|a l]; [done|]. intros _. unfold last_rune_size. destruct (code a <? 128); [lia|].
  destruct (bool_decide _ && bool_decide _) eqn:E; [|lia]. apply andb_true_iff in E as [_ Hne%bool_decide_eq_true].
  assert (forall fuel taken before, length (rune_start fuel taken before) <= fuel + length taken)%nat as Hlen.
  { clear. induction fuel as [|fuel IH]; intros taken [|b before]; cbn; try lia. destruct (cont b); [|cbn; lia]. etrans; [apply IH|cbn; lia]. }
  specialize (Hlen 3%nat [a] l). destruct (rune_start 3 [a] l); [done|cbn in *; lia].
Qed.
Lemma cut_spec fuel l : (length l <= fuel + 64)%nat ->
  exists k, cut_runes fuel l = drop k l /\ (length (drop k l) <= 64)%nat /\ ((length l <= 64)%nat -> k = 0%nat) /\
    ((64 < length l)%nat -> (61 <= length (drop k l))%nat) /\ (valid_bytes (rev l) = true -> valid_bytes (rev (drop k l)) = true).
Proof.
  revert l. induction fuel as [|fuel IH]; intros l Hl; cbn.
  { exists 0%nat. rewrite drop_0. split_and!; [done|lia|done|lia|done]. }
  case_bool_decide as Hlong; [|exists 0%nat; rewrite drop_0; split_and!; [done|lia|done|lia|done]].
  assert (l <> []) as Hne by (by intros ->; cbn in Hlong; lia).
  pose proof (last_size_bounds l Hne) as Hk. set (n := last_rune_size l) in *.
  destruct (IH (drop n l)) as (k & Hc & Hle & Hz & Hmin & Hv); [rewrite length_drop; lia|].
  exists (n + k)%nat. rewrite Hc, !drop_drop in *. split_and!; [done|done|lia| |].
  - intros _. destruct (decide (64 < length (drop n l))%nat) as [Hd|Hd]; [by apply Hmin|].
    rewrite Hz, Nat.add_0_r by lia. rewrite length_drop. lia.
  - intros Hvalid. apply Hv. apply valid_last in Hvalid as [Hnil|(l' & r & He & Hr & Hl')].
    { apply (f_equal length) in Hnil. rewrite length_rev in Hnil. cbn in Hnil. lia. }
    assert (l = rev (l' ++ r)) as -> by (by rewrite <- He, rev_involutive).
    unfold n. rewrite last_size by done. rewrite rev_app_distr, drop_app_length', rev_involutive; [done|by rewrite length_rev].
Qed.

(** The name that is shortened: the one that was given, or the last part of the path - of
    "workspace" when it has none or is the current directory - and the host after it. *)
Definition is_separator (a : ascii) : Prop := a = "/"%char \/ a = "\"%char.
Definition with_host (host part : string) : string := if bool_decide (host = "") then part else part +:+ "-" +:+ host.
Definition last_part (path part : string) : Prop := exists pre post, bytes path = pre ++ bytes part ++ post /\
  Forall is_separator post /\ (pre = [] \/ exists pre' a, pre = pre' ++ [a] /\ is_separator a) /\
  part <> "" /\ Forall (fun a => ~ is_separator a) (bytes part).
Inductive full_name (name path host : string) : string -> Prop :=
| fn_given : blank name = false -> full_name name path host name
| fn_path part : blank name = true -> last_part path part -> part <> "." -> full_name name path host (with_host host part)
| fn_none : blank name = true -> Forall is_separator (bytes path) \/ last_part path "." ->
    full_name name path host (with_host host "workspace").

Lemma take_until_spec c l : exists rest, l = take_until c l ++ rest /\ Forall (fun a => a <> c) (take_until c l) /\
  (rest = [] \/ exists r, rest = c :: r).
Proof.
  induction l as [|a l (rest & Hl & Hf & Hr)]; cbn; [exists []; by eauto|]. destruct (Ascii.eqb_spec a c) as [->|Hne].
  - exists (c :: l). split_and!; [done|constructor|right; by exists l].
  - exists rest. split_and!; [cbn; by f_equal|by constructor|done].
Qed.
Lemma drop_while_spec c l : exists k, l = replicate k c ++ drop_while c l /\ (drop_while c l = [] \/ exists a r, drop_while c l = a :: r /\ a <> c).
Proof.
  induction l as [|a l (k & Hl & Hd)]; cbn; [exists 0%nat; by eauto|]. destruct (Ascii.eqb_spec a c) as [->|Hne].
  - exists (S k). cbn. split; [by f_equal|done].
  - exists 0%nat. cbn. split; [done|]. right. by exists a, l.
Qed.
Definition slash_of (a : ascii) : ascii := if Ascii.eqb a "\" then "/"%char else a.
Lemma slash_of_slash a : slash_of a = "/"%char -> is_separator a.
Proof. unfold slash_of. destruct (Ascii.eqb_spec a "\"); [by right|by left]. Qed.
Lemma slash_of_other a : slash_of a <> "/"%char -> slash_of a = a /\ ~ is_separator a.
Proof. unfold slash_of, is_separator. destruct (Ascii.eqb_spec a "\"); [done|]. naive_solver. Qed.

Lemma base_of_nothing : Base (of_bytes []) = ".".
Proof. reflexivity. Qed.
Lemma base_of_part d a r : d = a :: r -> a <> "/"%char ->
  Base (of_bytes (reverse d)) = of_bytes (reverse (take_until "/" d)) /\ take_until "/" d <> [].
Proof.
  intros -> Ha. assert (take_until "/" (a :: r) <> []) as Hne by (cbn; by destruct (Ascii.eqb_spec a "/")).
  assert (forall l, l <> [] -> of_bytes (reverse l) <> "") as Hs.
  { intros l Hl E. apply (f_equal bytes) in E. rewrite bytes_of_bytes in E. cbn in E. apply (f_equal reverse) in E.
    by rewrite reverse_involutive in E. }
  split; [|done]. unfold Base. rewrite bool_decide_eq_false_2 by by apply Hs.
  assert (TrimRight "/" (of_bytes (reverse (a :: r))) = of_bytes (reverse (a :: r))) as ->.
  { unfold TrimRight. rewrite bytes_of_bytes, reverse_involutive. cbn. by destruct (Ascii.eqb_spec a "/"). }
  unfold after_last. rewrite bytes_of_bytes, reverse_involutive. by rewrite bool_decide_eq_false_2 by by apply Hs.
Qed.

Lemma base_cases path : let b := Base (TrimRight "/" (slashes path)) in
  (b = "." /\ Forall is_separator (bytes path)) \/ last_part path b.
Proof.
  cbv zeta. unfold TrimRight, slashes. rewrite bytes_of_bytes. fold slash_of. set (l := bytes path).
  destruct (drop_while_spec "/" (reverse (map slash_of l))) as (k & Hl & Hd). set (d := drop_while _ _) in *.
  apply (f_equal reverse) in Hl. rewrite reverse_involutive, reverse_app, reverse_replicate in Hl. destruct Hd as [Hd|(a & r & Hd & Ha)].
  - left. rewrite Hd in Hl |- *. split; [done|]. apply Forall_forall. intros x Hx. apply slash_of_slash.
    assert (slash_of x ∈ map slash_of l) as Hin by (apply list_elem_of_In, in_map, list_elem_of_In, Hx).
    rewrite Hl in Hin. cbn in Hin. by apply elem_of_replicate in Hin as [-> _].
  - right. destruct (base_of_part d a r Hd Ha) as [-> Hne]. destruct (take_until_spec "/" d) as (rest & Hr & Hf & Hrest).
    set (t := take_until "/" d) in *. rewrite Hr, reverse_app, <- app_assoc in Hl.
    apply map_eq_app in Hl as (pre & l2 & E1 & Hpre & Hl2). apply map_eq_app in Hl2 as (part & post & -> & Hpart & Hpost).
    assert (part = reverse t /\ Forall (fun x => ~ is_separator x) part) as [Hp Hsep].
    { apply Forall_reverse in Hf. rewrite <- Hpart in Hf |- *. clear -Hf. induction part as [|x part IH]; [done|].
      apply Forall_cons in Hf as [Hx Hf]. apply slash_of_other in Hx as [Hx Hs]. destruct (IH Hf) as [IH1 IH2].
      split; [cbn; by rewrite Hx, <- IH1|by constructor]. }
    exists pre, post. rewrite bytes_of_bytes, <- Hp. split_and!; [exact E1| | | |done].
    + apply Forall_forall. intros x Hx. apply slash_of_slash.
      assert (slash_of x ∈ map slash_of post) as Hin by (apply list_elem_of_In, in_map, list_elem_of_In, Hx).
      rewrite Hpost in Hin. by apply elem_of_replicate in Hin as [-> _].
    + destruct Hrest as [->|(r' & ->)]; [left; by destruct pre|right]. rewrite reverse_cons in Hpre.
      apply map_eq_app in Hpre as (pre' & x & -> & _ & Hx). destruct x as [|x [|]]; try done. injection Hx as Hx.
      exists pre', x. split; [done|by apply slash_of_slash].
    + rewrite Hp. intros E. apply (f_equal bytes) in E. rewrite bytes_of_bytes in E. cbn in E. apply (f_equal reverse) in E.
      by rewrite reverse_involutive in E.
Qed.
Lemma recognizableName_cut name path host :
  exists full, full_name name path host full /\ recognizableName name path host = cut_name (TrimSpace full).
Proof.
  unfold recognizableName. destruct (blank name) eqn:Eb; [|exists name; split; [by constructor|done]].
  cbv zeta. destruct (bool_decide_reflect (path = "")) as [Hp|Hp].
  - subst path. exists (with_host host "workspace"). split; [apply fn_none; [done|by left]|done].
  - destruct (base_cases path) as [[-> Hs]|Hpart].
    + exists (with_host host "workspace"). split; [apply fn_none; [done|by left]|done].
    + set (b := Base _) in *. destruct (bool_decide_reflect (b = ".")) as [->|Hdot].
      { rewrite orb_true_r. exists (with_host host "workspace"). split; [apply fn_none; [done|by right]|done]. }
      assert (b <> "" /\ b <> "/") as [H1 H2].
      { destruct Hpart as (pre & post & _ & _ & _ & Hne & Hf). split; [done|]. intros ->. inversion Hf as [|? ? Hx _]. apply Hx. by left. }
      rewrite !(bool_decide_eq_false_2 (b = _)) by done. exists (with_host host b). split; [by apply fn_path|done].
Qed.

(** C30. A public name fits and is not broken. It is made of the name that was given; of the last
    part of the project's path, and the host, when that is blank; or of "workspace" and the host
    when the path has no last part either. Whichever it is, the name that is shown is at most 64
    bytes; it is the beginning of the trimmed name, all of it when that fits, and short of the
    limit by at most three bytes when it does not; and when the trimmed name is valid UTF-8, so
    is what is kept of it: no character is cut in two. *)
Theorem name_is_cut_between_runes (name path host : string) :
  exists full, full_name name path host full /\
    let s := TrimSpace full in
    let t := recognizableName name path host in
    len t <= 64 /\ (exists rest, s = t +:+ rest) /\ (len s <= 64 -> t = s) /\ (64 < len s -> 61 <= len t) /\
    (ValidString s = true -> ValidString t = true).
Proof.
  destruct (recognizableName_cut name path host) as (full & Hfull & ->). exists full. split; [done|]. set (s := TrimSpace full). cbv zeta.
  unfold cut_name.
  destruct (cut_spec (length (bytes s)) (rev (bytes s))) as (k & Hc & Hle & Hz & Hmin & Hv); [rewrite length_rev; lia|].
  rewrite Hc. rewrite length_rev, rev_involutive in *. set (l := drop k (rev (bytes s))) in *.
  assert (len (of_bytes (rev l)) = Z.of_nat (length l)) as Hlen by (unfold len; by rewrite <- length_bytes, bytes_of_bytes, length_rev).
  assert (len s = Z.of_nat (length (bytes s))) as Hs by (unfold len; by rewrite length_bytes).
  split_and!; [lia| | |lia|].
  - exists (of_bytes (rev (take k (rev (bytes s))))). rewrite <- (of_bytes_bytes (_ +:+ _)). rewrite bytes_app, !bytes_of_bytes, <- rev_app_distr. unfold l.
    by rewrite take_drop, rev_involutive, of_bytes_bytes.
  - intros Hfit. unfold l. rewrite Hz, drop_0, rev_involutive by lia. apply of_bytes_bytes.
  - unfold ValidString. rewrite bytes_of_bytes. apply Hv.
Qed.
Example names_of_paths :
  recognizableName " " "C:\work\plans\" "codex" = "plans-codex" /\ recognizableName "" "/" "codex" = "workspace-codex" /\
  recognizableName "" "." "" = "workspace" /\ recognizableName "" ("/srv/" +:+ of_bytes (repeat "a"%char 63 ++ [ascii_of_nat 195; ascii_of_nat 169])) "codex"
    = of_bytes (repeat "a"%char 63).
Proof. vm_compute. done. Qed.

(** ** What a connection leaves behind *)
Section Connecting.
Context `{!Primitives}.
Variables (ToLower : string -> string) (root host own_server : string) (pf : platform) (server_url : string -> option Protocol.url).
Context {base : Type} (base_url : base -> Protocol.url) (parse_base : string -> option base) (base_string : base -> string).
#[local] Notation set_up := (set_up ToLower root base_url parse_base base_string).
#[local] Notation settle_connect := (settle_connect ToLower root base_url parse_base base_string).
#[local] Notation connect := (connect ToLower root host own_server pf server_url base_url parse_base base_string).
#[local] Notation connect_tool := (connect_tool ToLower root host own_server pf server_url base_url parse_base base_string).

Lemma c_bind_either {A B} (m : C A) (f : A -> C B) s r s' : (m ≫= f) s = (r, s') ->
  (exists e, r = Err e /\ m s = (Err e, s')) \/ exists a s1, m s = (Ok a, s1) /\ f a s1 = (r, s').
Proof. unfold mbind, C_bind. destruct (m s) as [[a|e] s1]; [right; by exists a, s1|]. intros [= <- <-]. left. by exists e. Qed.
Lemma of_M_vault {A} (m : M A) s r s' : of_M m s = (r, s') -> di_vault s' = di_vault s.
Proof. unfold of_M. destruct (m _). by intros [= _ <-]. Qed.

(** A connection is saved as it is returned. *)
Lemma store_cases c s r s' : store root c s = (r, s') ->
  (r = Ok (located root c) /\ di_vault s' = <[pc_Handle c := Saved (located root c)]> (di_vault s)) \/
  (exists e, r = Err e /\ di_vault s' = di_vault s).
Proof.
  unfold store, save. destruct (di_ios s) as [|io l]; destruct (negb _); try destruct io; intros [= <- <-]; eauto.
Qed.

(** What the server granted is in the vault. *)
Definition holds (j : joinedAnswer) (handle : string) (v : vault) (c : pluginConnection) : Prop :=
  v !! handle = Some (Saved c) /\ cfg_Token (pc_Config c) = jd_Token j /\ pc_AgentID c = jd_AgentID j /\ pc_RoomID c = jd_RoomID j.

(** C15. A granted agent is kept. When the server has granted an agent in full, and the first save
    after it succeeds, then whatever fails from there on - the keys of the group, the pinned
    link, the second save - the vault holds the connection with the granted credential; on
    success as it is returned; and when the group of a new encrypted workspace could not be set
    up, without the bare transport link, so that no link is ever shared as an encrypted
    invitation that is none. *)
Theorem granted_agent_is_kept c j receipt s r s' :
  settle_connect c j receipt s = (r, s') -> jr_Status receipt <> "pending" ->
  jd_Token j <> "" -> jd_AgentID j <> "" -> jd_RoomID j <> "" -> connectionHandle (pc_Handle c) = true ->
  head (di_ios s) = None \/ head (di_ios s) = Some None ->
  exists saved, holds j (pc_Handle c) (di_vault s') saved /\
    match r with
    | Ok c' => saved = c'
    | Err _ => cfg_CryptoPath (pc_Config c) <> "" -> pc_ShareURL saved = ""
    end.
Proof.
  intros Hr Hp Ht Ha Hroom Hh Hio. unfold Connect.settle_connect in Hr. rewrite bool_decide_eq_false_2 in Hr by done.
  rewrite !bool_decide_eq_false_2 in Hr by done. cbn [negb andb] in Hr.
  apply c_bind_either in Hr as [(e & _ & [=])|([] & s0 & [= <-] & Hr)]. unfold Connect.set_up in Hr. cbv zeta in Hr.
  set (keyed := negb _) in *. set (c1 := if keyed then _ else _) in Hr.
  assert (pc_Handle c1 = pc_Handle c) as Hc1 by (unfold c1; by destruct keyed).
  assert (exists ios, store root c1 s = (Ok (located root c1), mkDial (<[pc_Handle c1 := Saved (located root c1)]> (di_vault s)) ios (di_world s))) as (ios & Hs).
  { rewrite <- Hc1 in Hh. unfold store, save. rewrite Hh. destruct (di_ios s) as [|io l]; [by eexists|]. destruct Hio as [[=]|[= ->]]. by eexists. }
  assert (forall v, v !! pc_Handle c = Some (Saved (located root c1)) -> holds j (pc_Handle c) v (located root c1)) as Hfirst.
  { intros v Hv. unfold c1 in *. by destruct keyed. }
  apply c_bind_either in Hr as [(e & _ & Hs')|(c2 & s2 & Hs' & Hr)]; rewrite Hs in Hs'; [done|]. injection Hs' as <- <-.
  rewrite Hc1 in *. set (v1 := <[pc_Handle c := Saved (located root c1)]> (di_vault s)) in *.
  assert (v1 !! pc_Handle c = Some (Saved (located root c1))) as Hv1 by apply lookup_insert_eq.
  apply c_bind_either in Hr as [(e & -> & Hm)|(c3 & s3 & Hm & Hr)].
  { exists (located root c1). assert (di_vault s' = v1) as Hv.
    { destruct keyed; [|done]. by apply c_bind_either in Hm as [(e' & _ & Hm%of_M_vault)|(url & s4 & Hm%of_M_vault & [=])]. }
    split; [apply Hfirst; by rewrite Hv|]. intros Hk. unfold c1, keyed. by rewrite bool_decide_eq_false_2. }
  assert (pc_Handle c3 = pc_Handle c /\ di_vault s3 = v1 /\ cfg_Token (pc_Config c3) = jd_Token j /\ pc_AgentID c3 = jd_AgentID j /\ pc_RoomID c3 = jd_RoomID j) as (Hc3 & Hv3 & Hf).
  { unfold c1 in *. destruct keyed; [|by injection Hm as <- <-].
    apply c_bind_either in Hm as [(e' & [=] & _)|(url & s4 & Hm%of_M_vault & [= <- <-])]. done. }
  apply store_cases in Hr as [[-> Hv]|(e & -> & Hv)].
  - exists (located root c3). rewrite Hv, Hc3. split; [|done]. split; [apply lookup_insert_eq|done].
  - exists (located root c1). rewrite Hv, Hv3. split; [by apply Hfirst|]. intros Hk. unfold c1, keyed. by rewrite bool_decide_eq_false_2.
Qed.

(** ** A connection whose handle is lost *)
Definition unbound (c : pluginConnection) : Prop := pc_Worker c = false /\ pc_HookHost c = "" /\ pc_CodexThreadID c = "".
Lemma settle_ok c j receipt s c' s' : settle_connect c j receipt s = (Ok c', s') -> unbound c ->
  unbound c' /\ cfg_CryptoPath (pc_Config c') = cfg_CryptoPath (pc_Config c) /\ di_vault s' !! pc_Handle c' = Some (Saved c').
Proof.
  assert (forall c0 s0, store root c0 s0 = (Ok c', s') -> unbound c0 -> cfg_CryptoPath (pc_Config c0) = cfg_CryptoPath (pc_Config c) ->
    unbound c' /\ cfg_CryptoPath (pc_Config c') = cfg_CryptoPath (pc_Config c) /\ di_vault s' !! pc_Handle c' = Some (Saved c')) as Hstore.
  { intros c0 s0 [[[= ->] Hv]|(e & [=] & _)]%store_cases Hu Hp. split; [done|]. split; [done|]. rewrite Hv. apply lookup_insert_eq. }
  unfold Connect.settle_connect. intros Hr Hu. case_bool_decide.
  - apply c_bind_either in Hr as [(e & [=] & _)|(j' & s1 & _ & Hr)]. by eapply Hstore.
  - apply c_bind_either in Hr as [(e & [=] & _)|(u & s1 & _ & Hr)]. unfold Connect.set_up in Hr. cbv zeta in Hr.
    apply c_bind_either in Hr as [(e & [=] & _)|(c2 & s2 & [[[= ->] Hv]|(e & [=] & _)]%store_cases & Hr)].
    apply c_bind_either in Hr as [(e & [=] & _)|(c3 & s3 & Hm & Hr)].
    assert (unbound c3 /\ cfg_CryptoPath (pc_Config c3) = cfg_CryptoPath (pc_Config c)) as [Hu3 Hp3].
    { destruct (negb _); [|by injection Hm as <- _].
      by apply c_bind_either in Hm as [(e & [=] & _)|(url & s4 & _ & [= <- _])]. }
    by eapply Hstore.
Qed.

Lemma request_ok sc encrypted raw pinned invite workspace c s c' endpoint input s' : unbound c ->
  connect_request root base_url parse_base base_string sc encrypted raw pinned invite workspace c s = (Ok (c', endpoint, input), s') ->
  unbound c' /\ (encrypted = true -> cfg_CryptoPath (pc_Config c') <> "").
Proof.
  intros Hu. unfold connect_request. destruct (plain_request _ _ _) as [ep inp]. destruct encrypted; cbn [negb]; [|by intros [= <- _ _ _]].
  intros Hr. do 2 apply c_bind_either in Hr as [(e & [=] & _)|([] & ? & _ & Hr)].
  apply c_bind_either in Hr as [(e & [=] & _)|(more & ? & _ & [= <- _ _ _])]. split; [done|]. intros _. cbn.
  unfold crypto_path. intros He. apply (f_equal bytes) in He. rewrite bytes_app in He. by destruct (bytes root).
Qed.

Lemma connect_ok cs raw name workspace intro s c s' : connect cs raw name workspace intro s = (Ok c, s') ->
  unbound c /\ (cx_Encrypted intro = true -> cfg_CryptoPath (pc_Config c) <> "") /\ di_vault s' !! pc_Handle c = Some (Saved c).
Proof.
  unfold Connect.connect. intros Hr.
  do 2 apply c_bind_either in Hr as [(e & [=] & _)|(? & ? & _ & Hr)].
  apply c_bind_either in Hr as [(e & [=] & _)|([] & ? & _ & Hr)].
  apply c_bind_either in Hr as [(e & [=] & _)|([clean pinned] & ? & _ & Hr)].
  apply c_bind_either in Hr as [(e & [=] & _)|([] & ? & _ & Hr)].
  apply c_bind_either in Hr as [(e & [=] & _)|([server invite] & ? & _ & Hr)].
  apply c_bind_either in Hr as [(e & [=] & _)|(full & ? & _ & Hr)].
  apply c_bind_either in Hr as [(e & [=] & _)|(c1 & ? & Hn & Hr)].
  apply c_bind_either in Hr as [(e & [=] & _)|([] & ? & _ & Hr)].
  apply c_bind_either in Hr as [(e & [=] & _)|([[c2 endpoint] input] & ? & Hq & Hr)].
  apply c_bind_either in Hr as [(e & [=] & _)|([j receipt] & ? & _ & Hr)].
  assert (unbound c1) as Hu1.
  { unfold of_result, negotiated_protocol in Hn. injection Hn as Hn _. by destruct (refreshProtocol _ _ _) as [[e|] n]; simplify_eq. }
  apply request_ok in Hq as [Hu2 Hpath]; [|done]. apply settle_ok in Hr as (Hu & Hp & Hv); [|done].
  split; [done|]. split; [|done]. intros He. rewrite Hp. apply Hpath. by rewrite He.
Qed.

(** An agent can be made and its handle lost. In Codex, let a call of the connect tool make a
    new connection - the invitation is used up, the agent exists and its credential is saved -
    and let the task's runtime then not be confirmed. The tool shows the error alone: the
    vault keeps the connection, but its handle is not returned, although it is the only way to
    resume it. *)
Theorem refused_binding_loses_handle sc cs i s c s1 e : host = "codex" -> check_input host sc i = None ->
  ti_ImportConnection i = "" -> ti_Connection i = "" ->
  connect cs (ti_URL i) (recognizableName (ti_Name i) (ti_ProjectPath i) host) (workspace_of i)
    (mkContext (ti_Encrypted i) (ti_Profile i) (ti_Intent i) (ti_AgentMetadata i)) s = (Ok c, s1) ->
  tl_target sc = Err e ->
  exists s2, connect_tool sc cs i s = (Refused e, s2) /\ di_vault s2 = di_vault s1 /\ di_vault s2 !! pc_Handle c = Some (Saved c).
Proof.
  intros Hhost Hin Himp Hcon Hc He. apply connect_ok in Hc as Hok. destruct Hok as ((Hw & Hhook & Hthread) & Hpath & Hv).
  cbn in Hpath. pose proof Hin as Hin'. unfold check_input in Hin'.
  destruct (validateHookBinding _ _) eqn:Evalid; [done|]. cbv zeta in Hin'. rewrite (bool_decide_eq_true_2 _ Hhost), (bool_decide_eq_true_2 _ Hcon) in Hin'.
  destruct (decide (ti_HookHost i = "")) as [Hh|Hh]; [|by rewrite bool_decide_eq_false_2 in Hin'].
  rewrite (bool_decide_eq_true_2 _ Hh) in Hin'. cbn [negb andb orb] in Hin'.
  destruct (codexTaskID (ti_CodexThreadID i)) eqn:Etask; [|done].
  assert (ti_HookSessionID i = "") as Hses.
  { unfold validateHookBinding in Evalid. rewrite (bool_decide_eq_true_2 _ Hh) in Evalid. cbn [andb] in Evalid.
    clear Hin'. case_bool_decide; [done|]. by rewrite Hh in Evalid. }
  unfold Connect.connect_tool. rewrite Hin. unfold find_connection. rewrite (bool_decide_eq_true_2 _ Himp), (bool_decide_eq_true_2 _ Hcon). cbn [negb].
  unfold mbind at 1, C_bind at 1. rewrite Hc. unfold bind_connection, mbind, C_bind, demand, of_result.
  assert (negb (ti_Encrypted i && bool_decide (cfg_CryptoPath (pc_Config c) = "")) = true) as ->.
  { destruct (ti_Encrypted i); [|done]. by rewrite bool_decide_eq_false_2 by auto. }
  rewrite Hw. cbn [negb]. rewrite (bool_decide_eq_true_2 _ Hh), (bool_decide_eq_true_2 _ Hses), (bool_decide_eq_true_2 _ Hhost). cbn [andb mret C_ret].
  unfold take_io, bindCodex. rewrite (bool_decide_eq_true_2 _ Hhost), Hhook, (bool_decide_eq_true_2 ("" = "")) by done. cbn [negb].
  assert (ti_CodexThreadID i <> "") as Hne by (intros H0; by rewrite H0 in Etask).
  rewrite (bool_decide_eq_false_2 _ Hne), Etask, Hthread, (bool_decide_eq_true_2 ("" = "")) by done. cbn [negb andb].
  rewrite He. by destruct (di_ios s1) as [|io l]; eexists.
Qed.
End Connecting.


(** ** What a new connection leaves in the vault *)
(** A connection that no task is bound to yet. *)
Definition newborn (handle : string) (c : pluginConnection) : Prop :=
  pc_Handle c = handle /\ pc_HookHost c = "" /\ pc_HookSessionID c = "" /\ pc_CodexThreadID c = "".

Section Newborn.
Context `{!Primitives}.
Variables (ToLower : string -> string) (root host own_server : string) (pf : platform) (server_url : string -> option Protocol.url).
Context {base : Type} (base_url : base -> Protocol.url) (parse_base : string -> option base) (base_string : base -> string).
Variables (v0 : vault) (handle : string).
Hypothesis unused : v0 !! handle = None.
#[local] Notation settle_connect := (settle_connect ToLower root base_url parse_base base_string).
#[local] Notation connect := (connect ToLower root host own_server pf server_url base_url parse_base base_string).

(** The new connection's file is sound, and the others are as they were. *)
Definition born (v : vault) : Prop := vault_ok root v /\ evolves v0 v.

Lemma store_born c s r s' : store root c s = (r, s') -> born (di_vault s) -> newborn handle c ->
  (cfg_Token (pc_Config c) = "" -> pc_PendingJoin c <> None) ->
  born (di_vault s') /\ forall d, r = Ok d -> d = located root c.
Proof using unused.
  clear ToLower host own_server pf server_url base_url parse_base base_string.
  intros E [Hv He] (Hh & Hhost & Hses & Hth) Hu.
  assert (r = Ok (located root c) -> connectionHandle (pc_Handle c) = true) as Hch.
  { unfold store, save in E. destruct (connectionHandle (pc_Handle c)); [done|].
    destruct (di_ios s) as [|io l]; injection E as <- _; done. }
  apply store_cases in E as [[-> ->]|(e & -> & ->)]; [|by split]. specialize (Hch eq_refl). split; [|by intros d [= <-]]. split.
  - apply map_Forall_insert_2; [|done]. intros d [= <-]. split; [done|]. split; cbn; try done; by left.
  - intros h d Hd. rewrite Hh. destruct (decide (h = handle)) as [->|Hne]; [congruence|].
    destruct (He h d Hd) as (d' & Hd' & Hg). exists d'. by rewrite lookup_insert_ne.
Qed.

Lemma settle_born c j receipt s r s' : settle_connect c j receipt s = (r, s') -> born (di_vault s) -> newborn handle c ->
  born (di_vault s').
Proof using unused.
  intros Hr Hb Hn. unfold Connect.settle_connect in Hr. case_bool_decide.
  - apply c_bind_either in Hr as [(e & _ & Hm)|(j' & s1 & Hm & Hr)].
    + case_bool_decide; [done|]. by rewrite (of_M_vault _ _ _ _ Hm).
    + assert (di_vault s1 = di_vault s) as Hv by (case_bool_decide; [by injection Hm as _ <-|by eapply of_M_vault]).
      rewrite <- Hv in Hb. eapply store_born; [exact Hr|done|done|done].
  - apply c_bind_either in Hr as [(e & _ & [=])|([] & s0 & Hd & Hr)]; [by subst|].
    unfold demand, of_result in Hd. destruct (_ && _) eqn:Eg in Hd; [|done]. injection Hd as <-. bool_simpl.
    unfold Connect.set_up in Hr. cbv zeta in Hr. set (keyed := negb _) in *. set (c1 := if keyed then _ else _) in Hr.
    assert (newborn handle c1 /\ cfg_Token (pc_Config c1) = jd_Token j) as [Hn1 Ht1] by (unfold c1; by destruct keyed).
    apply c_bind_either in Hr as [(e & _ & Hs)|(c2 & s2 & Hs & Hr)]; apply store_born in Hs as [Hb1 Hc2]; try done; try congruence.
    specialize (Hc2 _ eq_refl). subst c2. apply c_bind_either in Hr as [(e & _ & Hm)|(c3 & s3 & Hm & Hr)].
    + destruct keyed; [|done]. by apply c_bind_either in Hm as [(e' & _ & Hm%of_M_vault)|(url & s4 & Hm%of_M_vault & [= _ <-])]; rewrite Hm.
    + assert (di_vault s3 = di_vault s2 /\ newborn handle c3 /\ cfg_Token (pc_Config c3) = jd_Token j) as (Hv & Hn3 & Ht3).
      { destruct keyed; [|by injection Hm as <- <-].
        by apply c_bind_either in Hm as [(e' & [=] & _)|(url & s4 & Hm%of_M_vault & [= <- <-])]. }
      rewrite <- Hv in Hb1. eapply store_born; [exact Hr|done|done|congruence].
Qed.

Lemma request_born sc encrypted raw pinned invite workspace c s r s' : newborn handle c ->
  connect_request root base_url parse_base base_string sc encrypted raw pinned invite workspace c s = (r, s') ->
  di_vault s' = di_vault s /\ forall c' endpoint input, r = Ok (c', endpoint, input) -> newborn handle c'.
Proof using Type.
  intros Hn. unfold connect_request. destruct (plain_request _ _ _) as [ep inp]. destruct encrypted; cbn [negb]; [|by intros [= <- <-]; split; [|intros ? ? ? [= <- _ _]]].
  intros Hr. apply c_bind_either in Hr as [(e & -> & H1%of_M_vault)|([] & s1 & H1%of_M_vault & Hr)]; [done|].
  apply c_bind_either in Hr as [(e & -> & H2%of_M_vault)|([] & s2 & H2%of_M_vault & Hr)]; [split; [congruence|done]|].
  apply c_bind_either in Hr as [(e & -> & H3%of_M_vault)|(more & s3 & H3%of_M_vault & [= <- <-])]; (split; [congruence|done || by intros ? ? ? [= <- _ _]]).
Qed.

Lemma connect_born cs raw name workspace intro s r s' : connect cs raw name workspace intro s = (r, s') ->
  ID "conn_" (cs_handle cs) = handle -> di_vault s = v0 -> vault_ok root v0 -> born (di_vault s').
Proof using unused.
  intros Hr Hh Hv0 Hok. assert (born (di_vault s)) as Hb by by rewrite Hv0.
  unfold Connect.connect in Hr.
  apply c_bind_either in Hr as [(e & _ & [= _ <-])|(profile & ? & [= _ <-] & Hr)]; [done|].
  apply c_bind_either in Hr as [(e & _ & [= _ <-])|(metadata & ? & [= _ <-] & Hr)]; [done|].
  apply c_bind_either in Hr as [(e & _ & [= _ <-])|([] & ? & [= _ <-] & Hr)]; [done|].
  apply c_bind_either in Hr as [(e & _ & [= _ <-])|([clean pinned] & ? & [= _ <-] & Hr)]; [done|].
  apply c_bind_either in Hr as [(e & _ & [= _ <-])|([] & ? & [= _ <-] & Hr)]; [done|].
  apply c_bind_either in Hr as [(e & _ & [= _ <-])|([server invite] & ? & [= _ <-] & Hr)]; [done|].
  apply c_bind_either in Hr as [(e & _ & [= _ <-])|(full & ? & [= _ <-] & Hr)]; [done|].
  apply c_bind_either in Hr as [(e & _ & [= _ <-])|(c1 & ? & [= Hn <-] & Hr)]; [done|].
  apply c_bind_either in Hr as [(e & _ & [= _ <-])|([] & ? & [= _ <-] & Hr)]; [done|].
  assert (newborn handle c1) as Hn1.
  { unfold negotiated_protocol in Hn. by destruct (refreshProtocol _ _ _) as [[e|] n]; simplify_eq. }
  apply c_bind_either in Hr as [(e & _ & Hq)|([[c2 endpoint] input] & s2 & Hq & Hr)];
    apply request_born in Hq as [Hv2 Hn2]; try done; [by rewrite Hv2|]. specialize (Hn2 _ _ _ eq_refl).
  apply c_bind_either in Hr as [(e & _ & Ha%of_M_vault)|([j receipt] & s3 & Ha%of_M_vault & Hr)]; [by rewrite Ha, Hv2|].
  eapply settle_born; [exact Hr|by rewrite Ha, Hv2|done].
Qed.
End Newborn.

(** ** What a room tool saves of a connection *)
Definition same_account (c0 c : Config) : Prop := cfg_Server c = cfg_Server c0 /\ cfg_Token c = cfg_Token c0.
Definition account_kept (path : string) (c0 : Config) (s : room_session) : Prop :=
  same_account c0 (cn_config s) /\ forall c, cn_saved s = Some c -> same_account c0 c /\ cfg_ConnectionPath c = path.

Section Account.
Context `{!Primitives}.
Variables (path : string) (c0 : Config).
Definition keeps_account {A} (m : R A) : Prop := forall s, account_kept path c0 s -> account_kept path c0 (m s).2.
#[local] Existing Instance R_ret.
#[local] Existing Instance R_bind.

Lemma ka_ret {A} (a : A) : keeps_account (mret a).
Proof. by intros s. Qed.
Lemma ka_throw {A} e : keeps_account (A := A) (throw e).
Proof. by intros s. Qed.
Lemma ka_config : keeps_account config.
Proof. by intros s. Qed.
Lemma ka_bind {A B} (m : R A) (f : A -> R B) : keeps_account m -> (forall a, keeps_account (f a)) -> keeps_account (m ≫= f).
Proof. intros Hm Hf s Hs. unfold mbind, R_bind. specialize (Hm s Hs). destruct (m s) as [[a|e] s1]; [by apply Hf|done]. Qed.
Lemma ka_crypto {A} (m : M A) : keeps_account (crypto m).
Proof. intros s Hs. unfold crypto. by destruct (m _). Qed.
Lemma ka_catch {A} (m : R A) : keeps_account m -> keeps_account (catch m).
Proof. intros Hm s Hs. unfold catch. specialize (Hm s Hs). by destruct (m s). Qed.
Lemma ka_update f : (forall c, cfg_Server (f c) = cfg_Server c /\ cfg_Token (f c) = cfg_Token c) -> keeps_account (update f).
Proof. intros Hf s [[H1 H2] H3]. split; [|done]. destruct (Hf (cn_config s)). cbn. split; congruence. Qed.
Lemma ka_persist : keeps_account (save_config (with_path path)).
Proof.
  intros s [H1 H2]. unfold save_config. destruct (cn_ios s) as [|[e|] l]; (split; [exact H1|]); cbn; try done;
    intros c [= <-]; by split.
Qed.
#[local] Hint Resolve ka_ret ka_throw ka_config ka_crypto ka_persist ka_bind ka_catch : account.
#[local] Ltac account_steps := repeat first
  [ solve [auto with account] | apply ka_update; by intros | apply ka_bind; [|intros ?] | apply ka_catch
  | match goal with |- keeps_account (match ?x with _ => _ end) => destruct x end ].

Lemma ka_create ToLower sc base name : keeps_account (createLocalEncryptedRoom ToLower (save_config (with_path path)) sc base name).
Proof.
  unfold createLocalEncryptedRoom, begin_creation, request_creation, settle_creation. account_steps.
Qed.
Lemma ka_join {base} (base_url : base -> Protocol.url) parse_base base_string sc p raw :
  keeps_account (joinIndependentRoom (save_config (with_path path)) base_url parse_base base_string sc p raw).
Proof. unfold joinIndependentRoom. account_steps. Qed.
End Account.

Lemma in_plugin_fine {A} root (m : R unit -> R A) ios v h c w r v' w' : vault_ok root v -> load v h = Ok c ->
  keeps_account (connection_path root (pc_Handle c)) (pc_Config c) (m (save_config (with_path (connection_path root (pc_Handle c))))) ->
  in_plugin root m ios id v c w = (r, v', w') -> fine root v v'.
Proof.
  intros Hv Hl Hm. unfold in_plugin. set (s0 := mkConn _ _ _ _).
  assert (account_kept (connection_path root (pc_Handle c)) (pc_Config c) s0) as H0 by by split.
  pose proof (Hm s0 H0) as [_ Hs]. destruct (m _ s0) as [r0 s1]. cbn in Hs. intros [= _ <- _].
  destruct (load_Ok _ _ _ Hl) as [Hc Hh]. destruct (vault_ok_load _ _ _ _ Hv Hc) as [_ Hsound].
  destruct (cn_saved s1) as [config|]; [|by split]. destruct (Hs _ eq_refl) as [[Hsrv Htok] Hpath]. cbn [id]. split.
  - apply map_Forall_insert_2; [|done]. intros d [= <-]. split; [done|]. destruct Hsound as [S1 S2 S3 S4 S5].
    split; cbn; try done. by rewrite Htok.
  - intros h' d Hd. destruct (decide (h' = pc_Handle c)) as [->|Hne].
    + exists (put_Config config c). rewrite lookup_insert_eq. split; [done|]. rewrite Hh in Hd. rewrite Hd in Hc. injection Hc as ->. by split.
    + exists d. by rewrite lookup_insert_ne.
Qed.

(** ** The processes of a device *)
(** An operation on the connection with the handle [h], as it runs by itself on the vault it found. *)
Inductive broker_op (root : string) : string -> vault -> vault -> Prop :=
| Op_bindHook io v c host session err d v' :
    bindHook root io v c host session = (err, d, v') -> broker_op root (pc_Handle c) v v'
| Op_bindCodex host io target v c thread err d v' :
    bindCodex root host io target v c thread = (err, d, v') -> broker_op root (pc_Handle c) v v'
| Op_refreshJoin io answer v c err d v' :
    refreshJoin root io answer v c = (err, d, v') -> broker_op root (pc_Handle c) v v'
| Op_peer io v h agent peer err v' : record_peer root io v h agent peer = (err, v') -> broker_op root h v v'
| Op_prepare server_url now s r s' :
    prepare root server_url now s = (r, s') -> broker_op root (pc_Handle (ss_conn s)) (ss_vault s) (ss_vault s')
| Op_worker io v h c thread err d v' :
    load v h = Ok c -> Broker.save root io v (put_Worker true thread c) = (err, d, v') -> broker_op root h v v'
| Op_import server_url random server token room s r s' :
    ss_vault s !! ID "conn_" random = None ->
    importDirect root server_url random server token room s = (r, s') ->
    broker_op root (ID "conn_" random) (ss_vault s) (ss_vault s')
| Op_connect (H : Primitives) ToLower host own_server pf server_url base (base_url : base -> Protocol.url) parse_base base_string
    cs raw name workspace intro s r s' :
    di_vault s !! ID "conn_" (cs_handle cs) = None ->
    connect ToLower root host own_server pf server_url base_url parse_base base_string cs raw name workspace intro s = (r, s') ->
    broker_op root (ID "conn_" (cs_handle cs)) (di_vault s) (di_vault s')
| Op_create (H : Primitives) ToLower sc name ios v h c w r v' w' :
    load v h = Ok c -> createEncryptedRoom ToLower root sc name ios id v c w = (r, v', w') -> broker_op root h v v'
| Op_join (H : Primitives) base (base_url : base -> Protocol.url) parse_base base_string sc p raw ios v h c w r v' w' :
    load v h = Ok c ->
    in_plugin root (fun persist => joinIndependentRoom persist base_url parse_base base_string sc p raw) ios id v c w = (r, v', w') ->
    broker_op root h v v'.

Lemma op_fine root h v v' : broker_op root h v v' -> vault_ok root v -> fine root v v'.
Proof.
  intros Hop Hv.
  destruct Hop as [| | | |server_url now s r s' E|io v h c thread err d v' Hl E|server_url random server token room s r s' Hnew E
    |H ToLower host own_server pf server_url base base_url parse_base base_string cs raw name workspace intro s r s' Hnew E
    |H ToLower sc name ios v h c w r v' w' Hl E|H base base_url parse_base base_string sc p raw ios v h c w r v' w' Hl E].
  - by eapply bindHook_fine.
  - by eapply bindCodex_fine.
  - by eapply refreshJoin_fine.
  - by eapply record_peer_fine.
  - destruct (prepare_spec _ _ _ _ _ _ Hv E) as (? & ? & _). by split.
  - destruct (loaded_sound root v Hv _ _ Hl) as [_ Hs].
    eapply (resave_fine root v Hv io h c (put_Worker true thread c)); [exact Hl|by split|apply Hs..|exact E].
  - by eapply import_fine.
  - destruct (connect_born ToLower root host own_server pf server_url base_url parse_base base_string (di_vault s) _ Hnew
      cs raw name workspace intro s r s' E eq_refl eq_refl Hv) as [? ?]. by split.
  - eapply (in_plugin_fine root (fun persist => createLocalEncryptedRoom ToLower persist sc (crypto_path root (pc_Handle c)) name));
      [done|exact Hl|apply ka_create|exact E].
  - eapply (in_plugin_fine root (fun persist => joinIndependentRoom persist base_url parse_base base_string sc p raw));
      [done|exact Hl|apply ka_join|exact E].
Qed.

(** Operations one after the other, as by themselves. *)
Lemma ops_fine root h v v' : rtc (broker_op root h) v v' -> vault_ok root v -> fine root v v'.
Proof.
  induction 1 as [v|v v1 v2 Hop _ IH]; intros Hv; [by split|].
  destruct (op_fine _ _ _ _ Hop Hv) as [Hv1 He1]. destruct (IH Hv1) as [Hv2 He2]. split; [done|by etransitivity].
Qed.

(** A device: the vault, and the work under way in all its processes, each with the handle it
    concerns and the vault it loaded the connection from. Work begins with that load; what it
    then saves, it saves whole over whatever the vault holds by then - whatever its operations
    would have saved in the vault it began with, at any point, under any answers and failing
    saves; and it ends, or its process dies, at any time. Nothing is locked across processes. *)
Record device := mkDev { dv_vault : vault; dv_open : list (string * vault) }.
Inductive device_step (root : string) : device -> device -> Prop :=
| Begins h v l : device_step root (mkDev v l) (mkDev v ((h, v) :: l))
| Writes h v0 v1 c v l : (h, v0) ∈ l -> rtc (broker_op root h) v0 v1 -> v1 !! h = Some (Saved c) ->
    device_step root (mkDev v l) (mkDev (<[h := Saved c]> v) l)
| Ends x v l1 l2 : device_step root (mkDev v (l1 ++ x :: l2)) (mkDev v (l1 ++ l2)).

Definition device_ok (root : string) (D : device) : Prop :=
  vault_ok root (dv_vault D) /\ Forall (fun x => vault_ok root x.2) (dv_open D).
Lemma device_step_ok root D D' : device_step root D D' -> device_ok root D -> device_ok root D'.
Proof.
  intros Hs [Hv Hl]. destruct Hs as [h v l|h v0 v1 c v l Hin Hop Hc|x v l1 l2]; cbn in *.
  - split; [done|]. by constructor.
  - split; [|done]. rewrite Forall_forall in Hl. destruct (ops_fine _ _ _ _ Hop (Hl _ Hin)) as [Hv1 _].
    apply map_Forall_insert_2; [|done]. apply (Hv1 h _ Hc).
  - split; [done|]. apply Forall_app in Hl as [H1 H2]. apply Forall_app. split; [done|by inversion H2].
Qed.
(** Everything that is saved from now on, and whatever it is made from, is a later version of [c]. *)
Definition descends (h : string) (c : pluginConnection) (D : device) : Prop :=
  (exists d, dv_vault D !! h = Some (Saved d) /\ grows c d) /\
  forall v0, (h, v0) ∈ dv_open D -> exists d, v0 !! h = Some (Saved d) /\ grows c d.
Lemma device_step_descends root h c D D' : device_step root D D' -> device_ok root D -> descends h c D -> descends h c D'.
Proof.
  intros Hs [_ Hok] [(d & Hd & Hg) Hl]. destruct Hs as [h' v l|h' v0 v1 c' v l Hin Hop Hc|x v l1 l2]; unfold descends; cbn in *.
  - split; [by exists d|]. intros v0 [[= -> ->]|Hin]%elem_of_cons; [by exists d|by apply Hl].
  - split; [|done]. destruct (decide (h = h')) as [->|Hne]; [|exists d; by rewrite lookup_insert_ne].
    exists c'. rewrite lookup_insert_eq. split; [done|]. destruct (Hl v0 Hin) as (e & He & Hge).
    rewrite Forall_forall in Hok. destruct (ops_fine _ _ _ _ Hop (Hok _ Hin)) as [_ Hev].
    destruct (Hev h' e He) as (e' & He' & Hg'). rewrite Hc in He'. injection He' as <-. by etransitivity.
  - split; [by exists d|]. intros v0 Hin. apply Hl. rewrite elem_of_app in Hin |- *. rewrite elem_of_cons. tauto.
Qed.
Lemma device_steps_ok root D D' : rtc (device_step root) D D' -> device_ok root D -> device_ok root D'.
Proof. induction 1 as [|D D1 D' Hs _ IH]; [done|]. intros Hok. by apply IH, (device_step_ok root D). Qed.
Lemma device_steps_descend root h c D D' : rtc (device_step root) D D' -> device_ok root D -> descends h c D -> descends h c D'.
Proof.
  induction 1 as [|D D1 D' Hs _ IH]; [done|]. intros Hok Hd. apply IH; [by eapply device_step_ok|by eapply device_step_descends].
Qed.
Definition no_device : device := mkDev ∅ [].
Lemma reached_ok root D : rtc (device_step root) no_device D -> device_ok root D.
Proof. intros Hr. eapply device_steps_ok; [exact Hr|]. split; [by apply map_Forall_empty|constructor]. Qed.

(** C29. The vault stays usable. However the processes of a device connect, bind, set up, import and
    finish connections, make and join rooms with them, run workers and record peers - with
    operations that overlap in any way, each saving the connection whole as it loaded it and
    changed it since -, whatever the server answers, whichever saves fail and whenever a process
    dies: every file of the vault that holds a connection is found under that connection's
    own, well-formed handle, loads, knows its own path, has a credential or a pending
    admission, and belongs to one kind of task at most - a session of a harness or a Codex
    task. *)
Theorem vault_stays_usable root D h c : rtc (device_step root) no_device D -> dv_vault D !! h = Some (Saved c) ->
  load (dv_vault D) h = Ok c /\ connectionHandle h = true /\ cfg_ConnectionPath (pc_Config c) = connection_path root h /\
  (cfg_Token (pc_Config c) <> "" \/ pc_PendingJoin c <> None) /\ (pc_HookSessionID c = "" \/ pc_CodexThreadID c = "").
Proof.
  intros [Hv _]%reached_ok Hc.
  destruct (vault_ok_load _ _ _ _ Hv Hc) as [Hl Hs]. destruct (load_Ok _ _ _ Hl) as [_ Hh]. subst h. split_and!; [done|apply Hs|apply Hs| |].
  - destruct (decide (cfg_Token (pc_Config c) = "")) as [Ht|]; [right; by apply (so_usable _ _ Hs)|by left].
  - destruct (so_bound _ _ Hs); [left; by apply (so_hook _ _ Hs)|by right].
Qed.

(** C16. A connection is one agent and one task for life, counted from a moment at which no operation
    on it is under way. Let a connection be saved then. However the processes of the device
    operate on it and on others from there on - overlapping in any way, each saving the
    connection whole as it loaded it and changed it since -, it can still be loaded, speaks to
    the same server, and - if it was admitted - as the same agent with the same credential in
    the same room; if it was bound to a harness session or a Codex task it belongs to that one,
    and if it had announced itself it does not forget. (What was saved while another operation
    on the connection was under way can be lost: [stale_save_unbinds].) *)
Theorem connection_is_for_life root D D' h c :
  rtc (device_step root) no_device D -> (forall v0, (h, v0) ∉ dv_open D) -> dv_vault D !! h = Some (Saved c) ->
  rtc (device_step root) D D' ->
  exists d, load (dv_vault D') h = Ok d /\ cfg_Server (pc_Config d) = cfg_Server (pc_Config c) /\
    (pc_PendingJoin c = None -> pc_PendingJoin d = None /\ pc_AgentID d = pc_AgentID c /\ pc_RoomID d = pc_RoomID c /\
       cfg_Token (pc_Config d) = cfg_Token (pc_Config c)) /\
    (pc_HookSessionID c <> "" -> pc_HookHost d = pc_HookHost c /\ pc_HookSessionID d = pc_HookSessionID c /\ pc_CodexThreadID d = "") /\
    (pc_CodexThreadID c <> "" -> pc_CodexThreadID d = pc_CodexThreadID c /\ pc_HookSessionID d = "") /\
    (pc_HelloID c <> "" -> pc_HelloID d = pc_HelloID c).
Proof.
  intros Hok%reached_ok Hidle Hc Hr. assert (descends h c D) as Hd0 by (split; [by exists c|intros v0 Hin; by destruct (Hidle v0)]).
  destruct (device_steps_descend _ _ _ _ _ Hr Hok Hd0) as [(d & Hd & Hg) _].
  destruct (device_steps_ok _ _ _ Hr Hok) as [Hv' _].
  destruct (vault_ok_load _ _ _ _ Hv' Hd) as [Hl Hs]. exists d. split_and!; [done|apply Hg|apply Hg| | |apply Hg].
  - intros Hh. destruct (gr_hook _ _ Hg Hh) as [-> E2]. split_and!; [done|done|].
    destruct (so_bound _ _ Hs) as [Hb|]; [|done]. apply (so_hook _ _ Hs) in Hb. congruence.
  - intros Ht. pose proof (gr_codex _ _ Hg Ht) as E. split; [done|]. apply (so_hook _ _ Hs).
    destruct (so_bound _ _ Hs) as [|Hb]; [done|congruence].
Qed.

(** ** At concrete inputs *)
#[local] Existing Instance room_primitives.
Example long_name : len (cut_name (of_bytes (repeat "a"%char 63 ++ [ascii_of_nat 195; ascii_of_nat 169]))) = 63.
Proof. reflexivity. Qed.
Definition site (path : string) : Protocol.url := Protocol.mkURL "https" "tincan.dev" "tincan.dev" false path "" false "".
Definition nowhere : Protocol.url := Protocol.mkURL "" "" "" false "" "" false "".
Definition site_parse (s : string) : option Protocol.url :=
  if bool_decide (s = "") then Some nowhere else if bool_decide (s = "https://tincan.dev") then Some (site "") else None.
Definition site_print (u : Protocol.url) : string := if bool_decide (u_Host u = "") then "" else "https://tincan.dev".

(** The server grants an encrypted workspace, and the key file cannot be read. *)
Definition grant : joinedAnswer := mkJoined "cred" "ag_1" "rm_1" "Plans" "https://tincan.dev/join#inv_1" 9 "https://tincan.dev/claim" 9.
Definition no_receipt : JoinReceipt := mkJoinReceipt false "" "" "" "" "" 0.
Definition keyed_agent : pluginConnection :=
  with_keys "/vault/keys.e2ee.json" (fresh_connection (ID "conn_" "0123456789abcdef") "https://tincan.dev" "Ada" "" "").
Definition keyed_dial : link := mkDial ∅ [None] (plans_world []).
Definition keyed_end := settle_connect ascii_lower "/vault" id site_parse site_print keyed_agent grant no_receipt keyed_dial.
Lemma keyed_fails : is_ok keyed_end.1 = false.
Proof. vm_compute. reflexivity. Qed.
Lemma granted_agent_is_kept_witness :
  exists saved, holds grant (pc_Handle keyed_agent) (di_vault keyed_end.2) saved /\
    match keyed_end.1 with
    | Ok c' => saved = c'
    | Err _ => cfg_CryptoPath (pc_Config keyed_agent) <> "" -> pc_ShareURL saved = ""
    end.
Proof.
  apply (granted_agent_is_kept ascii_lower "/vault" id site_parse site_print keyed_agent grant no_receipt keyed_dial keyed_end.1 keyed_end.2).
  - unfold keyed_end. apply surjective_pairing.
  - discriminate.
  - discriminate.
  - discriminate.
  - discriminate.
  - vm_compute. reflexivity.
  - right. reflexivity.
Defined.

(** A new workspace in Codex, whose task the runtime does not know. *)
Definition asked : connect_input :=
  mkConnectInput "" "" "" "" "" "" "" "0198a3c2-7b1e-7d2a-9f00-0123456789ab" "" false "" "Ada" "Plans" "" "" "" None.
Definition unknown_task : tool_script := mkToolScript Ok (Err "this Codex task is not loaded") (Err "no answer") "" [] None None 0.
Definition fresh_keys : connect_script :=
  mkConnectScript "0123456789abcdef" "abcdef0123456789" (Ok (mkResponse 404 (Ok 0) None)) (mkKeys None (Err "no randomness") "" (Err "no randomness") None).
Definition ubuntu : platform := mkPlatform "1.0.0" "linux" "amd64".
Definition site_url (s : string) : option Protocol.url := site_parse s.
Definition free_dial : link := mkDial ∅ [] (plans_world [Ok (AnsConnected grant no_receipt)]).
#[local] Notation joined_end := (connect ascii_lower "/vault" "codex" "https://tincan.dev" ubuntu site_url id site_parse site_print fresh_keys
  (ti_URL asked) (recognizableName (ti_Name asked) (ti_ProjectPath asked) "codex") (workspace_of asked)
  (mkContext (ti_Encrypted asked) (ti_Profile asked) (ti_Intent asked) (ti_AgentMetadata asked)) free_dial).
Definition joined_agent : pluginConnection := value keyed_agent joined_end.1.
Lemma joined_ok : joined_end = (Ok joined_agent, joined_end.2).
Proof.
  assert (Ha : is_ok joined_end.1 = true) by (vm_compute; reflexivity). unfold joined_agent.
  destruct joined_end as [r s]. cbn [fst snd] in *. by destruct r.
Qed.
Lemma refused_binding_loses_handle_witness :
  exists s2, connect_tool ascii_lower "/vault" "codex" "https://tincan.dev" ubuntu site_url id site_parse site_print unknown_task fresh_keys asked free_dial
      = (Refused "this Codex task is not loaded", s2) /\
    di_vault s2 = di_vault joined_end.2 /\ di_vault s2 !! pc_Handle joined_agent = Some (Saved joined_agent).
Proof.
  apply (refused_binding_loses_handle ascii_lower "/vault" "codex" "https://tincan.dev" ubuntu site_url id site_parse site_print
           unknown_task fresh_keys asked free_dial joined_agent joined_end.2 "this Codex task is not loaded").
  - reflexivity.
  - vm_compute. reflexivity.
  - reflexivity.
  - reflexivity.
  - exact joined_ok.
  - reflexivity.
Defined.

(** A connection is imported; a task then begins to set it up ([prepare]), and meanwhile the
    connection is bound to a harness session. *)
Definition one_conn (c : pluginConnection) : vault := {[demo_handle := Saved c]}.
Definition imported_device : device := mkDev (one_conn saved_conn) [].
Lemma imported_reached : rtc (device_step "/state") no_device imported_device.
Proof.
  eapply rtc_l; [apply (Begins "/state" demo_handle ∅ [])|].
  eapply rtc_l; [|apply rtc_once, (Ends "/state" (demo_handle, ∅) (one_conn saved_conn) [] [])].
  apply (Writes "/state" demo_handle ∅ (one_conn saved_conn) saved_conn ∅); [by left| |reflexivity].
  apply rtc_once. rewrite <- (imported_eq : _ = one_conn saved_conn).
  eapply (Op_import "/state" demo_url "0123456789abcdef" "https://tincan.example" "token" "rm_1" importing); [reflexivity|].
  apply surjective_pairing.
Qed.
Lemma saved_there : dv_vault imported_device !! demo_handle = Some (Saved saved_conn).
Proof. reflexivity. Qed.
Definition bound_conn : pluginConnection := located "/state" (put_Binding "claude" "session-1" saved_conn).
Notation binding := (bindHook "/state" None (one_conn saved_conn) saved_conn "claude" "session-1").
Lemma binding_eq : binding = (None, bound_conn, one_conn bound_conn).
Proof. vm_compute. reflexivity. Qed.
Example bound_once :
  (bindHook "/state" None (one_conn bound_conn) bound_conn "claude" "session-2").1.1 = Some "connection belongs to another harness session".
Proof. vm_compute. reflexivity. Qed.
Definition bound_device (l : list (string * vault)) : device := mkDev (one_conn bound_conn) ((demo_handle, one_conn saved_conn) :: l).
Lemma bound_reached l :
  rtc (device_step "/state") (mkDev (one_conn saved_conn) l) (bound_device l).
Proof.
  eapply rtc_l; [apply (Begins "/state" demo_handle (one_conn saved_conn) l)|]. apply rtc_once.
  apply (Writes "/state" demo_handle (one_conn saved_conn) (one_conn bound_conn) bound_conn (one_conn saved_conn)); [by left| |reflexivity].
  apply rtc_once. eapply (Op_bindHook "/state" None _ saved_conn). exact binding_eq.
Qed.
Lemma vault_stays_usable_witness :
  load (one_conn bound_conn) demo_handle = Ok bound_conn /\ connectionHandle demo_handle = true /\
  cfg_ConnectionPath (pc_Config bound_conn) = connection_path "/state" demo_handle /\
  (cfg_Token (pc_Config bound_conn) <> "" \/ pc_PendingJoin bound_conn <> None) /\
  (pc_HookSessionID bound_conn = "" \/ pc_CodexThreadID bound_conn = "").
Proof.
  apply (vault_stays_usable "/state" (bound_device []) demo_handle bound_conn); [|reflexivity].
  transitivity imported_device; [exact imported_reached|]. exact (bound_reached []).
Defined.
Lemma connection_is_for_life_witness :
  exists d, load (one_conn bound_conn) demo_handle = Ok d /\ cfg_Server (pc_Config d) = cfg_Server (pc_Config saved_conn) /\
    (pc_PendingJoin saved_conn = None -> pc_PendingJoin d = None /\ pc_AgentID d = pc_AgentID saved_conn /\
       pc_RoomID d = pc_RoomID saved_conn /\ cfg_Token (pc_Config d) = cfg_Token (pc_Config saved_conn)) /\
    (pc_HookSessionID saved_conn <> "" -> pc_HookHost d = pc_HookHost saved_conn /\
       pc_HookSessionID d = pc_HookSessionID saved_conn /\ pc_CodexThreadID d = "") /\
    (pc_CodexThreadID saved_conn <> "" -> pc_CodexThreadID d = pc_CodexThreadID saved_conn /\ pc_HookSessionID d = "") /\
    (pc_HelloID saved_conn <> "" -> pc_HelloID d = pc_HelloID saved_conn).
Proof.
  apply (connection_is_for_life "/state" imported_device (bound_device []) demo_handle saved_conn).
  - exact imported_reached.
  - intros v0 Hin. inversion Hin.
  - reflexivity.
  - exact (bound_reached []).
Defined.

(** [prepare] began before the binding was saved, and its own save puts the unbound connection back. *)
Definition refreshing : session :=
  mkSession saved_conn (one_conn saved_conn)
    [Ok (IsProtocol (mkResponse 404 (Ok 0) None)); Ok (IsMe "agent" "Ada" "helps" false false);
     Ok (IsChannels [mkChannelView "ch_1" "rm_1" false "standard"]); Ok (IsChannels []);
     Ok (IsInvite "https://tincan.example/join#x" 100)] [] [].
Definition refreshed : pluginConnection := ss_conn (prepare "/state" demo_url 7 refreshing).2.
Example stale_save_unbinds :
  (exists D, rtc (device_step "/state") imported_device D /\ dv_vault D = one_conn bound_conn /\
     rtc (device_step "/state") D (mkDev (one_conn refreshed) [(demo_handle, one_conn saved_conn); (demo_handle, one_conn saved_conn)])) /\
  pc_HookSessionID bound_conn = "session-1" /\ pc_HookSessionID refreshed = "".
Proof.
  assert (rtc (device_step "/state") imported_device (bound_device [(demo_handle, one_conn saved_conn)])) as H1.
  { eapply rtc_l; [apply (Begins "/state" demo_handle (one_conn saved_conn) [])|]. apply bound_reached. }
  assert (rtc (device_step "/state") (bound_device [(demo_handle, one_conn saved_conn)])
    (mkDev (one_conn refreshed) [(demo_handle, one_conn saved_conn); (demo_handle, one_conn saved_conn)])) as H2.
  { apply rtc_once, (Writes "/state" demo_handle (one_conn saved_conn) (one_conn refreshed) refreshed (one_conn bound_conn)); [by left| |reflexivity].
    apply rtc_once.
    assert (ss_vault (prepare "/state" demo_url 7 refreshing).2 = one_conn refreshed) as <- by (vm_compute; reflexivity).
    eapply (Op_prepare "/state" demo_url 7 refreshing). apply surjective_pairing. }
  split_and!; [by eexists|reflexivity|vm_compute; reflexivity].
Qed.

(** A room is asked for while [prepare] is under way: the answer is lost, and the pending creation is
    gone when [prepare] saves. *)
Definition asking := @createEncryptedRoom keys_primitives ascii_lower "/state" (mkRoomScript "1" "1" new_keys) "Plans" [] id
  (one_conn saved_conn) saved_conn (new_world []).
Definition asking_conn : pluginConnection :=
  match asking.1.2 !! demo_handle with Some (Saved c) => c | _ => saved_conn end.
Lemma one_there c : one_conn c !! demo_handle = Some (Saved c).
Proof. apply lookup_singleton_eq. Qed.
Lemma asking_eq : asking = (asking.1.1, one_conn asking_conn, asking.2).
Proof.
  assert (asking.1.2 = one_conn asking_conn) as E by (vm_compute; reflexivity). rewrite <- E. by destruct asking as [[] ].
Qed.
Lemma saved_loads : load (one_conn saved_conn) demo_handle = Ok saved_conn.
Proof. vm_compute. reflexivity. Qed.
Lemma refreshed_eq : ss_vault (prepare "/state" demo_url 7 refreshing).2 = one_conn refreshed.
Proof. vm_compute. reflexivity. Qed.
Lemma asking_step l : (demo_handle, one_conn saved_conn) ∈ l ->
  device_step "/state" (mkDev (one_conn saved_conn) l) (mkDev (<[demo_handle := Saved asking_conn]> (one_conn saved_conn)) l).
Proof.
  intros Hl. apply (Writes "/state" demo_handle (one_conn saved_conn) (one_conn asking_conn)); [done| |apply one_there].
  apply rtc_once. eapply (Op_create "/state" keys_primitives); [exact saved_loads|exact asking_eq].
Qed.
Lemma refreshed_step v l : (demo_handle, one_conn saved_conn) ∈ l ->
  device_step "/state" (mkDev v l) (mkDev (<[demo_handle := Saved refreshed]> v) l).
Proof.
  intros Hl. apply (Writes "/state" demo_handle (one_conn saved_conn) (one_conn refreshed)); [done| |apply one_there].
  apply rtc_once. rewrite <- refreshed_eq. eapply (Op_prepare "/state" demo_url 7 refreshing). apply surjective_pairing.
Qed.
Lemma one_again c d : <[demo_handle := Saved d]> (one_conn c) = one_conn d.
Proof. apply insert_singleton_eq. Qed.
Example stale_save_forgets_creation :
  (exists D, rtc (device_step "/state") imported_device D /\ dv_vault D = one_conn asking_conn /\
     rtc (device_step "/state") D (mkDev (one_conn refreshed) [(demo_handle, one_conn saved_conn); (demo_handle, one_conn saved_conn)])) /\
  prc_Name <$> cfg_PendingEncryptedRoom (pc_Config asking_conn) = Some "Plans" /\ length (creations (w_log asking.2)) = 1%nat /\
  cfg_PendingEncryptedRoom (pc_Config refreshed) = None.
Proof.
  split_and!; [|vm_compute; reflexivity..]. set (two := [(demo_handle, one_conn saved_conn); (demo_handle, one_conn saved_conn)]).
  assert ((demo_handle, one_conn saved_conn) ∈ two) as Hin by by left. exists (mkDev (one_conn asking_conn) two). split_and!; [|done|].
  - eapply rtc_l; [apply (Begins "/state" demo_handle (one_conn saved_conn) [])|]. eapply rtc_l; [apply (Begins "/state" demo_handle (one_conn saved_conn))|].
    apply rtc_once. rewrite <- (one_again saved_conn asking_conn). by apply asking_step.
  - apply rtc_once. rewrite <- (one_again asking_conn refreshed). by apply refreshed_step.
Qed.

(** A connection whose join waits for approval: a device is left with it, and no credential. *)
Definition waiting_receipt : JoinReceipt := mkJoinReceipt false "" "req_1" "receipt" "pending" "" 0.
Definition waiting_dial : link := mkDial ∅ [] (plans_world [Ok (AnsConnected (mkJoined "" "" "" "" "" 0 "" 0) waiting_receipt)]).
#[local] Notation waiting_end := (connect ascii_lower "/vault" "codex" "https://tincan.dev" ubuntu site_url id site_parse site_print fresh_keys
  (ti_URL asked) (recognizableName (ti_Name asked) (ti_ProjectPath asked) "codex") (workspace_of asked)
  (mkContext (ti_Encrypted asked) (ti_Profile asked) (ti_Intent asked) (ti_AgentMetadata asked)) waiting_dial).
Example join_can_wait : exists c, rtc (device_step "/vault") no_device (mkDev (one_conn c) [(demo_handle, ∅)]) /\
  pc_PendingJoin c <> None /\ cfg_Token (pc_Config c) = "".
Proof.
  assert (exists c, di_vault waiting_end.2 = one_conn c /\ pc_PendingJoin c <> None /\ cfg_Token (pc_Config c) = "") as (c & Hv & Hp).
  { eexists. split; [vm_compute; reflexivity|by split]. }
  exists c. split; [|done]. eapply rtc_l; [apply (Begins "/vault" demo_handle ∅ [])|]. apply rtc_once.
  apply (Writes "/vault" demo_handle ∅ (one_conn c) c ∅); [by left| |reflexivity]. apply rtc_once. rewrite <- Hv.
  eapply (Op_connect "/vault" _ _ _ _ _ _ _ _ _ _ fresh_keys _ _ _ _ waiting_dial); [reflexivity|]. apply surjective_pairing.
Qed.
