(* ===== verification/Cli.v ===== *)
(** * The command line

    [main.go], with [resumeCLIJoin] ([join_approval.go]): the saved configuration of an
    identity, connecting ([bootstrap], the commands [connect] and [mcp] as far as their
    connection), what every other command asks for, and watching the events. The configuration
    and its file are those of [Rooms]; a fatal error is an [Err]. *)
From S2P Require Import Prelude GoStrings Json Types Crypto Roster Metadata History Inbox Protocol.
From S2P Require Import Encryption Mls Groups Messages Admission Routes Broker Addresses Rooms Backup Export Tools Connect.

#[local] Existing Instance R_ret.
#[local] Existing Instance R_bind.

Definition of_either {A} (r : result A) : R A := fun s => (r, s).
Definition insist (b : bool) (e : string) : R unit := of_either (if b then Ok tt else Err e).

Definition with_server (server : string) (c : Config) : Config :=
  mkConfig (cfg_PendingEncryptedRoom c) (cfg_CryptoRooms c) (cfg_EncryptionRoom c) (cfg_ConnectionPath c) (cfg_CryptoPath c)
    (cfg_PendingJoin c) server (cfg_Token c).
Definition with_pending (j : option JoinReceipt) (c : Config) : Config :=
  mkConfig (cfg_PendingEncryptedRoom c) (cfg_CryptoRooms c) (cfg_EncryptionRoom c) (cfg_ConnectionPath c) (cfg_CryptoPath c)
    j (cfg_Server c) (cfg_Token c).
Definition with_status (status : string) (j : JoinReceipt) : JoinReceipt :=
  mkJoinReceipt (jr_Automatic j) (jr_Fingerprint j) (jr_RequestID j) (jr_Receipt j) status (jr_VerificationPhrase j) (jr_ExpiresAt j).
Definition save_cli : R unit := save_config (fun c => c).

(** ** The configuration ([configPath], [load]) *)
(** The variables [TINCAN_CONFIG], [TINCAN_SERVER], [TINCAN_TOKEN] and [TINCAN_WAKE], and
    [os.UserConfigDir]. *)
Record environment := mkEnvironment { en_Config : string; en_Server : string; en_Token : string; en_Wake : string; en_Dir : result string }.
(** What a command was given: [None] for [fl_server] and [fl_encrypted] when they were not, and for
    [fl_tokenStdin] without the flag, which reads at most 4096 bytes. *)
Record flags := mkFlags {
  fl_identity : string; fl_server : option string; fl_name : string; fl_workspace : string; fl_token : string; fl_tokenStdin : option (result string);
  fl_encrypted : option bool; fl_fingerprint : string; fl_revokeAgent : string; fl_invite : string; fl_ref : string; fl_channel : string;
  fl_room : string; fl_text : string; fl_sharingPurpose : string; fl_sharingContext : string; fl_metadata : string; fl_agentMetadata : string;
  fl_mentions : string; fl_attachments : string; fl_key : string; fl_query : string; fl_after : Z; fl_before : Z; fl_output : string;
  fl_file : string; fl_automaticInvites : string; fl_approval : string; fl_requestID : string; fl_decision : string; fl_args : list string }.

Definition name_char (a : ascii) : bool := alnum a || Ascii.eqb a "-" || Ascii.eqb a "_".
Definition identity_fits (s : string) : bool := (len s <=? 64) && forallb name_char (bytes s).

Section Config.
Variables (Join : list string -> string) (Dir : string -> string) (default_server : string) (env : environment).
Definition configPath (identity : string) : result string :=
  if negb (bool_decide (identity = "")) then
    if negb (bool_decide (en_Config env = "")) then Ok (Join [Dir (en_Config env); "agents"; identity +:+ ".json"])
    else dir ← en_Dir env; Ok (Join [dir; "tincan"; "agents"; identity +:+ ".json"])
  else if negb (bool_decide (en_Config env = "")) then Ok (en_Config env)
  else dir ← en_Dir env; Ok (Join [dir; "tincan"; "config.json"]).
(** [read]: what decoding the file leaves of the configuration, the identity when it cannot be read. *)
Definition load_config (identity : string) (read : Config -> Config) : Config :=
  let c := read (server_config default_server "") in
  let c := if bool_decide (en_Server env = "") then c else with_server (en_Server env) c in
  if bool_decide (en_Token env = "") || negb (bool_decide (identity = "")) then c else with_token (en_Token env) c.
(** The configuration that a command starts from: of the named identity, with the given server
    and credential. *)
Definition command_config (fl : flags) (read : string -> Config -> Config) : result Config :=
  if negb (bool_decide (fl_identity fl = "")) && negb (identity_fits (fl_identity fl))
  then Err "identity must contain 1–64 letters, digits, hyphens or underscores" else
  let c := load_config (fl_identity fl) (read (fl_identity fl)) in
  let c := with_server (TrimRight "/" (default (cfg_Server c) (fl_server fl))) c in
  token ← (match fl_tokenStdin fl with None => Ok (fl_token fl) | Some r => TrimSpace <$> r end);
  Ok (if bool_decide (token = "") then c else with_token token c).
End Config.

(** ** A request ([requestPlainContext]) *)
(** [set_room path room]: the path with [room_id] set in its query; [saved]: the room in the file of
    the keys; [server_url]: [url.Parse]. *)
Record http_message := mkMessageSent { hm_method : string; hm_url : string; hm_authorization : string }.
Section Http.
Variables (set_room : string -> string -> option string) (server_url : string -> option Protocol.url).
Definition scoped_path (saved : string) (c : Config) (path : string) : result string :=
  if HasPrefix path "/e2ee/" && negb (HasPrefix path "/e2ee/join") && negb (bool_decide (cfg_CryptoPath c = "")) then
    let room := or_else (cfg_EncryptionRoom c) saved in
    if bool_decide (room = "") then Ok path else
    match set_room path room with Some path => Ok path | None => Err "invalid address" end
  else Ok path.
Definition requestPlainContext (saved : string) (c : Config) (method path : string) : result http_message :=
  path ← scoped_path saved c path;
  match validateServer (server_url (cfg_Server c)) with
  | Some e => Err e
  | None => Ok (mkMessageSent method (TrimRight "/" (cfg_Server c) +:+ "/api/v1" +:+ path) ("Bearer " +:+ cfg_Token c))
  end.
End Http.
(** What is made of the status of the response and its body; redirects are responses. *)
Definition response_of (status : Z) (body : string) : result string :=
  if 300 <=? status then Err ("HTTP " +:+ Itoa status +:+ ": " +:+ read_limited 4096 body) else Ok body.

(** ** Connecting *)
(** The keys of a new identity, the parsed [--agent-metadata], the drawn key of a message, the
    keys of a new room, and the archive, the uploaded file and the outputs. *)
Record cli_script := mkCliScript {
  cc_keys : key_script; cc_report : option json; cc_key : string; cc_files : tool_files; cc_upload : result string; cc_output : option string;
  cc_args : option tool_args }.
Inductive cli_value :=
| CValue (v : tool_value)
| CShown (o : tool_outcome) (* what a tool showed, an error included *)
| CUploaded (r : Attachment + answer)
| CExported (path : string)
| CMetadata.

Section Cli.
Context `{!Primitives}.
Variables (ToLower DetectContentType number : string -> string) (url_parse : string -> option url).
Variables (PathEscape : string -> string) (Encode : gmap string string -> string) (Sprint : json -> string)
  (StdDecode : string -> option string) (filepath_Base : string -> string).
Context {base : Type} (base_url : base -> Protocol.url) (parse_base : string -> option base) (base_string : base -> string).
Variables (pf : platform) (wake : string) (path : string). (* [TINCAN_WAKE], [configPath()] *)

Definition ask_server (c : Config) (method endpoint : string) (v : option json) : R call_result :=
  crypto (callContext ToLower number url_parse None c method endpoint v).
(** A [POST] whose answer is a connection or the state of a join; an answer that is no object is
    a panic. *)
Definition post_join (endpoint : string) (body : list (string * json)) : R (joinedAnswer * JoinReceipt) :=
  crypto (ask (RawCall "POST" endpoint (Some (JObj body))) as_connected).

Definition cryptoJoinStatusPath (c : Config) : string :=
  if negb (bool_decide (cfg_CryptoPath c = "")) then "/e2ee/join/status" else "/join/status".
Definition still_waiting (j : JoinReceipt) (status : string) : string :=
  if jr_Automatic j then "join request " +:+ status +:+ "; waiting for automatic verification by the creator runtime. Resume with this same identity"
  else "join request " +:+ status +:+ "; verification phrase: " +:+ jr_VerificationPhrase j +:+ ". Resume with the same identity after creator approval".
Definition resumeCLIJoin : R unit :=
  c ← config;
  match cfg_PendingJoin c with
  | None => mret tt
  | Some j =>
      '(joined, status) ← post_join (cryptoJoinStatusPath c) [("receipt", JStr (jr_Receipt j))];
      if negb (bool_decide (jr_Status status = "joined")) then
        update (with_pending (Some (with_status (jr_Status status) j)));;
        catch save_cli;;
        throw (still_waiting j (jr_Status status))
      else if bool_decide (jd_Token joined = "") then throw "approved join returned no credential"
      else update (with_pending None ∘ with_token (jd_Token joined));; save_cli
  end.

(** The request of [bootstrap] without keys: its path, its members and the invitation's token. A
    join drops the credential and takes the server of a whole address. *)
Definition join_members (invite name workspace ref : string) : R (string * list (string * json) * string) :=
  if bool_decide (invite = "") then
    mret ("/bootstrap", [("name", JStr workspace); ("agent_name", JStr name); ("referral", JStr ref)], "")
  else
    c ← config;
    '(server, token) ← (if ContainsAny invite "/#?:" then of_either (connectAddress base_url parse_base invite (cfg_Server c))
                        else mret (cfg_Server c, invite));
    update (with_token "" ∘ with_server server);;
    mret ("/join", [("name", JStr name); ("invite", JStr token)], token).
Definition join_waits (j : JoinReceipt) : string :=
  if jr_Automatic j then "waiting for the creator runtime to verify the invitation automatically; resume connect with this same identity"
  else "waiting for creator approval; verification phrase: " +:+ jr_VerificationPhrase j +:+ ". Run connect again with the same identity to resume".
Definition settle_bootstrap (joined : joinedAnswer) (j : JoinReceipt) : R unit :=
  c ← config;
  if bool_decide (jr_Status j = "pending") then
    update (with_pending (Some j));;
    j ← (if bool_decide (cfg_CryptoPath c = "") then mret j else crypto (locked c (device_receipt j)));
    update (with_pending (Some j));;
    save_cli;;
    throw (join_waits j)
  else
    update (with_token (jd_Token joined));;
    insist (negb (bool_decide (jd_Token joined = ""))) "server returned no agent credential";;
    save_cli.
Definition bootstrap (name workspace invite ref : string) (report : option AgentMetadata) : R unit :=
  c ← config;
  if bool_decide (cfg_PendingJoin c <> None) then resumeCLIJoin else
  metadata ← of_either (localAgentMetadata (pf_version pf) (pf_os pf) (pf_arch pf) report);
  '(endpoint, body, token) ← join_members invite name workspace ref;
  let body := body ++ [("agent_metadata", default JNull (json_parse (encode_metadata metadata)))] in
  c ← config;
  '(endpoint, body) ← (if bool_decide (cfg_CryptoPath c = "") then mret (endpoint, body)
                       else more ← crypto (cryptoConnectionInput c token); mret ("/e2ee" +:+ endpoint, body ++ more));
  '(joined, j) ← post_join endpoint body;
  settle_bootstrap joined j.

(** What [connect] and [mcp] do before, on an identity without a credential: the address without
    what is not for the server, and new keys for an encrypted invitation or workspace. *)
Definition make_keys (sc : cli_script) (raw root : string) : R unit :=
  c ← config;
  if negb (bool_decide (cfg_CryptoPath c = "")) then mret tt else
  update (set_Crypto (path +:+ ".e2ee.json") (cfg_EncryptionRoom c) (cfg_CryptoRooms c));;
  c ← config;
  crypto (newCrypto (cc_keys sc) (cfg_CryptoPath c) (cfg_Server c) root);;
  crypto (prepareAdmissionJoin base_url parse_base base_string c raw);;
  save_cli.
Definition prepare_connection (sc : cli_script) (encrypted : option bool) (raw : string) : R string :=
  c ← config;
  if negb (bool_decide (cfg_Token c = "")) || bool_decide (cfg_PendingJoin c <> None) then mret raw else
  '(invite, root) ← of_either (cryptoJoinAddress parse_base base_string raw);
  if bool_decide (root = "") && negb (bool_decide (encrypted = Some true)) then mret invite else
  insist (bool_decide (invite = "") || negb (bool_decide (root = ""))) "encrypted joining requires the complete pinned E2EE invitation";;
  '(server, _) ← of_either (connectAddress base_url parse_base invite (cfg_Server c));
  update (with_server server);;
  make_keys sc raw root;;
  mret invite.

Definition put_metadata (c : Config) (fl : flags) (report : AgentMetadata) : R unit :=
  if bool_decide (fl_agentMetadata fl = "") then mret tt else
  ask_server c "PUT" "/agents/me/metadata" (Some (JObj [("agent_metadata", default JNull (json_parse (encode_metadata report)))]));;
  mret tt.
Definition cmd_connect (sc : cli_script) (fl : flags) (invite : string) : R cli_value :=
  report ← of_either (parseAgentMetadata (pf_version pf) (pf_os pf) (pf_arch pf) (fl_agentMetadata fl) (cc_report sc));
  (if negb (bool_decide (invite = "")) && bool_decide (fl_identity fl = "") then update (with_token "") else mret tt);;
  c ← config;
  (if negb (bool_decide (cfg_Token c = "")) then
     ask_server c "GET" "/me" None;; put_metadata c fl report;; save_cli
   else bootstrap (fl_name fl) (fl_workspace fl) invite (fl_ref fl) (Some report));;
  c ← config;
  v ← ask_server c "GET" "/me" None;
  mret (CValue (VCall v)).
(** [mcp] until it serves the tools. *)
Definition cmd_mcp (sc : cli_script) (fl : flags) (invite : string) : R cli_value :=
  report ← of_either (parseAgentMetadata (pf_version pf) (pf_os pf) (pf_arch pf) (fl_agentMetadata fl) (cc_report sc));
  c ← config;
  insist (bool_decide (wake = "") || negb (bool_decide (cfg_Token c = ""))) "connect this agent before enabling its inbox";;
  (if bool_decide (cfg_Token c = "") then bootstrap (fl_name fl) (fl_workspace fl) invite (fl_ref fl) (Some report)
   else put_metadata c fl report);;
  mret CMetadata.

(** ** The other commands *)
Definition one_room_commands : list string :=
  ["encryption-rotate"; "encryption-revoke"; "encryption-deny"; "encryption-admission-policy"; "encryption-history-backup";
   "encryption-history-restore"; "encryption-rejections"].
Definition shown {A} (f : A -> tool_value) (m : R A) : R cli_value := a ← m; mret (CValue (f a)).
Definition bool_word (s : string) : option bool :=
  if bool_decide (s = "true") then Some true else if bool_decide (s = "false") then Some false else None.
Definition bad_id (prefix id : string) : bool := negb (HasPrefix id prefix) || ContainsAny id "/?#".
Definition comma_list (s : string) : list string := if bool_decide (s = "") then [] else Split s ",".
Definition message_of (sc : cli_script) (fl : flags) (metadata : json) : SendInput :=
  mkSendInput None (fl_channel fl) (fl_text fl) (fl_sharingPurpose fl) (fl_sharingContext fl) metadata
    (comma_list (fl_attachments fl)) (comma_list (fl_mentions fl)) None
    (if bool_decide (fl_key fl = "") then ID "cli_" (cc_key sc) else fl_key fl).

(** The commands that ask the server something, and what they ask; [None] for another command. *)
Definition server_command (sc : cli_script) (cmd : string) (fl : flags) : option (result (string * string * option json)) :=
  let get endpoint := Some (Ok ("GET", endpoint, None)) in
  let post endpoint members := Some (Ok ("POST", endpoint, Some (JObj members))) in
  if bool_decide (cmd = "security") then
    if bool_decide (fl_approval fl = "") then get "/account/security" else
    match bool_word (fl_approval fl) with
    | Some b => post "/account/security" [("require_join_approval", JBool b)]
    | None => Some (Err "require-join-approval must be true or false")
    end
  else if bool_decide (cmd = "join-requests") then get "/join-requests"
  else if bool_decide (cmd = "join-decide") then
    if bad_id "jr_" (fl_requestID fl) then Some (Err "provide a join request ID")
    else post ("/join-requests/" +:+ fl_requestID fl) [("decision", JStr (fl_decision fl))]
  else if bool_decide (cmd = "save") then post "/workspace/claim" []
  else if bool_decide (cmd = "onboarding") then get "/onboarding"
  else if bool_decide (cmd = "me") then get "/me"
  else if Contains ["channels"; "agents"; "rooms"] cmd then get ("/" +:+ cmd)
  else if bool_decide (cmd = "channel-create") then post "/channels" [("name", JStr (fl_name fl)); ("room_id", JStr (fl_room fl))]
  else if bool_decide (cmd = "room-create") && negb (bool_decide (fl_encrypted fl = Some true)) then post "/rooms" [("name", JStr (fl_name fl))]
  else if Contains ["room-archive"; "room-restore"] cmd then
    if bad_id "rm_" (fl_room fl) then Some (Err "provide a room ID with --room")
    else post ("/rooms/" +:+ fl_room fl +:+ "/archive") [("archived", JBool (bool_decide (cmd = "room-archive")))]
  else if bool_decide (cmd = "invite") then post "/invites" [("room_id", JStr (fl_room fl))]
  else if bool_decide (cmd = "send") then
    match json_parse (fl_metadata fl) with
    | None => Some (Err "metadata must be JSON")
    | Some metadata => Some (Ok ("POST", "/messages", Some (send_json (message_of sc fl metadata))))
    end
  else if Contains ["history"; "search"] cmd then
    get ("/messages?" +:+ Encode (<["channel_id" := fl_channel fl]> (<["q" := fl_query fl]>
      (<["after" := Itoa (fl_after fl)]> {["before" := Itoa (fl_before fl)]}))))
  else None.

Definition tool_of (sc : cli_script) (name : string) (args : tool_args) : R tool_outcome :=
  encryptedTool ToLower DetectContentType number url_parse PathEscape Encode Sprint StdDecode base_url parse_base base_string
    None (cc_files sc) path name args.
(** The commands of encryption; [None] for another command. *)
Definition encryption_command (sc : cli_script) (c : Config) (cmd : string) (fl : flags) : option (R cli_value) :=
  let under {A} (f : A -> tool_value) (m : M A) := Some (shown f (crypto (locked c m))) in
  let manage requestID fingerprint revoke := Some (shown VRequests (crypto (manage_rooms ToLower c requestID fingerprint revoke false))) in
  if bool_decide (cmd = "encryption-join-room") then
    Some (shown (fun x => VJoined x.1 x.2) (joinIndependentRoom save_cli base_url parse_base base_string (tf_room (cc_files sc)) path (fl_invite fl)))
  else if bool_decide (cmd = "encryption-rotate") then under (fun _ => VDone) (rotateMLS ToLower)
  else if bool_decide (cmd = "encryption-history-backup") then
    under (fun x => VBackup x.1 x.2) (backupHistory (fl_output fl) (tf_backup (cc_files sc)))
  else if bool_decide (cmd = "encryption-history-restore") then under VRestored (restoreHistory ToLower (tf_file (cc_files sc)) (tf_key (cc_files sc)))
  else if bool_decide (cmd = "encryption-admission-policy") then
    match (if bool_decide (fl_automaticInvites fl = "") then Some None else Some <$> bool_word (fl_automaticInvites fl)) with
    | Some automatic => under VPolicy (encryptionAdmissionPolicy ToLower automatic)
    | None => Some (throw "automatic-invites must be true or false")
    end
  else if bool_decide (cmd = "encryption-requests") then manage "" "" ""
  else if bool_decide (cmd = "encryption-rejections") then under VRejections encryptionRejections
  else if bool_decide (cmd = "encryption-approve") then manage (fl_requestID fl) (fl_fingerprint fl) ""
  else if bool_decide (cmd = "encryption-deny") then
    Some (o ← tool_of sc "encryption_deny" {["request_id" := JStr (fl_requestID fl)]}; mret (CShown o))
  else if bool_decide (cmd = "encryption-revoke") then manage "" "" (fl_revokeAgent fl)
  else if bool_decide (cmd = "room-create") && bool_decide (fl_encrypted fl = Some true) then
    Some (shown (fun x => VCreated x.1 x.2) (createLocalEncryptedRoom ToLower save_cli (tf_room (cc_files sc)) (path +:+ ".e2ee.json") (fl_name fl)))
  else None.

(** [request] of an upload, and the body that is sent ([requestContext]). *)
Definition cmd_upload (sc : cli_script) (c : Config) (fl : flags) : R cli_value :=
  data ← of_either (cc_upload sc);
  let endpoint := "/uploads?" +:+ Encode (<["channel_id" := fl_channel fl]> {["name" := filepath_Base (fl_file fl)]}) in
  if negb (bool_decide (cfg_CryptoPath c = "")) then
    r ← crypto (encryptedRequest ToLower DetectContentType url_parse c "POST" endpoint data); mret (CUploaded r)
  else
    match url_parse endpoint with
    | None => throw "invalid address"
    | Some u =>
        crypto (requirePlainChannel (url_Query u "channel_id"));;
        a ← crypto (call (PostUpload (url_Query u "channel_id") (url_Query u "name") data));
        mret (CUploaded (inr a))
    end.
Definition cmd_export (sc : cli_script) (c : Config) (fl : flags) : R cli_value :=
  (if negb (bool_decide (cfg_CryptoPath c = "")) then
     crypto (cryptoExport ToLower c (tf_archive (cc_files sc)) (tf_export (cc_files sc)));; mret tt
   else
     crypto (raw "GET" "/export" None);;
     match cc_output sc with Some e => throw e | None => mret tt end);;
  mret (CExported (fl_output fl)).
Definition cmd_call (sc : cli_script) (c : Config) (fl : flags) : R cli_value :=
  match fl_args fl, cc_args sc with
  | [], _ => throw "usage: tincan call TOOL_NAME '{argument:value}'"
  | _, None => throw "invalid JSON arguments"
  | name :: _, Some args =>
      if negb (bool_decide (cfg_CryptoPath c = "")) then o ← tool_of sc name args; mret (CShown o) else
      o ← crypto (keyless_tool name args);
      match o with Ok v => mret (CValue v) | Err e => throw e end
  end.

(** A command other than [connect] and [mcp], and than [watch], which does not end. *)
Definition command (sc : cli_script) (cmd : string) (fl : flags) : R cli_value :=
  c ← config;
  insist (negb (bool_decide (cfg_Token c = ""))) "run tincan connect first";;
  insist (negb (bool_decide (1 < Z.of_nat (size (cfg_CryptoRooms c))) && bool_decide (fl_room fl = "") && Contains one_room_commands cmd))
    "specify --room to select the encrypted room";;
  (if HasPrefix cmd "encryption-" && negb (bool_decide (fl_room fl = "")) then
     c ← crypto (cryptoConfigForRoom c (fl_room fl)); update (fun _ => c)
   else mret tt);;
  c ← config;
  match encryption_command sc c cmd fl with
  | Some m => m
  | None =>
      match server_command sc cmd fl with
      | Some (Err e) => throw e
      | Some (Ok (method, endpoint, v)) => shown VCall (ask_server c method endpoint v)
      | None =>
          if bool_decide (cmd = "upload") then cmd_upload sc c fl
          else if bool_decide (cmd = "export") then cmd_export sc c fl
          else if bool_decide (cmd = "call") then cmd_call sc c fl
          else throw "usage"
      end
  end.

(** ** Watching the events ([watch]) *)
(** A line of the stream: one that is not data or has no sequence number, or the text of an event,
    its sequence number, and the event when the text reads as one. *)
Inductive watched := Other | Data (seq : Z) (text : string) (event : option inboxEvent).
Inductive printed := PText (text : string) | PEvent (e : inboxEvent).
Fixpoint watch_lines (c : Config) (l : list watched) (after : Z) (out : list printed) : M (Z * list printed) :=
  match l with
  | [] => mret (after, out)
  | Other :: l => watch_lines c l after out
  | Data seq text event :: l =>
      if bool_decide (cfg_CryptoPath c = "") then watch_lines c l seq (out ++ [PText text]) else
      match event with
      | None => fail "invalid event"
      | Some event =>
          '(valid, event) ← decryptInboxEvent ToLower None c event;
          watch_lines c l seq (if valid : bool then out ++ [PEvent event] else out)
      end
  end.
Definition events_path (after : Z) : string := "/events?after=" +:+ Itoa after.
(** The connections of the stream, one after the other: what each one carried until it broke. *)
Fixpoint watch (c : Config) (streams : list (list watched)) (after : Z) (out : list printed) : M (Z * list printed) :=
  match streams with
  | [] => mret (after, out)
  | l :: streams =>
      r ← attempt (raw "GET" (events_path after) None);
      match r with
      | Err _ => watch c streams after out
      | Ok _ => '(after, out) ← watch_lines c l after out; watch c streams after out
      end
  end.

(** From the arguments of a command to its outcome; [path] is the path of the configuration. *)
Definition main (sc : cli_script) (cmd : string) (fl : flags) : R cli_value :=
  invite ← (if Contains ["connect"; "mcp"] cmd then prepare_connection sc (fl_encrypted fl) (fl_invite fl) else mret (fl_invite fl));
  c ← config;
  insist (negb (bool_decide (fl_encrypted fl = Some true) && negb (bool_decide (cmd = "room-create")) && negb (bool_decide (cfg_Token c = ""))
                && bool_decide (cfg_CryptoPath c = ""))) "E2EE can only be selected when creating a new workspace";;
  if bool_decide (cmd = "connect") then cmd_connect sc fl invite
  else if bool_decide (cmd = "mcp") then cmd_mcp sc fl invite
  else command sc cmd fl.
End Cli.
