(* ===== verification/CliTheorems.v ===== *)
(** * The command line: properties

    What connecting sends of an invitation, the commands a credential is needed for, and what a
    watch shows. *)
From S2P Require Import Prelude GoStrings Json Types Crypto Roster Metadata History Inbox Protocol.
From S2P Require Import Encryption Mls Groups Messages Toy Admission Scenario Routes Broker Addresses AddressesTheorems Rooms RoomsTheorems Backup Export Tools Connect Cli.

#[local] Existing Instance R_ret.
#[local] Existing Instance R_bind.

#[local] Existing Instance bytes_inj.
Lemma cut_bytes_spec sep l before after : cut_bytes sep l = Some (before, after) -> l = before ++ sep ++ after.
Proof.
  revert before after. induction l as [|a l IH]; intros before after; cbn.
  - destruct (strip sep []) as [r|] eqn:E; [|done]. intros [= <- <-]. by apply strip_Some in E.
  - destruct (strip sep (a :: l)) as [r|] eqn:E; [intros [= <- <-]; by apply strip_Some in E|].
    destruct (cut_bytes sep l) as [[b r]|]; [|done]. cbn. intros [= <- <-]. cbn. f_equal. by apply IH.
Qed.
Lemma Cut_spec s sep before after : Cut s sep = Some (before, after) -> s = before +:+ sep +:+ after.
Proof.
  unfold Cut. destruct (cut_bytes _ _) as [[b r]|] eqn:E; [|done]. cbn. intros [= <- <-]. apply cut_bytes_spec in E.
  apply (inj bytes). by rewrite !bytes_app, !bytes_of_bytes.
Qed.
Lemma split_bytes_spec c l : l = match split_bytes c l with [] => [] | p :: ps => p ++ concat (cons c <$> ps) end /\ split_bytes c l <> [].
Proof.
  induction l as [|a l [IH Hne]]; [done|]. cbn. destruct (split_bytes c l) as [|p ps]; [done|].
  destruct (Ascii.eqb_spec a c) as [->|]; split; try done; cbn; by rewrite IH at 1.
Qed.
Lemma Split_two s c x y : Split s c = [x; y] -> s = x +:+ String c y.
Proof.
  unfold Split. destruct (split_bytes_spec c (bytes s)) as [Hs _]. destruct (split_bytes c (bytes s)) as [|p [|q [|]]]; try done.
  cbn. intros [= <- <-]. apply (inj bytes). rewrite bytes_app, bytes_of_bytes.
  rewrite Hs at 1. cbn. rewrite app_nil_r. do 2 f_equal. change (bytes (String c (of_bytes q))) with (c :: bytes (of_bytes q)). by rewrite bytes_of_bytes.
Qed.

Section Cli.
Context `{!Primitives}.
Variables (ToLower DetectContentType number : string -> string) (url_parse : string -> option url).
Variables (PathEscape : string -> string) (Encode : gmap string string -> string) (Sprint : json -> string)
  (StdDecode : string -> option string) (filepath_Base : string -> string).
Context {base : Type} (base_url : base -> Protocol.url) (parse_base : string -> option base) (base_string : base -> string).
Variables (pf : platform) (wake path : string).
#[local] Notation main := (main ToLower DetectContentType number url_parse PathEscape Encode Sprint StdDecode filepath_Base
  base_url parse_base base_string pf wake path).
#[local] Notation bootstrap := (bootstrap base_url parse_base pf).
#[local] Notation cmd_connect := (cmd_connect ToLower number url_parse base_url parse_base pf).

(** The secret of an invitation is in the fragment of its address. *)
Lemma secret_in_fragment raw clean secret workspace a : secret <> "" ->
  admissionFragment parse_base base_string raw = Ok (clean, secret, workspace) -> Parse parse_base raw = Some a ->
  exists before encoded after, ad_Fragment a = before +:+ ".auto." +:+ encoded +:+ "." +:+ after /\ DecodeString encoded = Some secret.
Proof.
  unfold admissionFragment. intros Hs Hf Ha. rewrite Ha in Hf. destruct (Cut _ _) as [[b extra]|] eqn:Ec; [|by injection Hf as _ <-].
  destruct (Split extra ".") as [|e [|w [|]]] eqn:Es; try done. destruct (negb _); [done|].
  destruct (DecodeString e) as [d|] eqn:Ed; [|done]. destruct (DecodeString w); [|done]. destruct (_ || _); [done|]. injection Hf as _ <- _.
  apply Cut_spec in Ec. apply Split_two in Es as ->. by exists b, e, w.
Qed.

Lemma fragment_holds_secret raw fallback server fragment clean secret workspace : raw <> "" -> secret <> "" ->
  connectAddress base_url parse_base raw fallback = Ok (server, fragment) ->
  admissionFragment parse_base base_string raw = Ok (clean, secret, workspace) ->
  exists before encoded after, fragment = before +:+ ".auto." +:+ encoded +:+ "." +:+ after /\ DecodeString encoded = Some secret.
Proof.
  intros Hne Hs Haddr Hadm. unfold connectAddress in Haddr. rewrite (bool_decide_eq_false_2 _ Hne) in Haddr. destruct (Parse _ raw) as [a|] eqn:Ha; [|done].
  destruct (_ || _); [done|]. destruct (ParseQuery _); [|done]. destruct (negb _); [done|].
  destruct (validateServer _); [done|]. injection Haddr as _ <-. by eapply secret_in_fragment.
Qed.

(** The join that carries [invite]. *)
Definition join_request (name invite : string) (m : AgentMetadata) : request :=
  RawCall "POST" "/join" (Some (JObj [("name", JStr name); ("invite", JStr invite);
    ("agent_metadata", default JNull (json_parse (encode_metadata m)))])).
Definition logs (s : room_session) (l : list request) (s' : room_session) : Prop := w_log (cn_world s') = w_log (cn_world s) ++ l.
Lemma settle_keyless joined j s : cfg_CryptoPath (cn_config s) = "" ->
  cn_world (settle_bootstrap joined j s).2 = cn_world s /\ cfg_CryptoPath (cn_config (settle_bootstrap joined j s).2) = "".
Proof.
  intros Hc. unfold settle_bootstrap, mbind, R_bind, config. case_bool_decide; cbn.
  - rewrite (bool_decide_eq_true_2 _ Hc). cbn. by destruct (cn_ios s) as [|[e|] ios].
  - unfold insist, of_either. destruct (negb _); cbn; [|done]. by destruct (cn_ios s) as [|[e|] ios].
Qed.
(** A join without keys sends one request, with all of the address's fragment. *)
Lemma bootstrap_whole name workspace invite ref report metadata s server fragment :
  cfg_PendingJoin (cn_config s) = None -> cfg_CryptoPath (cn_config s) = "" -> invite <> "" -> ContainsAny invite "/#?:" = true ->
  connectAddress base_url parse_base invite (cfg_Server (cn_config s)) = Ok (server, fragment) ->
  localAgentMetadata (pf_version pf) (pf_os pf) (pf_arch pf) report = Ok metadata ->
  logs s [join_request name fragment metadata] (bootstrap name workspace invite ref report s).2 /\
    cfg_CryptoPath (cn_config (bootstrap name workspace invite ref report s).2) = "".
Proof.
  intros Hp Hc Hne Hany Haddr Hm. unfold Cli.bootstrap, join_members, mbind, R_bind, config, of_either.
  rewrite Hp, bool_decide_eq_false_2 by (by intros []). rewrite Hm, (bool_decide_eq_false_2 _ Hne), Hany, Haddr. cbn.
  rewrite (bool_decide_eq_true_2 _ Hc). cbn. unfold post_join, crypto, ask, call, mbind, M_bind, lift. cbn.
  set (q := RawCall _ _ _). assert (q = join_request name fragment metadata) as -> by done.
  destruct (w_net (cn_world s)) as [|[a|e] net]; [by split..|destruct (as_connected a) as [[joined j]|e]|by split]; [|by split]. cbn.
  match goal with |- logs s _ (settle_bootstrap joined j ?t).2 /\ _ => destruct (settle_keyless joined j t Hc) as [Hw Hc'] end.
  split; [|exact Hc']. unfold logs. by rewrite Hw.
Qed.
Lemma rest_keyless method endpoint v s : cfg_CryptoPath (cn_config s) = "" -> endpoint <> "/messages" ->
  logs s [RawCall method endpoint v] (ask_server ToLower number url_parse (cn_config s) method endpoint v s).2.
Proof.
  intros Hc He. unfold ask_server, crypto, callContext, logs.
  assert (currentCryptoConfig None (cn_config s) = cn_config s) as -> by (unfold currentCryptoConfig; by case_bool_decide).
  rewrite (bool_decide_eq_true_2 _ Hc), (bool_decide_eq_false_2 _ He), andb_false_r. cbn [negb].
  unfold raw, call, fmap, M_fmap, mbind, M_bind, mret, M_ret. by destruct (w_net _) as [|[a|e] net].
Qed.

(** [connect] with an invitation, over a saved credential. *)
Lemma connect_whole sc fl s server fragment report metadata :
  cfg_PendingJoin (cn_config s) = None -> cfg_CryptoPath (cn_config s) = "" -> fl_identity fl = "" -> ContainsAny (fl_invite fl) "/#?:" = true ->
  connectAddress base_url parse_base (fl_invite fl) (cfg_Server (cn_config s)) = Ok (server, fragment) ->
  parseAgentMetadata (pf_version pf) (pf_os pf) (pf_arch pf) (fl_agentMetadata fl) (cc_report sc) = Ok report ->
  localAgentMetadata (pf_version pf) (pf_os pf) (pf_arch pf) (Some report) = Ok metadata ->
  exists l, logs s (join_request (fl_name fl) fragment metadata :: l) (cmd_connect sc fl (fl_invite fl) s).2 /\
    cfg_CryptoPath (cn_config (cmd_connect sc fl (fl_invite fl) s).2) = "".
Proof.
  intros Hp Hc Hid Hany Haddr Hrep Hm. assert (fl_invite fl <> "") as Hne by (by intros E; rewrite E in Hany).
  unfold Cli.cmd_connect, mbind, R_bind, config, of_either. rewrite Hrep, (bool_decide_eq_false_2 _ Hne), (bool_decide_eq_true_2 _ Hid).
  cbn [negb andb update cn_config with_token cfg_Token]. rewrite (bool_decide_eq_true_2 ("" = "")) by done. cbn [negb].
  match goal with |- context [bootstrap ?n ?w ?i ?r ?m ?t] =>
    destruct (bootstrap_whole n w i r m metadata t server fragment Hp Hc Hne Hany Haddr Hm) as [Hlog Hpath];
    destruct (bootstrap n w i r m t) as [[u|e] t'] end; cbn [fst snd] in Hlog, Hpath |- *.
  - pose proof (rest_keyless "GET" "/me" None t' Hpath ltac:(done)) as Hl2. unfold logs in *.
    assert (cn_config (ask_server ToLower number url_parse (cn_config t') "GET" "/me" None t').2 = cn_config t') as Hcfg
      by (unfold ask_server, crypto; by destruct (callContext _ _ _ _ _ _ _ _ _)).
    destruct (ask_server _ _ _ _ _ _ _ t') as [[v|e] t2]; cbn [fst snd mret R_ret] in *; rewrite Hcfg;
      (eexists [_]; split; [rewrite Hl2, Hlog, <- app_assoc; done|done]).
  - by exists [].
Qed.

(** C39. Connecting over a saved credential hands the secret of an invitation to the server. The
    fragment of an invitation - the creator's key, and the secret by which its device is
    admitted without anybody's approval - is meant to stay on the device; [main] strips it from
    the address, but only when no credential is saved. With one (and no named identity), the
    credential is dropped afterwards and the join carries the whole fragment, secret included,
    to the server of the address; no keys are made and the pinned creator is not remembered. *)
Theorem saved_credential_leaks_secret sc fl s server fragment clean secret workspace report metadata :
  cfg_Token (cn_config s) <> "" -> cfg_PendingJoin (cn_config s) = None -> cfg_CryptoPath (cn_config s) = "" ->
  fl_identity fl = "" -> fl_encrypted fl <> Some true -> ContainsAny (fl_invite fl) "/#?:" = true ->
  connectAddress base_url parse_base (fl_invite fl) (cfg_Server (cn_config s)) = Ok (server, fragment) ->
  admissionFragment parse_base base_string (fl_invite fl) = Ok (clean, secret, workspace) -> secret <> "" ->
  parseAgentMetadata (pf_version pf) (pf_os pf) (pf_arch pf) (fl_agentMetadata fl) (cc_report sc) = Ok report ->
  localAgentMetadata (pf_version pf) (pf_os pf) (pf_arch pf) (Some report) = Ok metadata ->
  exists l before encoded after,
    logs s (join_request (fl_name fl) fragment metadata :: l) (main sc "connect" fl s).2 /\
    fragment = before +:+ ".auto." +:+ encoded +:+ "." +:+ after /\ DecodeString encoded = Some secret /\
    cfg_CryptoPath (cn_config (main sc "connect" fl s).2) = "".
Proof.
  intros Ht Hp Hc Hid Henc Hany Haddr Hadm Hs Hrep Hm.
  assert (fl_invite fl <> "") as Hne by (by intros E; rewrite E in Hany).
  destruct (fragment_holds_secret _ _ _ _ _ _ _ Hne Hs Haddr Hadm) as (before & encoded & after & Hf & Hd).
  destruct (connect_whole sc fl s server fragment report metadata) as (l & Hl & Hpath); [done..|].
  assert (prepare_connection base_url parse_base base_string path sc (fl_encrypted fl) (fl_invite fl) s = (Ok (fl_invite fl), s)) as Hprep.
  { unfold prepare_connection, mbind, R_bind, config. by rewrite (bool_decide_eq_false_2 _ Ht). }
  assert (main sc "connect" fl s = cmd_connect sc fl (fl_invite fl) s) as ->.
  { unfold Cli.main. change (Contains ["connect"; "mcp"] "connect") with true. unfold mbind, R_bind. rewrite Hprep.
    unfold config, insist, of_either. by rewrite (bool_decide_eq_false_2 _ Henc). }
  by exists l, before, encoded, after.
Qed.
End Cli.

(** ** A join that waits *)
Section Waiting.
Context `{!Primitives}.
Context {base : Type} (base_url : base -> Protocol.url) (parse_base : string -> option base).
Variable pf : platform.
#[local] Notation bootstrap := (bootstrap base_url parse_base pf).

Lemma post_join_one endpoint body s : exists r s', post_join endpoint body s = (r, s') /\ cn_config s' = cn_config s /\
  logs s [RawCall "POST" endpoint (Some (JObj body))] s'.
Proof.
  unfold post_join, crypto, ask, call, mbind, M_bind, lift, logs.
  destruct (w_net (cn_world s)) as [|[a|e] net]; by eexists _, _.
Qed.
(** An invitation is redeemed once. While a join waits for its approval, connecting again asks for
    the state of that join, by its receipt, and for nothing else, whatever invitation it is
    given; the waiting join is forgotten only for the credential it was promised. *)
Lemma pending_join_is_resumed name workspace invite ref report s j : cfg_PendingJoin (cn_config s) = Some j ->
  let s' := (bootstrap name workspace invite ref report s).2 in
  logs s [RawCall "POST" (cryptoJoinStatusPath (cn_config s)) (Some (JObj [("receipt", JStr (jr_Receipt j))]))] s' /\
  match cfg_PendingJoin (cn_config s') with
  | Some j' => jr_Receipt j' = jr_Receipt j /\ cfg_Token (cn_config s') = cfg_Token (cn_config s)
  | None => cfg_Token (cn_config s') <> ""
  end.
Proof.
  intros Hj s'. assert (s' = (resumeCLIJoin s).2) as ->.
  { unfold s', Cli.bootstrap, mbind, R_bind, config. by rewrite Hj, bool_decide_eq_true_2. }
  unfold resumeCLIJoin, mbind, R_bind, config. rewrite Hj.
  destruct (post_join_one (cryptoJoinStatusPath (cn_config s)) [("receipt", JStr (jr_Receipt j))] s) as (r & s1 & -> & Hc & Hl).
  unfold logs in *. destruct r as [[joined r]|e]; [|cbn; by rewrite Hc, Hj].
  case_bool_decide; cbn [negb].
  - case_bool_decide as Ht; [cbn; by rewrite Hc, Hj|]. unfold update, save_cli, save_config. by destruct (cn_ios s1) as [|[e|] ios].
  - unfold update, catch, save_cli, save_config, throw. by destruct (cn_ios s1) as [|[e|] ios]; cbn; rewrite Hc.
Qed.
End Waiting.

(** ** The other commands *)
Section Commands.
Context `{!Primitives}.
Variables (ToLower DetectContentType number : string -> string) (url_parse : string -> option url).
Variables (PathEscape : string -> string) (Encode : gmap string string -> string) (Sprint : json -> string)
  (StdDecode : string -> option string) (filepath_Base : string -> string).
Context {base : Type} (base_url : base -> Protocol.url) (parse_base : string -> option base) (base_string : base -> string).
Variable path : string.
#[local] Notation command := (command ToLower DetectContentType number url_parse PathEscape Encode Sprint StdDecode filepath_Base
  base_url parse_base base_string path).

(** Without a credential nothing is asked; and what changes the members, keys or archive of one
    encrypted room wants the room named when there are several. *)
Lemma command_guards sc cmd fl s :
  cfg_Token (cn_config s) = "" \/
  ((1 < size (cfg_CryptoRooms (cn_config s)))%nat /\ fl_room fl = "" /\ Contains one_room_commands cmd = true) ->
  exists e, command sc cmd fl s = (Err e, s).
Proof.
  unfold Cli.command, mbind, R_bind, config, insist, of_either. intros [Ht|(Hn & Hr & Hc)].
  - rewrite (bool_decide_eq_true_2 _ Ht). by eexists.
  - destruct (negb (bool_decide (cfg_Token _ = ""))); [|by eexists].
    rewrite (bool_decide_eq_true_2 (1 < _)) by lia. rewrite (bool_decide_eq_true_2 _ Hr), Hc. by eexists.
Qed.

End Commands.

Section Paths.
Context `{!Primitives}.
Variable Encode : gmap string string -> string.
(** What identifies a request or a room in a path is one segment of it. *)
Definition one_segment (s : string) : Prop := Forall (fun a => a <> "/"%char /\ a <> "?"%char /\ a <> "#"%char) (bytes s).
Lemma bad_id_false prefix id : bad_id prefix id = false -> HasPrefix id prefix = true /\ one_segment id.
Proof.
  unfold bad_id, one_segment, ContainsAny. rewrite orb_false_iff. intros [Hp%negb_false_iff Ha]. split; [done|].
  apply Forall_forall. intros a Hin. assert (existsb (Ascii.eqb a) (bytes "/?#") = false) as He.
  { destruct (existsb (Ascii.eqb a) _) eqn:E; [|done]. rewrite <- Ha. symmetry. apply existsb_exists. exists a. split; [by apply list_elem_of_In|done]. }
  cbn in He. rewrite !orb_false_iff in He. destruct He as (H1 & H2 & H3 & _).
  by destruct (Ascii.eqb_spec a "/"), (Ascii.eqb_spec a "?"), (Ascii.eqb_spec a "#").
Qed.
Definition fits (fl : flags) (endpoint : string) : Prop :=
  one_segment (drop_str 1 endpoint) \/ endpoint = "/account/security" \/ endpoint = "/workspace/claim" \/ HasPrefix endpoint "/messages?" = true \/
  (endpoint = "/join-requests/" +:+ fl_requestID fl /\ one_segment (fl_requestID fl)) \/
  (endpoint = "/rooms/" +:+ fl_room fl +:+ "/archive" /\ one_segment (fl_room fl)).
Definition asks_within (fl : flags) (o : option (result (string * string * option json))) : Prop :=
  match o with Some (Ok (_, endpoint, _)) => fits fl endpoint | _ => True end.
Lemma word_fits fl w : forallb (fun a => negb (existsb (Ascii.eqb a) (bytes "/?#"))) (bytes w) = true -> fits fl ("/" +:+ w).
Proof.
  intros Hs. left. replace (drop_str 1 ("/" +:+ w)) with w by (symmetry; apply of_bytes_bytes). apply Forall_forall. intros a Ha%list_elem_of_In. rewrite forallb_forall in Hs. specialize (Hs a Ha).
  apply negb_true_iff in Hs. cbn in Hs. rewrite !orb_false_iff in Hs. destruct Hs as (H1 & H2 & H3 & _).
  by destruct (Ascii.eqb_spec a "/"), (Ascii.eqb_spec a "?"), (Ascii.eqb_spec a "#").
Qed.
Lemma ask_if fl (b : bool) x y : (b = true -> asks_within fl x) -> asks_within fl y -> asks_within fl (if b then x else y).
Proof. destruct b; auto. Qed.
(** Whatever a command is given, what it asks for is what the command stands for: an argument
    cannot lead a path elsewhere. *)
Lemma command_paths sc cmd fl : asks_within fl (server_command Encode sc cmd fl).
Proof.
  unfold server_command. cbv zeta.
  apply ask_if; [intros _; apply ask_if; [intros _|destruct (bool_word _)]; cbn; unfold fits; tauto|].
  apply ask_if; [intros _; by apply (word_fits fl "join-requests")|].
  apply ask_if; [intros _; destruct (bad_id _ _) eqn:E; [done|]; apply bad_id_false in E as [_ E]; cbn; unfold fits; tauto|].
  apply ask_if; [intros _; cbn; unfold fits; tauto|].
  apply ask_if; [intros _; by apply (word_fits fl "onboarding")|]. apply ask_if; [intros _; by apply (word_fits fl "me")|].
  apply ask_if; [unfold Contains; intros Hc%bool_decide_eq_true_1; apply (word_fits fl cmd)|].
  { repeat (apply elem_of_cons in Hc as [->|Hc]; [done|]). by apply elem_of_nil in Hc. }
  apply ask_if; [intros _; by apply (word_fits fl "channels")|]. apply ask_if; [intros _; by apply (word_fits fl "rooms")|].
  apply ask_if; [intros _; destruct (bad_id _ _) eqn:E; [done|]; apply bad_id_false in E as [_ E]; cbn; unfold fits; tauto|].
  apply ask_if; [intros _; by apply (word_fits fl "invites")|].
  apply ask_if; [intros _; destruct (json_parse _); [by apply (word_fits fl "messages")|done]|].
  apply ask_if; [intros _; cbn [asks_within]; unfold fits; right; right; right; left; apply HasPrefix_app|done].
Qed.
End Paths.

(** ** Requests *)
(** A request goes to the server's own address, and carries the credential over TLS or to this
    machine; a redirect is an error, so nothing else gets it; and what a connection with keys
    asks of the encryption endpoints names the room of its keys. *)
Lemma request_stays_with_server set_room server_url saved c method path m :
  requestPlainContext set_room server_url saved c method path = Ok m ->
  (exists u, server_url (cfg_Server c) = Some u /\ u_User u = false /\ u_RawQuery u = "" /\ u_Fragment u = "" /\
     (u_Scheme u = "https" \/ (u_Scheme u = "http" /\ loopback (u_Hostname u) = true))) /\
  HasPrefix (hm_url m) (TrimRight "/" (cfg_Server c) +:+ "/api/v1") = true /\
  (HasPrefix path "/e2ee/" = true -> HasPrefix path "/e2ee/join" = false -> cfg_CryptoPath c <> "" -> or_else (cfg_EncryptionRoom c) saved <> "" ->
   exists p, set_room path (or_else (cfg_EncryptionRoom c) saved) = Some p /\ hm_url m = TrimRight "/" (cfg_Server c) +:+ "/api/v1" +:+ p).
Proof.
  unfold requestPlainContext, mbind, result_bind. destruct (scoped_path _ _ _ _) as [p|e] eqn:Hs; [|done].
  destruct (validateServer _) eqn:Hv; [done|]. intros [= <-]. cbn [hm_url]. split_and!.
  - unfold validateServer in Hv. destruct (server_url _) as [u|]; [|done]. exists u. destruct (_ || _) eqn:Hg in Hv; [done|]. split; [done|].
    clear -Hg. repeat (apply orb_false_iff in Hg as [Hg ?]). rewrite andb_false_iff, negb_false_iff, andb_true_iff in *.
    repeat match goal with H : bool_decide _ = false |- _ => apply bool_decide_eq_false_1 in H; apply dec_stable in H end.
    split_and!; try done. destruct (decide (u_Scheme u = "https")); [by left|right].
    match goal with H : _ \/ _ |- _ => destruct H as [H|[H Hl]] end; [by apply bool_decide_eq_false_1 in H|by apply bool_decide_eq_true_1 in H].
  - apply HasPrefix_spec. exists p. apply (inj bytes). by rewrite !bytes_app, <- (assoc (++)).
  - intros He Hj Hc Hr. unfold scoped_path in Hs. rewrite He, Hj, (bool_decide_eq_false_2 _ Hc), (bool_decide_eq_false_2 _ Hr) in Hs. cbn in Hs.
    destruct (set_room _ _) as [q|]; [|done]. injection Hs as ->. by exists p.
Qed.

(** ** Watching *)
Section Watching.
Context `{!Primitives}.
Variable ToLower : string -> string.
Definition seqs (l : list watched) : list Z := omap (fun x => match x with Data seq _ _ => Some seq | Other => None end) l.
Definition texts (l : list watched) : list string := omap (fun x => match x with Data _ text _ => Some text | Other => None end) l.
Lemma last_shift (l : list Z) x a : List.last (x :: l) a = List.last l x.
Proof. revert x. induction l as [|y l IH]; intros x; [done|]. cbn in *. destruct l; [done|]. apply IH. Qed.
(** What a connection with keys shows is what the group opened. *)
Definition opened (c : Config) (p : printed) : Prop :=
  match p with PText _ => False | PEvent e => exists event w w', decryptInboxEvent ToLower None c event w = (Ok (true, e), w') end.
(** A watch that is not ended by an error goes on from the last event it was sent, whether it
    showed it or not; it has shown the text of every event in order without keys, and with
    keys only events that opened. *)
Lemma watch_lines_shown c l after out w after' out' w' : watch_lines ToLower c l after out w = (Ok (after', out'), w') ->
  after' = List.last (seqs l) after /\ exists shown, out' = out ++ shown /\
    (if decide (cfg_CryptoPath c = "") then shown = PText <$> texts l else Forall (opened c) shown).
Proof.
  revert after out w. induction l as [|[|seq text event] l IH]; intros after out w; cbn -[seqs texts].
  - intros [= <- <- <-]. split; [done|]. exists []. rewrite app_nil_r. split; [done|]. by case_decide.
  - apply IH.
  - assert (forall a, List.last (seqs (Data seq text event :: l)) a = List.last (seqs l) seq) as Hlast.
    { intros a. apply last_shift. }
    case_bool_decide as Hc.
    + intros [-> (shown & -> & Hs)]%IH. rewrite Hlast. split; [done|]. exists (PText text :: shown). rewrite <- app_assoc. split; [done|].
      rewrite decide_True in * by done. by rewrite Hs.
    + destruct event as [event|]; [|done]. unfold mbind at 1, M_bind at 1.
      destruct (decryptInboxEvent _ _ _ _ _) as [[[valid e]|x] w1] eqn:E; [|done].
      intros [-> (shown & -> & Hs)]%IH. rewrite Hlast. split; [done|]. rewrite decide_False in Hs by done.
      destruct valid; [|exists shown; by rewrite decide_False by done]. exists (PEvent e :: shown). rewrite <- app_assoc, decide_False by done. split; [done|]. constructor; [|done]. by exists event, w, w1.
Qed.
End Watching.

(** ** At a concrete invitation *)
#[local] Existing Instance room_primitives.
Definition pinned_link : string := automatic_invite (cryptoInvite demo_parse demo_print demo_link demo_root) demo_secret "ws_1".
Definition joining : flags :=
  mkFlags "" None "Scout" "" "" None None "" "" pinned_link "" "" "" "" "" "" "{}" "" "" "" "" "" 0 0 "" "" "" "" "" "" [].
Definition ubuntu_cli : platform := mkPlatform "1.0.0" "linux" "amd64".
Definition cli_files : tool_files := mkToolFiles plans_script None (Err "") None (Err "") (Err "") None.
Definition cli_demo : cli_script := mkCliScript (mkKeys None (Err "") "" (Err "") None) None "" cli_files (Err "") None None.
Definition connected : room_session := mkConn (server_config "https://tincan.dev" "saved-credential") None [] (plans_world []).
Definition own_report : AgentMetadata := mkAgentMetadata 1 None None (Some (mkTincan "1.0.0")) (Some (mkRuntime "linux" "amd64")) "" [].
Definition leaked_fragment : string := "inv_4f1a.e2ee." +:+ EncodeToString demo_root +:+ ".auto." +:+ EncodeToString demo_secret +:+ "." +:+ EncodeToString "ws_1".
Lemma saved_credential_leaks_secret_witness :
  exists l before encoded after,
    logs connected (join_request "Scout" leaked_fragment own_report :: l)
      (main ascii_lower id id (fun _ => None) id (fun _ => "") (fun _ => "") (fun _ => None) id demo_base demo_parse demo_print ubuntu_cli "" "/config"
         cli_demo "connect" joining connected).2 /\
    leaked_fragment = before +:+ ".auto." +:+ encoded +:+ "." +:+ after /\ DecodeString encoded = Some demo_secret /\
    cfg_CryptoPath (cn_config (main ascii_lower id id (fun _ => None) id (fun _ => "") (fun _ => "") (fun _ => None) id demo_base demo_parse demo_print
      ubuntu_cli "" "/config" cli_demo "connect" joining connected).2) = "".
Proof.
  apply (saved_credential_leaks_secret ascii_lower id id (fun _ => None) id (fun _ => "") (fun _ => "") (fun _ => None) id demo_base demo_parse demo_print
    ubuntu_cli "" "/config" cli_demo joining connected "https://tincan.dev" leaked_fragment
    (value ("", "", "") (admissionFragment demo_parse demo_print pinned_link)).1.1 demo_secret "ws_1" own_report own_report).
  - discriminate.
  - reflexivity.
  - reflexivity.
  - reflexivity.
  - discriminate.
  - vm_compute. reflexivity.
  - vm_compute. reflexivity.
  - vm_compute. reflexivity.
  - discriminate.
  - vm_compute. reflexivity.
  - vm_compute. reflexivity.
Defined.
