(* ===== verification/Delivery.v ===== *)
(** * Waking a Codex task

    [cmd/tincan/plugin_delivery.go] and [queueCodex] ([codex_queue.go]): a notice is pushed
    over the control connection when that works, and otherwise queued once through the CLI,
    with a receipt written before the command is launched. Times are in nanoseconds. What the
    environment does - locks, probes, the push, the command, the files - is a script per
    notice. *)
From S2P Require Import Prelude GoStrings Json Types Metadata Protocol Broker Inbox Dispatch.

Record queueReceipt := mkReceipt { qr_Key : string; qr_Seq : Z; qr_State : string }.
Record hookState := mkHookState { hs_TurnID : string; hs_Seen : gmap string Z; hs_LastSeen : Z }.

Record deliveryState := mkDelivery {
  dl_Method : string; dl_IdleWake : bool; dl_LastError : string; dl_Experimental : string;
  dl_QueueError : string; dl_Endpoint : string; dl_EndpointSource : string;
  dl_HookLastSeen : option Z; dl_RetryAfter : Z }.
Definition set_Method (m : string) (wake : bool) (s : deliveryState) : deliveryState :=
  mkDelivery m wake (dl_LastError s) (dl_Experimental s) (dl_QueueError s) (dl_Endpoint s) (dl_EndpointSource s)
    (dl_HookLastSeen s) (dl_RetryAfter s).
Definition set_LastError (e : string) (retry : Z) (s : deliveryState) : deliveryState :=
  mkDelivery (dl_Method s) (dl_IdleWake s) e (dl_Experimental s) (dl_QueueError s) (dl_Endpoint s)
    (dl_EndpointSource s) (dl_HookLastSeen s) retry.
Definition set_QueueError (e : string) (s : deliveryState) : deliveryState :=
  mkDelivery (dl_Method s) (dl_IdleWake s) (dl_LastError s) (dl_Experimental s) e (dl_Endpoint s)
    (dl_EndpointSource s) (dl_HookLastSeen s) (dl_RetryAfter s).
Definition set_HookLastSeen (t : Z) (s : deliveryState) : deliveryState :=
  mkDelivery (dl_Method s) (dl_IdleWake s) (dl_LastError s) (dl_Experimental s) (dl_QueueError s) (dl_Endpoint s)
    (dl_EndpointSource s) (Some t) (dl_RetryAfter s).
Definition set_Endpoint (t : codexTarget) (s : deliveryState) : deliveryState :=
  mkDelivery (dl_Method s) (dl_IdleWake s) (dl_LastError s) (dl_Experimental s) (dl_QueueError s) (tg_Endpoint t)
    (tg_Source t) (dl_HookLastSeen s) (dl_RetryAfter s).
Definition set_Experimental (e : string) (s : deliveryState) : deliveryState :=
  mkDelivery (dl_Method s) (dl_IdleWake s) (dl_LastError s) e (dl_QueueError s) (dl_Endpoint s)
    (dl_EndpointSource s) (dl_HookLastSeen s) (dl_RetryAfter s).

(** ** What was sent, and the files and the table behind it *)
Inductive wakeup :=
| Pushed (handle : string) (payload : json)
| Launched (handle : string) (seq : Z).
Record outlet := mkOutlet {
  ol_states : gmap string deliveryState; ol_receipts : gmap string (saved queueReceipt); ol_log : list wakeup }.
Definition log_wakeup (w : wakeup) (o : outlet) : outlet := mkOutlet (ol_states o) (ol_receipts o) (ol_log o ++ [w]).
Definition put_receipt (handle : string) (r : queueReceipt) (o : outlet) : outlet :=
  mkOutlet (ol_states o) (<[handle := Saved r]> (ol_receipts o)) (ol_log o).
Definition setDelivery (handle : string) (s : deliveryState) (o : outlet) : outlet :=
  mkOutlet (<[handle := s]> (ol_states o)) (ol_receipts o) (ol_log o).
Definition initial_delivery : deliveryState := mkDelivery "durable_inbox" false "" "not_probed" "" "" "" None 0.
Definition deliverySnapshot (handle : string) (o : outlet) : deliveryState :=
  default initial_delivery (ol_states o !! handle).

(** ** The queue ([queueCodex]) *)
Record queue_script := mkQueue {
  qs_lock : option string;
  qs_read : bool;               (* the receipt cannot be read, whether there is one or not *)
  qs_target : option string; qs_probe : option string;
  qs_intent : option string;    (* writing the receipt before the launch *)
  qs_ready : option string;     (* the command's own checks *)
  qs_command : option string;   (* the command *)
  qs_receipt : option string }. (* writing the receipt after it *)

Definition errUnconfirmed : string :=
  "previous queue attempt was not confirmed; pending mention retained for hook/inbox recovery".

(** [codexQueueCommand]: it is launched once its checks pass. *)
Definition codexQueueCommand (sc : queue_script) (handle thread : string) (seq : Z) (o : outlet) : option string * outlet :=
  if negb (codexTaskID thread) || (seq <=? 0) then (Some "queue requires a bound task and pending event", o) else
  match qs_ready sc with
  | Some e => (Some e, o)
  | None => (qs_command sc, log_wakeup (Launched handle seq) o)
  end.

(** A receipt that cannot be read counts as none. *)
Definition queueCodex (sc : queue_script) (c : pluginConnection) (seq : Z) (key : string) (o : outlet)
    : option string * outlet :=
  let handle := pc_Handle c in
  if seq <=? 0 then (Some "no pending mention to queue", o) else
  match qs_lock sc with
  | Some e => (Some e, o)
  | None =>
      let attempt :=
        match qs_target sc with
        | Some e => (Some e, o)
        | None =>
            match qs_probe sc with
            | Some e => (Some e, o)
            | None =>
                match qs_intent sc with
                | Some e => (Some e, o)
                | None =>
                    let o := put_receipt handle (mkReceipt key seq "attempted") o in
                    match codexQueueCommand sc handle (pc_CodexThreadID c) seq o with
                    | (Some e, o) => (Some e, o)
                    | (None, o) =>
                        match qs_receipt sc with
                        | Some e => (Some e, o)
                        | None => (None, put_receipt handle (mkReceipt "" seq "accepted") o)
                        end
                    end
                end
            end
        end in
      match (if qs_read sc then None else ol_receipts o !! handle) with
      | Some Garbled => (Some "invalid queue receipt", o)
      | Some (Saved r) =>
          if (qr_Seq r =? seq) && bool_decide (qr_Key r = key) then
            if bool_decide (qr_State r = "accepted") then (None, o) else (Some errUnconfirmed, o)
          else attempt
      | None => attempt
      end
  end.

(** ** Falling back ([fallbackDelivery]) *)
Definition day : Z := 24 * 3600 * 10 ^ 9.
(** [delegatedListener]: the inbox's live waiter, unless the process is shutting down. *)
Definition delegatedListener (stopped : bool) (i : option inbox) (now : Z) : option inboxWaiter :=
  if stopped then None else i ≫= waiting now.
Definition fallbackDelivery (listener : option inboxWaiter) (hooks : option (saved hookState)) (now : Z)
    (s : deliveryState) : deliveryState :=
  let s := set_Method "durable_inbox" false s in
  match listener with
  | Some _ => set_Method "delegated_listener" false s
  | None =>
      match hooks with
      | Some (Saved h) =>
          if hs_LastSeen h =? 0 then s else
          let s := set_HookLastSeen (hs_LastSeen h) s in
          if now - hs_LastSeen h <? day then set_Method "hooks" (dl_IdleWake s) s else s
      | _ => s
      end
  end.

(** ** One notice ([deliverCodex]) *)
Record delivery_script := mkScript {
  ds_push : option string;      (* the push over the control connection *)
  ds_read : bool;               (* the receipt cannot be read *)
  ds_queue : queue_script; ds_now : Z; ds_listener : option inboxWaiter; ds_hooks : option (saved hookState) }.
Definition minute : Z := 60 * 10 ^ 9.

Definition mention_kinds : list string :=
  ["semantic_attention"; "collaboration_attention"; "connection_notice"; "message"; "mention"; "join_request";
   "approval_needed"; "needs_attention"].
Definition is_mention (payload : json) : bool :=
  existsb (fun k => jstr_is k (jany "kind" payload)) mention_kinds.
Definition payload_seq (payload : json) : Z :=
  match jget "event_seq" payload with Some (JNum l) => default 0 (parse_int l) | _ => 0 end.
Definition payload_key (payload : json) : string :=
  match jget "notice_key" payload with Some (JStr s) => s | _ => "" end.

(** The queue, after the push failed or when the task was woken by the queue before. *)
Definition queue_notice (sc : delivery_script) (c : pluginConnection) (payload : json) (s : deliveryState) (o : outlet) : outlet :=
  match queueCodex (ds_queue sc) c (payload_seq payload) (payload_key payload) o with
  | (None, o) => setDelivery (pc_Handle c) (set_QueueError "" (set_Method "codex_queue" true s)) o
  | (Some e, o) =>
      setDelivery (pc_Handle c) (set_QueueError e (fallbackDelivery (ds_listener sc) (ds_hooks sc) (ds_now sc) s)) o
  end.

Definition deliverCodex (sc : delivery_script) (v : vault) (handle : string) (payload : json) (o : outlet)
    : option string * outlet :=
  match load v handle with
  | Err e => (Some e, o)
  | Ok c =>
      let s := deliverySnapshot handle o in
      let fallback := fallbackDelivery (ds_listener sc) (ds_hooks sc) (ds_now sc) in
      if bool_decide (pc_CodexThreadID c = "")
      then (None, setDelivery handle (set_Method "durable_inbox" (dl_IdleWake s) s) o) else
      let mention := is_mention payload in
      let seq := payload_seq payload in
      let known := match (if ds_read sc then None else ol_receipts o !! handle) with
                   | Some (Saved r) => if mention && (0 <? seq) && (qr_Seq r =? seq) && bool_decide (qr_Key r = payload_key payload)
                                       then Some r else None
                   | _ => None
                   end in
      match known with
      | Some r =>
          (None, setDelivery handle
                   (if bool_decide (qr_State r = "accepted") then set_QueueError "" (set_Method "codex_queue" true s)
                    else set_QueueError "previous queue attempt unconfirmed; pending mention retained" (fallback s)) o)
      | None =>
          let queued := bool_decide (dl_Method s = "codex_queue") in
          let push := bool_decide (dl_Method s = "codex_app_server") || (mention && (dl_RetryAfter s <? ds_now sc)) in
          let finish s o := if mention && (0 <? seq) && (push || queued) then queue_notice sc c payload s o
                            else setDelivery handle s o in
          if push then
            let o := log_wakeup (Pushed handle payload) o in
            match ds_push sc with
            | None => (None, setDelivery handle
                               (set_QueueError "" (set_LastError "" (dl_RetryAfter s) (set_Method "codex_app_server" true s))) o)
            | Some e => (None, finish (set_LastError e (ds_now sc + minute) (fallback s)) o)
            end
          else (None, finish s o)
      end
  end.

(** The probe when a connection is bound ([probeDelivery]): [experimental] is what the probe of
    event streams reports. *)
Definition probeDelivery (sc : delivery_script) (target : result codexTarget) (experimental : string)
    (c : pluginConnection) (o : outlet) : outlet :=
  let s := fallbackDelivery (ds_listener sc) (ds_hooks sc) (ds_now sc)
             (mkDelivery "" false "" "not_probed_transport_unavailable" "" "" "" None 0) in
  let s := match target with Ok t => set_Endpoint t s | Err _ => s end in
  setDelivery (pc_Handle c)
    (match ds_push sc with
     | Some e => set_LastError e (ds_now sc + minute) s
     | None => set_Experimental experimental (set_Method "codex_app_server" true s)
     end) o.
