(* ===== verification/DeliveryTheorems.v ===== *)
(** * Waking a Codex task: properties

    An uncertain launch is not repeated while its receipt is there and can be read; a confirmed
    one is, for a notice with a key; and a task counts as woken while the last attempt to reach
    it did. *)
From S2P Require Import Prelude GoStrings Json Types Metadata Protocol Broker BrokerTheorems Inbox Dispatch Delivery.

(** One notice of a connection after the other. *)
Fixpoint deliver_all (l : list (delivery_script * json)) (v : vault) (handle : string) (o : outlet) : outlet :=
  match l with
  | [] => o
  | (sc, payload) :: l => deliver_all l v handle (deliverCodex sc v handle payload o).2
  end.

Definition launched (handle : string) (seq : Z) (w : wakeup) : bool :=
  match w with Launched h s => bool_decide (h = handle) && (s =? seq) | Pushed _ _ => false end.
Definition launches (handle : string) (seq : Z) (o : outlet) : nat :=
  length (filter (fun w => launched handle seq w = true) (ol_log o)).

(** The command is not confirmed by a receipt. *)
Definition unconfirmed (sc : delivery_script) : Prop :=
  qs_command (ds_queue sc) <> None \/ qs_receipt (ds_queue sc) <> None.
(** A delivery of the notice with this number and key, whose receipt can be read and whose launch is
    not confirmed, or of a notice that never goes to the queue. *)
Definition spares (seq : Z) (key : string) (x : delivery_script * json) : Prop :=
  (payload_seq x.2 = seq /\ payload_key x.2 = key /\ qs_read (ds_queue x.1) = false /\ (key = "" \/ unconfirmed x.1)) \/
  is_mention x.2 = false \/ payload_seq x.2 <= 0.

Lemma launches_set handle seq h s o : launches handle seq (setDelivery h s o) = launches handle seq o.
Proof. done. Qed.
Lemma launches_receipt handle seq h r o : launches handle seq (put_receipt h r o) = launches handle seq o.
Proof. done. Qed.
Lemma launches_push handle seq h p o : launches handle seq (log_wakeup (Pushed h p) o) = launches handle seq o.
Proof. unfold launches. simpl. by rewrite filter_app, filter_cons_False, filter_nil, app_nil_r by done. Qed.
Lemma launches_one handle seq o : launches handle seq (log_wakeup (Launched handle seq) o) = S (launches handle seq o).
Proof.
  unfold launches. simpl. rewrite filter_app, filter_cons_True, filter_nil, length_app; [simpl; lia|].
  simpl. rewrite bool_decide_eq_true_2, Z.eqb_refl by done. done.
Qed.

(** Whether the receipt is one for the event under the key. *)
Definition receipted (handle : string) (seq : Z) (key : string) (o : outlet) : Prop :=
  exists r, ol_receipts o !! handle = Some (Saved r) /\ qr_Seq r = seq /\ qr_Key r = key.
Definition at_most_one (handle : string) (seq : Z) (key : string) (o : outlet) : Prop :=
  launches handle seq o = O \/ (launches handle seq o = 1%nat /\ receipted handle seq key o).

Lemma queueCodex_at_most_one sc c seq key o :
  qs_read sc = false -> key = "" \/ qs_command sc <> None \/ qs_receipt sc <> None ->
  at_most_one (pc_Handle c) seq key o -> at_most_one (pc_Handle c) seq key (queueCodex sc c seq key o).2.
Proof.
  intros Hread Hk Ho. unfold queueCodex. rewrite Hread. destruct (seq <=? 0); [done|]. destruct (qs_lock sc); [done|].
  set (attempt := match qs_target sc with Some e => _ | None => _ end).
  assert (~ receipted (pc_Handle c) seq key o -> at_most_one (pc_Handle c) seq key attempt.2) as Ha.
  { intros Hn. destruct Ho as [Ho|[_ Hr]]; [|done]. unfold attempt.
    destruct (qs_target sc); [by left|]. destruct (qs_probe sc); [by left|]. destruct (qs_intent sc); [by left|].
    unfold codexQueueCommand. destruct (_ || _); [by left|]. destruct (qs_ready sc); [by left|].
    set (o1 := log_wakeup _ _). assert (launches (pc_Handle c) seq o1 = 1%nat) as H1
      by (unfold o1; by rewrite launches_one, launches_receipt, Ho).
    assert (receipted (pc_Handle c) seq key o1) as Hr1 by (eexists; split; [apply lookup_insert_eq|done]).
    destruct (qs_command sc) eqn:Ec; [by right|]. destruct (qs_receipt sc) eqn:Er; [by right|].
    destruct Hk as [->|[|]]; [|done..]. right. split; [exact H1|].
    eexists. split; [apply lookup_insert_eq|done]. }
  destruct (ol_receipts o !! pc_Handle c) as [[|r]|] eqn:Er; [done| |].
  - test Em; [by destruct (bool_decide (qr_State r = "accepted"))|]. apply Ha. intros (r' & E & <- & <-). rewrite Er in E. simplify_eq.
    rewrite Z.eqb_refl, bool_decide_eq_true_2 in Em by done. done.
  - apply Ha. intros (r' & E & _). congruence.
Qed.

Lemma deliver_at_most_one seq key sc v handle payload o : spares seq key (sc, payload) ->
  at_most_one handle seq key o -> at_most_one handle seq key (deliverCodex sc v handle payload o).2.
Proof.
  intros Hk Ho. unfold deliverCodex. destruct (load v handle) as [c|e] eqn:El; [|done]. destruct (load_Ok _ _ _ El) as [_ Hh].
  case_bool_decide; [done|]. cbv zeta.
  match goal with |- context [match ?x with Some _ => _ | None => _ end] => destruct x as [r|] end; [done|].
  assert (forall b s o1, at_most_one handle seq key o1 ->
    at_most_one handle seq key (if is_mention payload && (0 <? payload_seq payload) && b then queue_notice sc c payload s o1 else setDelivery handle s o1)) as Hq.
  { intros b s o1 Ho1. destruct (is_mention payload && _ && b) eqn:Eb; [|exact Ho1]. unfold queue_notice.
    destruct Hk as [(Hs & Hkey & Hr & Hu)|[Hm|Hn]]; cbn [fst snd] in *.
    - pose proof (queueCodex_at_most_one (ds_queue sc) c seq key o1 Hr Hu) as Hqc.
      rewrite Hh in Hqc. specialize (Hqc Ho1). rewrite Hs, Hkey. destruct (queueCodex _ _ _ _ _) as [[e|] o2]; exact Hqc.
    - by rewrite Hm in Eb.
    - bool_simpl. lia. }
  match goal with |- context [if ?b then _ else (None, ?x)] => destruct b end; [|by apply Hq].
  assert (at_most_one handle seq key (log_wakeup (Pushed handle payload) o)) as Hp.
  { unfold at_most_one. rewrite launches_push. exact Ho. }
  destruct (ds_push sc); [|exact Hp]. by apply Hq.
Qed.

(** C27. An uncertain launch is not repeated, while its receipt is there and can be read. Deliver the
    notice of an event any number of times, between notices that never go to the queue, with
    pushes, probes, locks, commands and writes of the receipt that fail in any order: as long
    as no launch of the queue command is confirmed by a receipt on disk - or if the notice has
    no key, even then - and the queue can read the receipt whenever there is one, the command is
    launched for that event at most once. (There is one receipt for a connection: another
    notice that is queued in between overwrites it, [overwritten_receipt_repeats]; and one that
    cannot be read counts as none, [unreadable_receipt_repeats].) *)
Theorem uncertain_launch_not_repeated l v handle seq key o :
  launches handle seq o = O -> Forall (spares seq key) l ->
  (launches handle seq (deliver_all l v handle o) <= 1)%nat.
Proof.
  intros Ho Hl. assert (at_most_one handle seq key o) as H1 by by left. clear Ho.
  assert (at_most_one handle seq key (deliver_all l v handle o)) as [->|[-> _]]; [|lia..].
  revert o H1. induction l as [|[sc payload] l IH]; intros o H1; simpl; [done|]. apply Forall_cons in Hl as [Hx Hl].
  apply IH; [done|]. by apply deliver_at_most_one.
Qed.

(** Everything works but the push. *)
Definition queueing (now : Z) : delivery_script :=
  mkScript (Some "push unavailable") false (mkQueue None false None None None None None None) now None None.

Lemma requeue now v handle payload c seq key o :
  load v handle = Ok c -> codexTaskID (pc_CodexThreadID c) = true -> is_mention payload = true ->
  payload_seq payload = seq -> 0 < seq -> payload_key payload = key -> key <> "" ->
  ol_receipts o !! handle = Some (Saved (mkReceipt "" seq "accepted")) -> dl_Method (deliverySnapshot handle o) = "codex_queue" ->
  let o' := (deliverCodex (queueing now) v handle payload o).2 in
  launches handle seq o' = S (launches handle seq o) /\
  ol_receipts o' !! handle = Some (Saved (mkReceipt "" seq "accepted")) /\ dl_Method (deliverySnapshot handle o') = "codex_queue".
Proof.
  intros Hl Ht Hm Hs Hpos Hk Hne Hr Hd. cbv zeta.
  assert (pc_Handle c = handle) as Hh by (by destruct (load_Ok _ _ _ Hl)).
  assert (pc_CodexThreadID c <> "") as Hth by (by intros E; rewrite E in Ht).
  unfold deliverCodex. rewrite Hl, (bool_decide_eq_false_2 _ Hth). change (ds_read (queueing now)) with false. rewrite Hr. cbv zeta. rewrite Hm, Hs, Hk. cbn [qr_Seq qr_Key].
  rewrite (bool_decide_eq_false_2 ("" = key)) by congruence. rewrite andb_false_r.
  rewrite (bool_decide_eq_false_2 (dl_Method _ = "codex_app_server")) by (by rewrite Hd).
  rewrite (bool_decide_eq_true_2 _ Hd). rewrite (proj2 (Z.ltb_lt 0 seq)) by done. cbn [andb orb ds_push queueing].
  rewrite orb_true_r.
  assert (forall s o1, ol_receipts o1 !! handle = Some (Saved (mkReceipt "" seq "accepted")) ->
    launches handle seq o1 = launches handle seq o ->
    let o' := queue_notice (queueing now) c payload s o1 in
    launches handle seq o' = S (launches handle seq o) /\
    ol_receipts o' !! handle = Some (Saved (mkReceipt "" seq "accepted")) /\ dl_Method (deliverySnapshot handle o') = "codex_queue") as Hq.
  { intros s o1 Hr1 Hn1. cbv zeta. unfold queue_notice, queueCodex. rewrite Hs, Hk, Hh. change (qs_read (ds_queue (queueing now))) with false. rewrite Hr1.
    rewrite (proj2 (Z.leb_gt seq 0)) by done. cbn. rewrite Z.eqb_refl, (bool_decide_eq_false_2 ("" = key)) by congruence. cbn.
    unfold codexQueueCommand. rewrite Ht, (proj2 (Z.leb_gt seq 0)) by done. cbn. split_and!.
    - rewrite <- Hn1. exact (launches_one handle seq o1).
    - apply lookup_insert_eq.
    - unfold deliverySnapshot, setDelivery. cbn. by rewrite lookup_insert_eq. }
  case_match; [|by apply Hq]. apply Hq; [exact Hr|]. apply launches_push.
Qed.

(** A confirmed launch of a keyed notice is repeated. The receipt written after the launch
    drops the notice's key, so it is not recognized as one for the notice. When a notice with a
    key was queued and confirmed, delivering it again - as the notice loop does after a restart
    - launches the command again, every time. *)
Theorem confirmed_launch_repeated now n v handle payload c o :
  load v handle = Ok c -> codexTaskID (pc_CodexThreadID c) = true -> is_mention payload = true ->
  0 < payload_seq payload -> payload_key payload <> "" ->
  ol_receipts o !! handle = Some (Saved (mkReceipt "" (payload_seq payload) "accepted")) ->
  dl_Method (deliverySnapshot handle o) = "codex_queue" ->
  launches handle (payload_seq payload) (deliver_all (repeat (queueing now, payload) n) v handle o) =
    (n + launches handle (payload_seq payload) o)%nat.
Proof.
  intros Hl Ht Hm Hpos Hne. revert o. induction n as [|n IH]; intros o Hr Hd; simpl; [done|].
  destruct (requeue now v handle payload c _ _ o Hl Ht Hm eq_refl Hpos eq_refl Hne Hr Hd) as (Hn & Hr' & Hd').
  rewrite IH by done. rewrite Hn. lia.
Qed.

(** ** The last attempt to reach a task *)
(** What a process does towards its tasks, one thing after the other: notices, and the probe when a
    connection is bound. The receipts on disk are there before it starts, and other processes
    write them as well. *)
Inductive contact :=
| Noticed (sc : delivery_script) (handle : string) (payload : json) (before after : outlet)
| Probed (sc : delivery_script) (handle : string).
Definition contact_handle (x : contact) : string := match x with Noticed _ h _ _ _ => h | Probed _ h => h end.
Inductive contacts : list contact -> outlet -> Prop :=
| Started receipts : contacts [] (mkOutlet ∅ receipts [])
| Notices l o sc v h payload err o' :
    contacts l o -> deliverCodex sc v h payload o = (err, o') -> contacts (l ++ [Noticed sc h payload o o']) o'
| Probes l o sc target experimental c :
    contacts l o -> contacts (l ++ [Probed sc (pc_Handle c)]) (probeDelivery sc target experimental c o)
| Others l o receipts : contacts l o -> contacts l (mkOutlet (ol_states o) receipts (ol_log o)).
(** The push went through; the queue has accepted the notice; the probe was answered. *)
Definition reached (x : contact) : Prop :=
  match x with
  | Noticed sc h payload before after =>
      (ol_log after = ol_log before ++ [Pushed h payload] /\ ds_push sc = None) \/
      (exists r, ol_receipts after !! h = Some (Saved r) /\ qr_State r = "accepted" /\ qr_Seq r = payload_seq payload)
  | Probed sc _ => ds_push sc = None
  end.
(** Nothing was sent. *)
Definition untried (x : contact) : Prop :=
  match x with Noticed _ _ _ before after => ol_log after = ol_log before | Probed _ _ => False end.

Lemma fallback_sleeps listener hooks now s : dl_IdleWake (fallbackDelivery listener hooks now s) = false.
Proof.
  unfold fallbackDelivery. destruct listener; [done|]. destruct hooks as [[|h]|]; [done| |done]. destruct (_ =? 0); [done|]. by destruct (_ <? day).
Qed.
Lemma snapshot_set h h' s o : deliverySnapshot h (setDelivery h' s o) = if decide (h' = h) then s else deliverySnapshot h o.
Proof.
  unfold deliverySnapshot, setDelivery. cbn. destruct (decide (h' = h)) as [->|Hne]; [by rewrite lookup_insert_eq|by rewrite lookup_insert_ne].
Qed.
Lemma queueCodex_ok sc c seq key o err o' : queueCodex sc c seq key o = (err, o') ->
  ol_states o' = ol_states o /\
  (err = None -> exists r, ol_receipts o' !! pc_Handle c = Some (Saved r) /\ qr_State r = "accepted" /\ qr_Seq r = seq).
Proof.
  unfold queueCodex. destruct (seq <=? 0); [by intros [= <- <-]|]. destruct (qs_lock sc); [by intros [= <- <-]|].
  set (attempt := match qs_target sc with Some e => _ | None => _ end).
  assert (attempt = (err, o') -> ol_states o' = ol_states o /\
    (err = None -> exists r, ol_receipts o' !! pc_Handle c = Some (Saved r) /\ qr_State r = "accepted" /\ qr_Seq r = seq)) as Ha.
  { unfold attempt, codexQueueCommand. destruct (qs_target sc); [by intros [= <- <-]|]. destruct (qs_probe sc); [by intros [= <- <-]|].
    destruct (qs_intent sc); [by intros [= <- <-]|]. destruct (_ || _); [by intros [= <- <-]|]. destruct (qs_ready sc); [by intros [= <- <-]|].
    destruct (qs_command sc); [by intros [= <- <-]|]. destruct (qs_receipt sc); [by intros [= <- <-]|]. intros [= <- <-]. split; [done|].
    intros _. eexists. split; [apply lookup_insert_eq|done]. }
  destruct (qs_read sc); [exact Ha|]. destruct (ol_receipts o !! pc_Handle c) as [[|r]|] eqn:Er; [by intros [= <- <-]| |exact Ha].
  destruct (_ && _) eqn:Em; [|exact Ha]. destruct (bool_decide_reflect (qr_State r = "accepted")); intros [= <- <-]; (split; [done|]); [|done]. intros _. exists r. clear Ha attempt. bool_simpl. done.
Qed.

Lemma deliver_wakes sc v h payload o err o' : deliverCodex sc v h payload o = (err, o') ->
  (forall h', h' <> h -> deliverySnapshot h' o' = deliverySnapshot h' o) /\
  (dl_IdleWake (deliverySnapshot h o') = true ->
     reached (Noticed sc h payload o o') \/ (dl_IdleWake (deliverySnapshot h o) = true /\ ol_log o' = ol_log o)).
Proof.
  unfold deliverCodex. destruct (load v h) as [c|e] eqn:El; [|intros [= <- <-]; split; [done|by right]]. destruct (load_Ok _ _ _ El) as [_ Hh].
  assert (forall s o1, ol_states o1 = ol_states o -> (dl_IdleWake s = true -> reached (Noticed sc h payload o (setDelivery h s o1)) \/
      (dl_IdleWake (deliverySnapshot h o) = true /\ ol_log o1 = ol_log o)) ->
    (forall h', h' <> h -> deliverySnapshot h' (setDelivery h s o1) = deliverySnapshot h' o) /\
    (dl_IdleWake (deliverySnapshot h (setDelivery h s o1)) = true -> reached (Noticed sc h payload o (setDelivery h s o1)) \/
      (dl_IdleWake (deliverySnapshot h o) = true /\ ol_log (setDelivery h s o1) = ol_log o))) as Hset.
  { intros s o1 Hst Hs. split; [|rewrite snapshot_set, decide_True by done; exact Hs].
    intros h' Hne. rewrite snapshot_set, decide_False by done. unfold deliverySnapshot. by rewrite Hst. }
  case_bool_decide; [intros [= <- <-]; apply Hset; [done|by right]|]. cbv zeta.
  match goal with |- context [match ?x with Some _ => _ | None => _ end] => destruct x as [r|] eqn:Ek end.
  { intros [= <- <-]. apply Hset; [done|]. case_bool_decide as Ha; [|cbn; by rewrite fallback_sleeps]. intros _. left. right. exists r.
    destruct (ds_read sc); [done|]. destruct (ol_receipts o !! h) as [[|r']|] eqn:Er; [done| |done]. destruct (_ && _ && _ && _) eqn:Em in Ek; [|done].
    injection Ek as ->. split; [exact Er|]. split; [done|]. clear -Em. bool_simpl. done. }
  assert (forall b s o1, ol_states o1 = ol_states o ->
    (dl_IdleWake s = true -> dl_IdleWake (deliverySnapshot h o) = true /\ ol_log o1 = ol_log o) ->
    (err, o') = (None, if is_mention payload && (0 <? payload_seq payload) && b then queue_notice sc c payload s o1 else setDelivery h s o1) ->
    (forall h', h' <> h -> deliverySnapshot h' o' = deliverySnapshot h' o) /\
    (dl_IdleWake (deliverySnapshot h o') = true -> reached (Noticed sc h payload o o') \/
      (dl_IdleWake (deliverySnapshot h o) = true /\ ol_log o' = ol_log o))) as Hq.
  { intros b s o1 Hst Hs [= _ ->]. destruct (_ && b); [|apply Hset; [done|right; auto]]. unfold queue_notice.
    destruct (queueCodex _ _ _ _ _) as [[e|] o2] eqn:Eq; apply queueCodex_ok in Eq as [Hst2 Hr]; rewrite Hh in *; (apply Hset; [congruence|]).
    - cbn. by rewrite fallback_sleeps.
    - intros _. left. right. destruct (Hr eq_refl) as (r & Hr1 & Hr2). exists r. split; [exact Hr1|exact Hr2]. }
  match goal with |- context [if ?b then _ else (None, ?x)] => destruct b end.
  - destruct (ds_push sc) eqn:Ep.
    + intros E. eapply Hq; [| |symmetry; exact E]; [done|]. cbn. by rewrite fallback_sleeps.
    + intros [= <- <-]. apply Hset; [done|]. intros _. left. left. split; [done|exact Ep].
  - intros E. eapply Hq; [| |symmetry; exact E]; done.
Qed.
(** A task counts as woken only while the last thing that was sent to it, however long ago, went
    through. *)
Lemma last_attempt_reached l o h : contacts l o -> dl_IdleWake (deliverySnapshot h o) = true ->
  exists l1 x l2, l = l1 ++ x :: l2 /\ contact_handle x = h /\ reached x /\ Forall (fun y => contact_handle y = h -> untried y) l2.
Proof.
  assert (forall l (x : contact) P, (exists l1 y l2, l = l1 ++ y :: l2 /\ contact_handle y = h /\ reached y /\ Forall P l2) -> P x ->
    exists l1 y l2, l ++ [x] = l1 ++ y :: l2 /\ contact_handle y = h /\ reached y /\ Forall P l2) as Hsnoc.
  { intros l0 x P (l1 & y & l2 & -> & Hy & Hr & Hl2) Hx. exists l1, y, (l2 ++ [x]). rewrite <- app_assoc. split_and!; [done..|].
    apply Forall_app. split; [done|by apply Forall_singleton]. }
  assert (forall l x, contact_handle x = h -> reached x -> exists l1 y l2, l ++ [x] = l1 ++ y :: l2 /\ contact_handle y = h /\ reached y /\
    Forall (fun y => contact_handle y = h -> untried y) l2) as Hlast by (intros l0 x Hx Hr; by exists l0, x, []).
  induction 1 as [receipts|l o sc v h' payload err o' _ IH E|l o sc target experimental c _ IH|l o receipts _ IH]; intros Hw; [done| | |by apply IH].
  - destruct (deliver_wakes _ _ _ _ _ _ _ E) as [Hother Hwake]. destruct (decide (h = h')) as [<-|Hne].
    + destruct (Hwake Hw) as [Hr|[Hw0 Hlog]]; [by apply Hlast|]. apply Hsnoc; [by apply IH|by intros _].
    + rewrite Hother in Hw by done. apply Hsnoc; [by apply IH|]. cbn. congruence.
  - unfold probeDelivery in Hw. rewrite snapshot_set in Hw. destruct (decide (pc_Handle c = h)) as [Heq|Hne].
    + destruct (ds_push sc) eqn:Ep; [|apply Hlast; [exact Heq|exact Ep]]. cbn in Hw. destruct target; cbn in Hw; by rewrite fallback_sleeps in Hw.
    + apply Hsnoc; [by apply IH|]. by intros Hc.
Qed.

(** ** The theorems at concrete inputs *)
Definition waking_handle : string := ID "conn_" "0123456789abcdef".
Definition waking_conn : pluginConnection :=
  put_Codex "019a0b1c-22dd-7e3f-8a4b-5c6d7e8f9a0b" None
    (zero_plugin waking_handle (server_config "https://tincan.example" "token")).
Definition waking_vault : vault := {[waking_handle := Saved waking_conn]}.
(** A question for the user, as the notice loop sends it. *)
Definition question : json :=
  inboundNotification (JObj [("kind", JStr "approval_needed"); ("event_seq", JInt 7); ("notice_key", JStr "decision_1");
                             ("mentioned", JBool false); ("connection", JStr waking_handle)]).
Definition failing_queue : delivery_script :=
  mkScript (Some "push unavailable") false (mkQueue None false None None None None (Some "killed") None) 1 None None.

Lemma waking_loads : load waking_vault waking_handle = Ok waking_conn.
Proof. vm_compute. reflexivity. Qed.
Definition again (sc : delivery_script) : delivery_script * json := (sc, question).
Example killed_once :
  launches waking_handle 7 (deliver_all (again <$> [failing_queue; queueing 2; queueing 3]) waking_vault waking_handle (mkOutlet ∅ ∅ [])) = 1%nat.
Proof. vm_compute. reflexivity. Qed.
Lemma failing_spares : spares 7 "decision_1" (again failing_queue).
Proof. left. split_and!; [vm_compute; reflexivity..|]. right. by left. Qed.
Definition uncertain : list (delivery_script * json) := again <$> [failing_queue; failing_queue].
Lemma uncertain_spares : Forall (spares 7 "decision_1") uncertain.
Proof. apply Forall_cons; split; [exact failing_spares|]. apply Forall_singleton. exact failing_spares. Qed.
Lemma uncertain_launch_not_repeated_witness :
  (launches waking_handle 7 (deliver_all uncertain waking_vault waking_handle (mkOutlet ∅ ∅ [])) <= 1)%nat.
Proof. apply (uncertain_launch_not_repeated uncertain waking_vault waking_handle 7 "decision_1" (mkOutlet ∅ ∅ [])); [reflexivity|exact uncertain_spares]. Defined.

(** Where the receipt does not help: it cannot be read, or another notice has overwritten it. *)
Definition failing_again (unreadable : bool) (now : Z) : delivery_script :=
  mkScript (Some "push unavailable") unreadable (mkQueue None unreadable None None None None (Some "killed") None) now None None.
Example unreadable_receipt_repeats :
  launches waking_handle 7 (deliver_all (again <$> [failing_queue; failing_again true (3 * minute)]) waking_vault waking_handle (mkOutlet ∅ ∅ [])) = 2%nat.
Proof. vm_compute. reflexivity. Qed.
Definition other_question : json :=
  inboundNotification (JObj [("kind", JStr "approval_needed"); ("event_seq", JInt 8); ("notice_key", JStr "decision_2");
                             ("mentioned", JBool false); ("connection", JStr waking_handle)]).
Example overwritten_receipt_repeats :
  launches waking_handle 7 (deliver_all [(failing_queue, question); (failing_again false (3 * minute), other_question);
    (failing_again false (6 * minute), question)] waking_vault waking_handle (mkOutlet ∅ ∅ [])) = 2%nat.
Proof. vm_compute. reflexivity. Qed.

(** The first delivery is confirmed; the next two launch the command again. *)
Definition confirmed : outlet := deliver_all [again (queueing 1)] waking_vault waking_handle (mkOutlet ∅ ∅ []).
Lemma confirmed_receipt : ol_receipts confirmed !! waking_handle = Some (Saved (mkReceipt "" (payload_seq question) "accepted")).
Proof. vm_compute. reflexivity. Qed.
Lemma confirmed_method : dl_Method (deliverySnapshot waking_handle confirmed) = "codex_queue".
Proof. vm_compute. reflexivity. Qed.
Lemma question_mention : is_mention question = true.
Proof. vm_compute. reflexivity. Qed.
Lemma question_seq : 0 < payload_seq question.
Proof. vm_compute. reflexivity. Qed.
Lemma question_key : payload_key question <> "".
Proof. vm_compute. discriminate. Qed.
Lemma waking_task : codexTaskID (pc_CodexThreadID waking_conn) = true.
Proof. vm_compute. reflexivity. Qed.
Lemma confirmed_launch_repeated_witness :
  launches waking_handle (payload_seq question) (deliver_all (repeat (queueing 2, question) 2) waking_vault waking_handle confirmed) =
    (2 + launches waking_handle (payload_seq question) confirmed)%nat.
Proof.
  exact (confirmed_launch_repeated 2 2 waking_vault waking_handle question waking_conn confirmed
    waking_loads waking_task question_mention question_seq question_key confirmed_receipt confirmed_method).
Defined.
