(* ===== verification/Hooks.v ===== *)
(** * Hooks: showing pending work to a session

    [cmd/tincan/plugin_hook.go], [claude_wake.go] and the hook command of [harness.go]. A hook
    reads the vault and the inbox files and writes its own receipt file only. [hooks] are the
    receipt files by session key; [inboxes] the inbox files by the text that [inboxPath]
    hashes; what [json.Marshal] prints of the pending items is a parameter. *)
From stdpp Require Import sorting.
From S2P Require Import Prelude GoStrings Json Types Metadata Protocol InboxState Inbox Dispatch Broker Delivery.

Record hookInput := mkHook {
  hi_Host : string; hi_SessionID : string; hi_Event : string; hi_TurnID : string; hi_AgentID : string;
  hi_StopActive : bool }.

(** One pending item of the notice, with the key it is remembered under. *)
Record pendingItem := mkPending {
  pi_Connection : string; pi_Seq : Z; pi_Kind : string; pi_Mentioned : bool; pi_Key : string }.
Definition pending_json (p : pendingItem) : json :=
  JObj [("connection", JStr (pi_Connection p)); ("event_seq", JInt (pi_Seq p)); ("kind", JStr (pi_Kind p));
        ("mentioned", JBool (pi_Mentioned p))].

Notation inbox_files := (gmap string (saved inboxState)).
Notation hook_files := (gmap string (saved hookState)).
Definition inboxPath (c : pluginConnection) : string := cfg_Server (pc_Config c) +:+ lf +:+ pc_AgentID c.

(** ** Who may run, and when ([runHook], first part) *)
Definition session_key (h : hookInput) : string :=
  if bool_decide (hi_Host h = "") then hi_SessionID h else hi_Host h +:+ "-" +:+ hi_SessionID h.
Definition hook_events : list string := ["SessionStart"; "UserPromptSubmit"; "PostToolUse"; "Stop"].
Definition hook_runs (h : hookInput) : bool :=
  negb (bool_decide (hi_Host h = "") && negb (codexTaskID (hi_SessionID h))
        || negb (bool_decide (hi_Host h = "")) && bool_decide (is_Some (validateHookBinding (hi_Host h) (hi_SessionID h)))
        || negb (bool_decide (hi_AgentID h = "")))
  && (bool_decide (hi_Event h ∈ hook_events)
      || bool_decide (hi_Event h = "TincanWake") && bool_decide (hi_Host h = "claude")).

(** A new turn or a resumed session starts afresh. *)
Definition new_turn (h : hookInput) (s : hookState) : bool :=
  bool_decide (hi_Event h = "SessionStart") || bool_decide (hi_Event h = "UserPromptSubmit")
  || (negb (bool_decide (hi_TurnID h = "")) && negb (bool_decide (hi_TurnID h = hs_TurnID s))).
Definition begin_hook (h : hookInput) (now : Z) (s : hookState) : hookState :=
  mkHookState (if bool_decide (hi_TurnID h = "") then hs_TurnID s else hi_TurnID h)
    (if new_turn h s then ∅ else hs_Seen s) now.

(** ** What is pending *)
(** Connections of this session. *)
Definition hook_bound (h : hookInput) (c : pluginConnection) : bool :=
  if bool_decide (hi_Host h = "") then bool_decide (pc_CodexThreadID c = hi_SessionID h)
  else bool_decide (pc_HookHost c = hi_Host h) && bool_decide (pc_HookSessionID c = hi_SessionID h).
(** The saved connections, in the order of their file names. *)
Definition session_connections (h : hookInput) (v : vault) : list pluginConnection :=
  filter (fun c => hook_bound h c = true)
    (omap (fun handle => match load v handle with Ok c => Some c | Err _ => None end)
       (merge_sort String.le (elements (dom v)))).

(** The state in the inbox file, with the mentions of this agent. *)
Definition hook_inbox (files : inbox_files) (c : pluginConnection) : option inboxState :=
  match files !! inboxPath c with
  | Some (Saved s) =>
      match migrate s with
      | (None, s) => Some (set_Requests (map_Event (fun e => set_Mentioned (mentions (pc_AgentID c) e) e) <$> st_Requests s) s)
      | (Some _, _) => None
      end
  | _ => None
  end.

Definition hook_kind (s : inboxState) (r : inboxRequest) : string :=
  let kind := if eligible s r then (if is_lifecycle (req_Event r) then "connection_notice" else ev_Kind (req_Event r)) else "" in
  let kind := match req_Approval r with
              | Some a => if bool_decide (ap_Delivery a = "pending") then "approval_needed" else kind
              | None => kind
              end in
  if bool_decide (req_Status r = "needs_recovery") || bool_decide (req_Status r = "failed") then "needs_attention" else kind.
Definition hook_key (handle : string) (r : inboxRequest) (kind : string) : string :=
  handle +:+ ":" +:+ Itoa (req_Seq r) +:+ ":" +:+ kind +:+ ":" +:+ Itoa (req_Attempt r).

Fixpoint hook_requests (h : hookInput) (handle : string) (s : inboxState) (l : list inboxRequest) (seen : gmap string Z)
    : list pendingItem * gmap string Z :=
  match l with
  | [] => ([], seen)
  | r :: l =>
      let kind := hook_kind s r in
      let key := hook_key handle r kind in
      if bool_decide (kind = "") || bool_decide (default 0 (seen !! key) = req_Seq r)
         || (bool_decide (hi_Event h = "Stop") && hi_StopActive h)
      then hook_requests h handle s l seen
      else
        let '(items, seen) := hook_requests h handle s l (<[key := req_Seq r]> seen) in
        (mkPending handle (req_Seq r) kind (ev_Mentioned (req_Event r)) key :: items, seen)
  end.
Fixpoint hook_connections (h : hookInput) (files : inbox_files) (l : list pluginConnection) (seen : gmap string Z)
    : list pendingItem * gmap string Z :=
  match l with
  | [] => ([], seen)
  | c :: l =>
      let '(items, seen) := match hook_inbox files c with
                            | Some s => hook_requests h (pc_Handle c) s (st_Requests s) seen
                            | None => ([], seen)
                            end in
      let '(rest, seen) := hook_connections h files l seen in (items ++ rest, seen)
  end.

(** ** The hook ([runHook]) *)
Inductive hook_output :=
| Nothing
| Block (reason : string)
| Additional (event context : string).

Section Hook.
Variable marshal : list json -> string.

Definition mention_rank (p : pendingItem) : Z := if pi_Mentioned p then 1 else 0.
Definition hook_context (items : list pendingItem) : string :=
  "Tincan has pending events for this task: " +:+ marshal (pending_json <$> sort_desc mention_rank items) +:+ ". For connection_notice: "
  +:+ lifecycleInstructions +:+ " For join_requested: " +:+ joinReviewInstructions
  +:+ " For approval_needed or needs_attention: read inbox_requests, surface its concrete question to this user and record delivery with inbox_decide; never treat this notice as approval. For collaboration_attention: "
  +:+ inboundDispatchInstructions +:+ " " +:+ collaborationReviewInstructions
  +:+ " For messages (prioritize direct mentions): " +:+ inboundDispatchInstructions.

(** The script: whether the directory exists, the lock, and the write of the receipt. *)
Record hook_script := mkHookScript {
  hk_root : bool; hk_lock : option string; hk_now : Z; hk_write : option string }.

(** The items shown are returned beside the output, for the statements. *)
Definition runHook (sc : hook_script) (v : vault) (files : inbox_files) (h : hookInput) (hooks : hook_files)
    : result hook_output * list pendingItem * hook_files :=
  if negb (hook_runs h) || negb (hk_root sc) then (Ok Nothing, [], hooks) else
  match hk_lock sc with
  | Some e => (Err e, [], hooks)
  | None =>
      match hooks !! session_key h with
      | Some Garbled => (Err "invalid hook state", [], hooks)
      | saved =>
          let state := match saved with Some (Saved s) => s | _ => mkHookState "" ∅ 0 end in
          let state := begin_hook h (hk_now sc) state in
          let '(items, seen) := hook_connections h files (session_connections h v) (hs_Seen state) in
          let state := mkHookState (hs_TurnID state) seen (hs_LastSeen state) in
          let write := negb (bool_decide (hi_Event h = "TincanWake")) || negb (bool_decide (items = [])) in
          match (if write then hk_write sc else None) with
          | Some e => (Err e, [], hooks)
          | None =>
              let hooks := if write then <[session_key h := Saved state]> hooks else hooks in
              (Ok (if bool_decide (items = []) then Nothing
                   else if bool_decide (hi_Event h = "Stop") then Block (hook_context items)
                   else Additional (hi_Event h) (hook_context items)), items, hooks)
          end
      end
  end.

(** ** Hosts other than Codex ([harnessHookCommand]) *)
Record hook_report := mkReport {
  rp_Session : string; rp_SessionCamel : string; rp_Conversation : string; rp_Event : string; rp_Agent : string;
  rp_Turn : string; rp_StopActive : bool; rp_LoopCount : Z; rp_Status : string }.
Definition report_session (r : hook_report) : string :=
  if negb (bool_decide (rp_Session r = "")) then rp_Session r
  else if negb (bool_decide (rp_SessionCamel r = "")) then rp_SessionCamel r else rp_Conversation r.
Definition normal_event (event : string) : string :=
  if bool_decide (event = "sessionStart") then "SessionStart"
  else if bool_decide (event = "postToolUse") then "PostToolUse"
  else if bool_decide (event ∈ ["agentStop"; "stop"]) then "Stop"
  else if bool_decide (event ∈ ["notification"; "Notification"]) then "PostToolUse" else event.

Definition harness_input (host : string) (override : option string) (r : hook_report) : option hookInput :=
  let session := report_session r in
  if bool_decide (is_Some (validateHookBinding host session)) || negb (bool_decide (rp_Agent r = "")) then None else
  let event := normal_event (default (rp_Event r) override) in
  if bool_decide (host = "cursor") && negb (bool_decide (event ∈ ["SessionStart"; "Stop"])) then None
  else if bool_decide (host = "cursor") && bool_decide (event = "Stop") && negb (bool_decide (rp_Status r = "completed")) then None
  else Some (mkHook host session event (rp_Turn r) "" (rp_StopActive r || (0 <? rp_LoopCount r))).

Definition binding_text (host session : string) : string :=
  marshal [JObj [("hook_host", JStr host); ("hook_session_id", JStr session)]].
Definition harness_context (h : hookInput) (o : hook_output) : string :=
  let context := match o with Nothing => "" | Block reason => reason | Additional _ context => context end in
  if bool_decide (hi_Event h = "SessionStart")
  then "When this task connects to Tincan, include these exact session binding fields in tincan_connect: "
       +:+ binding_text (hi_Host h) (hi_SessionID h) +:+ ". Do not connect merely because this hook ran. " +:+ context
  else context.
Definition harness_output (h : hookInput) (o : hook_output) : list (string * json) :=
  let context := harness_context h o in
  let stop := bool_decide (hi_Event h = "Stop") in
  if bool_decide (context = "") then []
  else if bool_decide (hi_Host h = "cursor")
  then [(if stop then "followup_message" else "additional_context", JStr context)]
  else if bool_decide (hi_Host h = "copilot")
  then if stop then [("decision", JStr "block"); ("reason", JStr context)] else [("additionalContext", JStr context)]
  else if bool_decide (hi_Host h = "claude")
  then if stop then [("decision", JStr "block"); ("reason", JStr context)]
       else [("hookSpecificOutput", JObj [("additionalContext", JStr context); ("hookEventName", JStr (hi_Event h))])]
  else [].
Definition harness_hook (host : string) (override : option string) (r : hook_report) (sc : hook_script) (v : vault)
    (files : inbox_files) (hooks : hook_files) : list (string * json) * hook_files :=
  match harness_input host override r with
  | None => ([], hooks)
  | Some h =>
      let '(o, _, hooks) := runHook sc v files h hooks in
      (harness_output h (match o with Ok o => o | Err _ => Nothing end), hooks)
  end.

(** ** Claude's waiter ([waitClaudeWake]) *)
Definition claudeWakeLifetime : Z := 24 * 3600 * 10 ^ 9.
Definition wake_input (h : hookInput) : hookInput :=
  mkHook "claude" (hi_SessionID h) "TincanWake" "" (hi_AgentID h) false.
(** The ticks until the context ends, each with what the hook then finds; [printing] is the
    outcome of writing the pointer. The code is the exit status, 2 for a wake-up. *)
Fixpoint wake_ticks (printing : option string) (ticks : list (hook_script * vault * inbox_files)) (h : hookInput)
    (hooks : hook_files) : Z * list pendingItem * hook_files :=
  match ticks with
  | [] => (0, [], hooks)
  | (sc, v, files) :: ticks =>
      match runHook sc v files h hooks with
      | (Ok (Additional _ context), items, hooks) =>
          if bool_decide (context = "") then wake_ticks printing ticks h hooks
          else (match printing with None => 2 | Some _ => 0 end, items, hooks)
      | (_, _, hooks) => wake_ticks printing ticks h hooks
      end
  end.
(** [enter]: making the directory, the lock of the session's waiter and its lease. *)
Definition waitClaudeWake (enter printing : option string) (ticks : list (hook_script * vault * inbox_files)) (h : hookInput)
    (hooks : hook_files) : Z * list pendingItem * hook_files :=
  if negb (bool_decide (hi_AgentID h = "")) || bool_decide (hi_SessionID h = "")
     || bool_decide (is_Some (validateHookBinding "claude" (hi_SessionID h))) || bool_decide (is_Some enter)
  then (0, [], hooks) else wake_ticks printing ticks (wake_input h) hooks.
End Hook.

(** Whether a waiter can wake the session: its lease is current and its lock is held. *)
Inductive lock_state := Free | Busy | LockError.
Definition claudeWakeArmed (c : pluginConnection) (lease : option (saved Z)) (now : Z) (lock : lock_state) : bool :=
  if negb (bool_decide (pc_HookHost c = "claude")) || bool_decide (is_Some (validateHookBinding (pc_HookHost c) (pc_HookSessionID c)))
     || bool_decide (pc_HookSessionID c = "") then false
  else match lease with
       | Some (Saved expires) => (now <? expires) && match lock with Busy => true | _ => false end
       | _ => false
       end.
