(* ===== verification/HooksTheorems.v ===== *)
(** * Hooks: properties

    What a hook shows is exactly the session's open work it has not shown before, and within a
    turn nothing is shown twice. The key under which an item is remembered determines the
    request's number, because handles have a fixed length. *)
From stdpp Require Import sorting.
From S2P Require Import Prelude GoStrings Json Types Metadata Protocol InboxState Inbox Dispatch Broker BrokerTheorems Delivery DeliveryTheorems Hooks.

(** ** Keys *)
Lemma split_unique {A} (c : A) l1 l2 r1 r2 :
  c ∉ l1 -> c ∉ l2 -> l1 ++ c :: r1 = l2 ++ c :: r2 -> l1 = l2.
Proof.
  revert l2. induction l1 as [|a l1 IH]; intros [|b l2] H1 H2 E; simplify_eq/=; [done| | |].
  - by destruct H2; left.
  - by destruct H1; left.
  - f_equal. apply (IH l2); [by intros ?; apply H1; right|by intros ?; apply H2; right|done].
Qed.

Lemma pretty_N_go_digits x s : ":"%char ∉ bytes s -> ":"%char ∉ bytes (pretty_N_go x s).
Proof.
  revert s. induction (N.lt_wf_0 x) as [x _ IH]; intros s Hs.
  destruct (decide (x = 0)%N) as [->|]; [by rewrite pretty_N_go_0|]. rewrite pretty_N_go_step by lia.
  apply IH; [apply N.div_lt; lia|]. simpl. apply not_elem_of_cons. split; [|done].
  unfold pretty_N_char. by repeat case_match.
Qed.
Lemma Itoa_digits z : ":"%char ∉ bytes (Itoa z).
Proof.
  assert (forall x : N, ":"%char ∉ bytes (pretty x)) as Hn.
  { intros x. unfold pretty, pretty_N. case_decide; [|apply pretty_N_go_digits; apply not_elem_of_nil].
    simpl. by rewrite list_elem_of_singleton. }
  unfold Itoa, pretty, pretty_Z. destruct z as [|p|p].
  - simpl. by rewrite list_elem_of_singleton.
  - apply Hn.
  - rewrite bytes_app. apply not_elem_of_app. split; [simpl; by rewrite list_elem_of_singleton|apply Hn].
Qed.

Lemma handle_length h : connectionHandle h = true -> length (bytes h) = 37%nat.
Proof.
  unfold connectionHandle. intros [[(t & ->)%HasPrefix_spec Hl%Z.eqb_eq]%andb_true_iff _]%andb_true_iff.
  unfold drop_str, len in Hl. rewrite length_of_bytes, length_drop, length_bytes in Hl. rewrite length_bytes. lia.
Qed.
Lemma loaded_handle v h c : load v h = Ok c -> connectionHandle h = true.
Proof. unfold load. by destruct (connectionHandle h). Qed.

Lemma hook_key_seq h1 h2 r1 r2 k1 k2 : connectionHandle h1 = true -> connectionHandle h2 = true ->
  hook_key h1 r1 k1 = hook_key h2 r2 k2 -> req_Seq r1 = req_Seq r2.
Proof.
  intros H1%handle_length H2%handle_length E. apply (f_equal bytes) in E. unfold hook_key in E.
  rewrite !bytes_app in E. apply app_inj_1 in E as [_ E]; [|congruence].
  simpl in E. injection E as E. apply split_unique in E; [|apply Itoa_digits..].
  apply (inj Itoa). rewrite <- (of_bytes_bytes (Itoa (req_Seq r1))), E. apply of_bytes_bytes.
Qed.

(** ** One run *)
(** The receipts of [seen] that speak of an item of this key. *)
Definition holds (seen : gmap string Z) (key : string) (seq : Z) : Prop := default 0 (seen !! key) = seq.
#[export] Instance holds_dec seen key seq : Decision (holds seen key seq).
Proof. unfold holds. apply _. Defined.
(** Keys of handles, with the number they stand for. *)
Definition names (key : string) (seq : Z) : Prop :=
  exists handle r kind, connectionHandle handle = true /\ key = hook_key handle r kind /\ seq = req_Seq r.
Lemma names_fun key s1 s2 : names key s1 -> names key s2 -> s1 = s2.
Proof. intros (h1 & r1 & k1 & H1 & -> & ->) (h2 & r2 & k2 & H2 & E & ->). exact (hook_key_seq _ _ _ _ _ _ H1 H2 E). Qed.

(** What the loops over requests and connections do with [seen], given what is [open]. *)
Record shows (quiet : bool) (seen : gmap string Z) (op : string -> Z -> Prop) (out : list pendingItem * gmap string Z) : Prop := {
  sh_nodup : NoDup (pi_Key <$> out.1);
  sh_items : forall key, (exists p, p ∈ out.1 /\ pi_Key p = key) <->
    quiet = false /\ exists seq, op key seq /\ ~ holds seen key seq;
  sh_seen : forall key seq, names key seq -> holds out.2 key seq <->
    holds seen key seq \/ exists p, p ∈ out.1 /\ pi_Key p = key }.
Arguments sh_nodup {_ _ _ _}.
Arguments sh_items {_ _ _ _}.
Arguments sh_seen {_ _ _ _}.

Lemma shows_none quiet seen : shows quiet seen (fun _ _ => False) ([], seen).
Proof.
  split; simpl; [constructor| |].
  - intros key. split; [intros (p & Hp & _); by apply not_elem_of_nil in Hp|intros (_ & ? & [] & _)].
  - intros key seq _. split; [by left|intros [?|(p & Hp & _)]; [done|by apply not_elem_of_nil in Hp]].
Qed.

Lemma shows_app quiet seen op1 op2 items1 seen1 items2 seen2 :
  (forall key seq, op1 key seq -> names key seq) -> (forall key seq, op2 key seq -> names key seq) ->
  shows quiet seen op1 (items1, seen1) -> shows quiet seen1 op2 (items2, seen2) ->
  shows quiet seen (fun key seq => op1 key seq \/ op2 key seq) (items1 ++ items2, seen2).
Proof.
  intros Hn1 Hn2 [Hd1 Hi1 Hs1] [Hd2 Hi2 Hs2]. simpl in *. split; simpl.
  - rewrite fmap_app. apply NoDup_app. split_and!; [done| |done]. intros key (p & -> & Hp)%list_elem_of_fmap Hk.
    apply list_elem_of_fmap in Hk as (p' & E & Hp').
    destruct (proj1 (Hi2 (pi_Key p)) (ex_intro _ p' (conj Hp' (eq_sym E)))) as (_ & seq & Hop & Hh). apply Hh.
    apply (Hs1 _ _ (Hn2 _ _ Hop)). right. by exists p.
  - intros key. setoid_rewrite elem_of_app. split.
    + intros (p & [Hp|Hp] & Hk).
      * destruct (proj1 (Hi1 key) (ex_intro _ p (conj Hp Hk))) as (Hq & seq & Hop & Hh). split; [done|]. exists seq. auto.
      * destruct (proj1 (Hi2 key) (ex_intro _ p (conj Hp Hk))) as (Hq & seq & Hop & Hh). split; [done|]. exists seq.
        split; [by right|]. intros H'. apply Hh, (Hs1 _ _ (Hn2 _ _ Hop)). by left.
    + intros (Hq & seq & [Hop|Hop] & Hh).
      * destruct (proj2 (Hi1 key) (conj Hq (ex_intro _ seq (conj Hop Hh)))) as (p & ? & ?). exists p. auto.
      * destruct (decide (holds seen1 key seq)) as [H1|H1].
        -- apply (Hs1 _ _ (Hn2 _ _ Hop)) in H1 as [?|(p & ? & ?)]; [done|]. exists p. auto.
        -- destruct (proj2 (Hi2 key) (conj Hq (ex_intro _ seq (conj Hop H1)))) as (p & ? & ?). exists p. auto.
  - intros key seq Hn. rewrite (Hs2 _ _ Hn), (Hs1 _ _ Hn). setoid_rewrite elem_of_app. naive_solver.
Qed.

(** What a request or a connection has to show. *)
Definition open_request (handle : string) (s : inboxState) (r : inboxRequest) (key : string) (seq : Z) : Prop :=
  hook_kind s r <> "" /\ key = hook_key handle r (hook_kind s r) /\ seq = req_Seq r.
Definition quiet (h : hookInput) : bool := bool_decide (hi_Event h = "Stop") && hi_StopActive h.

(** A step that shows nothing, and one that shows an item. *)
Lemma shows_skip quiet seen op : (forall key seq, op key seq -> quiet = false -> holds seen key seq) -> shows quiet seen op ([], seen).
Proof.
  intros Ho. destruct (shows_none quiet seen) as [? Hi Hs]. split; [done| |done]. intros key. rewrite Hi.
  split; [intros (_ & ? & [] & _)|]. intros (Hq & seq & Hop & Hn). destruct Hn. by apply Ho.
Qed.
Lemma shows_item seen p seq : names (pi_Key p) seq -> ~ holds seen (pi_Key p) seq ->
  shows false seen (fun key' seq' => key' = pi_Key p /\ seq' = seq) ([p], <[pi_Key p := seq]> seen).
Proof.
  intros Hn Hs. split; simpl; [apply NoDup_singleton| |].
  - intros key. setoid_rewrite list_elem_of_singleton. naive_solver.
  - intros key seq' Hn'. setoid_rewrite list_elem_of_singleton. unfold holds in *.
    destruct (decide (pi_Key p = key)) as [<-|Hne].
    + rewrite lookup_insert_eq. simpl. split; [right; by exists p|]. intros _. by apply (names_fun (pi_Key p)).
    + rewrite lookup_insert_ne by done. naive_solver.
Qed.
Lemma shows_iff quiet seen op1 op2 out : (forall key seq, op1 key seq <-> op2 key seq) -> shows quiet seen op1 out -> shows quiet seen op2 out.
Proof.
  intros Ho [? Hi ?]. split; [done| |done]. intros key. rewrite Hi. apply and_iff_compat_l. apply exist_proper. intros seq. by rewrite Ho.
Qed.

Lemma open_names handle s r key seq : connectionHandle handle = true -> open_request handle s r key seq -> names key seq.
Proof. intros Hh (_ & -> & ->). by exists handle, r, (hook_kind s r). Qed.

Lemma requests_show h handle s l seen : connectionHandle handle = true ->
  shows (quiet h) seen (fun key seq => exists r, r ∈ l /\ open_request handle s r key seq) (hook_requests h handle s l seen).
Proof.
  intros Hh. revert seen. induction l as [|r l IH]; intros seen; simpl.
  - apply shows_skip. intros key seq (r & Hr & _). by apply not_elem_of_nil in Hr.
  - assert (forall seen1 items1, shows (quiet h) seen (open_request handle s r) (items1, seen1) ->
      shows (quiet h) seen (fun key seq => exists r', r' ∈ r :: l /\ open_request handle s r' key seq)
        (let '(items, seen2) := hook_requests h handle s l seen1 in (items1 ++ items, seen2))) as Hcons.
    { intros seen1 items1 H1. specialize (IH seen1). destruct (hook_requests h handle s l seen1) as [items seen2].
      eapply shows_iff; [|eapply shows_app; [| |exact H1|exact IH]].
      - intros key seq. cbv beta. setoid_rewrite elem_of_cons. naive_solver.
      - intros key seq. by apply open_names.
      - intros key seq (r' & _ & ?). by eapply open_names. }
    fold (quiet h). test E.
    + specialize (Hcons seen []). simpl in Hcons. destruct (hook_requests h handle s l seen). apply Hcons, shows_skip.
      intros key seq (Hk & -> & ->) Hq. rewrite Hq, orb_false_r in E.
      by apply orb_true_iff in E as [?%bool_decide_eq_true|?%bool_decide_eq_true].
    + apply orb_false_iff in E as [[E1%bool_decide_eq_false E2%bool_decide_eq_false]%orb_false_iff Eq].
      set (p := mkPending handle (req_Seq r) (hook_kind s r) (ev_Mentioned (req_Event r)) (hook_key handle r (hook_kind s r))).
      specialize (Hcons (<[pi_Key p := req_Seq r]> seen) [p]). destruct (hook_requests h handle s l _). apply Hcons. rewrite Eq.
      eapply shows_iff; [|apply shows_item; [|exact E2]]; [|by exists handle, r, (hook_kind s r)].
      intros key seq. unfold open_request. simpl. naive_solver.
Qed.

Definition open_work (files : inbox_files) (l : list pluginConnection) (key : string) (seq : Z) : Prop :=
  exists c s r, c ∈ l /\ hook_inbox files c = Some s /\ r ∈ st_Requests s /\ open_request (pc_Handle c) s r key seq.
Lemma connections_show h files l seen : Forall (fun c => connectionHandle (pc_Handle c) = true) l ->
  shows (quiet h) seen (open_work files l) (hook_connections h files l seen).
Proof.
  intros Hl. revert seen. induction Hl as [|c l Hc Hl IH]; intros seen; simpl.
  - apply shows_skip. intros key seq (c & s & r & Hc & _). by apply not_elem_of_nil in Hc.
  - assert (forall items1 seen1, shows (quiet h) seen (open_work files [c]) (items1, seen1) ->
      shows (quiet h) seen (open_work files (c :: l)) (let '(rest, seen2) := hook_connections h files l seen1 in (items1 ++ rest, seen2))) as Hcons.
    { intros items1 seen1 H1. specialize (IH seen1). destruct (hook_connections h files l seen1) as [rest seen2].
      assert (forall l key seq, Forall (fun c => connectionHandle (pc_Handle c) = true) l -> open_work files l key seq -> names key seq) as Hn.
      { intros l' key seq Hl' (c' & s & r & Hc' & _ & _ & Ho). rewrite Forall_forall in Hl'. eapply open_names; [by apply Hl'|done]. }
      eapply shows_iff; [|eapply shows_app; [| |exact H1|exact IH]].
      - intros key seq. unfold open_work. setoid_rewrite elem_of_cons. setoid_rewrite elem_of_nil. naive_solver.
      - intros key seq. apply Hn. by apply Forall_singleton.
      - intros key seq. by apply Hn. }
    destruct (hook_inbox files c) as [s|] eqn:Es.
    + pose proof (requests_show h _ s (st_Requests s) seen Hc) as Hr. destruct (hook_requests _ _ _ _ _) as [items1 seen1].
      apply Hcons. eapply shows_iff; [|exact Hr]. intros key seq. unfold open_work. setoid_rewrite list_elem_of_singleton. naive_solver.
    + apply Hcons, shows_skip. intros key seq (c' & s & r & Hc' & Es' & _). apply list_elem_of_singleton in Hc' as ->. congruence.
Qed.

(** ** The hook *)
Lemma session_connections_spec h v c :
  c ∈ session_connections h v <-> exists handle, load v handle = Ok c /\ hook_bound h c = true.
Proof.
  unfold session_connections. rewrite list_elem_of_filter, list_elem_of_omap. setoid_rewrite (merge_sort_Permutation String.le).
  setoid_rewrite elem_of_elements. setoid_rewrite elem_of_dom. split.
  - intros (Hb & handle & _ & E). exists handle. destruct (load v handle); by simplify_eq.
  - intros (handle & E & Hb). split; [done|]. exists handle. rewrite E. split; [|done].
    apply load_Ok in E as [E _]. by rewrite E.
Qed.
Lemma session_handles h v : Forall (fun c => connectionHandle (pc_Handle c) = true) (session_connections h v).
Proof.
  apply Forall_forall. intros c (handle & E & _)%session_connections_spec. pose proof (loaded_handle _ _ _ E).
  by destruct (load_Ok _ _ _ E) as [_ <-].
Qed.

(** The receipts of a session, and those a hook starts from. *)
Definition hook_state (hooks : hook_files) (key : string) : hookState :=
  match hooks !! key with Some (Saved s) => s | _ => mkHookState "" ∅ 0 end.

Section Runs.
Context (marshal : list json -> string).

(** A run that succeeds shows the open work of the session; one that fails shows nothing and
    leaves the receipts. *)
Lemma runHook_shows sc v files h hooks o items hooks' :
  runHook marshal sc v files h hooks = (o, items, hooks') ->
  (items = [] /\ hooks' = hooks /\ (is_ok o = true -> hook_runs h && hk_root sc = false)) \/
  (hook_runs h && hk_root sc = true /\ exists s', shows (quiet h) (hs_Seen (begin_hook h (hk_now sc) (hook_state hooks (session_key h))))
      (open_work files (session_connections h v)) (items, hs_Seen s') /\
    hs_TurnID s' = hs_TurnID (begin_hook h (hk_now sc) (hook_state hooks (session_key h))) /\
    (hooks' = <[session_key h := Saved s']> hooks \/ hooks' = hooks /\ items = [])).
Proof.
  unfold runHook. test E.
  - intros [= <- <- <-]. left. split_and!; [done..|]. intros _. by apply orb_true_iff in E as [E%negb_true_iff|E%negb_true_iff]; rewrite E, ?andb_false_r.
  - apply orb_false_iff in E as [E1%negb_false_iff E2%negb_false_iff]. rewrite E1, E2. destruct (hk_lock sc); [intros [= <- <- <-]; by left|].
    assert (match hooks !! session_key h with Some (Saved s) => s | _ => mkHookState "" ∅ 0 end = hook_state hooks (session_key h)) as Eh by done.
    revert Eh. destruct (hooks !! session_key h) as [[|s]|]; [intros _ [= <- <- <-]; by left|intros ->..].
    all: match goal with |- context [begin_hook ?a ?b ?s] => set (s0 := begin_hook a b s) end.
    all: pose proof (connections_show h files (session_connections h v) (hs_Seen s0) (session_handles h v)) as Hs.
    all: destruct (hook_connections _ _ _ _) as [shown seen]; set (write := _ || _); set (saving := if write then _ else None).
    all: destruct saving; [intros [= <- <- <-]; by left|]; intros [= <- <- <-]; right; split; [done|].
    all: exists (mkHookState (hs_TurnID s0) seen (hs_LastSeen s0)); split_and!; [exact Hs|done|].
    all: unfold write; destruct (bool_decide_reflect (shown = [])), (bool_decide _); simpl; by auto.
Qed.

(** A hook shows exactly the session's unseen open work. When a hook succeeds, the keys of the
    items it shows are those of the requests, in the readable inboxes of the connections that
    load from the vault and are bound to this very session, that have something to show - a
    runnable event, an approval still to be delivered, or a request that needs attention -
    and that the receipts it starts from do not hold; each key once. It shows nothing for a
    foreign or subordinate session, and nothing when the host reports that the stop is
    already a continuation. *)
Theorem hook_shows_exactly sc v files h hooks o items hooks' key :
  runHook marshal sc v files h hooks = (Ok o, items, hooks') ->
  NoDup (pi_Key <$> items) /\
  ((exists p, p ∈ items /\ pi_Key p = key) <->
   hook_runs h && hk_root sc = true /\ quiet h = false /\
   exists handle c s r, load v handle = Ok c /\ hook_bound h c = true /\ hook_inbox files c = Some s /\ r ∈ st_Requests s /\
     hook_kind s r <> "" /\ key = hook_key handle r (hook_kind s r) /\
     ~ holds (hs_Seen (begin_hook h (hk_now sc) (hook_state hooks (session_key h)))) key (req_Seq r)).
Proof.
  intros E. destruct (runHook_shows _ _ _ _ _ _ _ _ E) as [(-> & _ & Hno)|(Hrun & s' & [Hd Hi _] & _)].
  - specialize (Hno eq_refl). split; [constructor|]. rewrite Hno. split; [|by intros [? _]].
    intros (p & Hp & _). by apply not_elem_of_nil in Hp.
  - split; [exact Hd|]. simpl in Hi. rewrite Hi. split.
    + intros (Hq & seq & (c & s & r & Hc & Hs & Hr & Hk & -> & ->) & Hn). apply session_connections_spec in Hc as (handle & Hl & Hb).
      split_and!; [done..|]. exists handle, c, s, r. destruct (load_Ok _ _ _ Hl) as [_ <-]. done.
    + intros (_ & Hq & handle & c & s & r & Hl & Hb & Hs & Hr & Hk & -> & Hn). split; [done|]. exists (req_Seq r). split; [|done].
      exists c, s, r. destruct (load_Ok _ _ _ Hl) as [_ <-]. split_and!; [|done..]. apply session_connections_spec. eauto.
Qed.

(** ** Many runs *)
Record visit := mkVisit { vi_script : hook_script; vi_vault : vault; vi_files : inbox_files; vi_hook : hookInput }.
(** The items shown to one session while hooks of any session run. *)
Fixpoint run_hooks (key : string) (l : list visit) (hooks : hook_files) : list pendingItem :=
  match l with
  | [] => []
  | w :: l =>
      let '(_, items, hooks) := runHook marshal (vi_script w) (vi_vault w) (vi_files w) (vi_hook w) hooks in
      (if bool_decide (session_key (vi_hook w) = key) then items else []) ++ run_hooks key l hooks
  end.
(** The hook is of another session, or does not begin a turn of this one. *)
Definition same_turn (key turn : string) (w : visit) : Prop :=
  session_key (vi_hook w) = key -> hi_Event (vi_hook w) ∉ ["SessionStart"; "UserPromptSubmit"] /\
    (hi_TurnID (vi_hook w) = "" \/ hi_TurnID (vi_hook w) = turn).

Lemma begin_same_turn key turn w hooks now : same_turn key turn w -> session_key (vi_hook w) = key ->
  hs_TurnID (hook_state hooks key) = turn ->
  hs_Seen (begin_hook (vi_hook w) now (hook_state hooks key)) = hs_Seen (hook_state hooks key) /\
  hs_TurnID (begin_hook (vi_hook w) now (hook_state hooks key)) = turn.
Proof.
  intros Hw Hk Ht. destruct (Hw Hk) as [He Hi]. rewrite !not_elem_of_cons in He. destruct He as (He1 & He2 & _).
  unfold begin_hook, new_turn. simpl. rewrite Ht, !(bool_decide_eq_false_2 (hi_Event _ = _)) by done. simpl.
  destruct Hi as [->| ->]; [done|]. rewrite (bool_decide_eq_true_2 (turn = turn)) by done. rewrite andb_false_r.
  split; [done|]. by case_bool_decide.
Qed.

Lemma run_hooks_once key turn l hooks :
  Forall (same_turn key turn) l -> hs_TurnID (hook_state hooks key) = turn ->
  NoDup (pi_Key <$> run_hooks key l hooks) /\
  forall k, k ∈ pi_Key <$> run_hooks key l hooks -> exists seq, names k seq /\ ~ holds (hs_Seen (hook_state hooks key)) k seq.
Proof.
  revert hooks. induction l as [|w l IH]; intros hooks Hf Ht; simpl.
  - split; [constructor|]. intros k Hk. by apply not_elem_of_nil in Hk.
  - apply Forall_cons in Hf as [Hw Hf]. destruct (runHook _ _ _ _ _ _) as [[o items] hooks'] eqn:E.
    case_bool_decide as Hk; simpl.
    2: { assert (hook_state hooks' key = hook_state hooks key) as Eh.
         { destruct (runHook_shows _ _ _ _ _ _ _ _ E) as [(_ & -> & _)|(_ & s' & _ & _ & [->|[-> _]])]; [done| |done].
           unfold hook_state. by rewrite lookup_insert_ne. }
         rewrite <- Eh. apply IH; [done|by rewrite Eh]. }
    destruct (runHook_shows _ _ _ _ _ _ _ _ E) as [(-> & -> & _)|(_ & s' & Hs & Ht' & Hh)]; [by apply IH|].
    rewrite Hk in Hs, Ht', Hh. destruct (begin_same_turn _ _ _ hooks (hk_now (vi_script w)) Hw Hk Ht) as [Eb Eb'].
    rewrite Eb in Hs. rewrite Eb' in Ht'. destruct Hh as [->|[-> ->]]; [|by apply IH].
    assert (hook_state (<[key := Saved s']> hooks) key = s') as Es by (unfold hook_state; by rewrite lookup_insert_eq).
    destruct (IH (<[key := Saved s']> hooks) Hf ltac:(by rewrite Es)) as [Hd Hn]. rewrite Es in Hn.
    destruct Hs as [Hd1 Hi Hseen]. simpl in *. rewrite fmap_app. split.
    + apply NoDup_app. split_and!; [done| |done]. intros k (p & -> & Hp)%list_elem_of_fmap Hk2.
      destruct (Hn _ Hk2) as (seq & Hns & Hh). apply Hh, Hseen; [done|]. right. by exists p.
    + intros k [(p & -> & Hp)%list_elem_of_fmap|Hk2]%elem_of_app.
      * destruct (proj1 (Hi _) (ex_intro _ p (conj Hp eq_refl))) as (_ & seq & (c & s & r & Hc & _ & _ & Ho) & Hh).
        exists seq. split; [|done]. eapply open_names; [|done]. pose proof (session_handles (vi_hook w) (vi_vault w)) as Hf'.
        rewrite Forall_forall in Hf'. by apply Hf'.
      * destruct (Hn _ Hk2) as (seq & Hns & Hh). exists seq. split; [done|]. intros H'. apply Hh, Hseen; [done|by left].
Qed.

(** Within a turn nothing is shown twice. Run any sequence of hooks, of this session and of
    others, with files that may fail to lock or save and connections and inboxes that change
    in between: as long as no hook of the session starts a turn - no session start, no user
    prompt, no other turn id - the items shown to it have pairwise different keys. *)
Theorem hook_shows_once key turn l hooks :
  Forall (same_turn key turn) l -> hs_TurnID (hook_state hooks key) = turn ->
  NoDup (pi_Key <$> run_hooks key l hooks).
Proof. apply run_hooks_once. Qed.
End Runs.

(** ** The theorems at concrete inputs *)
(** A task with two messages; the second mentions its agent. *)
Definition hook_conn : pluginConnection := put_Joined (pc_Config waking_conn) "agent" "room" waking_conn.
Definition hook_vault : vault := {[waking_handle := Saved hook_conn]}.
Definition hook_message (seq : Z) (id : string) (mentions : list string) : inboxEvent :=
  mkEvent None None false None seq "message" "channel"
    (mkMessage "" None None None seq id "channel" "peer" "Peer" "please look" JNull [] mentions None 0).
Definition hook_world : inbox_files :=
  {[inboxPath hook_conn := Saved (mkState 1 2 [new_request (hook_message 1 "m1" []) "ready"; new_request (hook_message 2 "m2" ["agent"]) "ready"]
      None 2 None None None)]}.
Definition hook_of (event turn : string) (active : bool) : hookInput := mkHook "" (pc_CodexThreadID hook_conn) event turn "" active.
Definition works : hook_script := mkHookScript true None 5 None.
Definition plain_list (l : list json) : string := String.concat "," ((fun j => match j with JObj ((_, JStr c) :: _) => c | _ => "" end) <$> l).
Definition one_hook : result hook_output * list pendingItem * hook_files :=
  runHook plain_list works hook_vault hook_world (hook_of "PostToolUse" "turn" false) ∅.
Example one_hook_shows : (fun p => (pi_Seq p, pi_Kind p, pi_Mentioned p)) <$> one_hook.1.2 = [(1, "message", false); (2, "message", true)].
Proof. vm_compute. reflexivity. Qed.
Definition one_output : hook_output := match one_hook.1.1 with Ok o => o | Err _ => Nothing end.
Lemma one_hook_ok : one_hook.1.1 = Ok one_output.
Proof. vm_compute. reflexivity. Qed.
Lemma one_hook_eq : one_hook = (Ok one_output, one_hook.1.2, one_hook.2).
Proof. rewrite <- one_hook_ok. by destruct one_hook as [[]]. Qed.

Lemma hook_shows_exactly_witness :
  let h := hook_of "PostToolUse" "turn" false in
  let key := waking_handle +:+ ":1:message:0" in
  NoDup (pi_Key <$> one_hook.1.2) /\
  ((exists p, p ∈ one_hook.1.2 /\ pi_Key p = key) <->
   hook_runs h && hk_root works = true /\ quiet h = false /\
   exists handle c s r, load hook_vault handle = Ok c /\ hook_bound h c = true /\ hook_inbox hook_world c = Some s /\ r ∈ st_Requests s /\
     hook_kind s r <> "" /\ key = hook_key handle r (hook_kind s r) /\
     ~ holds (hs_Seen (begin_hook h (hk_now works) (hook_state ∅ (session_key h)))) key (req_Seq r)).
Proof.
  exact (hook_shows_exactly plain_list works hook_vault hook_world (hook_of "PostToolUse" "turn" false) ∅ one_output
    one_hook.1.2 one_hook.2 (waking_handle +:+ ":1:message:0") one_hook_eq).
Defined.

(** A tool, a stop and a continuation of it, in the turn of the saved receipts. *)
Definition hook_receipts : hook_files := {[session_key (hook_of "Stop" "turn" false) := Saved (mkHookState "turn" ∅ 1)]}.
Definition hook_visits : list visit :=
  mkVisit works hook_vault hook_world <$> [hook_of "PostToolUse" "turn" false; hook_of "Stop" "" false; hook_of "Stop" "turn" true].
Example hook_visits_show :
  length (run_hooks plain_list (session_key (hook_of "Stop" "turn" false)) hook_visits hook_receipts) = 2%nat.
Proof. vm_compute. reflexivity. Qed.
Lemma hook_visits_turn : Forall (same_turn (session_key (hook_of "Stop" "turn" false)) "turn") hook_visits.
Proof.
  unfold hook_visits. cbn [fmap list_fmap].
  repeat (apply Forall_cons; split; [intros _; simpl; split; [rewrite !not_elem_of_cons; split_and!; [done|done|apply not_elem_of_nil]|auto]|]).
  by constructor.
Qed.
Lemma hook_receipts_turn : hs_TurnID (hook_state hook_receipts (session_key (hook_of "Stop" "turn" false))) = "turn".
Proof. vm_compute. reflexivity. Qed.
Lemma hook_shows_once_witness :
  NoDup (pi_Key <$> run_hooks plain_list (session_key (hook_of "Stop" "turn" false)) hook_visits hook_receipts).
Proof. exact (hook_shows_once plain_list _ "turn" _ _ hook_visits_turn hook_receipts_turn). Defined.
