(* ===== verification/Background.v ===== *)
(** * The background of a connection

    Starting it once ([startBackground]), pairing ([connectionEvent], [connectionPeers]), what
    is said of it ([status], [plugin_background.go]; [addHarnessReadiness], [harness.go];
    [addListenerReadiness], [plugin_wait.go]), the listener's wait ([waitInbox]) and the
    presence of the agent ([presence.go]). *)
From stdpp Require Import sorting.
From S2P Require Import Prelude GoStrings Json Types Crypto Roster Metadata InboxState Inbox InboxControl Dispatch Protocol.
From S2P Require Import Encryption Broker Delivery Hooks Connect.

(** ** Starting ([startBackground]) *)
(** The goroutines of a handle; [Heartbeat] is [runPresence]. *)
Inductive goroutine := Heartbeat (c : Config) | Streaming | Dispatching | Outbox.
(** [stopped], [workers], [hostPresence] and the inboxes that have their listener in the background;
    and the goroutines that were started, in order. *)
Record hostPresence := mkPresence { hp_Available : bool; hp_SeenAt : Z }.
Record process := mkProcess {
  ps_stopped : bool; ps_workers : gset string; ps_background : gset string; ps_presence : gmap string hostPresence;
  ps_started : list (string * goroutine) }.
Definition begin_work (h : string) (l : list goroutine) (p : process) : process :=
  mkProcess (ps_stopped p) ({[h]} ∪ ps_workers p) ({[h]} ∪ ps_background p) (ps_presence p) (ps_started p ++ (pair h <$> l)).
Definition stop (p : process) : process := mkProcess true (ps_workers p) (ps_background p) (ps_presence p) (ps_started p).
(** [inbox]: the outcome of [getInbox]. *)
Definition startBackground (inbox : option string) (v : vault) (c : pluginConnection) (p : process) : option string * process :=
  match inbox with
  | Some e => (Some e, p)
  | None =>
      if ps_stopped p then (Some "plugin is shutting down", p) else
      if bool_decide (pc_Handle c ∈ ps_workers p) then (None, p) else
      match load v (pc_Handle c) with
      | Err e => (Some e, p)
      | Ok saved =>
          (None, begin_work (pc_Handle c)
             ((if Supports (pc_Protocol saved) "presence" then [Heartbeat (pc_Config saved)] else []) ++ [Streaming; Dispatching; Outbox]) p)
      end
  end.

(** ** Pairing ([connectionEvent]) *)
Record directoryAgent := mkDirectory {
  da_ID : string; da_Name : string; da_Profile : string; da_Status : string; da_LastSeenAt : option Z; da_ExpiresAt : option Z; da_Revoked : bool }.
(** In a connection with keys, names the server gives are not shown. *)
Definition peer_of (c : pluginConnection) (a : directoryAgent) : pairedPeer :=
  mkPeer (da_ID a) (if bool_decide (cfg_CryptoPath (pc_Config c) = "") then da_Name a else da_ID a) (da_Profile a) (da_Status a)
    (da_LastSeenAt a) (da_ExpiresAt a).
Fixpoint peers_of (c : pluginConnection) (l : list directoryAgent) (peers : gmap string pairedPeer) : gmap string pairedPeer :=
  match l with
  | [] => peers
  | a :: l => peers_of c l (if da_Revoked a then peers else <[da_ID a := peer_of c a]> peers)
  end.
Definition connectionPeers (answer : result (list directoryAgent)) (c : pluginConnection) : result (gmap string pairedPeer) :=
  l ← answer; Ok (peers_of c l ∅).

Definition connection_kind (m : Message) : option string :=
  decode_object [("tincan_connection", fun v old => decode_string v old)] (msg_Metadata m) "".
Definition acknowledgement (c : pluginConnection) (m : Message) : SendInput :=
  let name := if bool_decide (cfg_CryptoPath (pc_Config c) = "") then msg_AgentName m else msg_AgentID m in
  mkSendInput None (pc_ChannelID c) (pc_Name c +:+ " acknowledges " +:+ name +:+ ". Both connections are in this room.") "" ""
    (JObj [("tincan_connection", JStr "ack"); ("tincan_listener", JBool true)]) [] [] (Some (msg_ID m)) ("connection_ack_" +:+ msg_ID m).
Inductive event_action := Acknowledge (m : SendInput) | Paired (handle agent name : string) (peer : pairedPeer).
(** The outcome of the post, the directory of agents, the save, and the delivery of the notice;
    whether anybody is to be notified. *)
Record event_script := mkEventScript {
  ev_post : option string; ev_agents : result (list directoryAgent); ev_save : option string; ev_deliver : option string; ev_notifies : bool }.
Definition connectionEvent (root : string) (sc : event_script) (v : vault) (c : pluginConnection) (event : inboxEvent)
    : option string * list event_action * vault :=
  let m := ev_Payload event in
  if negb (bool_decide (ev_Kind event = "message")) || bool_decide (msg_AgentID m = pc_AgentID c)
     || negb (bool_decide (msg_ChannelID m = pc_ChannelID c)) then (None, [], v) else
  match connection_kind m with
  | None => (None, [], v)
  | Some kind =>
      if bool_decide (kind = "hello") then (ev_post sc, [Acknowledge (acknowledgement c m)], v) else
      if negb (bool_decide (kind = "ack")) || negb (bool_decide (msg_ReplyTo m = Some (pc_HelloID c))) then (None, [], v) else
      match connectionPeers (ev_agents sc) c with
      | Err e => (Some e, [], v)
      | Ok profiles =>
          match profiles !! msg_AgentID m with
          | None => (None, [], v)
          | Some peer =>
              match record_peer root (ev_save sc) v (pc_Handle c) (msg_AgentID m) peer with
              | (Some e, v) => (Some e, [], v)
              | (None, v) =>
                  if ev_notifies sc then (ev_deliver sc, [Paired (pc_Handle c) (pc_AgentID c) (pc_Name c) peer], v) else (None, [], v)
              end
          end
      end
  end.

(** ** What is said of a connection *)
Definition set_peer (name presence : string) (seen expires : option Z) (p : pairedPeer) : pairedPeer :=
  mkPeer (pe_ID p) name (pe_Profile p) presence seen expires.
(** A saved peer, as the directory has it now; offline without its presence; left out when the
    directory no longer has it. *)
Definition shown_peer (c : pluginConnection) (current : result (gmap string pairedPeer)) (p : pairedPeer) : option pairedPeer :=
  let name := if bool_decide (cfg_CryptoPath (pc_Config c) = "") then pe_Name p else pe_ID p in
  match current with
  | Ok l => l !! pe_ID p
  | Err _ => Some (set_peer name "unknown" None None p)
  end.
(** (The order of a Go map is any.) *)
Definition status_peers (c : pluginConnection) (current : result (gmap string pairedPeer)) : list pairedPeer :=
  omap (shown_peer c current) ((map_to_list (pc_Paired c)).*2).
Definition own_presence (c : pluginConnection) (current : result (gmap string pairedPeer)) : string :=
  let self := match current with Ok l => l !! pc_AgentID c | Err _ => None end in
  match self with Some p => if bool_decide (pe_Presence p = "") then "unknown" else pe_Presence p | None => "unknown" end.
Definition stream_state (i : option inbox) : string :=
  match i with
  | None => "starting"
  | Some i => if negb (bool_decide (ib_streamError i = "")) then "reconnecting" else if ib_streaming i then "streaming" else "starting"
  end.

(** The process and its surroundings: [b.host], [b.native], whether [b.notify] is set, the hook
    session's file, the lease and lock of a waiting Claude hook, the inbox in this process, and
    the time. *)
Record surroundings := mkSurroundings {
  sr_host : string; sr_native : bool; sr_notify : bool; sr_hooks : option (saved hookState); sr_lease : option (saved Z); sr_lock : lock_state;
  sr_inbox : option inbox; sr_now : Z }.
(** [view["delivery"]], [view["idle_wake"]], and [required] of [view["delegated_listener"]]. *)
Record readiness := mkReadiness { rd_delivery : string; rd_idle_wake : bool; rd_required : bool }.
Definition deliver_by (d : string) (wake : bool) (r : readiness) : readiness := mkReadiness d wake (rd_required r).
Definition PresenceTTL : Z := 90 * 10 ^ 9.
Definition fresh_host (p : process) (h : string) (now : Z) : bool :=
  match ps_presence p !! h with Some x => hp_Available x && (now - hp_SeenAt x <? PresenceTTL) | None => false end.
Definition recent_hooks (x : surroundings) : bool :=
  match sr_hooks x with Some (Saved h) => negb (hs_LastSeen h =? 0) && (sr_now x - hs_LastSeen h <? day) | _ => false end.
Definition view_host (x : surroundings) (c : pluginConnection) : string :=
  if bool_decide (pc_HookHost c = "") then sr_host x else pc_HookHost c.
Definition addListenerReadiness (x : surroundings) (p : process) (c : pluginConnection) (r : readiness) : readiness :=
  if negb (Contains ["codex"; "claude"; "cursor"; "copilot"] (view_host x c)) then r else
  let waiter := delegatedListener (ps_stopped p) (sr_inbox x) (sr_now x) in
  let required := negb (pc_Worker c) && bool_decide (pc_PendingJoin c = None)
                  && (negb (bool_decide (pc_CodexThreadID c = "")) || negb (bool_decide (pc_HookSessionID c = "")))
                  && negb (rd_idle_wake r) && bool_decide (waiter = None) in
  mkReadiness (if negb (rd_idle_wake r) && negb (bool_decide (waiter = None)) then "delegated_listener" else rd_delivery r) (rd_idle_wake r) required.
Definition addHarnessReadiness (x : surroundings) (p : process) (c : pluginConnection) (r : readiness) : readiness :=
  let other := negb (sr_native x) && negb (bool_decide (sr_host x = "codex")) in
  let r := if sr_notify x && other && negb (ps_stopped p) && fresh_host p (pc_Handle c) (sr_now x) then deliver_by "host_callback" true r else r in
  let r := if negb (bool_decide (pc_HookSessionID c = "")) && other && recent_hooks x then deliver_by "hooks" false r else r in
  let r := if bool_decide (view_host x c = "claude") && claudeWakeArmed c (sr_lease x) (sr_now x) (sr_lock x)
           then deliver_by "claude_async_rewake" true r else r in
  addListenerReadiness x p c r.

(** The delivery of a status; [hooks] is the file of the task's hooks. *)
Definition status_delivery (x : surroundings) (p : process) (o : outlet) (hooks : option (saved hookState)) (c : pluginConnection) : readiness :=
  let d := deliverySnapshot (pc_Handle c) o in
  let d := if bool_decide (sr_host x = "codex") && negb (dl_IdleWake d)
           then fallbackDelivery (delegatedListener (ps_stopped p) (sr_inbox x) (sr_now x)) hooks (sr_now x) d else d in
  let delivery := if bool_decide (sr_host x = "codex") then dl_Method d else "background_queue" in
  mkReadiness (if sr_native x then "claude_channel_requires_host_opt_in" else delivery) (dl_IdleWake d) false.
Record status_view := mkStatus {
  sv_peers : list pairedPeer; sv_paired : bool; sv_presence : string; sv_presence_error : string; sv_listening : bool; sv_delivery : readiness;
  sv_stream_state : string; sv_readiness : string }.
Definition facts_of (listening : bool) (r : readiness) : view_facts :=
  mkFacts false listening (rd_idle_wake r) (rd_required r) (rd_delivery r).
Definition status_of (x : surroundings) (p : process) (o : outlet) (hooks : option (saved hookState)) (answer : result (list directoryAgent))
    (c : pluginConnection) : status_view :=
  let current := connectionPeers answer c in
  let peers := status_peers c current in
  let running := bool_decide (pc_Handle c ∈ ps_workers p) && negb (ps_stopped p) in
  let r := addHarnessReadiness x p c (status_delivery x p o hooks c) in
  mkStatus peers (negb (bool_decide (peers = []))) (own_presence c current) (match current with Err e => e | Ok _ => "" end) running r
    (stream_state (sr_inbox x)) (connectionReadiness (facts_of running r)).
(** [None]: the view of a join that waits. *)
Definition status (x : surroundings) (p : process) (o : outlet) (hooks : option (saved hookState)) (answer : result (list directoryAgent))
    (v : vault) (handle : string) : result (option status_view) :=
  c ← load v handle;
  Ok (if bool_decide (pc_PendingJoin c = None) then Some (status_of x p o hooks answer c) else None).

Definition deliveryPriorities (x : surroundings) : list string :=
  if bool_decide (sr_host x = "codex") then ["experimental_mcp"; "codex_app_server"; "codex_queue"; "delegated_listener"; "hooks"; "durable_inbox"]
  else if bool_decide (sr_host x = "codex-worker") then ["owned_codex_worker"; "durable_inbox"]
  else if sr_native x then ["claude_async_rewake"; "claude_channel"; "delegated_listener"; "hooks"; "durable_inbox"]
  else if sr_notify x then ["host_callback"; "durable_inbox"]
  else if bool_decide (sr_host x = "claude") then ["claude_async_rewake"; "delegated_listener"; "hooks"; "durable_inbox"]
  else if Contains ["cursor"; "copilot"] (sr_host x) then ["delegated_listener"; "hooks"; "durable_inbox"]
  else ["durable_inbox"].

(** ** The listener of a connection ([waitInbox]) *)
Definition bound_parent (c : pluginConnection) : string :=
  if bool_decide (pc_CodexThreadID c = "") && Contains ["claude"; "cursor"; "copilot"] (pc_HookHost c) then pc_HookSessionID c else pc_CodexThreadID c.
(** Up to the wait itself, with its duration. *)
Definition waitInbox (v : vault) (p : process) (inboxes : gmap string inbox) (handle worker : string) (seconds : Z) : result (inbox * Z) :=
  if negb (seconds =? 0) && ((seconds <? 1) || (maxInboxWait / 10 ^ 9 <? seconds)) then Err "wait_seconds must be between 1 and 3600" else
  let duration := if seconds =? 0 then defaultInboxWait else seconds * 10 ^ 9 in
  c ← load v handle;
  let bound := bound_parent c in
  if pc_Worker c || negb (bool_decide (pc_PendingJoin c = None)) || bool_decide (bound = "") || bool_decide (worker = bound)
  then Err "inbox_wait requires a native child of this connection's bound parent; owned workers and unbound sessions cannot use it" else
  if ps_stopped p then Err "plugin is shutting down" else
  match inboxes !! pc_Handle c with
  | Some i => if bool_decide (pc_Handle c ∈ ps_workers p) then Ok (i, duration) else Err "the parent's background inbox is unavailable in this process"
  | None => Err "the parent's background inbox is unavailable in this process"
  end.

(** ** Presence *)
Definition hostStatus (v : vault) (handle : string) (available : bool) (now : Z) (p : process) : option string * process :=
  match load v handle with
  | Err e => (Some e, p)
  | Ok _ =>
      if ps_stopped p then (Some "plugin is shutting down", p) else
      (None, mkProcess (ps_stopped p) (ps_workers p) (ps_background p) (<[handle := mkPresence available now]> (ps_presence p)) (ps_started p))
  end.
(** What the probe of a task's runtime, and of its queue, answers. *)
Definition runtimeAvailable (x : surroundings) (p : process) (o : outlet) (probe queue : option string) (v : vault) (c : pluginConnection) : bool :=
  if ps_stopped p then false else
  if bool_decide (sr_host x = "codex") then
    match load v (pc_Handle c) with
    | Err _ => false
    | Ok c =>
        let d := deliverySnapshot (pc_Handle c) o in
        if bool_decide (dl_Method d = "codex_app_server") && dl_IdleWake d then bool_decide (probe = None) else bool_decide (queue = None)
    end
  else if bool_decide (sr_host x = "codex-worker") then sr_notify x
  else
    (bool_decide (pc_HookHost c = "claude")
     && match load v (pc_Handle c) with Ok c => claudeWakeArmed c (sr_lease x) (sr_now x) (sr_lock x) | Err _ => false end)
    || fresh_host p (pc_Handle c) (sr_now x).

(** [runPresence]: the rounds of a session of presence, each with whether its context had ended
    before the probe, what the probe found, and whether it had ended after it. *)
Inductive heartbeat := Beat (session : string) (available : bool) | Gone (session : string).
Record presence_round := mkRound { pr_over : bool; pr_ready : option bool; pr_ends : bool }.
Fixpoint beats (session : string) (l : list presence_round) : list heartbeat :=
  match l with
  | [] => []
  | r :: l => if pr_over r || pr_ends r then [] else Beat session (default false (pr_ready r)) :: beats session l
  end.
Definition runPresence (random : string) (l : list presence_round) : list heartbeat :=
  let session := ID "ps_" random in beats session l ++ [Gone session].
