(* ===== verification/BackgroundTheorems.v ===== *)
(** * The background of a connection: properties

    It is started once; a greeting is answered, and its acknowledgement pairs; what is said to be
    ready can be woken;
    and a listener is a child of the task. *)
From S2P Require Import Prelude GoStrings Json Types Crypto Roster Metadata InboxState Inbox InboxControl Dispatch Protocol.
From S2P Require Import Encryption Scenario Broker BrokerTheorems RoomsTheorems Delivery Hooks Connect Background.
From S2P Require Import DeliveryTheorems.

(** ** Starting *)
Inductive background_step : process -> process -> Prop :=
| Start inbox v c p err p' : startBackground inbox v c p = (err, p') -> background_step p p'
| Report v handle available now p err p' : hostStatus v handle available now p = (err, p') -> background_step p p'
| Stop p : background_step p (stop p).
Definition nothing_running : process := mkProcess false ∅ ∅ ∅ [].
Definition of_handle (h : string) (p : process) : list goroutine := snd <$> filter (fun x => x.1 = h) (ps_started p).
Definition started_once (p : process) : Prop := forall h,
  if decide (h ∈ ps_workers p) then exists beat, (length beat <= 1)%nat /\ of_handle h p = beat ++ [Streaming; Dispatching; Outbox]
  else of_handle h p = [].
Lemma of_handle_begin h h' l p : of_handle h (begin_work h' l p) = of_handle h p ++ (if decide (h' = h) then l else []).
Proof.
  unfold of_handle, begin_work. cbn. rewrite filter_app, fmap_app. f_equal. induction l as [|r l IH]; cbn; [by case_decide|].
  destruct (decide (h' = h)); [apply (f_equal (cons r) IH)|exact IH].
Qed.
Lemma step_started p p' : background_step p p' -> started_once p -> started_once p'.
Proof.
  intros Hstep Hp. destruct Hstep as [inbox v c p err p' Hs|v handle available now p err p' Hs|p]; [| |exact Hp].
  - unfold startBackground in Hs. destruct inbox; [by injection Hs as _ <-|]. destruct (ps_stopped p); [by injection Hs as _ <-|].
    case_bool_decide as Hin; [by injection Hs as _ <-|]. destruct (load v (pc_Handle c)) as [saved|e]; injection Hs as _ <-; [|done].
    intros h. rewrite of_handle_begin. specialize (Hp h). cbn. destruct (decide (pc_Handle c = h)) as [<-|Hne].
    + rewrite decide_True by set_solver. rewrite decide_False in Hp by done. rewrite Hp. cbn.
      eexists. split; [|done]. by destruct (Supports _ _); cbn; lia.
    + rewrite app_nil_r. destruct (decide (h ∈ ps_workers p)); [rewrite decide_True by set_solver|rewrite decide_False by set_solver]; done.
  - unfold hostStatus in Hs. destruct (load v handle); [|by injection Hs as _ <-]. destruct (ps_stopped p); by injection Hs as _ <-.
Qed.
(** However often its tools start the background of a connection, from whatever calls at the same
    time, a process runs one stream, one dispatcher and one outbox of it, and at most one
    heartbeat; and none is started after it began to shut down. *)
Theorem background_starts_once p : rtc background_step nothing_running p ->
  started_once p /\ forall p', ps_stopped p = true -> rtc background_step p p' -> ps_started p' = ps_started p.
Proof.
  intros Hr. split.
  - assert (started_once nothing_running) as Hn by done.
    revert Hn Hr. generalize nothing_running. intros q Hq Hr. induction Hr as [q|q q1 p Hs _ IH]; [done|]. apply IH. by eapply step_started.
  - intros p' Hstop Hr'. clear Hr. induction Hr' as [p|p p1 p' Hs _ IH]; [done|].
    assert (ps_stopped p1 = true /\ ps_started p1 = ps_started p) as [Hp1 Heq]; [|by rewrite IH].
    destruct Hs as [inbox v c p err p1 Hs|v handle available now p err p1 Hs|p]; [| |done].
    + unfold startBackground in Hs. rewrite Hstop in Hs. by destruct inbox; injection Hs as _ <-.
    + unfold hostStatus in Hs. rewrite Hstop in Hs. by destruct (load v handle); injection Hs as _ <-.
Qed.

(** ** Pairing *)
Lemma peers_of_spec c l peers h p : peers_of c l peers !! h = Some p ->
  peers !! h = Some p \/ exists a, a ∈ l /\ da_Revoked a = false /\ da_ID a = h /\ p = peer_of c a.
Proof.
  revert peers. induction l as [|a l IH]; intros peers; cbn; [by left|]. intros [Hp|(x & Hx & Hr & Hid & Hp)]%IH.
  - destruct (da_Revoked a) eqn:Hr; [by left|]. destruct (decide (da_ID a = h)) as [<-|Hne].
    + rewrite lookup_insert_eq in Hp. injection Hp as <-. right. exists a. split; [left|done].
    + rewrite lookup_insert_ne in Hp by done. by left.
  - right. exists x. split; [by right|done].
Qed.
Lemma peers_of_none c l peers h : peers_of c l peers !! h = None ->
  forall a, a ∈ l -> da_ID a = h -> da_Revoked a = true.
Proof.
  revert peers. induction l as [|a l IH]; intros peers; cbn; intros Hn x Hx Hid; [by apply elem_of_nil in Hx|].
  apply elem_of_cons in Hx as [->|Hx]; [|by eapply IH]. destruct (da_Revoked a) eqn:Hr; [done|]. exfalso.
  assert (forall q, q !! h <> None -> peers_of c l q !! h <> None) as Hkeep; [|eapply Hkeep; [|exact Hn]; by rewrite Hid, lookup_insert_eq].
  clear. induction l as [|a l IH]; intros q Hq; cbn; [done|]. apply IH. destruct (da_Revoked a); [done|].
  destruct (decide (da_ID a = h)) as [<-|Hne]; [by rewrite lookup_insert_eq|by rewrite lookup_insert_ne].
Qed.
Lemma record_peer_cases root io v h agent p e v' : record_peer root io v h agent p = (e, v') ->
  match e with
  | Some _ => v' = v
  | None => exists d, load v' h = Ok d /\ pc_Paired d !! agent = Some p
  end.
Proof.
  unfold record_peer. destruct (load v h) as [c|e0] eqn:Hl; [|by intros [= <- <-]]. destruct (load_Ok _ _ _ Hl) as [Hc Hh].
  unfold save. cbn. destruct (connectionHandle (pc_Handle c)) eqn:Hch; cbn; [|by intros [= <- <-]].
  destruct io; intros [= <- <-]; [done|]. eexists. unfold load in Hl |- *. rewrite Hh, <- Hh, Hch in *. cbn in *.
  rewrite lookup_insert_eq. rewrite Hc in Hl. destruct (_ || _) eqn:E in Hl; [done|]. cbn. rewrite E. split; [done|]. cbn. by rewrite lookup_insert_eq.
Qed.

(** C17. A greeting is answered, and a peer is paired by answering. A greeting of another agent, in the
    connection's own channel, is answered, always, in that channel, under a key that is the
    greeting's, so that answering it again posts nothing new; a post that fails is the event's
    error. An acknowledgement of this connection's own greeting, from another agent in that
    channel, pairs that agent exactly when the server's directory has it and has not revoked it:
    the saved connection then has the directory's entry - with the agent's identifier instead
    of its name when the connection has keys -, and the model is told when somebody is to be
    notified; a directory that cannot be asked or a save that fails is the event's error, with
    nothing recorded and nothing told. Any other event does nothing. *)
Theorem pairing_answers_the_greeting root sc v c event err actions v' :
  connectionEvent root sc v c event = (err, actions, v') ->
  let m := ev_Payload event in
  let from_peer := ev_Kind event = "message" /\ msg_ChannelID m = pc_ChannelID c /\ msg_AgentID m <> pc_AgentID c in
  let greets := from_peer /\ connection_kind m = Some "hello" in
  let acknowledges := from_peer /\ connection_kind m = Some "ack" /\ msg_ReplyTo m = Some (pc_HelloID c) in
  (greets -> err = ev_post sc /\ v' = v /\
     exists answer, actions = [Acknowledge answer] /\ si_ChannelID answer = msg_ChannelID m /\ si_ReplyTo answer = Some (msg_ID m) /\
       si_IdempotencyKey answer = "connection_ack_" +:+ msg_ID m /\
       si_Metadata answer = JObj [("tincan_connection", JStr "ack"); ("tincan_listener", JBool true)]) /\
  (acknowledges ->
     match ev_agents sc with
     | Err e => err = Some e /\ actions = [] /\ v' = v
     | Ok l =>
         ((forall a, a ∈ l -> da_ID a = msg_AgentID m -> da_Revoked a = true) /\ err = None /\ actions = [] /\ v' = v) \/
         (exists a, a ∈ l /\ da_Revoked a = false /\ da_ID a = msg_AgentID m /\
            (cfg_CryptoPath (pc_Config c) <> "" -> pe_Name (peer_of c a) = msg_AgentID m) /\
            match (record_peer root (ev_save sc) v (pc_Handle c) (msg_AgentID m) (peer_of c a)).1 with
            | Some e => err = Some e /\ actions = [] /\ v' = v
            | None =>
                (exists d, load v' (pc_Handle c) = Ok d /\ pc_Paired d !! msg_AgentID m = Some (peer_of c a)) /\
                (if ev_notifies sc then actions = [Paired (pc_Handle c) (pc_AgentID c) (pc_Name c) (peer_of c a)] /\ err = ev_deliver sc
                 else actions = [] /\ err = None)
            end)
     end) /\
  (~ greets -> ~ acknowledges -> err = None /\ actions = [] /\ v' = v).
Proof.
  intros Hr m from_peer greets acknowledges. unfold connectionEvent in Hr. fold m in Hr.
  destruct (negb _ || _ || _) eqn:Hfrom.
  { injection Hr as <- <- <-. assert (~ from_peer) as Hno; [|by (split_and!; [intros []|intros []|])].
    intros (H1 & H2 & H3). by rewrite (bool_decide_eq_true_2 _ H1), (bool_decide_eq_false_2 _ H3), (bool_decide_eq_true_2 _ H2) in Hfrom. }
  assert from_peer as Hpeer.
  { unfold from_peer. clear -Hfrom. by bool_simpl. }
  unfold greets, acknowledges.
  destruct (connection_kind m) as [kind|]; [|injection Hr as <- <- <-; by (split_and!; [intros []|intros (? & ? & ?)|])].
  case_bool_decide as Hhello.
  { injection Hr as <- <- <-. subst kind. split_and!; [|by intros (? & [=] & ?)|by intros []]. intros _. split_and!; [done|done|].
    eexists. split; [done|]. split_and!; try done. cbn. symmetry. apply Hpeer. }
  split; [by intros (_ & [= ->])|].
  destruct (negb _ || negb _) eqn:Hack.
  { injection Hr as <- <- <-. split; [|done]. intros (_ & [= ->] & Hrep).
    by rewrite (bool_decide_eq_true_2 _ Hrep), (bool_decide_eq_true_2 ("ack" = "ack")) in Hack. }
  assert (kind = "ack" /\ msg_ReplyTo m = Some (pc_HelloID c)) as [-> Hreply] by (clear -Hack; bool_simpl; done).
  split; [intros _|by intros _ []]. unfold connectionPeers in Hr. destruct (ev_agents sc) as [l|e]; cbn [mbind result_bind] in Hr; [|by injection Hr as <- <- <-].
  destruct (peers_of c l ∅ !! msg_AgentID m) as [peer|] eqn:Hp.
  2:{ injection Hr as <- <- <-. left. split_and!; [|done..]. by eapply peers_of_none. }
  apply peers_of_spec in Hp as [Hp|(a & Ha & Hrev & Hid & ->)]; [by rewrite lookup_empty in Hp|].
  right. exists a. split_and!; [done..|intros Hk; cbn; by rewrite bool_decide_eq_false_2|].
  destruct (record_peer _ _ _ _ _ _) as [[e|] v2] eqn:Hrec; apply record_peer_cases in Hrec; cbn.
  - by injection Hr as <- <- <-.
  - destruct (ev_notifies sc); by injection Hr as <- <- <-.
Qed.

(** ** Readiness *)
(** What wakes an idle agent. *)
Definition wakes (x : surroundings) (p : process) (o : outlet) (c : pluginConnection) : Prop :=
  dl_IdleWake (deliverySnapshot (pc_Handle c) o) = true \/
  (sr_notify x = true /\ fresh_host p (pc_Handle c) (sr_now x) = true) \/
  claudeWakeArmed c (sr_lease x) (sr_now x) (sr_lock x) = true.
Lemma ready_facts f : connectionReadiness f = "ready" <-> vf_setup_error f = false /\ vf_idle_wake f = true /\ vf_listening f = true.
Proof.
  unfold connectionReadiness. destruct f as [[] [] [] [] d]; cbn; try case_bool_decide; intuition congruence.
Qed.
Lemma listener_idle x p c r : rd_idle_wake (addListenerReadiness x p c r) = rd_idle_wake r.
Proof. unfold addListenerReadiness. by destruct (negb _). Qed.
Lemma ready_wakes x p o hooks answer c : sv_readiness (status_of x p o hooks answer c) = "ready" ->
  sv_listening (status_of x p o hooks answer c) = true /\ wakes x p o c.
Proof.
  unfold status_of. cbn zeta. cbn [sv_readiness sv_listening]. intros (_ & Hwake & Hl)%ready_facts. split; [exact Hl|].
  cbn [facts_of vf_idle_wake] in Hwake. unfold addHarnessReadiness in Hwake. cbv zeta in Hwake. rewrite listener_idle in Hwake. unfold wakes.
  destruct (claudeWakeArmed _ _ _ _); [by auto|]. rewrite andb_false_r in Hwake.
  set (base := status_delivery x p o hooks c) in *. destruct (_ && _ && recent_hooks x); [done|].
  destruct (sr_notify x) eqn:Hn, (fresh_host p (pc_Handle c) (sr_now x)) eqn:Hf; [by auto| | |];
    rewrite ?andb_false_r, ?andb_false_l in Hwake; cbn [deliver_by rd_idle_wake andb] in Hwake;
    (left; unfold base, status_delivery in Hwake; cbv zeta in Hwake; cbn [rd_idle_wake] in Hwake;
     destruct (bool_decide _ && _); [|exact Hwake];
     pose proof (fallback_sleeps (delegatedListener (ps_stopped p) (sr_inbox x) (sr_now x)) hooks (sr_now x) (deliverySnapshot (pc_Handle c) o)) as He;
     congruence).
Qed.

(** ** Listeners and presence *)
(** Only a child of the task may wait, and for at most an hour. *)
Lemma wait_is_for_children v p inboxes handle worker seconds i duration :
  waitInbox v p inboxes handle worker seconds = Ok (i, duration) ->
  10 ^ 9 <= duration <= maxInboxWait /\ exists c, load v handle = Ok c /\ pc_Worker c = false /\ pc_PendingJoin c = None /\
    bound_parent c <> "" /\ worker <> bound_parent c /\ inboxes !! pc_Handle c = Some i /\ pc_Handle c ∈ ps_workers p /\ ps_stopped p = false.
Proof.
  unfold waitInbox. destruct (negb (seconds =? 0) && _) eqn:Hs; [done|]. destruct (load v handle) as [c|e]; [|done].
  unfold mbind, result_bind. destruct (_ || _ || _ || _) eqn:Hc; [done|]. destruct (ps_stopped p) eqn:Hst; [done|].
  destruct (inboxes !! pc_Handle c) as [i'|] eqn:Hi; [|done]. destruct (bool_decide (_ ∈ ps_workers p)) eqn:Hw; [|done]. intros [= <- <-]. split.
  - unfold maxInboxWait, defaultInboxWait in *. change (3600 * 10 ^ 9 / 10 ^ 9) with 3600 in Hs. destruct (Z.eqb_spec seconds 0); [lia|]. cbn in Hs.
    apply orb_false_iff in Hs. lia.
  - exists c. clear -Hc Hi Hw Hst. bool_simpl. split_and!; done.
Qed.
(** A session of presence ends with its removal, and is never reported available without a probe
    that found it so. *)
Lemma presence_ends random l : exists beats, runPresence random l = beats ++ [Gone (ID "ps_" random)] /\
  Forall (fun x => exists r, x = Beat (ID "ps_" random) (bool_decide (pr_ready r = Some true)) /\ r ∈ l) beats.
Proof.
  eexists. split; [done|]. induction l as [|r l IH]; [done|]. cbn. destruct (_ || _); [done|]. constructor.
  - exists r. split; [|left]. by destruct (pr_ready r) as [[]|].
  - eapply Forall_impl; [exact IH|]. intros x (r' & -> & Hr). exists r'. split; [done|by right].
Qed.
(** A host that is not the task's runtime counts as available for 90 seconds after it said so. *)
Lemma availability_expires x p o probe queue v c : sr_host x <> "codex" -> sr_host x <> "codex-worker" ->
  runtimeAvailable x p o probe queue v c = true -> claudeWakeArmed c (sr_lease x) (sr_now x) (sr_lock x) = true \/ fresh_host p (pc_Handle c) (sr_now x) = true \/
    exists c', load v (pc_Handle c) = Ok c' /\ claudeWakeArmed c' (sr_lease x) (sr_now x) (sr_lock x) = true.
Proof.
  intros H1 H2. unfold runtimeAvailable. destruct (ps_stopped p); [done|]. rewrite (bool_decide_eq_false_2 _ H1), (bool_decide_eq_false_2 _ H2).
  intros [Ha|Hf]%orb_true_iff; [|by auto]. apply andb_true_iff in Ha as [_ Ha]. destruct (load v _) as [c'|]; [|done]. right. right. by exists c'.
Qed.

(** ** At concrete inputs *)
(** A session of Claude whose hook waits. *)
Definition waiting_hook : surroundings := mkSurroundings "claude" false false None (Some (Saved 100)) Busy None 10.
Definition running : process := mkProcess false {[pc_Handle loaded]} {[pc_Handle loaded]} ∅ [].
Definition quiet_outlet : outlet := mkOutlet ∅ ∅ [].
Definition claude_agent : pluginConnection := value loaded (load bound (pc_Handle loaded)).
Definition ready_view : status_view := status_of waiting_hook running quiet_outlet None (Ok []) claude_agent.
Lemma claude_loads : load bound (pc_Handle loaded) = Ok claude_agent.
Proof. vm_compute. reflexivity. Qed.
Lemma claude_status : status waiting_hook running quiet_outlet None (Ok []) bound (pc_Handle loaded) = Ok (Some ready_view).
Proof. unfold status. rewrite claude_loads. reflexivity. Qed.

(** An acknowledgement of this connection's greeting. *)
Definition greeter : pluginConnection :=
  mkPlugin None "" false None false "" None "" "" "" (pc_Handle loaded) (pc_Config loaded) "agent" "Ada" "" "" "room" "Room" "ch_1" "" 0 "" 0 "msg_hello" ∅.
Definition answering : inboxEvent :=
  mkEvent None None false None 7 "message" "ch_1"
    (mkMessage "" None None None 7 "msg_ack" "ch_1" "peer" "Grace" "" (JObj [("tincan_connection", JStr "ack")]) [] [] (Some "msg_hello") 0).
Definition directory : event_script := mkEventScript None (Ok [mkDirectory "peer" "Grace" "" "online" None None false]) None None true.
Definition greeted : vault := {[pc_Handle loaded := Saved greeter]}.
Definition pairing := connectionEvent "/vault" directory greeted greeter answering.
Example pairs : exists c, pairing.2 !! pc_Handle loaded = Some (Saved c) /\ pe_Name <$> pc_Paired c !! "peer" = Some "Grace" /\
  pairing.1.2 = [Paired (pc_Handle loaded) "agent" "Ada" (mkPeer "peer" "Grace" "" "online" None None)].
Proof. eexists. split; [vm_compute; reflexivity|]. split; vm_compute; reflexivity. Qed.
Lemma pairing_answers_the_greeting_witness :
  (((ev_Kind answering = "message" /\ msg_ChannelID (ev_Payload answering) = pc_ChannelID greeter /\ msg_AgentID (ev_Payload answering) <> pc_AgentID greeter) /\ connection_kind (ev_Payload answering) = Some "hello") -> pairing.1.1 = ev_post directory /\ pairing.2 = greeted /\
     exists answer, pairing.1.2 = [Acknowledge answer] /\ si_ChannelID answer = msg_ChannelID (ev_Payload answering) /\ si_ReplyTo answer = Some (msg_ID (ev_Payload answering)) /\
       si_IdempotencyKey answer = "connection_ack_" +:+ msg_ID (ev_Payload answering) /\
       si_Metadata answer = JObj [("tincan_connection", JStr "ack"); ("tincan_listener", JBool true)]) /\
  (((ev_Kind answering = "message" /\ msg_ChannelID (ev_Payload answering) = pc_ChannelID greeter /\ msg_AgentID (ev_Payload answering) <> pc_AgentID greeter) /\ connection_kind (ev_Payload answering) = Some "ack" /\ msg_ReplyTo (ev_Payload answering) = Some (pc_HelloID greeter)) ->
     match ev_agents directory with
     | Err e => pairing.1.1 = Some e /\ pairing.1.2 = [] /\ pairing.2 = greeted
     | Ok l =>
         ((forall a, a ∈ l -> da_ID a = msg_AgentID (ev_Payload answering) -> da_Revoked a = true) /\ pairing.1.1 = None /\ pairing.1.2 = [] /\ pairing.2 = greeted) \/
         (exists a, a ∈ l /\ da_Revoked a = false /\ da_ID a = msg_AgentID (ev_Payload answering) /\
            (cfg_CryptoPath (pc_Config greeter) <> "" -> pe_Name (peer_of greeter a) = msg_AgentID (ev_Payload answering)) /\
            match (record_peer "/vault" (ev_save directory) greeted (pc_Handle greeter) (msg_AgentID (ev_Payload answering)) (peer_of greeter a)).1 with
            | Some e => pairing.1.1 = Some e /\ pairing.1.2 = [] /\ pairing.2 = greeted
            | None =>
                (exists d, load pairing.2 (pc_Handle greeter) = Ok d /\ pc_Paired d !! msg_AgentID (ev_Payload answering) = Some (peer_of greeter a)) /\
                (if ev_notifies directory then pairing.1.2 = [Paired (pc_Handle greeter) (pc_AgentID greeter) (pc_Name greeter) (peer_of greeter a)] /\ pairing.1.1 = ev_deliver directory
                 else pairing.1.2 = [] /\ pairing.1.1 = None)
            end)
     end) /\
  (~ ((ev_Kind answering = "message" /\ msg_ChannelID (ev_Payload answering) = pc_ChannelID greeter /\ msg_AgentID (ev_Payload answering) <> pc_AgentID greeter) /\ connection_kind (ev_Payload answering) = Some "hello") -> ~ ((ev_Kind answering = "message" /\ msg_ChannelID (ev_Payload answering) = pc_ChannelID greeter /\ msg_AgentID (ev_Payload answering) <> pc_AgentID greeter) /\ connection_kind (ev_Payload answering) = Some "ack" /\ msg_ReplyTo (ev_Payload answering) = Some (pc_HelloID greeter)) -> pairing.1.1 = None /\ pairing.1.2 = [] /\ pairing.2 = greeted).
Proof.
  apply (pairing_answers_the_greeting "/vault" directory greeted greeter answering pairing.1.1 pairing.1.2 pairing.2).
  unfold pairing. apply injective_projections; [apply injective_projections|]; reflexivity.
Defined.
Example greeting_answered :
  (connectionEvent "/vault" directory greeted greeter (mkEvent None None false None 6 "message" "ch_1"
    (mkMessage "" None None None 6 "msg_hi" "ch_1" "peer" "Grace" "" (JObj [("tincan_connection", JStr "hello")]) [] [] None 0))).1.2
  = [Acknowledge (mkSendInput None "ch_1" "Ada acknowledges Grace. Both connections are in this room." "" ""
       (JObj [("tincan_connection", JStr "ack"); ("tincan_listener", JBool true)]) [] [] (Some "msg_hi") "connection_ack_msg_hi")].
Proof. vm_compute. reflexivity. Qed.
