(* ===== verification/Sidecar.v ===== *)
(** * The sidecar

    [sidecar.go]: requests as lines of JSON on the standard input, their answers and pushed events
    as lines on the standard output. The tools that a request calls are those of the plugin's
    server, reached through the SDK: a parameter. *)
From S2P Require Import Prelude GoStrings Json Types Crypto Roster Metadata History InboxState Inbox Dispatch Protocol.
From S2P Require Import Encryption Mls Groups Messages Admission Routes Broker Codex Worker Background.

(** The answer of a tool ([mcp.CallToolResult]): its structured content, its first text, and whether it failed. *)
Record sidecar_reply := mkToolReply { tr_Structured : json; tr_Text : option string; tr_IsError : bool }.
Record sidecar_request := mkSidecarRequest { sq_ID : option json; sq_Method : string; sq_Params : gmap string json }.

Definition aliases : gmap string string :=
  list_to_map [("connect", "tincan_connect"); ("status", "tincan_status"); ("pending", "inbox_next"); ("claim", "inbox_claim");
    ("release", "inbox_release"); ("ack", "inbox_ack"); ("reply", "inbox_reply"); ("requests", "inbox_requests"); ("plan", "inbox_plan");
    ("outcome", "inbox_outcome"); ("decide", "inbox_decide"); ("policy_set", "inbox_policy_set")].
Definition tool_of_method (method : string) : string := default method (aliases !! method).

Definition capabilities : json :=
  JObj ((fun n => (n, JBool true)) <$>
    ["approval_queue"; "background_worker_required"; "commitments"; "durable_inbox"; "encrypted_history_recovery"; "end_to_end_encryption";
     "forward_secrecy"; "host_enqueue_required"; "host_status_required"; "presence_heartbeat"; "push_mentions"; "push_messages";
     "structured_outcomes"; "worker_claims"]).

Section Sidecar.
(** [number], [marshal] and [parse]: [encoding/json] on a number, a tree and a text. *)
Variables (number : string -> string) (marshal : json -> string) (parse : string -> option json).
(** The rest of the process: what the tools of the server work on. *)
Context {state : Type} (vault_of : state -> vault).
Variables (call_tool : string -> gmap string json -> state -> result sidecar_reply * state) (list_tools : state -> result json).

Definition ready_line (instructions : string) : json :=
  JObj [("capabilities", capabilities); ("event", JStr "ready"); ("execution", inboundExecution); ("instructions", JStr instructions);
        ("protocol", JStr "tincan/1")].
(** [b.notify]. *)
Definition event_line (p : json) : json := JObj [("data", p); ("event", jany "kind" p)].

Definition decode_request (v : json) : option sidecar_request :=
  decode_object
    [("id", fun v r => Some (mkSidecarRequest (Some v) (sq_Method r) (sq_Params r)));
     ("method", fun v r => s ← decode_string v (sq_Method r); Some (mkSidecarRequest (sq_ID r) s (sq_Params r)));
     ("params", fun v r => m ← decode_arguments number v (sq_Params r); Some (mkSidecarRequest (sq_ID r) (sq_Method r) m))]
    v (mkSidecarRequest None "" ∅).
(** A line with an identifier. *)
Definition read_request (line : string) : option (json * string * gmap string json) :=
  r ← parse line ≫= decode_request;
  match sq_ID r with Some JNull | None => None | Some id => Some (id, sq_Method r, sq_Params r) end.

Definition error_line (id : json) (e : string) : json := JObj [("error", JStr e); ("id", id)].
Definition answer_line (id : json) (r : result json) : json :=
  match r with Ok v => JObj [("id", id); ("result", v)] | Err e => error_line id e end.
Definition refused_line : json := error_line JNull "request requires id, method, and optional params object".

(** The value of a tool's answer. *)
Definition reply_value (r : sidecar_reply) : json :=
  match tr_Structured r, tr_Text r with
  | JNull, Some text => default (JStr text) (parse text)
  | v, _ => v
  end.
Definition tool_answer (r : result sidecar_reply) : result json :=
  match r with
  | Err e => Err e
  | Ok r => if tr_IsError r then Err (marshal (reply_value r)) else Ok (reply_value r)
  end.
Definition host_status (params : gmap string json) (now : Z) (s : state) (p : process) : result json * process :=
  let handle := match params !! "connection" with Some (JStr h) => h | _ => "" end in
  let '(err, p) := match params !! "available" with
                   | Some (JBool available) => hostStatus (vault_of s) handle available now p
                   | _ => (Some "host_status requires connection and boolean available", p)
                   end in
  (match err with
   | Some e => Err e
   | None => Ok (JObj [("expires_in_seconds", JInt 90); ("ok", JBool true)])
   end, p).

(** What comes of one line: the line of output, the tools' state and the process. *)
Definition serve (now : Z) (line : string) (s : state) (p : process) : json * state * process :=
  match read_request line with
  | None => (refused_line, s, p)
  | Some (id, method, params) =>
      if bool_decide (method = "host_status") then let '(r, p) := host_status params now s p in (answer_line id r, s, p)
      else if bool_decide (method = "tools") then (answer_line id (list_tools s), s, p)
      else let '(r, s) := call_tool (tool_of_method method) params s in (answer_line id (tool_answer r), s, p)
  end.

(** The lines of the input: the time, what is pushed before the answer, and the outcome of writing it. *)
Record turn_of_input := mkTurn { ti_line : string; ti_now : Z; ti_pushed : list json; ti_written : option string }.
(** The output, and how the sidecar ends when the input does, with [ended], or a line cannot be written. *)
Fixpoint sidecar_loop (turns : list turn_of_input) (ended : option string) (s : state) (p : process) : list json * option string * state * process :=
  match turns with
  | [] => ([], ended, s, p)
  | t :: turns =>
      let '(v, s, p) := serve (ti_now t) (ti_line t) s p in
      let pushed := event_line <$> ti_pushed t in
      match ti_written t with
      | Some e => (pushed, Some e, s, p)
      | None => let '(out, e, s, p) := sidecar_loop turns ended s p in (pushed ++ v :: out, e, s, p)
      end
  end.
Definition sidecar (instructions : string) (turns : list turn_of_input) (ended : option string) (s : state) (p : process) :=
  let '(out, e, s, p) := sidecar_loop turns ended s p in (ready_line instructions :: out, e, s, p).
End Sidecar.

(** ** The sidecar: properties *)

Section Sidecar.
Variables (number : string -> string) (marshal : json -> string) (parse : string -> option json).
Context {state : Type} (vault_of : state -> vault).
Variables (call_tool : string -> gmap string json -> state -> result sidecar_reply * state) (list_tools : state -> result json).
#[local] Notation serve := (serve number marshal parse vault_of call_tool list_tools).
#[local] Notation sidecar_loop := (sidecar_loop number marshal parse vault_of call_tool list_tools).

(** The tool that a method names. *)
Inductive called_as : string -> string -> Prop :=
| as_tincan m : m ∈ ["connect"; "status"] -> called_as m ("tincan_" +:+ m)
| as_next : called_as "pending" "inbox_next"
| as_inbox m : m ∈ ["claim"; "release"; "ack"; "reply"; "requests"; "plan"; "outcome"; "decide"; "policy_set"] -> called_as m ("inbox_" +:+ m)
| as_itself m :
    m ∉ ["connect"; "status"; "pending"; "claim"; "release"; "ack"; "reply"; "requests"; "plan"; "outcome"; "decide"; "policy_set"] -> called_as m m.
(** The value of a tool's answer: its structured content, or else its text, as JSON when it is JSON. *)
Inductive reply_is (r : sidecar_reply) : json -> Prop :=
| is_structured : tr_Structured r <> JNull -> reply_is r (tr_Structured r)
| is_json text v : tr_Structured r = JNull -> tr_Text r = Some text -> parse text = Some v -> reply_is r v
| is_text text : tr_Structured r = JNull -> tr_Text r = Some text -> parse text = None -> reply_is r (JStr text)
| is_nothing : tr_Structured r = JNull -> tr_Text r = None -> reply_is r JNull.
(** What a request comes to, in the state [s] of the tools and the process [p], and what it leaves. *)
Inductive comes_to (now : Z) (params : gmap string json) (s : state) (p : process) : string -> result json -> state -> process -> Prop :=
| no_boolean : (forall b, params !! "available" <> Some (JBool b)) ->
    comes_to now params s p "host_status" (Err "host_status requires connection and boolean available") s p
| host_said h b err p' : params !! "available" = Some (JBool b) ->
    (forall h', params !! "connection" = Some (JStr h') -> h = h') -> ((forall h', params !! "connection" <> Some (JStr h')) -> h = "") ->
    hostStatus (vault_of s) h b now p = (err, p') ->
    comes_to now params s p "host_status"
      (match err with Some e => Err e | None => Ok (JObj [("expires_in_seconds", JInt 90); ("ok", JBool true)]) end) s p'
| tools_listed : comes_to now params s p "tools" (list_tools s) s p
| tool_unreached m tool e s' : m <> "host_status" -> m <> "tools" -> called_as m tool ->
    call_tool tool params s = (Err e, s') -> comes_to now params s p m (Err e) s' p
| tool_answered m tool r v s' : m <> "host_status" -> m <> "tools" -> called_as m tool ->
    call_tool tool params s = (Ok r, s') -> tr_IsError r = false -> reply_is r v -> comes_to now params s p m (Ok v) s' p
| tool_failed m tool r v s' : m <> "host_status" -> m <> "tools" -> called_as m tool ->
    call_tool tool params s = (Ok r, s') -> tr_IsError r = true -> reply_is r v -> comes_to now params s p m (Err (marshal v)) s' p.
(** The line that answers a line. *)
Inductive answers_line (now : Z) (line : string) (s : state) (p : process) : json -> state -> process -> Prop :=
| refused : read_request number parse line = None -> answers_line now line s p refused_line s p
| answered id method params r s' p' : read_request number parse line = Some (id, method, params) ->
    comes_to now params s p method r s' p' -> answers_line now line s p (answer_line id r) s' p'.

Lemma tool_called m : called_as m (tool_of_method m).
Proof.
  unfold tool_of_method. destruct (decide (m ∈ ["connect"; "status"; "pending"; "claim"; "release"; "ack"; "reply"; "requests"; "plan"; "outcome"; "decide"; "policy_set"])) as [Hin|Hout].
  - apply elem_of_cons in Hin as [->|Hin]; [apply as_tincan; set_solver|]. apply elem_of_cons in Hin as [->|Hin]; [apply (as_tincan "status"); set_solver|].
    apply elem_of_cons in Hin as [->|Hin]; [apply as_next|].
    assert (aliases !! m = Some ("inbox_" +:+ m)) as ->; [|by apply as_inbox].
    repeat (apply elem_of_cons in Hin as [->|Hin]; [vm_compute; reflexivity|]). by apply elem_of_nil in Hin.
  - assert (aliases !! m = None) as ->; [|by apply as_itself].
    unfold aliases. apply not_elem_of_list_to_map_1. exact Hout.
Qed.
Lemma reply_value_is r : reply_is r (reply_value parse r).
Proof.
  unfold reply_value. destruct (tr_Structured r) eqn:Es; try (rewrite <- Es; apply is_structured; congruence).
  destruct (tr_Text r) as [text|] eqn:Et; [|by apply is_nothing]. destruct (parse text) as [v|] eqn:Ep; [by eapply is_json|by apply is_text].
Qed.
Lemma host_status_comes_to now params s p : let '(r, p') := host_status vault_of params now s p in comes_to now params s p "host_status" r s p'.
Proof.
  unfold host_status. set (h := match params !! "connection" with Some (JStr h) => h | _ => "" end).
  assert ((forall h', params !! "connection" = Some (JStr h') -> h = h') /\ ((forall h', params !! "connection" <> Some (JStr h')) -> h = "")) as [H1 H2].
  { unfold h. split; [by intros h' ->|]. intros Hn. destruct (params !! "connection") as [[]|]; try done. by destruct (Hn s0). }
  destruct (params !! "available") as [[|b| | | |]|] eqn:Ea; try (apply no_boolean; congruence).
  destruct (hostStatus _ _ _ _ _) as [err p'] eqn:Eh. eapply host_said; eassumption.
Qed.
Lemma serve_answers now line s p v s' p' : serve now line s p = (v, s', p') -> answers_line now line s p v s' p'.
Proof.
  unfold Sidecar.serve. destruct (read_request _ _ line) as [[[id method] params]|] eqn:Er; [|intros [= <- <- <-]; by apply refused].
  destruct (bool_decide_reflect (method = "host_status")) as [->|Hh].
  { pose proof (host_status_comes_to now params s p) as Ho. destruct (host_status _ _ _ _ _) as [r p1]. intros [= <- <- <-]. by eapply answered. }
  destruct (bool_decide_reflect (method = "tools")) as [->|Ht].
  { intros [= <- <- <-]. eapply answered; [exact Er|apply tools_listed]. }
  pose proof (tool_called method) as Hc. destruct (call_tool _ _ _) as [r s1] eqn:Ec.
  intros E. assert (v = answer_line id (tool_answer marshal parse r) /\ s' = s1 /\ p' = p) as (-> & -> & ->) by (by injection E as <- <- <-).
  eapply answered; [exact Er|]. destruct r as [r|e]; cbn; [|by eapply tool_unreached].
  destruct (tr_IsError r) eqn:Ee; [eapply tool_failed|eapply tool_answered]; try done; apply reply_value_is.
Qed.

(** Lines that were answered: what is written for each is the events that were pushed meanwhile and
    then its answer, and each finds the state that the one before it has left. *)
Inductive conversation : list turn_of_input -> state -> process -> list json -> state -> process -> Prop :=
| silence s p : conversation [] s p [] s p
| exchange t turns s p v s1 p1 out s2 p2 : ti_written t = None -> answers_line (ti_now t) (ti_line t) s p v s1 p1 ->
    conversation turns s1 p1 out s2 p2 -> conversation (t :: turns) s p ((event_line <$> ti_pushed t) ++ v :: out) s2 p2.

(** C40. Every request is answered once, under its identifier and in its place, by what it asked for.
    While its output can be written, the sidecar writes for each line of its input, in order, the
    events pushed meanwhile and then one line. A line that is no request is refused. A request
    gets, under the identifier it came with, what its own method gives in the state that the
    requests before it left: the outcome of [host_status], the list of tools, or that of the
    one call of the tool which the method names, by itself or by its short name - the value of
    the tool's answer as the result, or, when the tool says it failed or cannot be reached, as
    the error. When a line cannot be written the sidecar ends with that error, after that
    request, and runs no later one. *)
Theorem requests_answered_in_order turns ended s p out e s' p' :
  sidecar_loop turns ended s p = (out, e, s', p') ->
  exists served rest out0 s1 p1,
    turns = served ++ rest /\ conversation served s p out0 s1 p1 /\
    match rest with
    | [] => out = out0 /\ e = ended /\ s' = s1 /\ p' = p1
    | t :: _ =>
        out = out0 ++ (event_line <$> ti_pushed t) /\ is_Some (ti_written t) /\ e = ti_written t /\
        exists v, answers_line (ti_now t) (ti_line t) s1 p1 v s' p'
    end.
Proof.
  revert s p out. induction turns as [|t turns IH]; intros s p out; cbn.
  { intros [= <- <- <- <-]. exists [], [], [], s, p. split; [done|]. split; [constructor|done]. }
  destruct (serve _ _ _ _) as [[v s1] p1] eqn:Es. apply serve_answers in Es. destruct (ti_written t) as [err|] eqn:Hw.
  - intros [= <- <- <- <-]. exists [], (t :: turns), [], s, p. split; [done|]. split; [constructor|]. rewrite Hw. split_and!; [done..|]. by exists v.
  - destruct (sidecar_loop turns ended s1 p1) as [[[out1 e1] s2] p2] eqn:El. intros [= <- <- <- <-].
    apply IH in El as (served & rest & out0 & s3 & p3 & -> & Hc & Hrest).
    exists (t :: served), rest, ((event_line <$> ti_pushed t) ++ v :: out0), s3, p3. split; [done|]. split; [by eapply exchange|].
    destruct rest as [|t' rest]; [by destruct Hrest as (-> & -> & -> & ->)|]. destruct Hrest as (-> & Hrest). split; [by rewrite <- app_assoc|done].
Qed.

(** A host's status changes its presence alone, and only of a connection that is there. *)
Lemma host_status_of_connection params now s p r p' : host_status vault_of params now s p = (r, p') ->
  p' = p \/ exists h b, is_ok r = true /\ is_ok (load (vault_of s) h) = true /\ params !! "available" = Some (JBool b) /\
    ps_presence p' = <[h := mkPresence b now]> (ps_presence p).
Proof.
  unfold host_status. set (h := match params !! "connection" with Some (JStr h) => h | _ => "" end).
  destruct (params !! "available") as [[|b| | | |]|] eqn:Hb; try (intros [= <- <-]; by left).
  unfold hostStatus. destruct (load (vault_of s) h) eqn:Hl; [|intros [= <- <-]; by left].
  destruct (ps_stopped p); intros [= <- <-]; [by left|]. right. exists h, b. by rewrite Hl.
Qed.
End Sidecar.

(** ** At concrete lines *)
(** A request to claim, a line that is no request, and one whose answer cannot be written. *)
Definition demo_line (line : string) : option json :=
  if bool_decide (line = "claim") then Some (JObj [("id", JNum "7"); ("method", JStr "claim"); ("params", JObj [("seq", JNum "3")])])
  else if bool_decide (line = "tools") then Some (JObj [("id", JStr "t"); ("method", JStr "tools")]) else None.
Definition demo_tool (name : string) (args : gmap string json) (calls : list string) : result sidecar_reply * list string :=
  (Ok (mkToolReply (JObj [("ran", JStr name)]) None false), calls ++ [name]).
Notation demo_turns := [mkTurn "claim" 0 [] None; mkTurn "what" 0 [JObj [("kind", JStr "mention")]] None; mkTurn "tools" 0 [] (Some "broken pipe"); mkTurn "claim" 0 [] None].
Notation demo_loop turns := (sidecar_loop id (fun _ => "") demo_line (fun _ : list string => ∅) demo_tool (fun _ => Ok (JArr [])) turns None [] (mkProcess false ∅ ∅ ∅ [])).
Notation demo_out := [answer_line (JNum "7") (Ok (JObj [("ran", JStr "inbox_claim")])); event_line (JObj [("kind", JStr "mention")]); refused_line].
Notation demo_conversation := (conversation id (fun _ => "") demo_line (fun _ : list string => ∅) demo_tool (fun _ => Ok (JArr []))).
Notation demo_answers := (answers_line id (fun _ => "") demo_line (fun _ : list string => ∅) demo_tool (fun _ => Ok (JArr []))).
Lemma demo_runs : demo_loop demo_turns = (demo_out, Some "broken pipe", ["inbox_claim"], mkProcess false ∅ ∅ ∅ []).
Proof. vm_compute. reflexivity. Qed.
Lemma requests_answered_in_order_witness :
  exists served rest out0 s1 p1,
    demo_turns = served ++ rest /\ demo_conversation served [] (mkProcess false ∅ ∅ ∅ []) out0 s1 p1 /\
    match rest with
    | [] => demo_out = out0 /\ Some "broken pipe" = None /\ ["inbox_claim"] = s1 /\ mkProcess false ∅ ∅ ∅ [] = p1
    | t :: _ =>
        demo_out = out0 ++ (event_line <$> ti_pushed t) /\ is_Some (ti_written t) /\ Some "broken pipe" = ti_written t /\
        exists v, demo_answers (ti_now t) (ti_line t) s1 p1 v ["inbox_claim"] (mkProcess false ∅ ∅ ∅ [])
    end.
Proof.
  exact (requests_answered_in_order id (fun _ => "") demo_line (fun _ : list string => ∅) demo_tool (fun _ => Ok (JArr [])) demo_turns None []
    (mkProcess false ∅ ∅ ∅ []) _ _ _ _ demo_runs).
Defined.
