(* ===== verification/Sessions.v ===== *)
(** * What a session of Claude sees of its connections

    [claudeSessionConnections] ([plugin_session.go]): a snapshot of the connections bound to one
    session and of their pending mentions; and the view of a connection ([connectionView],
    [connectionEncryptionMode], [plugin.go]). *)
From stdpp Require Import sorting.
From S2P Require Import Prelude GoStrings Json Types Crypto Roster Metadata InboxState Inbox InboxControl Dispatch Protocol.
From S2P Require Import Encryption Broker Delivery Hooks Connect Background.
From S2P Require Import Scenario RoomsTheorems BackgroundTheorems.

(** ** A session ([claudeSessionConnections]) *)
Record mentionView := mkMention {
  mv_Seq : Z; mv_ChannelID : string; mv_MessageID : string; mv_AgentName : string; mv_Text : string; mv_Status : string }.
Record sessionConnection := mkSessionConnection {
  sn_connection : string; sn_agent_id : string; sn_name : string; sn_server : string; sn_room_id : string; sn_room_name : string;
  sn_channel_id : string; sn_listening : bool; sn_idle_wake : bool; sn_stream_state : string; sn_pending_join : string;
  sn_pending_count : Z; sn_mentions : list mentionView; sn_inbox_error : string }.

Definition session_bound (session : string) (c : pluginConnection) : bool :=
  negb (pc_Worker c) && bool_decide (pc_CodexThreadID c = "") && bool_decide (pc_HookHost c = "claude") && bool_decide (pc_HookSessionID c = session).
Definition mention_of (agent : string) (r : inboxRequest) : option mentionView :=
  let e := req_Event r in
  if negb (bool_decide (ev_Kind e = "message")) || (negb (ev_Mentioned e) && negb (Contains (msg_Mentions (ev_Payload e)) agent)) then None else
  Some (mkMention (ev_Seq e) (if bool_decide (ev_ChannelID e = "") then msg_ChannelID (ev_Payload e) else ev_ChannelID e) (msg_ID (ev_Payload e))
          (msg_AgentName (ev_Payload e)) (msg_Text (ev_Payload e)) (req_Status r)).
Definition open_requests (s : inboxState) : list inboxRequest :=
  List.filter (fun r => negb (Contains ["completed"; "cancelled"; "declined"] (req_Status r))) (st_Requests s).
(** The file of an inbox: none, one that cannot be read now, or what reading it gives. *)
Inductive inbox_read := NoFile | Unreadable | Read (v : saved inboxState).
Definition session_work (agent : string) (file : inbox_read) : Z * list mentionView * string :=
  let garbled := (0, [], "Pending work could not be read. Refresh after the listener reconnects.") in
  match file with
  | NoFile => (0, [], "")
  | Unreadable => (0, [], "Pending work is temporarily unavailable. Refresh to try again.")
  | Read Garbled => garbled
  | Read (Saved s) =>
      match migrate s with
      | (Some _, _) => garbled
      | (None, s) => (Z.of_nat (length (open_requests s)), omap (mention_of agent) (open_requests s), "")
      end
  end.
Definition session_stream (running : bool) (i : option inbox) : string :=
  match i with
  | None => "stopped"
  | Some i =>
      if negb (bool_decide (ib_streamError i = "")) then "reconnecting"
      else if ib_streaming i then "streaming" else if running then "starting" else "stopped"
  end.
Section Session.
(** The files and inboxes by connection, the waiting hook of the session, and the time. *)
Variables (files : pluginConnection -> inbox_read) (inboxes : gmap string inbox) (lease : option (saved Z)) (lock : lock_state) (now : Z) (p : process).
Definition session_connection (c : pluginConnection) : sessionConnection :=
  let '(count, mentions, err) := session_work (pc_AgentID c) (files c) in
  let running := bool_decide (pc_Handle c ∈ ps_workers p) && negb (ps_stopped p) in
  mkSessionConnection (pc_Handle c) (pc_AgentID c) (pc_Name c) (cfg_Server (pc_Config c)) (pc_RoomID c) (pc_RoomName c) (pc_ChannelID c) running
    (claudeWakeArmed c lease now lock) (session_stream running (inboxes !! pc_Handle c))
    (match pc_PendingJoin c with Some j => jr_Status j | None => "" end) count mentions err.
Definition claudeSessionConnections (host session : string) (v : vault) : result (list sessionConnection) :=
  if negb (bool_decide (host = "claude")) then Err "session discovery requires the Claude plugin" else
  match validateHookBinding "claude" session with
  | Some e => Err e
  | None =>
      Ok (session_connection <$> filter (fun c => session_bound session c = true)
            (omap (fun handle => match load v handle with Ok c => Some c | Err _ => None end) (merge_sort String.le (elements (dom v)))))
  end.
End Session.

(** ** The view of a connection *)
Definition connectionEncryptionMode (c : pluginConnection) : string :=
  if negb (bool_decide (pc_RoomEncryptionMode c = "")) then pc_RoomEncryptionMode c
  else if negb (bool_decide (cfg_CryptoPath (pc_Config c) = "")) then "e2ee" else "standard".
Inductive connection_view :=
| Approving (automatic : bool) (connection name status request phrase fingerprint mode : string) (expires : Z)
| Connected (connection agent name profile intent room room_name channel share mode : string) (share_expires : option Z) (claim : option (string * Z)).
(** Zero is the zero time. *)
Definition connectionView (now : Z) (c : pluginConnection) : connection_view :=
  match pc_PendingJoin c with
  | Some j => Approving (jr_Automatic j) (pc_Handle c) (pc_Name c) (jr_Status j) (jr_RequestID j) (jr_VerificationPhrase j) (jr_Fingerprint j)
                (connectionEncryptionMode c) (jr_ExpiresAt j)
  | None => Connected (pc_Handle c) (pc_AgentID c) (pc_Name c) (pc_Profile c) (pc_Intent c) (pc_RoomID c) (pc_RoomName c) (pc_ChannelID c) (pc_ShareURL c)
              (connectionEncryptionMode c) (if pc_ShareExpiresAt c =? 0 then None else Some (pc_ShareExpiresAt c))
              (if negb (bool_decide (pc_ClaimURL c = "")) && (now <? pc_ClaimExpiresAt c) then Some (pc_ClaimURL c, pc_ClaimExpiresAt c) else None)
  end.

(** ** What a session sees: properties *)

Lemma session_listed v c : c ∈ omap (fun handle => match load v handle with Ok c => Some c | Err _ => None end) (merge_sort String.le (elements (dom v))) <->
  exists handle, load v handle = Ok c.
Proof.
  rewrite list_elem_of_omap. split.
  - intros (h & _ & Hh). exists h. by destruct (load v h); simplify_eq.
  - intros (h & Hh). exists h. rewrite Hh. split; [|done]. rewrite merge_sort_Permutation, elem_of_elements, elem_of_dom.
    unfold load in Hh. destruct (negb _); [done|]. by destruct (v !! h).
Qed.
Lemma mention_shows agent r m : mention_of agent r = Some m ->
  ev_Kind (req_Event r) = "message" /\ (ev_Mentioned (req_Event r) = true \/ agent ∈ msg_Mentions (ev_Payload (req_Event r))) /\
  mv_Seq m = ev_Seq (req_Event r) /\ mv_Text m = msg_Text (ev_Payload (req_Event r)) /\ mv_Status m = req_Status r.
Proof.
  unfold mention_of. destruct (_ || _) eqn:Hg; [done|]. intros [= <-]. cbn. unfold Contains in Hg.
  destruct (bool_decide (ev_Kind _ = _)) eqn:Hk; [|done]. destruct (ev_Mentioned _); [by bool_simpl; auto|].
  destruct (bool_decide (_ ∈ _)) eqn:Hm; [|done]. bool_simpl. auto.
Qed.
Lemma work_shows agent file count mentions err : session_work agent file = (count, mentions, err) ->
  match file with
  | Read (Saved s) =>
      match migrate s with
      | (None, s) => err = "" /\ count = Z.of_nat (length (open_requests s)) /\ Z.of_nat (length mentions) <= count /\
          forall m, m ∈ mentions <-> exists r, r ∈ open_requests s /\ mention_of agent r = Some m
      | (Some _, _) => mentions = [] /\ err <> ""
      end
  | _ => mentions = [] /\ (file = NoFile \/ err <> "")
  end.
Proof.
  unfold session_work. destruct file as [| |[|s]]; try (intros [= <- <- <-]; auto).
  destruct (migrate s) as [[e|] s']; intros [= <- <- <-]; [done|]. split_and!; [done|done| |].
  - induction (open_requests s') as [|r l IH]; [done|]. cbn. destruct (mention_of agent r); cbn in *; lia.
  - intros m. apply list_elem_of_omap.
Qed.

(** A session sees its own connections and nothing else. The snapshot for a session of Claude lists
    exactly the saved connections that can be read, belong to no worker and no Codex task, and
    are bound to that session; each with its own inbox's pending mentions, which are messages
    that mention its agent and are not settled, and with at least as many pending requests as
    mentions. A different session, or another host, sees none of it. *)
Theorem session_sees_its_own files inboxes lease lock now p host session v l :
  claudeSessionConnections files inboxes lease lock now p host session v = Ok l ->
  host = "claude" /\ validateHookBinding "claude" session = None /\
  (forall x, x ∈ l <-> exists handle c, load v handle = Ok c /\ x = session_connection files inboxes lease lock now p c /\
     pc_Worker c = false /\ pc_CodexThreadID c = "" /\ pc_HookHost c = "claude" /\ pc_HookSessionID c = session) /\
  forall x, x ∈ l -> Z.of_nat (length (sn_mentions x)) <= sn_pending_count x /\
    forall m, m ∈ sn_mentions x -> Contains ["completed"; "cancelled"; "declined"] (mv_Status m) = false.
Proof.
  unfold claudeSessionConnections. case_bool_decide as Hh; [cbn [negb]|done]. destruct (validateHookBinding "claude" session); [done|]. intros [= <-].
  split; [done|]. split; [done|].
  assert (forall c, session_bound session c = true <-> pc_Worker c = false /\ pc_CodexThreadID c = "" /\ pc_HookHost c = "claude" /\ pc_HookSessionID c = session) as Hb.
  { intros c. unfold session_bound. rewrite !andb_true_iff, negb_true_iff, !bool_decide_eq_true. tauto. }
  split.
  - intros x. rewrite list_elem_of_fmap. split.
    + intros (c & -> & [Hc (handle & Hl)%session_listed]%list_elem_of_filter). exists handle, c. apply Hb in Hc. tauto.
    + intros (handle & c & Hl & -> & Hc). exists c. split; [done|]. apply list_elem_of_filter. split; [by apply Hb|]. apply session_listed. by exists handle.
  - intros x (c & -> & _)%list_elem_of_fmap. unfold session_connection. destruct (session_work _ _) as [[count mentions] err] eqn:E. cbn.
    pose proof (work_shows _ _ _ _ _ E) as Hw.
    assert (mentions = [] -> Z.of_nat (length mentions) <= count /\ (forall m, m ∈ mentions -> Contains ["completed"; "cancelled"; "declined"] (mv_Status m) = false)) as Hnone.
    { intros ->. split; [|by intros m Hm%elem_of_nil]. unfold session_work in E. destruct (files c) as [| |[|s]]; try (simplify_eq/=; lia). destruct (migrate s) as [[e|] s']; simplify_eq/=; lia. }
    destruct (files c) as [| |[|s]]; [by apply Hnone, Hw..|]. destruct (migrate s) as [[e|] s']; [by apply Hnone, Hw|].
    destruct Hw as (_ & _ & Hlen & Hm). split; [done|]. intros m (r & Hr & Hmr)%Hm. apply mention_shows in Hmr as (_ & _ & _ & _ & ->).
    unfold open_requests in Hr. apply list_elem_of_In, List.filter_In in Hr as [_ Hr]. by apply negb_true_iff in Hr.
Qed.

(** ** At a concrete session *)
Definition snapshot_of (session : string) : result (list sessionConnection) :=
  claudeSessionConnections (fun _ => NoFile) ∅ (Some (Saved 100)) Busy 10 running "claude" session bound.
Lemma session_sees_its_own_witness :
  "claude" = "claude" /\ validateHookBinding "claude" "session-1" = None /\
  (forall x, x ∈ value [] (snapshot_of "session-1") <-> exists handle c, load bound handle = Ok c /\
     x = session_connection (fun _ => NoFile) ∅ (Some (Saved 100)) Busy 10 running c /\
     pc_Worker c = false /\ pc_CodexThreadID c = "" /\ pc_HookHost c = "claude" /\ pc_HookSessionID c = "session-1") /\
  forall x, x ∈ value [] (snapshot_of "session-1") -> Z.of_nat (length (sn_mentions x)) <= sn_pending_count x /\
    forall m, m ∈ sn_mentions x -> Contains ["completed"; "cancelled"; "declined"] (mv_Status m) = false.
Proof.
  apply (session_sees_its_own (fun _ => NoFile) ∅ (Some (Saved 100)) Busy 10 running "claude" "session-1" bound).
  vm_compute. reflexivity.
Defined.
Example own_and_other : length (value [] (snapshot_of "session-1")) = 1%nat /\ snapshot_of "session-2" = Ok [].
Proof. split; vm_compute; reflexivity. Qed.
