(* ===== verification/InboxTools.v ===== *)
(** * The inbox as tools

    The calls a host makes of an inbox ([addInboxTools], [inbox_mcp.go]; [addRequestTools],
    [inbox_requests_mcp.go]; [addClaimTools], [inbox_claim_mcp.go]; [inboxControl],
    [inbox_control.go]; the inbox tools of the plugin, [plugin.go]), the form of a claimed event
    ([inboxWireObject], [inbox_wire.go]), and the notifications of a channel ([notify],
    [notifyPlugin]). *)
From S2P Require Import Prelude GoStrings Json Types InboxState Inbox InboxControl Dispatch.
From S2P Require Import RequestMachine InboxSafety InboxSystem InboxTheorems.

(** ** Numbers on the wire ([inboxWireObject]) *)
Section Wire.
(** Whether a number literal is in the range of a float64, and [json.Marshal] of a tree. *)
Variables (fits : string -> bool) (marshal : json -> string).
(** [json.Unmarshal] into an untyped value succeeds. *)
Fixpoint compatible (v : json) : bool :=
  match v with
  | JNum literal => fits literal
  | JArr l => forallb compatible l
  | JObj members => forallb (fun m => compatible m.2) members
  | _ => true
  end.
(** The decoded map has each key once; its [metadata] is replaced before its members are visited. *)
Fixpoint visit_node (v : json) : json :=
  match v with
  | JArr l => JArr (List.map visit_node l)
  | JObj members =>
      let bad := existsb (fun m => bool_decide (m.1 = "metadata") && negb (compatible m.2)) members in
      let visited := List.map (fun m => (m.1, if bool_decide (m.1 = "metadata") && negb (compatible m.2) then JNull else visit_node m.2)) members in
      JObj (match (if bad then jfield "metadata" members else None) with
            | Some metadata => jset "metadata_json" (JStr (marshal metadata)) visited
            | None => visited
            end)
  | v => v
  end.
(** The value as JSON: an object, or [null], which leaves the map nil; anything else is an error. *)
Definition inboxWireObject (v : json) : result json :=
  match v with JObj _ | JNull => Ok (visit_node v) | _ => Err "json: cannot unmarshal into a map" end.
End Wire.

(** ** Notifications *)
(** [channelTransport.notify]: the kind it announces. *)
Definition notify_kind (e : inboxEvent) : string :=
  let kind := if ev_Mentioned e then "mention" else "message" in
  let kind := if bool_decide (ev_Kind e = "collaboration_attention") || bool_decide (ev_Kind e = "semantic_attention") then ev_Kind e else kind in
  let kind := if bool_decide (ev_Kind e = "approval_needed") || bool_decide (ev_Kind e = "needs_attention") then ev_Kind e else kind in
  let kind := if bool_decide (ev_Kind e = "join_requested") || bool_decide (ev_Kind e = "join_request") then "join_request" else kind in
  if bool_decide (lifecycleKind e = "") then kind else "connection_notice".
Definition channel_params (e : inboxEvent) (content : string) : json :=
  JObj [("content", JStr content);
        ("meta", JObj [("event_seq", JStr (Itoa (ev_Seq e))); ("channel_id", JStr (ev_ChannelID e)); ("sender_id", JStr (msg_AgentID (ev_Payload e)));
                       ("message_id", JStr (msg_ID (ev_Payload e)))])].
Definition notify_content (e : inboxEvent) : json :=
  inboundNotification (JObj [("kind", JStr (notify_kind e)); ("event_seq", JInt (ev_Seq e)); ("mentioned", JBool (ev_Mentioned e))]).
(** The event that [pushInbox] makes of a notice of the dispatcher: its number and kind alone. *)
Definition zero_message : Message := mkMessage "" None None None 0 "" "" "" "" "" JNull [] [] None 0.
Definition notice_event (seq : Z) (kind : string) : inboxEvent :=
  mkEvent None None (bool_decide (kind = "mention")) None seq (if bool_decide (kind = "mention") then "message" else kind) "" zero_message.

(** ** The calls *)
Inductive inbox_call :=
| CallClaim (seq : Z) (worker : string)
| CallRelease (seq : Z) (token : string)
| CallAck (seq : Z) (token : string)
| CallReply (seq : Z) (text token : string)
| CallOutcome (seq : Z) (token : string) (o : workerOutcome)
| CallRequests
| CallPlan (seq : Z) (dependencies : list Z) (resources : list string)
| CallDecide (seq : Z) (id action source context : string) (stopped : bool)
| CallPolicy (p : standingPolicy).
Inductive inbox_answer :=
| Claimed (r : claimResult) | Answered (v : json) | Snapshot (l : list inboxRequest) | Completed.
(** The random bytes of a token, what the post of a reply answers, what happens during it, and the
    outcomes of up to three saves. *)
Record call_script := mkCallScript {
  cs_random : string; cs_post : SendInput -> result json; cs_meanwhile : inbox -> inbox; cs_io1 : option string; cs_io2 : option string;
  cs_io3 : option string }.

Section Calls.
Context `{!CryptoRoutes}.
Definition ended (x : option string * inbox) : result inbox_answer * inbox :=
  (match x.1 with Some e => Err e | None => Ok Completed end, x.2).
Definition answered (x : result json * inbox) : result inbox_answer * inbox := (Answered <$> x.1, x.2).
(** [worker]: the host is an owned worker, whose calls need no claim of their own. *)
Definition inbox_call_run (worker : bool) (sc : call_script) (i : inbox) (c : inbox_call) : result inbox_answer * inbox :=
  match c with
  | CallClaim seq w => let '(r, i) := claim (cs_random sc) (cs_io1 sc) i seq w in (Claimed <$> r, i)
  | CallRelease seq token => ended (release (cs_io1 sc) i seq token)
  | CallAck seq token =>
      ended (if worker then ack (cs_io1 sc) i seq [token] else tool_ack (cs_io1 sc) i seq token)
  | CallReply seq text token =>
      answered (if worker then reply (cs_post sc) (cs_meanwhile sc) (cs_io1 sc) (cs_io2 sc) i seq text [token]
                else tool_reply (cs_post sc) (cs_meanwhile sc) (cs_io1 sc) (cs_io2 sc) i seq text token)
  | CallOutcome seq token o =>
      answered (outcome (cs_post sc) (cs_meanwhile sc) (cs_random sc) (cs_io1 sc) (cs_io2 sc) (cs_io3 sc) i seq token o)
  | CallRequests => (Ok (Snapshot (snapshot i)), i)
  | CallPlan seq dependencies resources => ended (plan (cs_io1 sc) i seq dependencies resources)
  | CallDecide seq id action source context stopped => ended (decision (cs_io1 sc) i seq id action source context stopped)
  | CallPolicy p => ended (policy (cs_io1 sc) i p)
  end.
End Calls.

(** The tool of an action of the controller's command ([inboxControl]). *)
Definition control_tool (action : string) : result string :=
  if bool_decide (action = "requests") then Ok "inbox_requests"
  else if bool_decide (action = "decide") then Ok "inbox_decide"
  else if bool_decide (action = "policy_set") then Ok "inbox_policy_set"
  else if bool_decide (action = "plan") then Ok "inbox_plan"
  else Err "unsupported controller action".

(** ** The inbox as tools: properties

    A claimed event can be read whatever its numbers, and a tool call is an operation of the
    inbox under the claim it presents. *)

(** ** Numbers on the wire *)
Section Wire.
Variables (fits : string -> bool) (marshal : json -> string).
#[local] Notation compatible := (compatible fits).
#[local] Notation visit_node := (visit_node fits marshal).
Lemma json_nested (P : json -> Prop) :
  P JNull -> (forall b, P (JBool b)) -> (forall n, P (JNum n)) -> (forall s, P (JStr s)) -> (forall l, Forall P l -> P (JArr l)) ->
  (forall m, Forall (fun x => P x.2) m -> P (JObj m)) -> forall v, P v.
Proof.
  intros H1 H2 H3 H4 H5 H6. fix IH 1. intros [|b|n|s|l|m]; [done|apply H2|apply H3|apply H4| |].
  - apply H5. induction l; constructor; [apply IH|done].
  - apply H6. induction m as [|[k v] m IHm]; constructor; [apply IH|done].
Qed.
(** What is outside of every [metadata] is in range. *)
Fixpoint plain_fits (v : json) : bool :=
  match v with
  | JNum literal => fits literal
  | JArr l => forallb plain_fits l
  | JObj members => forallb (fun m => bool_decide (m.1 = "metadata") || plain_fits m.2) members
  | _ => true
  end.
Lemma visit_compatible v : compatible v = true -> visit_node v = v.
Proof.
  induction v as [|b|n|s|l IH|m IH] using json_nested; cbn; try done.
  - intros Hc. f_equal. induction IH as [|x l Hx _ IHl]; [done|]. cbn in Hc |- *. apply andb_true_iff in Hc as [Hc Hl].
    by rewrite Hx, IHl.
  - intros Hc. assert (existsb (fun m => bool_decide (m.1 = "metadata") && negb (compatible m.2)) m = false) as ->.
    { apply not_true_is_false. intros (x & Hx & Hb)%existsb_exists. rewrite forallb_forall in Hc. apply andb_true_iff in Hb as [_ Hb].
      by rewrite Hc in Hb. }
    f_equal. induction IH as [|[k x] m Hx _ IHm]; [done|]. cbn in Hc, Hx |- *. apply andb_true_iff in Hc as [Hc Hl].
    rewrite Hc, andb_false_r, Hx, IHm by done. done.
Qed.
Lemma compatible_set key v m : forallb (fun x => compatible x.2) m = true -> compatible v = true ->
  forallb (fun x => compatible x.2) (jset key v m) = true.
Proof.
  induction m as [|[k x] m IH]; cbn; [by intros _ ->|]. intros [Hx Hm]%andb_true_iff Hv. case_bool_decide; cbn; rewrite ?Hv, ?Hx; auto.
Qed.
Lemma visit_readable v : plain_fits v = true -> compatible (visit_node v) = true.
Proof.
  induction v as [|b|n|s|l IH|m IH] using json_nested; cbn; try done.
  - intros Hp. induction IH as [|x l Hx _ IHl]; [done|]. cbn in Hp |- *. apply andb_true_iff in Hp as [Hp Hl]. by rewrite Hx, IHl.
  - intros Hp. assert (forallb (fun x => compatible x.2)
        (List.map (fun m => (m.1, if bool_decide (m.1 = "metadata") && negb (compatible m.2) then JNull else visit_node m.2)) m) = true) as Hm.
    { induction IH as [|[k x] m Hx _ IHm]; [done|]. cbn in Hp, Hx |- *. apply andb_true_iff in Hp as [Hp Hl]. rewrite IHm by done. rewrite andb_true_r.
      destruct (bool_decide (k = "metadata")) eqn:Hk; cbn in Hp |- *; [|by apply Hx].
      destruct (compatible x) eqn:Hc; [|done]. cbn. by rewrite visit_compatible. }
    destruct (if existsb _ m then _ else _) as [metadata|]; cbn; [|exact Hm]. by apply compatible_set.
Qed.
End Wire.

(** A claimed event can be read. A client that decodes numbers as float64 can decode the answer of
    a claim whenever only metadata exceeds the range of one; an answer within the range is
    unchanged; and metadata beyond it is kept, exactly, as text. *)
Theorem claimed_event_is_readable (fits : string -> bool) (marshal : json -> string) members : plain_fits fits (JObj members) = true ->
  exists out, inboxWireObject fits marshal (JObj members) = Ok out /\ compatible fits out = true /\
    (compatible fits (JObj members) = true -> out = JObj members) /\
    forall metadata, jfield "metadata" members = Some metadata -> compatible fits metadata = false ->
      jget "metadata" out = Some JNull /\ jget "metadata_json" out = Some (JStr (marshal metadata)).
Proof.
  intros Hp. exists (visit_node fits marshal (JObj members)). split; [done|]. split; [by apply visit_readable|]. split; [apply visit_compatible|].
  intros metadata Hm Hc. assert (existsb (fun m => bool_decide (m.1 = "metadata") && negb (compatible fits m.2)) members = true) as Hbad.
  { unfold jfield in Hm. destruct (List.find _ members) as [[k x]|] eqn:E; [|done]. injection Hm as ->. apply List.find_some in E as [Hin Hk].
    apply existsb_exists. exists (k, metadata). cbn in *. by rewrite Hk, Hc. }
  cbn [visit_node]. rewrite Hbad, Hm. cbn [jget]. rewrite jfield_jset_ne, jfield_jset_eq by done. split; [|done].
  clear Hbad Hp. unfold jfield in *. induction members as [|[k x] members IH]; [done|]. cbn in Hm |- *.
  destruct (bool_decide (k = "metadata")) eqn:Hk; [injection Hm as ->; cbn; by rewrite Hc|by apply IH].
Qed.

(** ** The calls *)
Section Calls.
Context `{!CryptoRoutes}.
(** Whose authority a call may use: the claim it presents, or the controller's. *)
Definition may (i : inbox) (c : inbox_call) (a : actor) : Prop :=
  match c with
  | CallClaim _ _ => a = Host
  | CallRelease _ token => a = Worker token
  | CallAck seq token => a = Worker token /\ (token <> "" \/ isJoinReview i seq = true \/ isConnectionNotice i seq = true)
  | CallReply _ _ token | CallOutcome _ token _ => token <> "" /\ a = Worker token
  | CallDecide _ _ _ _ _ stopped => a = Controller stopped
  | CallPlan _ _ _ | CallPolicy _ => a = Controller false
  | CallRequests => False
  end.
(** Calls that send nothing. *)
Definition posts_nothing (c : inbox_call) : Prop :=
  match c with CallReply _ _ _ => False | CallOutcome _ _ o => wo_Status o = "completed" -> wo_Reply o = None | _ => True end.
Lemma run_app l k x : run (l ++ k) x = run k (run l x).
Proof. apply fold_left_app. Qed.
Lemma one_op io o x : run [(io, o)] x = exec io o x.
Proof. done. Qed.

(** C10. A tool call is made of operations of the inbox under the authority of the claim it presents.
    The calls of a host that send nothing - claiming, releasing, acknowledging, recording an
    outcome, planning, deciding, setting the policy - end in the state that operations of the
    inbox lead to from where the call began, each of them with the authority of the token the
    call was given, or of the controller for the controller's calls: so what holds of every
    reachable inbox holds after any tool call, and no worker's tool touches work under another
    claim. Without a token only notices can be acknowledged, and no outcome recorded. *)
Theorem tool_calls_are_operations sc x c r i' : posts_nothing c -> inbox_call_run false sc (sys_inbox x) c = (r, i') ->
  exists ops, run ops x = mkSys i' (sys_posting x) /\ Forall (fun o => may (sys_inbox x) c (authority o.2)) ops /\
    (reachable x -> reachable (mkSys i' (sys_posting x))).
Proof.
  intros Hc Hr. assert (exists ops, run ops x = mkSys i' (sys_posting x) /\
    Forall (fun o => may (sys_inbox x) c (authority o.2) /\ bounded_op o.2) ops) as (ops & Hrun & [Hmay Hb]%Forall_and).
  2:{ exists ops. split_and!; [done..|]. rewrite <- Hrun. by apply reachable_run. }
  destruct x as [i post]. destruct c as [seq w|seq token|seq token|seq text token|seq token o| |seq deps res|seq id action source context stopped|p]; cbn in Hr, Hc |- *.
  - destruct (claim _ _ _ _ _) as [a j] eqn:E. injection Hr as _ <-. exists [(cs_io1 sc, Claim (cs_random sc) seq w)]. rewrite one_op. cbn. rewrite E.
    split; [done|]. by repeat constructor.
  - injection Hr as _ <-. exists [(cs_io1 sc, Release seq token)]. split; [done|]. by repeat constructor.
  - unfold tool_ack in Hr. destruct (_ && _ && _) eqn:Hg; injection Hr as _ <-; [by exists []|].
    exists [(cs_io1 sc, Ack seq [token])]. split; [done|]. apply Forall_singleton. split; [|done]. split; [done|]. clear -Hg. destruct (isJoinReview i seq); [by auto|].
    destruct (isConnectionNotice i seq); [by auto|]. cbn in Hg. rewrite !andb_true_r in Hg. apply bool_decide_eq_false in Hg. by left.
  - done.
  - unfold outcome in Hr. case_bool_decide as Ht; [injection Hr as _ <-; by exists []|].
    destruct (check_outcome _ _); [injection Hr as _ <-; by exists []|].
    destruct (match wo_Updates o with [] => _ | _ => _ end) as [err j] eqn:Eu.
    assert (exists ops, run ops (mkSys i post) = mkSys j post /\ Forall (fun o => (token <> "" /\ authority o.2 = Worker token) /\ bounded_op o.2) ops) as (ops & Hops & Hauth).
    { destruct (wo_Updates o) as [|u l]; [injection Eu as _ <-; by exists []|]. exists [(cs_io1 sc, Updates seq token (u :: l))].
      rewrite one_op. cbn. rewrite Eu. split; [done|]. by repeat constructor. }
    destruct err; [injection Hr as _ <-; by exists ops|].
    case_bool_decide as Hdone.
    + rewrite Hc in Hr by done. destruct (ack _ _ _ _) as [err k] eqn:Ea. injection Hr as _ <-. exists (ops ++ [(cs_io2 sc, Ack seq [token])]).
      rewrite run_app, Hops, one_op. cbn. rewrite Ea. split; [done|]. apply Forall_app. split; [done|]. by repeat constructor.
    + destruct (suspend _ _ _ _ _ _) as [a k] eqn:Es. injection Hr as _ <-. exists (ops ++ [(cs_io2 sc, Suspend (cs_random sc) seq token o)]).
      rewrite run_app, Hops, one_op. cbn. rewrite Es. split; [done|]. apply Forall_app. split; [done|]. by repeat constructor.
  - injection Hr as _ <-. by exists [].
  - injection Hr as _ <-. exists [(cs_io1 sc, Plan seq deps res)]. split; [done|]. by repeat constructor.
  - injection Hr as _ <-. exists [(cs_io1 sc, Decide seq id action source context stopped)]. split; [done|]. by repeat constructor.
  - injection Hr as _ <-. exists [(cs_io1 sc, SetPolicy p)]. split; [done|]. by repeat constructor.
Qed.
End Calls.

(** ** At concrete inputs *)
#[local] Existing Instance demo_routes.
Definition in_range (literal : string) : bool := negb (bool_decide (literal = "1e400")).
Definition claimed_members : list (string * json) := [("acquired", JBool true); ("metadata", JObj [("n", JNum "1e400")])].
Lemma claimed_event_is_readable_witness : plain_fits in_range (JObj claimed_members) = true /\
  exists out, inboxWireObject in_range (fun _ => "text") (JObj claimed_members) = Ok out /\ compatible in_range out = true /\
    (compatible in_range (JObj claimed_members) = true -> out = JObj claimed_members) /\
    forall metadata, jfield "metadata" claimed_members = Some metadata -> compatible in_range metadata = false ->
      jget "metadata" out = Some JNull /\ jget "metadata_json" out = Some (JStr "text").
Proof. split; [reflexivity|]. apply (claimed_event_is_readable in_range (fun _ => "text") claimed_members). reflexivity. Defined.
Definition plan_call : inbox_call := CallPlan 2 [] ["repo"].
Definition calm : call_script := mkCallScript "0123456789abcdef" (fun _ => Ok JNull) id None None None.
Lemma tool_calls_are_operations_witness :
  let x := demo_run [] in
  let i' := (inbox_call_run false calm (sys_inbox x) plan_call).2 in
  exists ops, run ops x = mkSys i' (sys_posting x) /\ Forall (fun o => may (sys_inbox x) plan_call (authority o.2)) ops /\
    (reachable x -> reachable (mkSys i' (sys_posting x))).
Proof.
  apply (tool_calls_are_operations calm (demo_run []) plan_call (inbox_call_run false calm (sys_inbox (demo_run [])) plan_call).1).
  - exact I.
  - apply surjective_pairing.
Defined.
