(* ===== verification/Launch.v ===== *)
(** * Starting the program and other programs

    The flags and settings of the commands ([main] of [main.go], [runtime_options.go], [listen.go],
    [worker.go], [inbox_control.go]), the inbox of the command line ([openInboxAt], [inboxBridge])
    and the launchers of Claude ([claude.go], [harness.go]). Running the program that is started
    is not modelled: a launcher ends in the arguments, the environment and the file it starts it
    with. *)
From S2P Require Import Prelude GoStrings Json Types Crypto Roster Metadata History InboxState Inbox InboxTools Dispatch Protocol.
From S2P Require Import Encryption Mls Groups Messages Admission Routes Broker Addresses Rooms Backup Export Tools Connect Codex Cli Flags.

#[local] Existing Instance R_ret.
#[local] Existing Instance R_bind.

(** ** The command line *)
(** The commands that do not read the saved configuration before anything else. *)
Definition early_commands : list string :=
  ["inbox-control"; "claude-wake"; "codex-reload"; "launch"; "harness-hook"; "hook"; "worker"; "sidecar"; "plugin"; "claude";
   "listen"; "encryption-check"].
Section Main.
(** [strconv.ParseInt(s, 0, 64)]. *)
Variable ParseInt0 : string -> option Z.
Definition int_flag : flag_kind := FValue (fun s => Itoa <$> ParseInt0 s).
Definition read_int (given : gmap string string) (name : string) (initial : Z) : Z := default initial (given !! name ≫= parse_int).
Definition text_flags : list string :=
  ["identity"; "server"; "name"; "workspace"; "token"; "fingerprint"; "agent"; "invite"; "referral"; "channel"; "room"; "text";
   "sharing-purpose"; "sharing-context"; "metadata"; "agent-metadata"; "mentions"; "attachments"; "key"; "query"; "out"; "file";
   "key-file"; "automatic-invites"; "require-join-approval"; "request-id"; "decision"].
Definition cli_formal : list (string * flag_kind) :=
  ((fun n => (n, FText)) <$> text_flags) ++ [("token-stdin", FSwitch); ("e2ee", FSwitch); ("after", int_flag); ("before", int_flag)].
(** [stdin]: what at most 4096 bytes of the standard input are. *)
Definition cli_flags (given : gmap string string) (rest : list string) (stdin : result string) : flags :=
  let text name initial := text_flag given name initial in
  mkFlags (text "identity" "") (given !! "server") (text "name" "My agent") (text "workspace" "Agents' Room") (text "token" "")
    (if switch_flag given "token-stdin" then Some stdin else None)
    ((fun v => bool_decide (v = "true")) <$> given !! "e2ee") (text "fingerprint" "") (text "agent" "") (text "invite" "")
    (text "referral" "") (text "channel" "") (text "room" "") (text "text" "") (text "sharing-purpose" "") (text "sharing-context" "")
    (text "metadata" "{}") (text "agent-metadata" "") (text "mentions" "") (text "attachments" "") (text "key" "") (text "query" "")
    (read_int given "after" 0) (read_int given "before" 0) (text "out" "tincan-export.zip") (text "file" "")
    (text "automatic-invites" "") (text "require-join-approval" "") (text "request-id" "") (text "decision" "") rest.

(** What [main] goes on with: the help, one of [early_commands], a fatal error, or a command with
    its flags and its configuration ([Cli.main]). *)
Inductive start := Usage | Early (cmd : string) (args : list string) | Fatal (e : string) | Command (cmd : string) (fl : flags) (c : Config).
Definition begin (default_server : string) (env : environment) (read : string -> Config -> Config) (stdin : result string)
    (args : list string) : start :=
  match args with
  | [] => Usage
  | cmd :: args =>
      if Contains early_commands cmd then Early cmd args else
      match ParseFlags cli_formal args ∅ with
      | HelpWanted => Usage
      | BadFlags e => Fatal e
      | Parsed given rest =>
          let fl := cli_flags given rest stdin in
          match command_config default_server env fl read with
          | Err e => Fatal e
          | Ok c => if bool_decide (cmd = "help") || bool_decide (cmd = "--help") then Usage else Command cmd fl c
          end
      end
  end.
End Main.

(** ** The settings of a plugin or a sidecar ([runtime_options.go]) *)
Section Runtime.
Variables (Join : list string -> string) (Abs : string -> result string) (UserConfigDir : result string).
Variable server_url : string -> option Protocol.url.
(** [TINCAN_SERVER] and [TINCAN_STATE_DIR]. *)
Variables (default_server env_server env_state : string).

Definition runtimeServer : string :=
  TrimRight "/" (if bool_decide (env_server = "") then default_server else env_server).
Definition runtimeStateDirectory (stateDir : string) : result string :=
  dir ← (if bool_decide (stateDir = "") then dir ← UserConfigDir; Ok (Join [dir; "tincan"; "connections"]) else Ok stateDir);
  Abs dir.
Record broker_settings := mkSettings { bs_root : string; bs_server : string; bs_host : string; bs_native : bool }.
Definition runtime_formal (mode : string) : list (string * flag_kind) :=
  [("server", FText); ("host", FText); ("state-dir", FText)] ++ (if bool_decide (mode = "plugin") then [("claude-channel", FSwitch)] else []).
Definition parse_flags (formal : list (string * flag_kind)) (args : list string) : result (gmap string string * list string) :=
  match ParseFlags formal args ∅ with
  | Parsed given rest => Ok (given, rest)
  | HelpWanted => Err "flag: help requested"
  | BadFlags e => Err e
  end.
Definition runtimeBroker (mode : string) (args : list string) : result broker_settings :=
  '(given, rest) ← parse_flags (runtime_formal mode) args;
  if negb (bool_decide (rest = [])) then Err "unexpected positional arguments" else
  let endpoint := TrimRight "/" (text_flag given "server" runtimeServer) in
  match validateServer (server_url endpoint) with
  | Some e => Err e
  | None =>
      root ← runtimeStateDirectory (text_flag given "state-dir" env_state);
      Ok (mkSettings root endpoint (text_flag given "host" (if bool_decide (mode = "sidecar") then "custom" else "agent"))
            (switch_flag given "claude-channel"))
  end.
(** [pluginCommand]: the host of an installed plugin. *)
Definition plugin_settings (codex : bool) (args : list string) : result broker_settings :=
  s ← runtimeBroker "plugin" args;
  Ok (if bool_decide (bs_host s = "mcp") && codex then mkSettings (bs_root s) (bs_server s) "codex" (bs_native s) else s).

(** ** The settings of a listener and of a worker, and the call of a controller *)
Variables (ParseInt0 ParseDuration : string -> option Z).
Record listen_settings := mkListenSettings {
  lt_config : Config; lt_senders : string; lt_limit : Z; lt_timeout : Z; lt_command : list string }.
Definition listen_formal : list (string * flag_kind) :=
  [("server", FText); ("allow-senders", FText); ("max-events", int_flag ParseInt0); ("timeout", FValue (fun s => Itoa <$> ParseDuration s))].
(** [None]: only the help was wanted. *)
Definition listen_options (c : Config) (env_senders : string) (args : list string) : result (option listen_settings) :=
  match ParseFlags listen_formal args ∅ with
  | HelpWanted => Ok None
  | BadFlags e => Err e
  | Parsed given rest =>
      let limit := read_int given "max-events" 20 in
      let timeout := read_int given "timeout" (5 * 60 * 10 ^ 9) in
      if bool_decide (rest = []) then Err "provide a handler command after -- (see tincan listen --help)" else
      if (limit <? 1) || (timeout <=? 0) then Err "max-events and timeout must be positive" else
      if bool_decide (cfg_Token c = "") then Err "run tincan connect first with this agent's TINCAN_CONFIG" else
      Ok (Some (mkListenSettings (with_server (TrimRight "/" (text_flag given "server" (cfg_Server c))) c)
                  (text_flag given "allow-senders" env_senders) limit timeout rest))
  end.
(** The environment a handler runs in, beside the inherited one. *)
Definition handler_env (s : listen_settings) : list string :=
  ["TINCAN_SERVER=" +:+ cfg_Server (lt_config s); "TINCAN_TOKEN=" +:+ cfg_Token (lt_config s); "TINCAN_WAKE="].

Definition default_scope : string := "Answer questions about this project. Do not modify files, run destructive commands, or act outside this scope.".
Record worker_settings := mkWorkerSettings {
  wt_invite : string; wt_encrypted : bool; wt_handle : string; wt_cwd : string; wt_server : string; wt_bin : string;
  wt_profile : string; wt_intent : string; wt_scope : string; wt_sandbox : string; wt_root : string }.
Definition worker_formal : list (string * flag_kind) :=
  ((fun n => (n, FText)) <$> ["invite"; "connection"; "project"; "server"; "codex-bin"; "profile"; "intent"; "instructions"; "sandbox"])
  ++ [("e2ee", FSwitch)].
(** [is_dir]: whether there is such a directory. *)
Definition worker_options (is_dir : string -> bool) (args : list string) : result worker_settings :=
  '(given, _) ← parse_flags worker_formal args;
  let text name initial := text_flag given name initial in
  let sandbox := text "sandbox" "read-only" in
  if negb (bool_decide (sandbox = "read-only")) && negb (bool_decide (sandbox = "workspace-write"))
  then Err "worker sandbox must be read-only or workspace-write" else
  if negb (bool_decide (text "connection" "" = "")) && negb (bool_decide (text "invite" "" = "")) then Err "choose --connection or --invite" else
  cwd ← Abs (text "project" ".");
  if negb (is_dir cwd) then Err "worker project must be an existing directory" else
  let endpoint := text "server" runtimeServer in
  match validateServer (server_url endpoint) with
  | Some e => Err e
  | None =>
      root ← runtimeStateDirectory env_state;
      Ok (mkWorkerSettings (text "invite" "") (switch_flag given "e2ee") (text "connection" "") cwd endpoint (text "codex-bin" "codex")
            (text "profile" "") (text "intent" "") (text "instructions" default_scope) sandbox root)
  end.

(** [inboxControl]: the call of a tool that a controller makes, on a connection of the plugin or on
    the inbox of the saved identity. [input]: the first 128 KiB of the standard input, read as an object;
    [null] gives a nil map, and giving it a connection panics. *)
Definition control_tools : list (string * string) :=
  [("requests", "inbox_requests"); ("decide", "inbox_decide"); ("policy_set", "inbox_policy_set"); ("plan", "inbox_plan")].
Inductive control :=
| ControlHelp | ControlPanic (e : string) | OnConnection (root tool : string) (params : gmap string json)
| OnIdentity (senders tool : string) (params : gmap string json).
Definition control_formal : list (string * flag_kind) :=
  (fun n => (n, FText)) <$> ["connection"; "state-dir"; "action"; "allow-senders"].
Definition inboxControl (env_senders : string) (input : result (option (gmap string json))) (args : list string) : result control :=
  match ParseFlags control_formal args ∅ with
  | HelpWanted => Ok ControlHelp
  | BadFlags e => Err e
  | Parsed given _ =>
      let action := text_flag given "action" "requests" in
      match snd <$> List.find (fun kv => bool_decide (kv.1 = action)) control_tools with
      | None => Err "unsupported controller action"
      | Some tool =>
          params ← (if bool_decide (action = "requests") then Ok (Some ∅) else input);
          let connection := text_flag given "connection" "" in
          if negb (bool_decide (connection = "")) then
            root ← runtimeStateDirectory (text_flag given "state-dir" env_state);
            Ok (match params with
                | Some params => OnConnection root tool (<["connection" := JStr connection]> params)
                | None => ControlPanic "assignment to entry in nil map"
                end)
          else Ok (OnIdentity (text_flag given "allow-senders" env_senders) tool (default ∅ params))
      end
  end.
End Runtime.

(** ** The task of an owned worker ([workerCommand]) *)
(** A saved worker that may be resumed. *)
Definition resumable (c : pluginConnection) : result pluginConnection :=
  if negb (pc_Worker c) || negb (bool_decide (pc_CodexThreadID c = ""))
  then Err "this identity is not an owned worker; desktop tasks cannot be resumed here" else Ok c.
Definition thread_request (cwd sandbox instruction worker_thread : string) (specs : list json) : string * json :=
  let params := [("approvalPolicy", JStr "never"); ("cwd", JStr cwd); ("developerInstructions", JStr instruction)] in
  if negb (bool_decide (worker_thread = ""))
  then ("thread/resume", JObj (params ++ [("sandbox", JStr sandbox); ("threadId", JStr worker_thread)]))
  else ("thread/start", JObj (params ++ [("dynamicTools", JArr specs); ("sandbox", JStr sandbox)])).
(** The task the runtime answers with, when it is the worker's. *)
Definition started_thread (worker_thread : string) (raw : json) : result string :=
  let id := default "" (decode_object [("thread", fun v s => decode_object [("id", fun v s => decode_string v s)] v s)] raw "") in
  if bool_decide (id = "") then Err "runtime returned no owned task ID" else
  if negb (bool_decide (worker_thread = "")) && negb (bool_decide (id = worker_thread))
  then Err "runtime resumed the wrong worker task" else Ok id.
Definition start_thread {W} (cb : callbacks W) (cwd sandbox instruction worker_thread : string) (specs : list json) (r : codexRPC) (w : W)
    : result string * codexRPC * W :=
  let '(method, params) := thread_request cwd sandbox instruction worker_thread specs in
  match call cb method params r w with
  | (Err e, r, w) => (Err e, r, w)
  | (Ok raw, r, w) => (started_thread worker_thread raw, r, w)
  end.

(** ** Launching Claude with the plugin's channel ([harness.go]) *)
Definition marketplace_name (s : string) : bool :=
  match bytes s with
  | a :: l => alnum a && forallb (fun a => alnum a || Ascii.eqb a "." || Ascii.eqb a "_" || Ascii.eqb a "-") l
  | [] => false
  end.
Definition channel_flag : string := "--dangerously-load-development-channels".
Definition names_channels (arg : string) : bool := HasPrefix arg "--channels" || HasPrefix arg channel_flag.
Fixpoint plugin_args (args : list string) (identity : string) (out : list string) : result (string * list string) :=
  match args with
  | [] => Ok (identity, out)
  | a :: rest =>
      if bool_decide (a = "--") then Ok (identity, out ++ rest)
      else if bool_decide (a = "--marketplace") then
        match rest with
        | m :: rest => if marketplace_name m then plugin_args rest ("plugin:tincan@" +:+ m) out
                       else Err "--marketplace requires an installed marketplace name"
        | [] => Err "--marketplace requires an installed marketplace name"
        end
      else if bool_decide (a = "--plugin-dir") then
        match rest with
        | d :: rest => if bool_decide (d = "") then Err "--plugin-dir requires the Tincan plugin directory"
                       else plugin_args rest "plugin:tincan@inline" (out ++ [a; d])
        | [] => Err "--plugin-dir requires the Tincan plugin directory"
        end
      else Ok (identity, out ++ args)
  end.
Definition claudePluginArgs (args : list string) : result (list string) :=
  '(identity, out) ← plugin_args args "plugin:tincan@tincan" [];
  if existsb names_channels out then Err "launch supplies the Tincan channel flag; pass other Claude options after --"
  else Ok (channel_flag :: identity :: out).
(** What [launchCommand] starts, [None] for its usage. *)
Definition launchCommand (args : list string) : result (option (string * list string)) :=
  match args with
  | [] => Ok None
  | a :: rest =>
      if bool_decide (a = "--help") then Ok None
      else if negb (bool_decide (a = "claude"))
      then Err "launch currently supports Claude; see docs/HARNESS_DELIVERY.md for native gateway and SDK adapters"
      else argv ← claudePluginArgs rest; Ok (Some ("claude", argv))
  end.

(** ** Launching Claude with the inbox of an identity ([claude.go]) *)
(** The invitation, the name, and the arguments for Claude. *)
Fixpoint join_args (args : list string) (invite name : string) : result (string * string * list string) :=
  match args with
  | [] => Ok (invite, name, [])
  | a :: rest =>
      if bool_decide (a = "--") then Ok (invite, name, rest)
      else if bool_decide (a = "--invite") || bool_decide (a = "--agent-name") then
        match rest with
        | v :: rest => if bool_decide (v = "") then Err (a +:+ " requires a value")
                       else if bool_decide (a = "--invite") then join_args rest v name else join_args rest invite v
        | [] => Err (a +:+ " requires a value")
        end
      else Ok (invite, name, args)
  end.
Definition claudeJoinArgs (args : list string) : result (string * string * list string) := join_args args "" "Claude".

(** The trusted senders in a comma-separated list. *)
Definition sender_list (senders : string) : list string := filter (fun s => s <> "") (TrimSpace <$> Split senders ",").

Section Identity.
Context `{!Primitives} `{!CryptoRoutes}.
Variables (ToLower DetectContentType number : string -> string) (url_parse : string -> option url).
Variables (PathEscape : string -> string) (Encode : gmap string string -> string) (Sprint : json -> string)
  (StdDecode : string -> option string).
Context {base : Type} (base_url : base -> Protocol.url) (parse_base : string -> option base) (base_string : base -> string).
Variable pf : platform.
Variables (Join : list string -> string) (Dir : string -> string) (Abs : string -> result string).

(** The directory, the lock, the file, the backup of an older one, and the save of what is recovered. *)
Record inbox_files := mkInboxFiles {
  if_path : string; if_mkdir : option string; if_lock : option string; if_read : result (option inboxState); if_backup : option string; if_save : option string }.
Definition openInboxAt (fs : inbox_files) (senders : string) (workspacePeers : bool) : R inbox :=
  let allowed := sender_list senders in
  insist (negb (bool_decide (allowed = [])) || workspacePeers) "set TINCAN_ALLOW_SENDERS to trusted agent IDs (comma separated) before listening";;
  c ← config;
  v ← ask_server ToLower number url_parse c "GET" "/me" None;
  '(agent, _, admin) ← of_either (match v with Answered (AnsMe agent workspace admin) => Ok (agent, workspace, admin) | _ => Err "server returned no agent identity" end);
  insist (negb (bool_decide (agent = ""))) "server returned no agent identity";;
  of_either (openInboxIdentity c allowed (if_path fs) workspacePeers agent admin (if_mkdir fs) (if_lock fs) (if_read fs) (if_backup fs) (if_save fs)).

(** [inboxBridge]: the inbox that the MCP server of the command line serves, if any, and whether
    it is pushed into a channel. *)
Definition inboxBridge (wake senders : string) (fs : inbox_files) : R (option (inbox * bool)) :=
  if bool_decide (wake = "") then mret None
  else if negb (bool_decide (wake = "portable")) && negb (bool_decide (wake = "claude")) then throw "TINCAN_WAKE must be portable or claude"
  else i ← openInboxAt fs senders false; mret (Some (i, bool_decide (wake = "claude"))).
(** A call of a tool of that server ([bridge]); [args]: [None] when they are no JSON. *)
Definition bridge_tool (files : tool_files) (path name : string) (args : option tool_args) : R tool_outcome :=
  c ← config;
  match args with
  | None => throw "invalid JSON arguments"
  | Some args =>
      if negb (bool_decide (cfg_CryptoPath c = "")) then
        encryptedTool ToLower DetectContentType number url_parse PathEscape Encode Sprint StdDecode base_url parse_base base_string
          None files path name args
      else if isLocalCryptoTool name then mret (Err "this tool requires an encrypted workspace")
      else crypto (keyless_tool name args)
  end.

Definition mustAbs (path : string) : string := match Abs path with Ok p => p | Err _ => path end.
(** A file of the new identity, by a drawn name. *)
Definition instance_path (path random : string) : string := Join [Dir path; "instances"; ID "instance_" random +:+ ".json"].
(** [joinClaude]: the configuration is then saved under [instance_path]. *)
Definition joinClaude (name invite : string) : R unit :=
  update (with_token "");;
  bootstrap base_url parse_base pf name "" invite "" None.

Record claude_script := mkClaudeScript {
  ls_instance : string; ls_senders : string; ls_inbox : inbox_files; ls_binary : result string; ls_write : option string }.
Record claude_run := mkClaudeRun { cr_argv : list string; cr_env : list string; cr_path : string; cr_file : json }.
Definition live_config (binary path server senders : string) : json :=
  JObj [("mcpServers", JObj [("tincan-live", JObj
    [("args", JArr [JStr "mcp"]); ("command", JStr binary);
     ("env", JObj [("TINCAN_ALLOW_SENDERS", JStr senders); ("TINCAN_CONFIG", JStr (mustAbs path)); ("TINCAN_SERVER", JStr server);
                   ("TINCAN_WAKE", JStr "claude")])])])].
(** [path]: [configPath()]. [None]: the usage. *)
Definition claudeCommand (sc : claude_script) (path : string) (args : list string) : R (option claude_run) :=
  if bool_decide (head args = Some "--help") || bool_decide (head args = Some "-h") then mret None else
  '(invite, name, args) ← of_either (claudeJoinArgs args);
  (if bool_decide (invite = "") then mret tt else joinClaude name invite);;
  let path := if bool_decide (invite = "") then path else instance_path path (ls_instance sc) in
  c ← config;
  insist (negb (bool_decide (cfg_Token c = ""))) "connect first using a separate TINCAN_CONFIG for this agent";;
  i ← openInboxAt (ls_inbox sc) (ls_senders sc) false;
  binary ← of_either (ls_binary sc);
  let file := if_path (ls_inbox sc) +:+ ".claude-mcp.json" in
  of_either (match ls_write sc with Some e => Err e | None => Ok tt end);;
  mret (Some (mkClaudeRun (["--mcp-config"; file; channel_flag; "server:tincan-live"] ++ args) ["TINCAN_WAKE="] file
    (live_config binary path (cfg_Server c) (ls_senders sc)))).
End Identity.

(** ** The launcher of the desktop build ([cmd/tincan-launcher]) *)
Definition nativeTarget (machine : result Z) : result string :=
  match machine with
  | Err e => Err ("detect Windows architecture: " +:+ e)
  | Ok m =>
      if m =? 34404 then Ok "windows-amd64"        (* 0x8664 *)
      else if m =? 43620 then Ok "windows-arm64"   (* 0xaa64 *)
      else Err ("unsupported Windows architecture: " +:+ Itoa m)
  end.
(** How the client that was started ended: its exit code, or it did not start. *)
Inductive child_end := Exited (code : Z) | NotStarted (e : string).
(** The exit code, and what was started with which arguments. *)
Definition launcher_run (join : list string -> string) (dir : string -> string) (machine : result Z) (executable : result string)
    (args : list string) (child : child_end) : Z * option (string * list string) :=
  match nativeTarget machine with
  | Err _ => (126, None)
  | Ok target =>
      match executable with
      | Err _ => (126, None)
      | Ok self =>
          (match child with Exited code => code | NotStarted _ => 126 end, Some (join [dir self; target; "tincan.exe"], args))
      end
  end.
