(* ===== verification/LaunchTheorems.v ===== *)
(** * Starting the program: properties

    Flags are read as they were meant, a launcher opts in one channel and passes on what is not
    its own, and what joining from the launcher of Claude does with an invitation. *)
From S2P Require Import Prelude GoStrings Json Types Crypto Roster Metadata History InboxState Inbox InboxTools Dispatch Protocol.
From S2P Require Import Encryption Mls Groups Messages Toy Admission Scenario Routes Broker Addresses AddressesTheorems Rooms RoomsTheorems Backup Export Tools Connect Codex Cli CliTheorems Flags Launch.

#[local] Existing Instance R_ret.
#[local] Existing Instance R_bind.
#[local] Existing Instance bytes_inj.

(** ** Flags *)
(** A name that can be written after dashes. *)
Definition flag_name (n : string) : bool :=
  match bytes n with a :: _ => negb (Ascii.eqb a "-") && negb (existsb (Ascii.eqb "=") (bytes n)) | [] => false end.
Lemma cut_bytes_none c l : existsb (Ascii.eqb c) l = false -> cut_bytes [c] l = None.
Proof.
  induction l as [|a l IH]; cbn; [done|]. intros [Ha Hl]%orb_false_iff. rewrite Ha. by rewrite IH.
Qed.
Lemma cut_bytes_first c l r : existsb (Ascii.eqb c) l = false -> cut_bytes [c] (l ++ c :: r) = Some (l, r).
Proof.
  induction l as [|a l IH]; cbn; [by rewrite Ascii.eqb_refl|]. intros [Ha Hl]%orb_false_iff. rewrite Ha. by rewrite IH.
Qed.
Lemma existsb_head c a l : existsb (Ascii.eqb c) (a :: l) = false -> Ascii.eqb a c = false.
Proof. cbn. intros [Ha _]%orb_false_iff. by rewrite Ascii.eqb_sym. Qed.
Lemma flag_name_inv n : flag_name n = true ->
  exists a l, bytes n = a :: l /\ Ascii.eqb a "-" = false /\ Ascii.eqb a "=" = false /\ existsb (Ascii.eqb "=") (bytes n) = false.
Proof.
  unfold flag_name. destruct (bytes n) as [|a l]; [done|]. intros [Ha He]%andb_true_iff. apply negb_true_iff in Ha, He.
  exists a, l. split_and!; [done..| |done]. by eapply existsb_head.
Qed.
Lemma read_name n v (tail : list ascii) : flag_name n = true -> bytes v = bytes n ++ tail ->
  Cut v "=" = None /\ tail = [] \/ (exists w, tail = "="%char :: bytes w /\ Cut v "=" = Some (n, w)) ->
  read_argument ("-" +:+ v) = AFlag n (match tail with [] => None | _ :: w => Some (of_bytes w) end) /\
  read_argument ("--" +:+ v) = AFlag n (match tail with [] => None | _ :: w => Some (of_bytes w) end).
Proof.
  intros Hn Hv Hc. destruct (flag_name_inv n Hn) as (a & l & Hb & H1 & H2 & _). rewrite Hb in Hv.
  assert (Hov : of_bytes (a :: l ++ tail) = v) by (rewrite app_comm_cons, <- Hv; apply of_bytes_bytes).
  assert (Hrest : match Cut v "=" with Some (n, w) => AFlag n (Some w) | None => AFlag v None end = AFlag n (match tail with [] => None | _ :: w => Some (of_bytes w) end)).
  { destruct Hc as [[-> ->]|(w & -> & ->)]; [|by rewrite of_bytes_bytes]. f_equal. apply (inj bytes). by rewrite Hv, Hb, app_nil_r. }
  unfold read_argument. rewrite !bytes_app, Hv. change (bytes "-") with ["-"%char]. change (bytes "--") with ["-"%char; "-"%char].
  cbn [app]. rewrite H1, Ascii.eqb_refl. cbn [andb bool_decide]. rewrite H1, H2. cbn [orb andb]. rewrite Hov, !Hrest. done.
Qed.
Lemma read_separate n : flag_name n = true -> read_argument ("--" +:+ n) = AFlag n None.
Proof.
  intros Hn. destruct (flag_name_inv n Hn) as (_ & _ & _ & _ & _ & He). apply (read_name n n [] Hn); [by rewrite app_nil_r|left].
  split; [|done]. unfold Cut. change (bytes "=") with ["="%char]. by rewrite (cut_bytes_none _ _ He).
Qed.
Lemma read_joined n v : flag_name n = true -> read_argument ("-" +:+ n +:+ "=" +:+ v) = AFlag n (Some v).
Proof.
  intros Hn. destruct (flag_name_inv n Hn) as (_ & _ & _ & _ & _ & He).
  destruct (read_name n (n +:+ "=" +:+ v) ("="%char :: bytes v) Hn) as [-> _]; [by rewrite !bytes_app| |by rewrite of_bytes_bytes].
  right. exists v. split; [done|]. unfold Cut. rewrite !bytes_app. change (bytes "=") with ["="%char]. cbn [app].
  rewrite (cut_bytes_first _ _ _ He). cbn. by rewrite !of_bytes_bytes.
Qed.
(** A setting as two arguments, or as one. *)
Definition render (joined : bool) (nv : string * string) : list string :=
  if joined then ["-" +:+ nv.1 +:+ "=" +:+ nv.2] else ["--" +:+ nv.1; nv.2].
Definition settings (given : gmap string string) (l : list (bool * (string * string))) : gmap string string :=
  fold_left (fun m x => <[x.2.1 := x.2.2]> m) l given.

(** Flags are read as they were written. Write settings of text flags - any values, those that
    look like flags or are empty included - one after the other, each with its value after an
    equals sign or in an argument of its own, then two dashes and any arguments. Reading them gives
    each flag the value it was given last, whatever was there before the others, and the remaining
    arguments as they are. *)
Theorem flags_roundtrip formal l rest given :
  Forall (fun x => flag_name x.2.1 = true /\ lookup_flag formal x.2.1 = Some FText) l ->
  ParseFlags formal (concat ((fun x => render x.1 x.2) <$> l) ++ "--" :: rest) given = Parsed (settings given l) rest.
Proof.
  intros Hl. revert given. induction Hl as [|[joined [n v]] l [Hn Hf] Hl IH]; intros given; [done|].
  cbn in Hn, Hf. rewrite fmap_cons. cbn [concat]. rewrite <- app_assoc. destruct joined; cbn [render fst snd app ParseFlags].
  - rewrite (read_joined _ _ Hn), Hf. cbn. apply IH.
  - rewrite (read_separate _ Hn), Hf. cbn. apply IH.
Qed.
Lemma settings_last given l n v joined : settings given (l ++ [(joined, (n, v))]) !! n = Some v.
Proof. unfold settings. rewrite fold_left_app. apply lookup_insert_eq. Qed.

(** ** Launching Claude *)
Lemma plugin_args_spec args identity out r : plugin_args args identity out = Ok r ->
  exists own passed, r.2 = out ++ own ++ passed /\ (args = passed \/ exists before, args = before ++ passed) /\
    (r.1 = identity \/ r.1 = "plugin:tincan@inline" \/ exists m, m ∈ args /\ marketplace_name m = true /\ r.1 = "plugin:tincan@" +:+ m) /\
    (forall a, a ∈ own -> a ∈ args).
Proof.
  revert identity out. induction args as [args IH] using (induction_ltof1 _ (@length string)); unfold ltof in IH. intros identity out.
  destruct args as [|a rest]; cbn [plugin_args]; [intros [= <-]; exists [], []; cbn; rewrite app_nil_r; eauto 8|].
  case_bool_decide.
  { intros [= <-]. exists [], rest. cbn. split_and!; [done|right; by exists [a]|by left|set_solver]. }
  case_bool_decide.
  { destruct rest as [|m rest]; [done|]. destruct (marketplace_name m) eqn:Em; [|done]. intros Hr.
    apply IH in Hr as (own & passed & Hout & Hp & Hi & Ho); [|cbn; lia]. exists own, passed. split_and!; [done| | |set_solver].
    - right. destruct Hp as [->|[before ->]]; [by exists [a; m] | by exists (a :: m :: before)].
    - destruct Hi as [->|[->|(m' & Hm & ? & ->)]]; [right; right; exists m; set_solver|auto|right; right; exists m'; set_solver]. }
  case_bool_decide.
  { destruct rest as [|d rest]; [done|]. case_bool_decide; [done|]. intros Hr.
    apply IH in Hr as (own & passed & Hout & Hp & Hi & Ho); [|cbn; lia]. exists ([a; d] ++ own), passed.
    split_and!; [by rewrite Hout, <- !app_assoc| | |set_solver].
    - right. destruct Hp as [->|[before ->]]; [by exists [a; d] | by exists (a :: d :: before)].
    - destruct Hi as [->|[->|(m' & Hm & ? & ->)]]; [auto|auto|right; right; exists m'; set_solver]. }
  intros [= <-]. exists [], (a :: rest). cbn. split_and!; [done|by left|by left|set_solver].
Qed.

(** A launch opts in one channel. What [tincan launch] starts is Claude; its first argument is
    the flag that loads a development channel, the second names Tincan's plugin - of the default
    marketplace, of one whose name was given and is well formed, or of a given directory - and no
    other argument names channels. The rest are arguments that were given, in their order. *)
Theorem launch_opts_in_once args program argv : launchCommand args = Ok (Some (program, argv)) ->
  program = "claude" /\
  exists identity others,
    argv = channel_flag :: identity :: others /\ Forall (fun a => names_channels a = false) others /\
    (forall a, a ∈ others -> a ∈ args) /\
    (identity = "plugin:tincan@tincan" \/ identity = "plugin:tincan@inline" \/
     exists m, m ∈ args /\ marketplace_name m = true /\ identity = "plugin:tincan@" +:+ m).
Proof.
  unfold launchCommand. destruct args as [|a rest]; [done|]. case_bool_decide; [done|]. case_bool_decide; [|done]. subst. cbn [negb].
  intros (argv' & Ha & [= <- <-])%bind_ok. split; [done|]. unfold claudePluginArgs in Ha.
  apply bind_ok in Ha as ([identity out] & Hp & Ho). destruct (existsb names_channels out) eqn:E; [done|]. injection Ho as <-.
  apply plugin_args_spec in Hp as (own & passed & Hout & Hpass & Hi & Hown). cbn in Hout, Hi. subst out.
  exists identity, (own ++ passed). split_and!; [done| | |].
  - apply Forall_forall. intros x Hx. apply not_true_is_false. intros Hn.
    assert (existsb names_channels (own ++ passed) = true) by (apply existsb_exists; exists x; split; [by apply list_elem_of_In|done]). congruence.
  - intros x [Hx|Hx]%elem_of_app; [set_solver|]. right. destruct Hpass as [->|[before ->]]; set_solver.
  - destruct Hi as [->|[->|(m & Hm & ? & ->)]]; [auto|auto|]. right. right. exists m. split_and!; [set_solver|done|done].
Qed.

(** The arguments of Claude are passed through: what is taken off in front are pairs of the
    launcher's own options, and two dashes. *)
Lemma join_args_passes args invite name r : join_args args invite name = Ok r ->
  exists own, (args = own ++ r.2 \/ args = own ++ "--" :: r.2) /\ Forall (fun a => a <> "") own /\
    (r.1.1 = invite \/ r.1.1 ∈ own) /\ (r.1.2 = name \/ r.1.2 ∈ own).
Proof.
  revert invite name. induction args as [args IH] using (induction_ltof1 _ (@length string)); unfold ltof in IH. intros invite name.
  destruct args as [|a rest]; cbn [join_args]; [intros [= <-]; exists []; cbn; auto 6|].
  case_bool_decide as Ha; [intros [= <-]; subst; exists []; cbn; auto 6|].
  destruct (_ || _) eqn:Ho; [|intros [= <-]; exists []; cbn; auto 6].
  destruct rest as [|v rest]; [done|]. destruct (bool_decide_reflect (v = "")) as [Hv|Hv]; [done|]. intros Hr.
  assert (a <> "") as Hne by (intros ->; by vm_compute in Ho).
  assert (exists invite' name', join_args rest invite' name' = Ok r /\ (invite' = invite \/ invite' = v) /\ (name' = name \/ name' = v)) as (i' & n' & Hr' & Hi & Hn)
    by (destruct (bool_decide (a = "--invite")); eauto 8).
  apply IH in Hr' as (own & Hargs & Hown & Hinv & Hname); [|cbn; lia]. exists (a :: v :: own). split_and!.
  - destruct Hargs as [-> | ->]; auto.
  - by repeat constructor.
  - set_solver.
  - set_solver.
Qed.

Section Identity.
Context `{!Primitives} `{!CryptoRoutes}.
Variables (ToLower number : string -> string) (url_parse : string -> option url).
Context {base : Type} (base_url : base -> Protocol.url) (parse_base : string -> option base) (base_string : base -> string).
Variable pf : platform.
#[local] Notation joinClaude := (joinClaude base_url parse_base pf).

(** The launcher of Claude hands the secret of an invitation to the server. [tincan claude
    --invite] joins by the address as it is: the fragment of an encrypted invitation - the
    creator's key, and the secret by which its device is admitted without anybody's approval -
    which [connect] takes off first, is sent to the server of the address in the one request that
    is made, with or without a saved credential, and no keys are made. *)
Theorem claude_join_leaks_secret name invite s server fragment clean secret workspace metadata :
  cfg_PendingJoin (cn_config s) = None -> cfg_CryptoPath (cn_config s) = "" -> ContainsAny invite "/#?:" = true ->
  connectAddress base_url parse_base invite (cfg_Server (cn_config s)) = Ok (server, fragment) ->
  admissionFragment parse_base base_string invite = Ok (clean, secret, workspace) -> secret <> "" ->
  localAgentMetadata (pf_version pf) (pf_os pf) (pf_arch pf) None = Ok metadata ->
  exists before encoded after,
    logs s [join_request name fragment metadata] (joinClaude name invite s).2 /\
    fragment = before +:+ ".auto." +:+ encoded +:+ "." +:+ after /\ DecodeString encoded = Some secret /\
    cfg_CryptoPath (cn_config (joinClaude name invite s).2) = "".
Proof.
  intros Hp Hc Hany Haddr Hadm Hs Hm. assert (invite <> "") as Hne by (by intros ->).
  destruct (fragment_holds_secret _ _ _ _ _ _ _ _ _ _ Hne Hs Haddr Hadm) as (before & encoded & after & Hf & Hd).
  set (t := mkConn (with_token "" (cn_config s)) (cn_saved s) (cn_ios s) (cn_world s)).
  destruct (bootstrap_whole base_url parse_base pf name "" invite "" None metadata t server fragment Hp Hc Hne Hany Haddr Hm) as [Hl Hpath].
  by exists before, encoded, after.
Qed.
(** Another join that waits in the configuration the launcher starts from is taken for the new
    one: the invitation is not used, and the state of that join is all that is asked for. *)
Lemma claude_join_resumes_other name invite s j : cfg_PendingJoin (cn_config s) = Some j ->
  logs s [RawCall "POST" (cryptoJoinStatusPath (cn_config s)) (Some (JObj [("receipt", JStr (jr_Receipt j))]))] (joinClaude name invite s).2.
Proof.
  intros Hj. set (t := mkConn (with_token "" (cn_config s)) (cn_saved s) (cn_ios s) (cn_world s)).
  by destruct (pending_join_is_resumed base_url parse_base pf name "" invite "" None t j Hj).
Qed.

(** No inbox is opened, and nothing asked of the server, before somebody is trusted by name. *)
Lemma nobody_trusted fs senders s : Forall (fun x => blank x = true) (Split senders ",") ->
  openInboxAt ToLower number url_parse fs senders false s = (Err "set TINCAN_ALLOW_SENDERS to trusted agent IDs (comma separated) before listening", s).
Proof.
  intros Hb. assert (sender_list senders = []) as Hl.
  { unfold sender_list. apply filter_none. intros x (y & -> & Hy)%list_elem_of_fmap Hne. rewrite Forall_forall in Hb.
    apply Hb, bool_decide_eq_true in Hy. done. }
  unfold openInboxAt, insist, of_either, mbind, R_bind. by rewrite Hl.
Qed.
End Identity.

(** ** Workers *)
(** Whatever its arguments, a worker runs in an existing directory, reads only or writes to its
    workspace, and never asks for approval; a resumed task is its own. *)
Lemma worker_stays_put Join Abs dir server_url default_server env_server env_state is_dir args w :
  worker_options Join Abs dir server_url default_server env_server env_state is_dir args = Ok w ->
  (wt_sandbox w = "read-only" \/ wt_sandbox w = "workspace-write") /\ is_dir (wt_cwd w) = true /\
  validateServer (server_url (wt_server w)) = None /\ (wt_handle w = "" \/ wt_invite w = "").
Proof.
  unfold worker_options. intros ([given rest] & _ & Hw)%bind_ok.
  destruct (negb (bool_decide (text_flag given "sandbox" _ = _)) && _) eqn:Hs; [done|]. destruct (_ && _) eqn:Hh in Hw; [done|].
  apply bind_ok in Hw as (cwd & _ & Hw). destruct (is_dir cwd) eqn:Hd; [|done]. cbn [negb] in Hw.
  destruct (validateServer _) eqn:Hv; [done|]. apply bind_ok in Hw as (root & _ & [= <-]). cbn.
  split_and!; [|done|done|]; [apply andb_false_iff in Hs as [H0|H0]|apply andb_false_iff in Hh as [H0|H0]]; apply negb_false_iff, bool_decide_eq_true in H0; auto.
Qed.
Lemma resumed_task_is_own thread raw id : started_thread thread raw = Ok id -> thread <> "" -> id = thread.
Proof.
  unfold started_thread. case_bool_decide; [done|]. intros Hr Ht. rewrite (bool_decide_eq_false_2 _ Ht) in Hr. cbn in Hr.
  destruct (bool_decide_reflect (default "" (decode_object [("thread", fun v s => decode_object [("id", fun v s => decode_string v s)] v s)] raw "") = thread)) as [E|E]; [|done].
  cbn in Hr. injection Hr as <-. done.
Qed.

(** ** At concrete inputs *)
#[local] Existing Instance room_primitives.
Notation some_settings := [(false, ("server", "--e2ee")); (true, ("name", "a=b")); (false, ("server", "https://tincan.dev"))].
Lemma flags_roundtrip_witness :
  ParseFlags (cli_formal parse_int) (concat ((fun x => render x.1 x.2) <$> some_settings) ++ "--" :: ["--name"; "rest"]) ∅
    = Parsed (settings ∅ some_settings) ["--name"; "rest"] /\
  settings ∅ some_settings !! "server" = Some "https://tincan.dev".
Proof.
  split; [|vm_compute; reflexivity]. apply (flags_roundtrip (cli_formal parse_int)).
  repeat constructor.
Defined.
Lemma launch_opts_in_once_witness :
  launchCommand ["claude"; "--marketplace"; "acme"; "--plugin-dir"; "/opt/tincan"; "--"; "--continue"]
    = Ok (Some ("claude", [channel_flag; "plugin:tincan@inline"; "--plugin-dir"; "/opt/tincan"; "--continue"])) /\
  "claude" = "claude" /\
  exists identity others,
    [channel_flag; "plugin:tincan@inline"; "--plugin-dir"; "/opt/tincan"; "--continue"] = channel_flag :: identity :: others /\
    Forall (fun a => names_channels a = false) others /\
    (forall a, a ∈ others -> a ∈ ["claude"; "--marketplace"; "acme"; "--plugin-dir"; "/opt/tincan"; "--"; "--continue"]) /\
    (identity = "plugin:tincan@tincan" \/ identity = "plugin:tincan@inline" \/
     exists m, m ∈ ["claude"; "--marketplace"; "acme"; "--plugin-dir"; "/opt/tincan"; "--"; "--continue"] /\ marketplace_name m = true /\
       identity = "plugin:tincan@" +:+ m).
Proof.
  split; [vm_compute; reflexivity|]. apply (launch_opts_in_once ["claude"; "--marketplace"; "acme"; "--plugin-dir"; "/opt/tincan"; "--"; "--continue"]).
  vm_compute. reflexivity.
Defined.
Example channels_refused : claudePluginArgs ["--"; "--channels=server:other"] = Err "launch supplies the Tincan channel flag; pass other Claude options after --".
Proof. reflexivity. Qed.
Lemma claude_join_leaks_secret_witness :
  exists before encoded after,
    logs connected [join_request "Claude" leaked_fragment own_report] (joinClaude demo_base demo_parse ubuntu_cli "Claude" pinned_link connected).2 /\
    leaked_fragment = before +:+ ".auto." +:+ encoded +:+ "." +:+ after /\ DecodeString encoded = Some demo_secret /\
    cfg_CryptoPath (cn_config (joinClaude demo_base demo_parse ubuntu_cli "Claude" pinned_link connected).2) = "".
Proof.
  apply (claude_join_leaks_secret demo_base demo_parse demo_print ubuntu_cli "Claude" pinned_link connected "https://tincan.dev" leaked_fragment
    (value ("", "", "") (admissionFragment demo_parse demo_print pinned_link)).1.1 demo_secret "ws_1" own_report).
  - reflexivity.
  - reflexivity.
  - vm_compute. reflexivity.
  - vm_compute. reflexivity.
  - vm_compute. reflexivity.
  - discriminate.
  - vm_compute. reflexivity.
Defined.
