(* ===== verification/Wire.v ===== *)
(** * The inbox as JSON

    What [encoding/json] does with the structs of the inbox: the bytes that are saved
    ([inbox.save]), read back ([openInboxAt]), and written and read again by every copy on write
    ([inboxState.copy]); and the events of the stream ([inboxEvent.UnmarshalJSON],
    [join_approval.go]), whose inner calls need no check of depth of their own. A struct is a list of slots, one per field in the order of its tags.

    Formats of times and of floating-point numbers are the class [Formats]. An empty slice is
    written as a nil one. A decoder that fails gives nothing: nobody reads what it left. *)
From S2P Require Import Prelude GoStrings Json Types Crypto Roster Metadata Encryption Messages InboxState.

(** ** Codecs *)
Record codec (A : Type) := Codec {
  zero : A; write : A -> option json; read : json -> A -> option A }.
Arguments Codec {A} _ _ _. Arguments zero {A} _. Arguments write {A} _ _. Arguments read {A} _ _ _.

(** [json.Unmarshal]: the text is checked before anything is decoded. *)
Definition unmarshal {A} (c : codec A) (v : json) : option A :=
  if maxNestingDepth <? depth v then None else read c v (zero c).

Definition c_string : codec string := Codec "" (fun s => Some (JStr s)) decode_string.
Definition c_int : codec Z := Codec 0 (fun z => Some (JInt z)) decode_int.
Definition c_bool : codec bool := Codec false (fun b => Some (JBool b)) decode_bool.
Definition c_raw : codec json := Codec JNull Some (fun v _ => Some v).
Definition c_ptr {A} (c : codec A) : codec (option A) :=
  Codec None (fun o => match o with Some x => write c x | None => Some JNull end) (decode_pointer (zero c) (read c)).
Definition c_list {A} (c : codec A) : codec (list A) :=
  Codec [] (fun l => match l with [] => Some JNull | _ => JArr <$> mapM (write c) l end)
    (fun v _ => match v with JArr l => mapM (fun v => read c v (zero c)) l | JNull => Some [] | _ => None end).
Fixpoint read_flags (l : list (string * json)) (m : gmap string bool) : option (gmap string bool) :=
  match l with [] => Some m | (k, v) :: r => b ← decode_bool v false; read_flags r (<[k:=b]> m) end.
Definition c_flags : codec (gmap string bool) :=
  Codec ∅ (fun m => Some (map_json JBool m))
    (fun v m => match v with JObj l => read_flags l m | JNull => Some ∅ | _ => None end).

(** ** Structs: a slot is a key, and the value under it: [None] cannot be written, [Some None]
    is left out. *)
Definition slot : Type := string * option (option json).
Definition always {A} (c : codec A) (key : string) (x : A) : slot := (key, Some <$> write c x).
Definition omitempty {A} (c : codec A) (empty : A -> bool) (key : string) (x : A) : slot :=
  (key, if empty x then Some None else Some <$> write c x).
Definition write_slots (l : list slot) : option json :=
  object <$> mapM (fun s : slot => (s.1,.) <$> s.2) l.

(** The field a key names: exactly, or else under case folding. *)
Definition resolve (names : list string) (key : string) : option string :=
  match List.find (fun n => bool_decide (n = key)) names with
  | Some n => Some n
  | None => List.find (fun n => field_match n key) names
  end.
Fixpoint read_slot {B} (names : list string) (name : string) (r : json -> B -> option B)
    (members : list (string * json)) (old : B) : option B :=
  match members with
  | [] => Some old
  | (k, v) :: rest =>
      b ← (if bool_decide (resolve names k = Some name) then r v old else Some old); read_slot names name r rest b
  end.
Definition read_struct {A} (body : list (string * json) -> A -> option A) (v : json) (old : A) : option A :=
  match v with JObj members => body members old | JNull => Some old | _ => None end.

Definition no_string (s : string) : bool := bool_decide (s = "").
Definition no_int (z : Z) : bool := bool_decide (z = 0).
Definition no_pointer {A} (o : option A) : bool := match o with None => true | _ => false end.
Definition no_list {A} (l : list A) : bool := match l with [] => true | _ => false end.
Definition no_flags (m : gmap string bool) : bool := bool_decide (m = ∅).

(** ** internal/core *)
Class Formats := {
  time_text : Z -> option string; time_parse : string -> option Z;
  float_text : spec_float -> option string; float_parse : string -> option spec_float }.

Section Wire.
Context `{!Formats}.

Definition c_time : codec Z :=
  Codec 0 (fun t => JStr <$> time_text t)
    (fun v old => match v with JStr s => time_parse s | JNull => Some old | _ => None end).
Definition c_float : codec spec_float :=
  Codec (S754_zero false) (fun f => JNum <$> float_text f)
    (fun v old => match v with JNum l => float_parse l | JNull => Some old | _ => None end).
Definition no_float (f : spec_float) : bool := match f with S754_zero _ => true | _ => false end.

Definition c_envelope : codec Envelope :=
  Codec zero_envelope (fun e => Some (envelope_json e)) (decode_object envelope_decoders).

Definition context_slots (c : MessageContext) : list slot :=
  [always c_string "room_id" (mc_RoomID c); always c_string "room_name" (mc_RoomName c);
   always c_string "channel_name" (mc_ChannelName c); always c_bool "private" (mc_Private c)].
Definition zero_context : MessageContext := mkMessageContext "" "" "" false.
Definition c_context : codec MessageContext :=
  Codec zero_context (fun c => write_slots (context_slots c)) (read_struct (fun l c =>
    let names := (context_slots c).*1 in
    a ← read_slot names "room_id" decode_string l (mc_RoomID c);
    b ← read_slot names "room_name" decode_string l (mc_RoomName c);
    d ← read_slot names "channel_name" decode_string l (mc_ChannelName c);
    p ← read_slot names "private" decode_bool l (mc_Private c);
    Some (mkMessageContext a b d p))).

Definition preview_slots (p : ReplyPreview) : list slot :=
  [always c_string "id" (rp_ID p); always c_string "agent_name" (rp_AgentName p); always c_string "text" (rp_Text p)].
Definition zero_preview : ReplyPreview := mkReplyPreview "" "" "".
Definition c_preview : codec ReplyPreview :=
  Codec zero_preview (fun p => write_slots (preview_slots p)) (read_struct (fun l p =>
    let names := (preview_slots p).*1 in
    a ← read_slot names "id" decode_string l (rp_ID p);
    b ← read_slot names "agent_name" decode_string l (rp_AgentName p);
    c ← read_slot names "text" decode_string l (rp_Text p);
    Some (mkReplyPreview a b c))).

Definition attachment_slots (a : Attachment) : list slot :=
  [always c_string "id" (att_ID a); always c_string "name" (att_Name a); always c_string "mime" (att_MIME a);
   always c_int "bytes" (att_Bytes a)].
Definition zero_attachment : Attachment := mkAttachment "" "" "" 0.
Definition c_attachment : codec Attachment :=
  Codec zero_attachment (fun a => write_slots (attachment_slots a)) (read_struct (fun l a =>
    let names := (attachment_slots a).*1 in
    i ← read_slot names "id" decode_string l (att_ID a);
    n ← read_slot names "name" decode_string l (att_Name a);
    m ← read_slot names "mime" decode_string l (att_MIME a);
    b ← read_slot names "bytes" decode_int l (att_Bytes a);
    Some (mkAttachment i n m b))).

Definition message_slots (m : Message) : list slot :=
  [omitempty c_string no_string "encryption_error" (msg_EncryptionError m);
   omitempty (c_ptr c_envelope) no_pointer "encrypted" (msg_Encrypted m);
   omitempty (c_ptr c_context) no_pointer "context" (msg_Context m);
   omitempty (c_ptr c_preview) no_pointer "reply_preview" (msg_ReplyPreview m);
   always c_int "seq" (msg_Seq m); always c_string "id" (msg_ID m);
   always c_string "channel_id" (msg_ChannelID m); always c_string "agent_id" (msg_AgentID m);
   always c_string "agent_name" (msg_AgentName m); always c_string "text" (msg_Text m);
   always c_raw "metadata" (msg_Metadata m); always (c_list c_attachment) "attachments" (msg_Attachments m);
   always (c_list c_string) "mentions" (msg_Mentions m); always (c_ptr c_string) "reply_to" (msg_ReplyTo m);
   always c_time "created_at" (msg_CreatedAt m)].
Definition blank_message : Message := mkMessage "" None None None 0 "" "" "" "" "" JNull [] [] None 0.
Definition c_message : codec Message :=
  Codec blank_message (fun m => write_slots (message_slots m)) (read_struct (fun l m =>
    let names := (message_slots m).*1 in
    err ← read_slot names "encryption_error" decode_string l (msg_EncryptionError m);
    enc ← read_slot names "encrypted" (read (c_ptr c_envelope)) l (msg_Encrypted m);
    ctx ← read_slot names "context" (read (c_ptr c_context)) l (msg_Context m);
    prev ← read_slot names "reply_preview" (read (c_ptr c_preview)) l (msg_ReplyPreview m);
    seq ← read_slot names "seq" decode_int l (msg_Seq m);
    id ← read_slot names "id" decode_string l (msg_ID m);
    channel ← read_slot names "channel_id" decode_string l (msg_ChannelID m);
    agent ← read_slot names "agent_id" decode_string l (msg_AgentID m);
    name ← read_slot names "agent_name" decode_string l (msg_AgentName m);
    text ← read_slot names "text" decode_string l (msg_Text m);
    meta ← read_slot names "metadata" (read c_raw) l (msg_Metadata m);
    files ← read_slot names "attachments" (read (c_list c_attachment)) l (msg_Attachments m);
    mentions ← read_slot names "mentions" (read (c_list c_string)) l (msg_Mentions m);
    reply ← read_slot names "reply_to" (read (c_ptr c_string)) l (msg_ReplyTo m);
    created ← read_slot names "created_at" (read c_time) l (msg_CreatedAt m);
    Some (mkMessage err enc ctx prev seq id channel agent name text meta files mentions reply created))).

(** ** Events *)
Definition semantic_slots (n : semanticNotice) : list slot :=
  [omitempty c_string no_string "message_id" (sem_MessageID n);
   omitempty c_string no_string "classification" (sem_Classification n);
   omitempty c_float no_float "confidence" (sem_Confidence n);
   always c_string "owner_agent_id" (sem_OwnerAgentID n); always c_string "suggestion_id" (sem_SuggestionID n);
   always c_string "feature" (sem_Feature n); always c_string "kind" (sem_Kind n);
   always c_string "mode" (sem_Mode n)].
Definition zero_semantic : semanticNotice := mkSemanticNotice "" "" (S754_zero false) "" "" "" "" "".
Definition c_semantic : codec semanticNotice :=
  Codec zero_semantic (fun n => write_slots (semantic_slots n)) (read_struct (fun l n =>
    let names := (semantic_slots n).*1 in
    m ← read_slot names "message_id" decode_string l (sem_MessageID n);
    c ← read_slot names "classification" decode_string l (sem_Classification n);
    f ← read_slot names "confidence" (read c_float) l (sem_Confidence n);
    o ← read_slot names "owner_agent_id" decode_string l (sem_OwnerAgentID n);
    s ← read_slot names "suggestion_id" decode_string l (sem_SuggestionID n);
    t ← read_slot names "feature" decode_string l (sem_Feature n);
    k ← read_slot names "kind" decode_string l (sem_Kind n);
    d ← read_slot names "mode" decode_string l (sem_Mode n);
    Some (mkSemanticNotice m c f o s t k d))).

Definition collaboration_slots (n : collaborationNotice) : list slot :=
  [always c_string "owner_agent_id" (col_OwnerAgentID n); always c_string "request_id" (col_RequestID n);
   omitempty c_string no_string "message_id" (col_MessageID n); always c_string "reason" (col_Reason n)].
Definition zero_collaboration : collaborationNotice := mkCollaborationNotice "" "" "" "".
Definition c_collaboration : codec collaborationNotice :=
  Codec zero_collaboration (fun n => write_slots (collaboration_slots n)) (read_struct (fun l n =>
    let names := (collaboration_slots n).*1 in
    o ← read_slot names "owner_agent_id" decode_string l (col_OwnerAgentID n);
    r ← read_slot names "request_id" decode_string l (col_RequestID n);
    m ← read_slot names "message_id" decode_string l (col_MessageID n);
    y ← read_slot names "reason" decode_string l (col_Reason n);
    Some (mkCollaborationNotice o r m y))).

Definition join_slots (n : joinNotice) : list slot :=
  [always c_string "request_id" (jn_RequestID n); always c_string "name" (jn_Name n);
   always c_string "verification_phrase" (jn_VerificationPhrase n); always c_time "expires_at" (jn_ExpiresAt n)].
Definition zero_join : joinNotice := mkJoinNotice "" "" "" 0.
Definition c_join : codec joinNotice :=
  Codec zero_join (fun n => write_slots (join_slots n)) (read_struct (fun l n =>
    let names := (join_slots n).*1 in
    r ← read_slot names "request_id" decode_string l (jn_RequestID n);
    a ← read_slot names "name" decode_string l (jn_Name n);
    p ← read_slot names "verification_phrase" decode_string l (jn_VerificationPhrase n);
    t ← read_slot names "expires_at" (read c_time) l (jn_ExpiresAt n);
    Some (mkJoinNotice r a p t))).

Definition event_slots (e : inboxEvent) : list slot :=
  [omitempty (c_ptr c_semantic) no_pointer "semantic" (ev_Semantic e);
   omitempty (c_ptr c_collaboration) no_pointer "collaboration" (ev_Collaboration e);
   omitempty c_bool negb "mentioned" (ev_Mentioned e);
   omitempty (c_ptr c_join) no_pointer "join_request" (ev_JoinRequest e);
   always c_int "seq" (ev_Seq e); always c_string "kind" (ev_Kind e);
   always c_string "channel_id" (ev_ChannelID e); always c_message "payload" (ev_Payload e)].

(** [inboxEvent.UnmarshalJSON]: the fields, with the payload left as text; then the payload as
    what the kind of the event says, unless the event has it in its own field. *)
Definition read_plain (v : json) (e : inboxEvent) : option (inboxEvent * option json) :=
  match v with
  | JObj l =>
      let names := (event_slots e).*1 in
      s ← read_slot names "semantic" (read (c_ptr c_semantic)) l (ev_Semantic e);
      c ← read_slot names "collaboration" (read (c_ptr c_collaboration)) l (ev_Collaboration e);
      m ← read_slot names "mentioned" decode_bool l (ev_Mentioned e);
      j ← read_slot names "join_request" (read (c_ptr c_join)) l (ev_JoinRequest e);
      n ← read_slot names "seq" decode_int l (ev_Seq e);
      k ← read_slot names "kind" decode_string l (ev_Kind e);
      h ← read_slot names "channel_id" decode_string l (ev_ChannelID e);
      raw ← read_slot names "payload" (fun v _ => Some (Some v)) l None;
      Some (mkEvent s c m j n k h (ev_Payload e), raw)
  | JNull => Some (e, None)
  | _ => None
  end.
Definition set_Collaboration (o : option collaborationNotice) (e : inboxEvent) : inboxEvent :=
  mkEvent (ev_Semantic e) o (ev_Mentioned e) (ev_JoinRequest e) (ev_Seq e) (ev_Kind e) (ev_ChannelID e) (ev_Payload e).
Definition set_JoinRequest (o : option joinNotice) (e : inboxEvent) : inboxEvent :=
  mkEvent (ev_Semantic e) (ev_Collaboration e) (ev_Mentioned e) o (ev_Seq e) (ev_Kind e) (ev_ChannelID e) (ev_Payload e).
Definition payload_read (e : inboxEvent) (raw : option json) : option inboxEvent :=
  if bool_decide (ev_Kind e = "semantic_attention") then
    match ev_Semantic e with
    | None => p ← raw; n ← read c_semantic p zero_semantic; Some (set_Semantic (Some n) e)
    | Some _ => Some e
    end
  else if bool_decide (ev_Kind e = "collaboration_attention") then
    match ev_Collaboration e with
    | None => p ← raw; n ← read c_collaboration p zero_collaboration; Some (set_Collaboration (Some n) e)
    | Some _ => Some e
    end
  else if bool_decide (ev_Kind e = "join_requested") then
    match ev_JoinRequest e with
    | None => p ← raw; n ← read c_join p zero_join; Some (set_JoinRequest (Some n) e)
    | Some _ => Some e
    end
  else match raw with
       | Some p => m ← read c_message p (ev_Payload e); Some (set_Payload m e)
       | None => Some e
       end.
Definition event_read (v : json) (e : inboxEvent) : option inboxEvent :=
  '(e, raw) ← read_plain v e; payload_read e raw.
Definition blank_event : inboxEvent := mkEvent None None false None 0 "" "" blank_message.
Definition c_event : codec inboxEvent :=
  Codec blank_event (fun e => write_slots (event_slots e)) event_read.

(** ** Requests and the state *)
Definition claim_slots (c : inboxClaim) : list slot :=
  [always c_string "worker_id" (cl_WorkerID c); always c_string "token" (cl_Token c)].
Definition zero_claim : inboxClaim := mkClaim "" "".
Definition c_claim : codec inboxClaim :=
  Codec zero_claim (fun c => write_slots (claim_slots c)) (read_struct (fun l c =>
    let names := (claim_slots c).*1 in
    w ← read_slot names "worker_id" decode_string l (cl_WorkerID c);
    t ← read_slot names "token" decode_string l (cl_Token c);
    Some (mkClaim w t))).

Definition approval_slots (a : requestApproval) : list slot :=
  [always c_string "id" (ap_ID a); always c_string "question" (ap_Question a);
   always c_string "permission" (ap_Permission a); always c_string "delivery" (ap_Delivery a);
   omitempty c_string no_string "source" (ap_Source a)].
Definition zero_approval : requestApproval := mkApproval "" "" "" "" "".
Definition c_approval : codec requestApproval :=
  Codec zero_approval (fun a => write_slots (approval_slots a)) (read_struct (fun l a =>
    let names := (approval_slots a).*1 in
    i ← read_slot names "id" decode_string l (ap_ID a);
    q ← read_slot names "question" decode_string l (ap_Question a);
    p ← read_slot names "permission" decode_string l (ap_Permission a);
    d ← read_slot names "delivery" decode_string l (ap_Delivery a);
    s ← read_slot names "source" decode_string l (ap_Source a);
    Some (mkApproval i q p d s))).

Definition policy_slots (p : standingPolicy) : list slot :=
  [always c_string "source" (pol_Source p); always c_string "scope" (pol_Scope p);
   omitempty (c_list c_string) no_list "resources" (pol_Resources p);
   omitempty (c_list c_string) no_list "boundaries" (pol_Boundaries p);
   omitempty c_int no_int "revision" (pol_Revision p); omitempty c_int no_int "max_workers" (pol_MaxWorkers p)].
Definition zero_policy : standingPolicy := mkPolicy "" "" [] [] 0 0.
Definition c_policy : codec standingPolicy :=
  Codec zero_policy (fun p => write_slots (policy_slots p)) (read_struct (fun l p =>
    let names := (policy_slots p).*1 in
    s ← read_slot names "source" decode_string l (pol_Source p);
    c ← read_slot names "scope" decode_string l (pol_Scope p);
    r ← read_slot names "resources" (read (c_list c_string)) l (pol_Resources p);
    b ← read_slot names "boundaries" (read (c_list c_string)) l (pol_Boundaries p);
    n ← read_slot names "revision" decode_int l (pol_Revision p);
    w ← read_slot names "max_workers" decode_int l (pol_MaxWorkers p);
    Some (mkPolicy s c r b n w))).

Definition request_slots (r : inboxRequest) : list slot :=
  [omitempty c_flags no_flags "applied_updates" (req_AppliedUpdates r); always c_event "event" (req_Event r);
   always c_string "status" (req_Status r); omitempty (c_ptr c_claim) no_pointer "claim" (req_Claim r);
   omitempty c_string no_string "delivery_error" (req_DeliveryError r);
   omitempty (c_ptr c_string) no_pointer "reply" (req_Reply r);
   omitempty c_string no_string "summary" (req_Summary r); omitempty c_string no_string "context" (req_Context r);
   omitempty (c_list c_int) no_list "dependencies" (req_Dependencies r);
   omitempty (c_list c_string) no_list "resources" (req_Resources r);
   omitempty (c_ptr c_approval) no_pointer "approval" (req_Approval r); always c_int "attempt" (req_Attempt r);
   omitempty c_string no_string "last_claim" (req_LastClaim r);
   omitempty c_string no_string "decision" (req_Decision r)].
Definition zero_request : inboxRequest := new_request blank_event "".
Definition c_request : codec inboxRequest :=
  Codec zero_request (fun r => write_slots (request_slots r)) (read_struct (fun l r =>
    let names := (request_slots r).*1 in
    u ← read_slot names "applied_updates" (read c_flags) l (req_AppliedUpdates r);
    e ← read_slot names "event" event_read l (req_Event r);
    s ← read_slot names "status" decode_string l (req_Status r);
    c ← read_slot names "claim" (read (c_ptr c_claim)) l (req_Claim r);
    d ← read_slot names "delivery_error" decode_string l (req_DeliveryError r);
    y ← read_slot names "reply" (read (c_ptr c_string)) l (req_Reply r);
    m ← read_slot names "summary" decode_string l (req_Summary r);
    x ← read_slot names "context" decode_string l (req_Context r);
    p ← read_slot names "dependencies" (read (c_list c_int)) l (req_Dependencies r);
    q ← read_slot names "resources" (read (c_list c_string)) l (req_Resources r);
    a ← read_slot names "approval" (read (c_ptr c_approval)) l (req_Approval r);
    t ← read_slot names "attempt" decode_int l (req_Attempt r);
    k ← read_slot names "last_claim" decode_string l (req_LastClaim r);
    n ← read_slot names "decision" decode_string l (req_Decision r);
    Some (mkRequest u e s c d y m x p q a t k n))).

Definition state_slots (s : inboxState) : list slot :=
  [omitempty c_int no_int "revision" (st_Revision s); omitempty c_int no_int "version" (st_Version s);
   omitempty (c_list c_request) no_list "requests" (st_Requests s);
   omitempty (c_ptr c_policy) no_pointer "policy" (st_Policy s); always c_int "after" (st_After s);
   omitempty (c_ptr c_event) no_pointer "pending" (st_Pending s);
   omitempty (c_ptr c_string) no_pointer "reply" (st_Reply s);
   omitempty (c_ptr c_claim) no_pointer "claim" (st_Claim s)].
Definition c_state : codec inboxState :=
  Codec blank_state (fun s => write_slots (state_slots s)) (read_struct (fun l s =>
    let names := (state_slots s).*1 in
    n ← read_slot names "revision" decode_int l (st_Revision s);
    v ← read_slot names "version" decode_int l (st_Version s);
    r ← read_slot names "requests" (read (c_list c_request)) l (st_Requests s);
    p ← read_slot names "policy" (read (c_ptr c_policy)) l (st_Policy s);
    a ← read_slot names "after" decode_int l (st_After s);
    e ← read_slot names "pending" (read (c_ptr c_event)) l (st_Pending s);
    y ← read_slot names "reply" (read (c_ptr c_string)) l (st_Reply s);
    c ← read_slot names "claim" (read (c_ptr c_claim)) l (st_Claim s);
    Some (mkState n v r p a e y c))).

(** [inboxState.copy]: written, read, migrated, and every error dropped. *)
Definition json_copy (s : inboxState) : inboxState :=
  (migrate (default blank_state (write c_state s ≫= unmarshal c_state))).2.
End Wire.
