(* ===== verification/WireTheorems.v ===== *)
(** * The inbox as JSON: properties

    What is saved is read back as it was, and a copy is a copy, as long as no metadata is nested
    too deeply; and what a copy is when some is. *)
From stdpp Require Import sorting.
From S2P Require Import Prelude GoStrings Json Types Crypto Roster Metadata Encryption Messages InboxState Wire.

(** ** Integers in decimal *)
Definition int64 (z : Z) : Prop := - 2 ^ 63 <= z < 2 ^ 63.
#[export] Instance int64_dec z : Decision (int64 z).
Proof. unfold int64. apply _. Defined.

Lemma digit_char (n : N) : (n < 10)%N ->
  byte_in 48 57 (pretty_N_char n) = true /\ code (pretty_N_char n) - 48 = Z.of_N n.
Proof.
  intros H. assert (n ∈ ([0; 1; 2; 3; 4; 5; 6; 7; 8; 9]%N : list N)) as Hin by (rewrite !elem_of_cons; lia).
  repeat (apply elem_of_cons in Hin as [->|Hin]; [by split|]). by apply not_elem_of_nil in Hin.
Qed.

Lemma parse_pretty_go (x : N) s : parse_digits 0 (bytes (pretty_N_go x s)) = parse_digits (Z.of_N x) (bytes s).
Proof.
  revert s. induction (N.lt_wf_0 x) as [x _ IH]. intros s.
  destruct (decide (x = 0)%N) as [->|]; [by rewrite pretty_N_go_0|].
  rewrite pretty_N_go_step by lia. rewrite IH by (apply N.div_lt; lia).
  destruct (digit_char (x mod 10)) as [Hb Hc]; [by apply N.mod_lt|].
  cbn. rewrite Hb, Hc. f_equal. pose proof (N.div_mod x 10 ltac:(done)). lia.
Qed.

Lemma pretty_go_first (x : N) s : (0 < x)%N -> exists a r, bytes (pretty_N_go x s) = a :: r /\ byte_in 48 57 a = true.
Proof.
  revert s. induction (N.lt_wf_0 x) as [x _ IH]. intros s Hx. rewrite pretty_N_go_step by lia.
  destruct (decide (x / 10 = 0)%N) as [E|E]; [|apply IH; [apply N.div_lt; lia|by apply N.neq_0_lt_0]].
  rewrite E, pretty_N_go_0. eexists _, _. split; [done|]. apply digit_char. by apply N.mod_lt.
Qed.

Lemma pretty_N_text (x : N) : exists a r,
  bytes (pretty x) = a :: r /\ byte_in 48 57 a = true /\ parse_digits 0 (a :: r) = Some (Z.of_N x).
Proof.
  unfold pretty, pretty_N. case_decide as E; [subst; by eexists _, _|].
  destruct (pretty_go_first x "") as (a & r & Ha & Hb); [lia|]. exists a, r. split_and!; [done..|].
  rewrite <- Ha, parse_pretty_go. done.
Qed.

Lemma parse_int_Itoa z : int64 z -> parse_int (Itoa z) = Some z.
Proof.
  intros H. unfold int64 in H. unfold parse_int, Itoa.
  destruct (pretty_N_text (Z.to_N (Z.abs z))) as (a & r & Ha & Hb & Hp).
  destruct (Z_lt_le_dec z 0) as [Hz|Hz].
  - assert (pretty z = ("-" +:+ pretty (Z.to_N (Z.abs z)))%string) as -> by (destruct z; done || lia).
    change (bytes ("-" +:+ ?s)) with ("-"%char :: bytes s). rewrite Ha.
    change (code "-"%char =? 45) with true. cbv iota. rewrite Hp.
    replace (-1 * Z.of_N (Z.to_N (Z.abs z))) with z by lia. by rewrite (proj2 (Z.leb_le _ _)), (proj2 (Z.ltb_lt _ _)) by lia.
  - assert (pretty z = pretty (Z.to_N (Z.abs z))) as -> by (destruct z; done || lia).
    rewrite Ha. destruct (code a =? 45) eqn:E.
    { exfalso. unfold byte_in in Hb. lia. }
    rewrite Hp. replace (1 * Z.of_N (Z.to_N (Z.abs z))) with z by lia.
    by rewrite (proj2 (Z.leb_le _ _)), (proj2 (Z.ltb_lt _ _)) by lia.
Qed.

(** ** Slots *)
Lemma resolve_in names k : k ∈ names -> resolve names k = Some k.
Proof.
  unfold resolve. intros H. destruct (List.find _ names) as [n|] eqn:E.
  - apply List.find_some in E as [_ E%bool_decide_eq_true]. by subst.
  - exfalso. eapply List.find_none in E; [|by apply list_elem_of_In]. by rewrite bool_decide_eq_true_2 in E.
Qed.

Lemma read_slot_other {B} names name (r : json -> B -> option B) fs old :
  (forall k, k ∈ fs.*1 -> k ∈ names /\ k <> name) -> read_slot names name r (omap field_json fs) old = Some old.
Proof.
  induction fs as [|[k [v|]] fs IH]; intros H; [done| |]; cbn; [|apply IH; intros; apply H; by right].
  destruct (H k) as [Hk Hn]; [by left|]. rewrite resolve_in, bool_decide_eq_false_2 by (done || congruence).
  apply IH. intros; apply H; by right.
Qed.

Lemma read_slot_object {B} names name (r : json -> B -> option B) fs o old :
  fs.*1 ⊆ names -> NoDup fs.*1 -> (name, o) ∈ fs ->
  read_slot names name r (omap field_json fs) old = match o with Some v => r v old | None => Some old end.
Proof.
  induction fs as [|[k w] fs IH]; [by intros _ _ ?%not_elem_of_nil|].
  rewrite fmap_cons. intros Hs [Hk Hn]%NoDup_cons. cbn [fst] in *.
  assert (fs.*1 ⊆ names) as Hs' by (intros x Hx; apply Hs; by right).
  intros [[= <- <-]|Hin]%elem_of_cons.
  - assert (forall b, read_slot names name r (omap field_json fs) b = Some b) as E.
    { intros b. apply read_slot_other. intros k Hk'. split; [by apply Hs'|by intros ->]. }
    destruct o as [v|]; cbn; [|apply E].
    rewrite resolve_in, bool_decide_eq_true_2 by (done || (apply Hs; by left)).
    change ((b ← r v old; read_slot names name r (omap field_json fs) b) = r v old).
    destruct (r v old) as [b|]; [apply E|done].
  - rewrite <- IH by done. destruct w as [w|]; cbn; [|done].
    assert (k <> name) by (intros ->; apply Hk; by apply (list_elem_of_fmap_2 fst) in Hin).
    rewrite resolve_in, bool_decide_eq_false_2 by (congruence || (apply Hs; by left)). done.
Qed.

(** The members that come of slots, as a reader finds them. *)
Definition reads (l : list slot) (m : list (string * json)) : Prop :=
  forall key o, (key, o) ∈ l -> exists w, o = Some w /\
    forall B (r : json -> B -> option B) old,
      read_slot l.*1 key r m old = match w with Some v => r v old | None => Some old end.

Lemma slots_fields l fs : mapM (fun s : slot => (s.1,.) <$> s.2) l = Some fs ->
  fs.*1 = l.*1 /\ forall key o, (key, o) ∈ l -> exists w, o = Some w /\ (key, w) ∈ fs.
Proof.
  intros H%mapM_Some. induction H as [|[k [w|]] [k' w'] l fs E H IH]; [| |done].
  - split; [done|]. by intros ?? ?%not_elem_of_nil.
  - cbn in E. injection E as <- <-. destruct IH as [E IH]. split; [by cbn; rewrite E|].
    intros key o [[= -> ->]|Hin]%elem_of_cons; [exists w; split; [done|by left]|].
    destruct (IH _ _ Hin) as (x & -> & Hx). exists x. split; [done|by right].
Qed.

Lemma write_slots_reads l v : NoDup l.*1 -> write_slots l = Some v -> exists m, v = JObj m /\ reads l m.
Proof.
  unfold write_slots. intros Hn (fs & Hf & ->)%fmap_Some. destruct (slots_fields _ _ Hf) as [E Hs].
  eexists. split; [done|]. intros key o Hin. destruct (Hs _ _ Hin) as (w & -> & Hw). exists w. split; [done|].
  intros B r old. apply read_slot_object; [by rewrite E|by rewrite E|done].
Qed.

(** ** Codecs that read what they write *)
Definition lawful {A} (c : codec A) (P : A -> Prop) : Prop :=
  forall x v, P x -> write c x = Some v -> read c v (zero c) = Some x.
Definition never_null {A} (c : codec A) : Prop := forall x v, write c x = Some v -> v <> JNull.

Create HintDb wire.
#[local] Hint Extern 1 (lawful _ _) => solve [unfold lawful; cbn; intros; by simplify_eq] : wire.
#[local] Hint Extern 1 (never_null _) => solve [unfold never_null; cbn; intros; by simplify_eq] : wire.

Lemma lawful_string : lawful c_string (fun _ => True).
Proof. auto with wire. Qed.
Lemma lawful_bool : lawful c_bool (fun _ => True).
Proof. auto with wire. Qed.
Lemma lawful_raw : lawful c_raw (fun _ => True).
Proof. auto with wire. Qed.
Lemma lawful_int : lawful c_int int64.
Proof. intros z v Hz [= <-]. by apply parse_int_Itoa. Qed.
Lemma lawful_ptr {A} (c : codec A) P : lawful c P -> never_null c -> lawful (c_ptr c) (from_option P True).
Proof.
  intros Hc Hn [x|] v Hx Hw; [|by injection Hw as <-]. cbn in *.
  pose proof (Hn _ _ Hw) as Hv. apply Hc in Hw; [|done]. unfold decode_pointer. cbn.
  destruct v; [done|..]; by rewrite Hw.
Qed.
Lemma lawful_list {A} (c : codec A) P : lawful c P -> lawful (c_list c) (Forall P).
Proof.
  intros Hc l v Hl Hw. assert (v = JNull /\ l = [] \/ exists vs, v = JArr vs /\ mapM (write c) l = Some vs) as [[-> ->]|(vs & -> & Hm)].
  { destruct l; [left; by injection Hw as <-|right]. cbn [write c_list] in Hw.
    apply fmap_Some in Hw as (vs & Hm & ->). by exists vs. }
  { done. }
  cbn. apply mapM_Some in Hm. apply mapM_Some. clear Hw. induction Hm as [|x v l vs Hx Hm IH]; [constructor|].
  apply Forall_cons in Hl as [Hp Hl]. constructor; [by apply Hc|by apply IH].
Qed.

Lemma read_flags_perm (m : gmap string bool) l : l ≡ₚ map_to_list (JBool <$> m) -> read_flags l ∅ = Some m.
Proof.
  rewrite map_to_list_fmap. intros (l' & -> & Hl')%Permutation_map_inv.
  assert (forall a, read_flags (map (prod_map id JBool) l') a = Some (list_to_map (rev l') ∪ a)) as E.
  { clear. induction l' as [|[k b] l' IH]; intros a; [cbn; by rewrite (left_id_L ∅ (∪))|].
    change (read_flags (map (prod_map id JBool) l') (<[k:=b]> a) = Some (list_to_map (rev l' ++ [(k, b)]) ∪ a)).
    rewrite IH, list_to_map_app. cbn. by rewrite <- (assoc_L (∪)), insert_union_singleton_l. }
  rewrite E, (right_id_L ∅ (∪)). f_equal.
  assert (rev l' ≡ₚ map_to_list m) as Hr by (by rewrite <- Permutation_rev).
  rewrite (list_to_map_proper _ (map_to_list m)), list_to_map_to_list; [done| |done].
  rewrite Hr. apply NoDup_fst_map_to_list.
Qed.
Lemma lawful_flags : lawful c_flags (fun _ => True).
Proof. intros m v _ [= <-]. apply read_flags_perm, merge_sort_Permutation. Qed.

#[export] Hint Resolve lawful_string lawful_bool lawful_raw lawful_int lawful_ptr lawful_list lawful_flags : wire.

(** A field of a struct. *)
Lemma bind_always {A B} names l m (c : codec A) P key x r old (k : A -> option B) : reads l m -> names = l.*1 ->
  always c key x ∈ l -> r = read c -> old = zero c -> lawful c P -> P x ->
  (b ← read_slot names key r m old; k b) = k x.
Proof.
  intros Hr -> Hin -> -> Hc Hx. destruct (Hr _ _ Hin) as (w & Hw & ->). apply fmap_Some in Hw as (v & Hv & ->).
  by rewrite (Hc _ _ Hx Hv).
Qed.
Lemma bind_omit {A B} names l m (c : codec A) P empty key x r old (k : A -> option B) : reads l m -> names = l.*1 ->
  omitempty c empty key x ∈ l -> r = read c -> old = zero c -> (empty x = true -> x = zero c) -> lawful c P -> P x ->
  (b ← read_slot names key r m old; k b) = k x.
Proof.
  intros Hr -> Hin -> -> He Hc Hx. destruct (Hr _ _ Hin) as (w & Hw & ->). destruct (empty x).
  - injection Hw as <-. by rewrite He.
  - apply fmap_Some in Hw as (v & Hv & ->). by rewrite (Hc _ _ Hx Hv).
Qed.

Lemma omit_no_string s : no_string s = true -> s = "".
Proof. apply bool_decide_eq_true. Qed.
Lemma omit_no_int z : no_int z = true -> z = 0.
Proof. apply bool_decide_eq_true. Qed.
Lemma omit_no_pointer {A} (o : option A) : no_pointer o = true -> o = None.
Proof. by destruct o. Qed.
Lemma omit_no_list {A} (l : list A) : no_list l = true -> l = [].
Proof. by destruct l. Qed.
Lemma omit_no_flags m : no_flags m = true -> m = ∅.
Proof. apply bool_decide_eq_true. Qed.
Lemma omit_false b : negb b = true -> b = false.
Proof. by destruct b. Qed.
#[export] Hint Resolve omit_no_string omit_no_int omit_no_pointer omit_no_list omit_no_flags omit_false : wire.

#[export] Hint Extern 0 => progress cbv beta : wire.

Lemma Forall_any {A} (l : list A) : Forall (fun _ => True) l.
Proof. by apply Forall_true. Qed.
Lemma from_option_any {A} (o : option A) : from_option (fun _ => True) True o.
Proof. by destruct o. Qed.
#[export] Hint Resolve Forall_any from_option_any : wire.

Ltac in_slots := first [apply list_elem_of_here | apply list_elem_of_further; in_slots].
Ltac field_step := etransitivity;
  [first [eapply bind_always; [eassumption|reflexivity|in_slots|reflexivity|reflexivity| |]
         |eapply bind_omit; [eassumption|reflexivity|in_slots|reflexivity|reflexivity| | |]];
   [try solve [eauto 6 with wire]..]|].
Ltac fields_step := repeat field_step.
Ltac distinct_keys := apply (bool_decide_eq_true_1 _); vm_compute; reflexivity.
Ltac struct_law :=
  let x := fresh "x" in let v := fresh "v" in let Hx := fresh "Hx" in let Hw := fresh "Hw" in
  intros x v Hx Hw; apply write_slots_reads in Hw as (m & -> & Hm); [|distinct_keys];
  cbv beta in Hx; cbn [read read_struct].

(** ** Nesting *)
Lemma depth_nonneg v : 0 <= depth v.
Proof. destruct v as [| | | |l|m]; cbn; try lia; [induction l|induction m]; cbn in *; lia. Qed.
Lemma depth_item v l : v ∈ l -> depth v < depth (JArr l).
Proof. induction 1 as [v l|v w l _ IH]; cbn in *; lia. Qed.
Lemma depth_member k v m : (k, v) ∈ m -> depth v < depth (JObj m).
Proof. induction m as [|[k' w] m IH]; intros H; [by apply not_elem_of_nil in H|]. apply elem_of_cons in H as [[= -> ->]|H]; cbn in *; [lia|]. specialize (IH H). lia. Qed.
Lemma depth_items n l : 0 <= n -> Forall (fun v => depth v <= n) l -> depth (JArr l) <= 1 + n.
Proof. intros Hn. induction 1; cbn in *; lia. Qed.
Lemma depth_members n m : 0 <= n -> (forall k v, (k, v) ∈ m -> depth v <= n) -> depth (JObj m) <= 1 + n.
Proof.
  intros Hn. induction m as [|[k v] m IH]; intros H; cbn in *; [lia|].
  pose proof (H k v ltac:(by left)). assert (forall k v, (k, v) ∈ m -> depth v <= n) as Hm by (intros; eapply H; by right).
  specialize (IH Hm). lia.
Qed.

Lemma object_members (fs : list (string * option json)) k v : (k, v) ∈ omap field_json fs <-> (k, Some v) ∈ fs.
Proof.
  rewrite list_elem_of_omap. unfold field_json. split.
  - intros ([k' [w|]] & Hin & E); cbn in E; [|done]. by simplify_eq.
  - intros H. by exists (k, Some v).
Qed.

(** What a codec writes is nested at most so deeply. *)
Definition bounded {A} (c : codec A) (P : A -> Prop) (n : Z) : Prop :=
  forall x v, P x -> write c x = Some v -> depth v <= n.
Definition flat {A} (c : codec A) (n : Z) : Prop := forall m, n <= m -> bounded c (fun _ => True) m.
Definition slot_depth (n : Z) (s : slot) : Prop :=
  match s.2 with Some (Some w) => depth w <= n | _ => True end.

Lemma write_slots_depth n l v : 0 <= n -> Forall (slot_depth n) l -> write_slots l = Some v -> depth v <= 1 + n.
Proof.
  unfold write_slots. intros Hn Hl (fs & Hf & ->)%fmap_Some. apply depth_members; [done|]. intros k w Hin%object_members.
  apply mapM_Some in Hf. induction Hf as [|s f l fs E Hf IH]; [by apply not_elem_of_nil in Hin|].
  apply Forall_cons in Hl as [Hs Hl]. apply elem_of_cons in Hin as [<-|Hin]; [|by apply IH].
  destruct s as [k' [o|]]; [|done]. injection E as -> ->. exact Hs.
Qed.
Lemma slot_below {A} l v (c : codec A) k x : write_slots l = Some v -> (k, Some <$> write c x) ∈ l ->
  exists w, write c x = Some w /\ depth w < depth v.
Proof.
  unfold write_slots. intros (fs & Hf & ->)%fmap_Some Hin.
  destruct (slots_fields _ _ Hf) as [_ Hs]. destruct (Hs _ _ Hin) as (o & (w & Hw & ->)%fmap_Some & Hx).
  exists w. split; [done|]. by apply (depth_member k), object_members.
Qed.

Lemma always_depth {A} (c : codec A) P n key x : bounded c P n -> P x -> slot_depth n (always c key x).
Proof. intros Hc Hx. unfold slot_depth. cbn. destruct (write c x) eqn:E; [by eapply Hc|done]. Qed.
Lemma omit_depth {A} (c : codec A) P n empty key x : bounded c P n -> P x -> slot_depth n (omitempty c empty key x).
Proof. intros Hc Hx. unfold slot_depth. cbn. destruct (empty x); [done|]. destruct (write c x) eqn:E; [by eapply Hc|done]. Qed.

Lemma flat_bounded {A} (c : codec A) n m : flat c n -> n <= m -> bounded c (fun _ => True) m.
Proof. intros H. apply H. Qed.
Lemma bounded_ptr {A} (c : codec A) P n : 0 <= n -> bounded c P n -> bounded (c_ptr c) (from_option P True) n.
Proof. intros Hn Hc [x|] v Hx; [by apply Hc|]. by intros [= <-]. Qed.
Lemma bounded_list {A} (c : codec A) P n : 0 <= n -> bounded c P n -> bounded (c_list c) (Forall P) (1 + n).
Proof.
  intros Hn Hc l v Hl Hw. assert (v = JNull \/ exists vs, v = JArr vs /\ mapM (write c) l = Some vs) as [->|(vs & -> & Hm)].
  { destruct l; [left; by injection Hw as <-|right]. cbn [write c_list] in Hw. apply fmap_Some in Hw as (vs & Hm & ->). by exists vs. }
  { cbn. lia. }
  apply depth_items; [done|]. apply mapM_Some in Hm. clear Hw. induction Hm as [|x v l vs Hx Hm IH]; [constructor|].
  apply Forall_cons in Hl as [Hp Hl]. constructor; [by eapply Hc|by apply IH].
Qed.
Lemma flat_string : flat c_string 0.
Proof. intros n Hn x v _ [= <-]. done. Qed.
Lemma flat_int : flat c_int 0.
Proof. intros n Hn x v _ [= <-]. done. Qed.
Lemma flat_bool : flat c_bool 0.
Proof. intros n Hn x v _ [= <-]. done. Qed.
Lemma bounded_raw n : bounded c_raw (fun v => depth v <= n) n.
Proof. by intros x v Hx [= <-]. Qed.
Lemma flat_flags : flat c_flags 1.
Proof.
  intros n Hn m v _ [= <-]. transitivity (1 + 0); [|lia]. apply depth_members; [done|]. intros k w Hin.
  rewrite (merge_sort_Permutation key_le) in Hin. apply elem_of_map_to_list, lookup_fmap_Some in Hin as (b & <- & _). done.
Qed.
Lemma flat_ptr {A} (c : codec A) n : flat c n -> 0 <= n -> flat (c_ptr c) n.
Proof. intros Hc Hn m Hm o v _. apply (bounded_ptr c (fun _ => True)); [lia|by apply Hc|by destruct o]. Qed.
Lemma flat_list {A} (c : codec A) n : flat c n -> 0 <= n -> flat (c_list c) (1 + n).
Proof.
  intros Hc Hn m Hm l v _ Hw. transitivity (1 + n); [|done].
  eapply (bounded_list c (fun _ => True)); [done|by apply Hc|by apply Forall_true|done].
Qed.
Lemma flat_struct {A} (z : A) (slots : A -> list slot) r n : 0 <= n -> (forall x, Forall (slot_depth n) (slots x)) ->
  flat (Codec z (fun x => write_slots (slots x)) r) (1 + n).
Proof. intros Hn Hs m Hm x v _ Hw. transitivity (1 + n); [|done]. by eapply write_slots_depth. Qed.
Lemma flat_always {A} (c : codec A) n m key x : flat c n -> n <= m -> slot_depth m (always c key x).
Proof. intros Hc Hm. by eapply always_depth; [apply Hc|]. Qed.
Lemma flat_omit {A} (c : codec A) n m empty key x : flat c n -> n <= m -> slot_depth m (omitempty c empty key x).
Proof. intros Hc Hm. by eapply omit_depth; [apply Hc|]. Qed.
#[export] Hint Resolve flat_string flat_int flat_bool flat_flags flat_ptr flat_list : wire.
#[export] Hint Extern 2 (_ <= _)%Z => lia : wire.
Ltac flat_slots := repeat constructor; first [eapply flat_always|eapply flat_omit]; eauto with wire; lia.

(** ** The structs *)
Class FormatLaws `{!Formats} : Prop := {
  time_reads t s : time_text t = Some s -> time_parse s = Some t;
  float_reads f s : float_text f = Some s -> float_parse s = Some f }.

Section Laws.
Context {F : Formats} {L : FormatLaws}.

Lemma lawful_time : lawful c_time (fun _ => True).
Proof using L. intros t v _ (s & Hs & ->)%fmap_Some. by apply time_reads. Qed.
Lemma lawful_float : lawful c_float (fun _ => True).
Proof using L. intros f v _ (s & Hs & ->)%fmap_Some. by apply float_reads. Qed.
#[local] Hint Resolve lawful_time lawful_float : wire.

Lemma struct_never_null {A} (z : A) (slots : A -> list slot) r :
  never_null (Codec z (fun x => write_slots (slots x)) r).
Proof. intros x v. cbn. unfold write_slots. by intros (fs & _ & ->)%fmap_Some. Qed.
#[local] Hint Resolve struct_never_null : wire.
#[local] Hint Extern 1 (never_null ?c) => unfold c; apply struct_never_null : wire.
Lemma string_never_null : never_null c_string.
Proof. by intros x v [= <-]. Qed.
#[local] Hint Resolve string_never_null : wire.

Lemma lawful_context : lawful c_context (fun _ => True).
Proof. struct_law. fields_step. by destruct x. Qed.
Lemma lawful_preview : lawful c_preview (fun _ => True).
Proof. struct_law. fields_step. by destruct x. Qed.
Lemma lawful_attachment : lawful c_attachment (fun a => int64 (att_Bytes a)).
Proof. struct_law. fields_step. by destruct x. Qed.
Lemma lawful_claim : lawful c_claim (fun _ => True).
Proof. struct_law. fields_step. by destruct x. Qed.
Lemma lawful_approval : lawful c_approval (fun _ => True).
Proof. struct_law. fields_step. by destruct x. Qed.
Lemma lawful_collaboration : lawful c_collaboration (fun _ => True).
Proof. struct_law. fields_step. by destruct x. Qed.
Lemma lawful_join : lawful c_join (fun _ => True).
Proof using L. struct_law. fields_step. by destruct x. Qed.

Definition settled (f : spec_float) : Prop := f <> S754_zero true.
Lemma omit_float f : settled f -> no_float f = true -> f = S754_zero false.
Proof. by destruct f as [[]| | |]. Qed.
#[local] Hint Resolve omit_float : wire.
Lemma lawful_semantic : lawful c_semantic (fun n => settled (sem_Confidence n)).
Proof using L. struct_law. fields_step. by destruct x. Qed.

Definition sound_policy (p : standingPolicy) : Prop := int64 (pol_Revision p) /\ int64 (pol_MaxWorkers p).
Lemma lawful_policy : lawful c_policy sound_policy.
Proof. struct_law. destruct Hx. fields_step. by destruct x. Qed.

(** Envelopes, whose members are decoded one after the other. *)
Definition sound_envelope (e : Envelope) : Prop := int64 (env_Version e) /\ int64 (env_Epoch e).
Definition stored {A} (f : json -> A -> option A) (o : option json) (a : A) : option A :=
  match o with Some v => f v a | None => Some a end.
Lemma member_step {A} (T : string -> option (json -> A -> option A)) f k o fs a a' res :
  T k = Some f -> stored f o a = Some a' ->
  decode_known T (omap field_json fs) a' = res -> decode_known T (omap field_json ((k, o) :: fs)) a = res.
Proof. intros Hk Ho <-. destruct o as [v|]; cbn in *; [|by injection Ho as ->]. by rewrite Hk, Ho. Qed.
Lemma omit_string_step {A} (f : json -> A -> option A) a s g :
  (forall s, f (JStr s) a = Some (g s)) -> g "" = a -> stored f (omit_string s) a = Some (g s).
Proof. intros Hf Hg. unfold stored, omit_string. case_bool_decide as E; [by rewrite E, Hg|apply Hf]. Qed.
Lemma bytes_step {A} s old (k : string -> option A) : (b ← decode_bytes (bytes_json s) old; k b) = k s.
Proof. unfold bytes_json. by case_bool_decide; subst. Qed.
Lemma pointer_step {A} o old (k : option string -> option A) :
  (b ← decode_pointer "" decode_string (pointer_json o) old; k b) = k o.
Proof. by destruct o. Qed.
Lemma decode_strings_json l : decode_list (strings_json l) = Some l.
Proof. induction l as [|s l IH]; [done|]. cbn in *. by rewrite IH. Qed.
Lemma int_step {A} z old (k : Z -> option A) : int64 z -> (b ← decode_int (JInt z) old; k b) = k z.
Proof. intros H. change (decode_int (JInt z) old) with (parse_int (Itoa z)). by rewrite parse_int_Itoa. Qed.
Lemma strings_step {A} l (k : list string -> option A) : (b ← decode_list (strings_json l); k b) = k l.
Proof. by rewrite decode_strings_json. Qed.

Ltac value :=
  cbn [stored snd];
  lazymatch goal with
  | |- mbind _ (decode_int (JInt _) _) = _ => etransitivity; [by apply int_step|cbv beta; reflexivity]
  | |- mbind _ (decode_list _) = _ => etransitivity; [apply strings_step|cbv beta; reflexivity]
  | |- mbind _ (decode_pointer _ _ _ _) = _ => etransitivity; [apply pointer_step|cbv beta; reflexivity]
  | |- mbind _ (decode_bytes (bytes_json _) _) = _ => etransitivity; [apply bytes_step|cbv beta; reflexivity]
  | |- stored _ (omit_string _) _ = _ => eapply omit_string_step; [intros; cbn; reflexivity|cbn; reflexivity]
  | |- _ => cbn; reflexivity
  end.
Ltac fields_of_envelope :=
  cbv beta iota delta [set_Room set_Binding set_Route set_Refs set_Sealed set_Capsule set_PayloadHash zero_envelope
       env_RoomGroup env_RoomID env_Kind env_Version env_WorkspaceID env_ChannelID env_SenderID env_Key env_Mentions
       env_ReplyTo env_AttachmentIDs env_Epoch env_RosterHash env_Ciphertext env_Signature env_Capsule env_PayloadHash].
Lemma lawful_envelope : lawful c_envelope sound_envelope.
Proof.
  intros [] v [Hv He] [= <-]. unfold envelope_json, object, envelope_fields. cbn [read c_envelope decode_object].
  fields_of_envelope. cbn in Hv, He.
  eapply (member_step _ _ _ _ _ _ (set_Room env_RoomGroup "" zero_envelope)); [reflexivity|by destruct env_RoomGroup|].
  do 16 (fields_of_envelope; eapply member_step; [reflexivity|value|]). reflexivity.
Qed.
#[local] Hint Resolve lawful_envelope lawful_context lawful_preview lawful_attachment lawful_claim lawful_approval
  lawful_collaboration lawful_join lawful_semantic lawful_policy : wire.
Lemma envelope_never_null : never_null c_envelope.
Proof. by intros e v [= <-]. Qed.
#[local] Hint Resolve envelope_never_null : wire.

Definition sound_message (m : Message) : Prop :=
  from_option sound_envelope True (msg_Encrypted m) /\ int64 (msg_Seq m) /\
  Forall (fun a => int64 (att_Bytes a)) (msg_Attachments m).
Lemma lawful_message : lawful c_message sound_message.
Proof using L. struct_law. destruct Hx as (? & ? & ?). fields_step. by destruct x. Qed.

(** An event that tells of something else than a message has it in its own field. *)
Definition noticed (e : inboxEvent) : Prop :=
  (ev_Kind e = "semantic_attention" -> is_Some (ev_Semantic e)) /\
  (ev_Kind e = "collaboration_attention" -> is_Some (ev_Collaboration e)) /\
  (ev_Kind e = "join_requested" -> is_Some (ev_JoinRequest e)) /\
  (ev_Kind e ∈ ["semantic_attention"; "collaboration_attention"; "join_requested"] -> ev_Payload e = blank_message).
Definition sound_event (e : inboxEvent) : Prop :=
  int64 (ev_Seq e) /\ sound_message (ev_Payload e) /\
  from_option (fun n => settled (sem_Confidence n)) True (ev_Semantic e) /\ noticed e.
Lemma payload_read_written x p : noticed x -> sound_message (ev_Payload x) -> write c_message (ev_Payload x) = Some p ->
  payload_read (set_Payload blank_message x) (Some p) = Some x.
Proof using L.
  intros (N1 & N2 & N3 & N4) Hp Hw. apply (lawful_message _ _ Hp) in Hw.
  unfold payload_read. destruct x as [s c m j n k h d]. cbn [set_Payload ev_Kind ev_Semantic ev_Collaboration ev_JoinRequest ev_Payload] in *.
  destruct (bool_decide_reflect (k = "semantic_attention")) as [->|_].
  { destruct N1 as [? ->]; [done|]. rewrite N4; [done|by left]. }
  destruct (bool_decide_reflect (k = "collaboration_attention")) as [->|_].
  { destruct N2 as [? ->]; [done|]. rewrite N4; [done|by right; left]. }
  destruct (bool_decide_reflect (k = "join_requested")) as [->|_].
  { destruct N3 as [? ->]; [done|]. rewrite N4; [done|by right; right; left]. }
  change (zero c_message) with blank_message in Hw. by rewrite Hw.
Qed.

Lemma lawful_event : lawful c_event sound_event.
Proof using L.
  intros x v (Hn & Hp & Hs & Hx) Hw. apply write_slots_reads in Hw as (m & -> & Hm); [|distinct_keys].
  destruct (Hm "payload" (Some <$> write c_message (ev_Payload x))) as (w & Hw & Hr); [in_slots|].
  apply fmap_Some in Hw as (p & Hp' & ->).
  assert (read_plain (JObj m) blank_event = Some (set_Payload blank_message x, Some p)) as E.
  { unfold read_plain. fields_step. etransitivity; [|reflexivity]. by rewrite Hr. }
  change (event_read (JObj m) blank_event = Some x). unfold event_read. rewrite E. by apply payload_read_written.
Qed.
#[local] Hint Resolve lawful_message lawful_event : wire.

Definition sound_request (r : inboxRequest) : Prop :=
  sound_event (req_Event r) /\ Forall int64 (req_Dependencies r) /\ int64 (req_Attempt r).
Lemma lawful_request : lawful c_request sound_request.
Proof using L. struct_law. destruct Hx as (? & ? & ?). fields_step. by destruct x. Qed.
#[local] Hint Resolve lawful_request : wire.

Definition sound_state (s : inboxState) : Prop :=
  int64 (st_Revision s) /\ int64 (st_Version s) /\ Forall sound_request (st_Requests s) /\
  from_option sound_policy True (st_Policy s) /\ int64 (st_After s) /\ from_option sound_event True (st_Pending s).
Lemma lawful_state : lawful c_state sound_state.
Proof using L. struct_law. destruct Hx as (? & ? & ? & ? & ? & ?). fields_step. by destruct x. Qed.

(** ** Nesting of the structs: only metadata has a depth of its own *)
Lemma flat_time : flat c_time 0.
Proof. intros n Hn x v _ (s & _ & ->)%fmap_Some. done. Qed.
Lemma flat_float : flat c_float 0.
Proof. intros n Hn x v _ (s & _ & ->)%fmap_Some. done. Qed.
#[local] Hint Resolve flat_time flat_float : wire.
Lemma strings_depth l : depth (strings_json l) <= 1.
Proof. apply (depth_items 0); [done|]. apply Forall_fmap, Forall_true. by intros. Qed.
Lemma flat_envelope : flat c_envelope 2.
Proof.
  intros n Hn e v _ [= <-]. transitivity (1 + 1); [|lia]. apply depth_members; [done|].
  intros k w Hin%object_members. unfold envelope_fields, omit_bool, omit_string, bytes_json, pointer_json in Hin.
  destruct (env_ReplyTo e); cbn [default fmap option_fmap option_map] in Hin;
  repeat (apply elem_of_cons in Hin as [[= -> E]|Hin];
    [repeat (case_match || case_bool_decide); simplify_eq; first [apply strings_depth|done]|]);
  by apply not_elem_of_nil in Hin.
Qed.
Lemma flat_context : flat c_context 1.
Proof. apply (flat_struct _ _ _ 0); [done|]. intros x. flat_slots. Qed.
Lemma flat_preview : flat c_preview 1.
Proof. apply (flat_struct _ _ _ 0); [done|]. intros x. flat_slots. Qed.
Lemma flat_attachment : flat c_attachment 1.
Proof. apply (flat_struct _ _ _ 0); [done|]. intros x. flat_slots. Qed.
Lemma flat_semantic : flat c_semantic 1.
Proof. apply (flat_struct _ _ _ 0); [done|]. intros x. flat_slots. Qed.
Lemma flat_collaboration : flat c_collaboration 1.
Proof. apply (flat_struct _ _ _ 0); [done|]. intros x. flat_slots. Qed.
Lemma flat_join : flat c_join 1.
Proof. apply (flat_struct _ _ _ 0); [done|]. intros x. flat_slots. Qed.
Lemma flat_claim : flat c_claim 1.
Proof. apply (flat_struct _ _ _ 0); [done|]. intros x. flat_slots. Qed.
Lemma flat_approval : flat c_approval 1.
Proof. apply (flat_struct _ _ _ 0); [done|]. intros x. flat_slots. Qed.
#[local] Hint Resolve flat_envelope flat_context flat_preview flat_attachment flat_semantic flat_collaboration flat_join
  flat_claim flat_approval : wire.
Lemma flat_policy : flat c_policy 2.
Proof. apply (flat_struct _ _ _ 1); [done|]. intros x. flat_slots. Qed.
#[local] Hint Resolve flat_policy : wire.

Lemma bounded_message n : 2 <= n -> bounded c_message (fun m => depth (msg_Metadata m) <= n) (1 + n).
Proof.
  intros Hn x v Hx Hw. eapply write_slots_depth; [lia| |exact Hw].
  repeat constructor; try (first [eapply flat_always|eapply flat_omit]; eauto with wire; lia).
  by eapply always_depth; [apply bounded_raw|].
Qed.
Lemma bounded_event n : 2 <= n -> bounded c_event (fun e => meta_depth e <= n) (2 + n).
Proof.
  intros Hn x v Hx Hw. replace (2 + n) with (1 + (1 + n)) by lia. eapply write_slots_depth; [lia| |exact Hw].
  repeat constructor; try (first [eapply flat_always|eapply flat_omit]; eauto with wire; lia).
  by eapply always_depth; [by apply bounded_message|].
Qed.
Lemma bounded_request n : 2 <= n -> bounded c_request (fun r => meta_depth (req_Event r) <= n) (3 + n).
Proof.
  intros Hn x v Hx Hw. replace (3 + n) with (1 + (2 + n)) by lia. eapply write_slots_depth; [lia| |exact Hw].
  repeat constructor; try (first [eapply flat_always|eapply flat_omit]; eauto with wire; lia).
  by eapply always_depth; [by apply bounded_event|].
Qed.

(** The metadata of the requests is at most [n] levels deep, and of the pending event [k]. *)
Definition metadata_within (n k : Z) (s : inboxState) : Prop :=
  Forall (fun r => meta_depth (req_Event r) <= n) (st_Requests s) /\
  from_option (fun e => meta_depth e <= k) True (st_Pending s).
Lemma bounded_state n k : 2 <= n -> 2 <= k <= 2 + n -> bounded c_state (metadata_within n k) (5 + n).
Proof.
  intros Hn Hk x v [Hr Hp] Hw. replace (5 + n) with (1 + (1 + (3 + n))) by lia. eapply write_slots_depth; [lia| |exact Hw].
  repeat constructor; try (first [eapply flat_always|eapply flat_omit]; eauto with wire; lia).
  - eapply omit_depth; [apply bounded_list; [lia|by apply bounded_request]|done].
  - eapply omit_depth; [apply bounded_ptr; [lia|]|done]. intros e w He Hw'.
    pose proof (bounded_event k (proj1 Hk) e w He Hw'). lia.
Qed.

Lemma message_depth m v : write c_message m = Some v -> depth (msg_Metadata m) + 1 <= depth v.
Proof. intros H. eapply (slot_below _ _ c_raw "metadata" (msg_Metadata m)) in H as (w & [= <-] & H); [lia|in_slots]. Qed.
Lemma event_depth e v : write c_event e = Some v -> meta_depth e + 2 <= depth v.
Proof.
  intros H. eapply (slot_below _ _ c_message "payload" (ev_Payload e)) in H as (w & Hw & H); [|in_slots].
  pose proof (message_depth _ _ Hw). unfold meta_depth. lia.
Qed.
Lemma request_depth r v : write c_request r = Some v -> meta_depth (req_Event r) + 3 <= depth v.
Proof.
  intros H. eapply (slot_below _ _ c_event "event" (req_Event r)) in H as (w & Hw & H); [|in_slots].
  pose proof (event_depth _ _ Hw). lia.
Qed.
Lemma list_depth {A} (c : codec A) l v x : x ∈ l -> write (c_list c) l = Some v -> exists w, write c x = Some w /\ depth w < depth v.
Proof.
  intros Hx Hw. assert (exists vs, v = JArr vs /\ mapM (write c) l = Some vs) as (vs & -> & Hm).
  { destruct l; [by apply not_elem_of_nil in Hx|]. cbn [write c_list] in Hw. apply fmap_Some in Hw as (vs & Hm & ->). by exists vs. }
  apply mapM_Some in Hm. apply list_elem_of_lookup in Hx as [i Hi]. destruct (Forall2_lookup_l _ _ _ _ _ Hm Hi) as (w & Hi' & Hw').
  exists w. split; [done|]. apply depth_item. by eapply list_elem_of_lookup_2.
Qed.
Lemma state_depth s v r : r ∈ st_Requests s -> write c_state s = Some v -> meta_depth (req_Event r) + 5 <= depth v.
Proof.
  intros Hr H. eapply (slot_below _ _ (c_list c_request) "requests" (st_Requests s)) in H as (w & Hw & H).
  - destruct (list_depth _ _ _ _ Hr Hw) as (u & Hu & Hd). pose proof (request_depth _ _ Hu). lia.
  - unfold state_slots, omitempty. destruct (no_list (st_Requests s)) eqn:E; [|in_slots].
    exfalso. apply omit_no_list in E. rewrite E in Hr. by apply not_elem_of_nil in Hr.
Qed.
Lemma pending_depth s v e : st_Pending s = Some e -> write c_state s = Some v -> meta_depth e + 3 <= depth v.
Proof.
  intros He H. eapply (slot_below _ _ (c_ptr c_event) "pending" (st_Pending s)) in H as (w & Hw & H).
  - rewrite He in Hw. pose proof (event_depth _ _ Hw). lia.
  - unfold state_slots, omitempty. rewrite He. in_slots.
Qed.
(** The text of a state is nested too deeply to be read exactly when it is [too_deep]. *)
Lemma too_deep_written s v : write c_state s = Some v -> too_deep s = (maxNestingDepth <? depth v).
Proof.
  intros Hw. destruct (too_deep s) eqn:Ed; symmetry; [apply Z.ltb_lt|apply Z.ltb_ge].
  - unfold too_deep in Ed. apply orb_true_iff in Ed as [(r & Hr%list_elem_of_In & Hd%Z.ltb_lt)%existsb_exists|Hd].
    + pose proof (state_depth _ _ _ Hr Hw). lia.
    + destruct (st_Pending s) as [e|] eqn:Ep; [|done]. apply Z.ltb_lt in Hd. pose proof (pending_depth _ _ _ Ep Hw). lia.
  - assert (metadata_within (maxNestingDepth - 5) (maxNestingDepth - 3) s) as Hm.
    { unfold too_deep in Ed. apply orb_false_iff in Ed as [Hr Hp]. split.
      - apply Forall_forall. intros r Hin%list_elem_of_In. apply not_true_iff_false in Hr.
        apply Z.le_ngt. intros Hgt. apply Hr, existsb_exists. exists r. split; [done|]. apply Z.ltb_lt. lia.
      - destruct (st_Pending s) as [e|]; [|done]. apply Z.ltb_ge in Hp. simpl. lia. }
    apply (bounded_state (maxNestingDepth - 5) (maxNestingDepth - 3)) in Hw; [lia|unfold maxNestingDepth; lia..|done].
Qed.
End Laws.

(** ** What is read is sound *)
Lemma parse_int_range l z : parse_int l = Some z -> int64 z.
Proof.
  unfold parse_int, int64. intros H. repeat (case_match; simplify_eq). all: lia.
Qed.
Lemma decode_int_range v old z : int64 old -> decode_int v old = Some z -> int64 z.
Proof. destruct v; try done; cbn; [by intros ? [= <-]|]. intros _. apply parse_int_range. Qed.

Definition keeps {A} (P : A -> Prop) (r : json -> A -> option A) : Prop := forall v a b, P a -> r v a = Some b -> P b.
Lemma read_slot_keeps {A} P names name (r : json -> A -> option A) m a b : keeps P r -> P a -> read_slot names name r m a = Some b -> P b.
Proof.
  intros Hr. revert a. induction m as [|[k v] m IH]; intros a Ha; cbn; [by intros [= <-]|].
  case_bool_decide; [|by apply IH]. destruct (r v a) as [a'|] eqn:E; [|done]. apply IH. by eapply Hr.
Qed.
Lemma int_keeps : keeps int64 decode_int.
Proof. intros v a b. apply decode_int_range. Qed.
Lemma ptr_keeps {A} (c : codec A) P : P (zero c) -> keeps P (read c) -> keeps (from_option P True) (read (c_ptr c)).
Proof.
  intros Hz Hc v o o' Ho. cbn. unfold decode_pointer.
  assert (P (default (zero c) o)) as Hd by (by destruct o).
  destruct v; [by intros [= <-]|..];
    match goal with |- context [read c ?w ?d] => destruct (read c w d) as [x|] eqn:E; [|done] end;
    intros [= <-]; by eapply Hc.
Qed.
Lemma list_keeps {A} (c : codec A) P : P (zero c) -> keeps P (read c) -> keeps (Forall P) (read (c_list c)).
Proof.
  intros Hz Hc v l l' _. destruct v as [| | | |vs|]; try done; cbn; [by intros [= <-]|].
  intros H%mapM_Some. induction H; constructor; [by eapply Hc|done].
Qed.
Lemma struct_keeps {A} (P : A -> Prop) body : (forall l a b, P a -> body l a = Some b -> P b) -> keeps P (read_struct body).
Proof. intros H v a b Ha. destruct v; try done; cbn; [by intros [= <-]|]. by apply H. Qed.
Lemma known_keeps {A} (P : A -> Prop) T : (forall k f, T k = Some f -> keeps P f) -> forall l a b, P a -> decode_known T l a = Some b -> P b.
Proof.
  intros H. induction l as [|[k v] l IH]; intros a b Ha; cbn; [by intros [= <-]|].
  destruct (T k) as [f|] eqn:E; [|by apply IH]. destruct (f v a) as [a'|] eqn:E'; [|done]. apply IH. by eapply H.
Qed.
Lemma field_table_in {A} (fields : list (string * (json -> A -> option A))) k f :
  field_table fields k = Some f -> exists n, (n, f) ∈ fields.
Proof.
  unfold field_table. destruct (List.find _ fields) as [[n g]|] eqn:E.
  - intros [= <-]. apply List.find_some in E as [E _]. exists n. by apply list_elem_of_In.
  - intros ([n g] & E' & ->)%fmap_Some. apply List.find_some in E' as [E' _]. exists n. by apply list_elem_of_In.
Qed.

Lemma envelope_keeps : keeps sound_envelope (decode_object envelope_decoders).
Proof.
  intros v a b Ha. destruct v; try done; cbn; [by intros [= <-]|].
  apply known_keeps; [|done]. intros k f [n Hin]%field_table_in. clear Ha.
  repeat (apply elem_of_cons in Hin as [[= -> ->]|Hin]; [intros v x y [Hv He] H|]); [..|by apply not_elem_of_nil in Hin].
  all: match type of H with mbind _ ?d = _ => destruct d eqn:E; [|done] end; injection H as <-; split; try done.
  all: by eapply decode_int_range; [|exact E].
Qed.
Ltac body_keeps :=
  apply struct_keeps; let H := fresh "H" in intros l a b Ha H; cbv zeta in H;
  repeat (match type of H with mbind _ ?d = _ => destruct d eqn:?; [|done]; cbn [mbind option_bind] in H end);
  injection H as <-.
Lemma attachment_keeps : keeps (fun a => int64 (att_Bytes a)) (read c_attachment).
Proof. body_keeps. by eapply read_slot_keeps; [apply int_keeps| |]. Qed.

Section Reading.
Context {F : Formats}.

Lemma sound_blank : sound_message blank_message.
Proof. by split_and!; [|vm_compute|constructor]. Qed.
Lemma message_keeps : keeps sound_message (read c_message).
Proof.
  body_keeps. destruct Ha as (He & Hs & Hf). unfold sound_message; cbn [msg_Encrypted msg_Seq msg_Attachments]. split_and!.
  - by eapply read_slot_keeps; [apply (ptr_keeps c_envelope sound_envelope); [by vm_compute|apply envelope_keeps]| |eassumption].
  - by eapply read_slot_keeps; [apply int_keeps| |].
  - by eapply read_slot_keeps; [apply (list_keeps c_attachment); [by vm_compute|apply attachment_keeps]| |].
Qed.

(** What a decoder of an event leaves of the fields the payload is not in. *)
Lemma plain_seq v e e' raw : int64 (ev_Seq e) -> read_plain v e = Some (e', raw) ->
  int64 (ev_Seq e') /\ ev_Payload e' = ev_Payload e.
Proof.
  intros Hs. destruct v as [| | | | |m]; try done; [by intros [= <- <-]|]. unfold read_plain. cbv zeta. intros H.
  repeat (match type of H with mbind _ ?d = _ => destruct d eqn:?; [|done]; cbn [mbind option_bind] in H end).
  injection H as <- <-. split; [|done]. by eapply read_slot_keeps; [apply int_keeps| |].
Qed.

Ltac own_field e H :=
  destruct e as [s c m j n k h d]; cbn in *; subst;
  repeat (match type of H with
    | match ?o with _ => _ end = _ => destruct o
    | mbind _ ?d = _ => destruct d; [|done]; cbn [mbind option_bind] in H
    end); injection H as <-; cbn in *; split_and!; try done; try (by apply sound_blank); try by eexists.
(** An event that was read can be written and read again. *)
Lemma read_event_sound v e : unmarshal c_event v = Some e -> from_option (fun n => settled (sem_Confidence n)) True (ev_Semantic e) ->
  sound_event e.
Proof.
  unfold unmarshal. destruct (_ <? _); [done|]. cbn [read c_event zero]. unfold event_read.
  destruct (read_plain v blank_event) as [[e' raw]|] eqn:E; [|done]. cbn [mbind option_bind].
  apply plain_seq in E as [Hn Hp]; [|by vm_compute]. cbn [ev_Payload blank_event] in Hp.
  unfold payload_read. intros H Hc. unfold sound_event, noticed.
  destruct (bool_decide_reflect (ev_Kind e' = "semantic_attention")) as [K|K1]; [own_field e' H|].
  destruct (bool_decide_reflect (ev_Kind e' = "collaboration_attention")) as [K|K2]; [own_field e' H|].
  destruct (bool_decide_reflect (ev_Kind e' = "join_requested")) as [K|K3]; [own_field e' H|].
  destruct raw as [p|]; [|injection H as <-].
  - destruct (read c_message p (ev_Payload e')) as [m|] eqn:Em; [|done]. injection H as <-. cbn.
    rewrite Hp in Em. pose proof (message_keeps _ _ _ sound_blank Em). split_and!; try done; set_solver.
  - rewrite Hp. split_and!; try done; apply sound_blank || set_solver.
Qed.
End Reading.

(** Metadata of a message that a decoded event carries; [state_limit] is what a saved inbox holds. *)
Definition event_limit : Z := maxNestingDepth - 2.

Lemma unmarshal_written {A} (c : codec A) P x v : lawful c P -> P x -> write c x = Some v ->
  depth v <= maxNestingDepth -> unmarshal c v = Some x.
Proof. intros Hc Hx Hw Hd. unfold unmarshal. destruct (Z.ltb_spec maxNestingDepth (depth v)); [lia|]. by apply Hc. Qed.

Section Copies.
Context {F : Formats} {L : FormatLaws}.

(** What [copy] is: the round trip through JSON, shallow or not. *)
Lemma json_copy_is_copy s : sound_state s -> write c_state s <> None -> json_copy s = copy s.
Proof using L.
  intros Hs Hw. destruct (write c_state s) as [v|] eqn:E; [|done]. unfold json_copy, copy. rewrite E. cbn [mbind option_bind].
  rewrite (too_deep_written _ _ E). unfold unmarshal. destruct (Z.ltb_spec maxNestingDepth (depth v)); [done|].
  by rewrite (lawful_state _ _ Hs E).
Qed.

(** C3. A copy is a copy. An inbox whose metadata is not nested deeper than 9995 is what reading its file gives
    back, and a copy on write starts from the inbox itself. *)
Theorem copy_is_the_inbox s : sound_state s -> shallow s -> write c_state s <> None ->
  write c_state s ≫= unmarshal c_state = Some s /\ json_copy s = (migrate s).2.
Proof using L.
  intros Hs Hd Hw. destruct (write c_state s) as [v|] eqn:E; [|done]. cbn [mbind option_bind].
  assert (unmarshal c_state v = Some s) as Hu.
  { eapply unmarshal_written; [apply lawful_state|done|done|]. by apply (bounded_state state_limit state_limit) in E. }
  split; [exact Hu|]. rewrite json_copy_is_copy by (done || congruence). by apply copy_shallow.
Qed.

(** C4. Deep metadata empties the inbox. An event whose metadata is nested deeper than that is still read off the stream, up to
    9998; an inbox that took it in is written, and cannot be read again. A restart fails, and
    in the running process the next copy on write starts from an empty inbox. *)
Theorem deep_metadata_empties_copy e s r : sound_event e -> meta_depth e <= event_limit -> write c_event e <> None ->
  r ∈ st_Requests s -> req_Event r = e -> state_limit < meta_depth e -> write c_state s <> None ->
  write c_event e ≫= unmarshal c_event = Some e /\
  write c_state s ≫= unmarshal c_state = None /\ json_copy s = set_Version 2 blank_state.
Proof using L.
  intros He Hd Hw Hr <- Hdeep Hs. destruct (write c_event (req_Event r)) as [v|] eqn:E; [|done].
  destruct (write c_state s) as [w|] eqn:Ew; [|done]. cbn [mbind option_bind].
  assert (unmarshal c_state w = None) as Hu.
  { unfold unmarshal. pose proof (state_depth _ _ _ Hr Ew). unfold state_limit in Hdeep.
    destruct (Z.ltb_spec maxNestingDepth (depth w)); [done|lia]. }
  split_and!; [|done|].
  - eapply unmarshal_written; [apply lawful_event|done|done|]. by apply (bounded_event event_limit) in E.
  - unfold json_copy. rewrite Ew. cbn [mbind option_bind]. by rewrite Hu.
Qed.
End Copies.

(** ** Witnesses: decimal times, and the one confidence [0.8] *)
Section Example_formats.

#[local] Instance plain_formats : Formats := {|
  time_text t := if decide (int64 t) then Some (Itoa t) else None; time_parse := parse_int;
  float_text f := match f with S754_finite false 7205759403792794 (-53) => Some "0.8" | _ => None end;
  float_parse s := if decide (s = "0.8") then Some point8 else None |}.
#[local] Instance plain_laws : FormatLaws.
Proof.
  split.
  - intros t s. cbn. destruct (decide (int64 t)); [|done]. intros [= <-]. by apply parse_int_Itoa.
  - intros f s. cbn. intros H. repeat (case_match; try done). by simplify_eq.
Qed.

Definition nested (n : Z) : json := Z.iter n (fun v => JArr [v]) JNull.
Definition example_event (metadata : json) : inboxEvent :=
  mkEvent (Some (mkSemanticNotice "m1" "blocker" point8 "a1" "s1" "f" "k" "d")) None true None 7 "message" "c1"
    (mkMessage "" None (Some (mkMessageContext "r1" "Room" "general" true)) None 7 "m1" "c1" "a2" "Bo" "hello" metadata
       [mkAttachment "f1" "a.txt" "text/plain" 12] ["a1"] (Some "m0") 1700000000).
Definition example_state (metadata : json) : inboxState :=
  mkState 3 2 [mkRequest {["update" := true]} (example_event metadata) "running" (Some (mkClaim "w" "t")) ""
                 (Some "draft") "" "ctx" [5; 6] ["repo"] None 1 "" ""]
    (Some (mkPolicy "user" "answer" [] ["money"] 1 0)) 7 None None None.

Lemma example_sound m : sound_event (example_event m).
Proof.
  repeat split; try done; repeat constructor; try done.
  cbn. intros [?|[?|[?|?%not_elem_of_nil]%elem_of_cons]%elem_of_cons]%elem_of_cons; done.
Qed.
Lemma example_state_sound m : sound_state (example_state m).
Proof. repeat split; try done; repeat constructor; try apply example_sound; done. Qed.
Lemma written {A} (c : codec A) x : match write c x with Some _ => true | None => false end = true -> write c x <> None.
Proof. by destruct (write c x). Qed.

Lemma copy_is_the_inbox_witness : let s := example_state (JObj [("reply", JBool true)]) in
  write c_state s ≫= unmarshal c_state = Some s /\ json_copy s = (migrate s).2.
Proof.
  apply copy_is_the_inbox; [apply example_state_sound|by repeat constructor|apply written; by vm_compute].
Defined.

Lemma deep_metadata_empties_copy_witness : let s := example_state (nested 9996) in
  write c_event (example_event (nested 9996)) ≫= unmarshal c_event = Some (example_event (nested 9996)) /\
  write c_state s ≫= unmarshal c_state = None /\ json_copy s = set_Version 2 blank_state.
Proof.
  eapply (deep_metadata_empties_copy (example_event (nested 9996)) (example_state (nested 9996)));
    [apply example_sound|by vm_compute|apply written; by vm_compute|apply list_elem_of_here|reflexivity
    |by vm_compute|apply written; by vm_compute].
Defined.
End Example_formats.
