(* ===== verification/Serving.v ===== *)
(** * What is served, and how a waiting host is told

    The tools of the server as the plugin serves them ([serverWithTools], [plugin.go]) and as a
    worker offers them to its runtime ([workerCommand], [worker.go]); the notice of an owned
    worker; the delivery of a payload to a host and the probe of event streams
    ([plugin_codex.go]); the calls of the plugin's inbox tools ([plugin.go]); the reload of
    tools by the command line ([codex_reload.go]). *)
From stdpp Require Import sorting.
From S2P Require Import Prelude GoStrings Json Types Metadata Crypto Codex Target Protocol Broker Inbox InboxControl Dispatch.
From S2P Require Import Addresses InboxTools Delivery Worker.

(** ** Tools *)
Record tool := mkTool { tl_Name : string; tl_Description : string; tl_InputSchema : json }.

(** An object read into a map: the last member under a key counts. *)
Definition object_map (members : list (string * json)) : gmap string json := list_to_map (rev members).
Definition array_of (v : option json) : list json := match v with Some (JArr l) => l | _ => [] end.
Definition object_of (v : option json) : gmap string json := match v with Some (JObj m) => object_map m | _ => ∅ end.
Definition as_is (v : json) : json := v.

Definition unserved_tools : list string := ["room_bootstrap"; "room_join"; "room_join_status"].
Definition described (kind text : string) : json := JObj [("description", JStr text); ("type", JStr kind)].
Definition connection_property : json :=
  described "string" "This task's private connection handle for the target workspace, returned by tincan_connect; all rooms in that workspace share the handle".
(** The properties the plugin adds to a tool's own. *)
Definition added_properties (name : string) (props : gmap string json) : gmap string json :=
  let props := if bool_decide (name = "room_create")
               then <["e2ee" := described "boolean" "Default false. Explicitly opt this new room into E2EE on Party Line or Switchboard. Uses local keys; other rooms keep their modes."]> props else props in
  let props := if bool_decide (name = "data_export")
               then <["out" := described "string" "For encrypted workspaces: local output ZIP path; existing files are never overwritten"]> props else props in
  <["connection" := connection_property]> props.
(** The loop over the tools of the server and of the local keys. [Ok None]: passed over. A null
    schema is a nil map, which is then assigned to. *)
Definition served_tool (t : tool) : result (option tool) :=
  if bool_decide (tl_Name t ∈ unserved_tools) then Ok None else
  match tl_InputSchema t with
  | JObj members =>
      let schema := object_map members in
      let props := added_properties (tl_Name t) (object_of (schema !! "properties")) in
      let schema := <["properties" := map_json as_is props]> schema in
      let schema := <["required" := JArr (array_of (schema !! "required") ++ [JStr "connection"])]> schema in
      Ok (Some (mkTool (tl_Name t) (tl_Description t +:+ " Use this task's connection handle for the target workspace.") (map_json as_is schema)))
  | JNull => Err "assignment to entry in nil map"
  | _ => Ok None
  end.
Definition served_tools (l : list tool) : result (list tool) := omap id <$> mapM served_tool l.

(** A tool as a worker offers it: its runtime reports outcomes without the claim, which the
    controller holds. *)
Definition worker_schema (t : tool) : json :=
  if bool_decide (tl_Name t = "inbox_outcome") then
    match tl_InputSchema t with
    | JObj members =>
        let schema := object_map members in
        map_json as_is (match schema !! "required" with
                        | Some (JArr l) => <["required" := JArr (filter (fun f => jstr_is "claim" f = false) l)]> schema
                        | _ => schema
                        end)
    | v => v
    end
  else tl_InputSchema t.
Definition worker_spec (t : tool) : json :=
  JObj [("description", JStr (tl_Description t)); ("inputSchema", worker_schema t); ("name", JStr (tl_Name t)); ("type", JStr "function")].
Definition worker_specs (l : list tool) : gset string * list json :=
  let l := filter (fun t => tl_Name t ∉ withheld_tools) l in (list_to_set (tl_Name <$> l), worker_spec <$> l).

(** ** The notice of an owned worker: what is printed, and the one place of the channel that its
    loop waits on. [ended]: the context has ended; then a free place may still be taken. *)
Definition worker_notify (handle : string) (commitments : json) (ended taken : bool) (p : json) (place : option json)
    : option string * list json * option json :=
  let kind := jany "kind" p in
  if jstr_is "approval_needed" kind || jstr_is "needs_attention" kind
  then (None, [JObj [("commitments", commitments); ("connection", JStr handle); ("event", kind)]], place)
  else if jstr_is "join_request" kind
  then (None, [JObj [("connection", jany "connection" p); ("event", JStr "join_request"); ("event_seq", jany "event_seq" p);
                     ("instructions", JStr joinReviewInstructions)]], place)
  else if negb (jstr_is "mention" kind) && negb (jstr_is "message" kind) then (None, [], place)
  else match place with
       | None => if ended && negb taken then (Some "context canceled", [], None) else (None, [], Some p)
       | Some q => if ended then (Some "context canceled", [], Some q) else (None, [], Some q)
       end.

(** ** Delivery to the host *)
Section Delivering.
Context {W : Type}.
Variable cb : callbacks W.

(** [codexCallTarget]: [opened] is the dialled connection, [diagnostics] its log. *)
Definition codexCallTarget (opened : result codexRPC) (diagnostics : string) (thread : string) (payload : option string) (w : W)
    : option string * option codexRPC * W :=
  match opened with
  | Err e => (Some e, None, w)
  | Ok r =>
      let '(err, r, w) := codexExchangeRPC cb codexTaskID thread payload r w in
      (match err with
       | Some e => Some (if bool_decide (diagnostics = "") then e else e +:+ ": " +:+ diagnostics)
       | None => None
       end, Some r, w)
  end.

(** [codexDelivery]: [approved] is [targetFor] under the launch of the plugin. *)
Definition codexDelivery (approved : pluginConnection -> result codexTarget) (open : codexTarget -> result codexRPC) (diagnostics : string) (c : pluginConnection)
    (payload : option string) (w : W) : option string * option codexRPC * W :=
  match approved c with
  | Err e => (Some e, None, w)
  | Ok t => codexCallTarget (open t) diagnostics (pc_CodexThreadID c) payload w
  end.

(** [probeCodexEventsTarget]. *)
Definition hosted_only : string := "only supported for hosted apps".
Definition probeCodexEventsRPC (id thread : string) (r : codexRPC) (w : W) : string * codexRPC * W :=
  match call cb "mcpServer/event/stream/start"
          (JObj [("arguments", JObj []); ("name", JStr "mentions"); ("server", JStr "tincan"); ("subscriptionId", JStr id);
                 ("threadId", JStr thread)]) r w with
  | (Err e, r, w) =>
      (if contains e hosted_only then "unavailable_for_local_plugins" else "unavailable: " +:+ e, r, w)
  | (Ok _, r, w) =>
      let '(_, r, w) := call cb "mcpServer/event/stream/stop" (JObj [("subscriptionId", JStr id)]) r w in
      ("client_stream_only_no_verified_model_delivery", r, w)
  end.
Definition probeCodexEventsTarget (opened : result codexRPC) (random thread : string) (w : W) : string * option codexRPC * W :=
  match opened with
  | Err _ => ("unavailable", None, w)
  | Ok r =>
      match initialize cb r w with
      | (Some _, r, w) => ("unavailable", Some r, w)
      | (None, r, w) => let '(s, r, w) := probeCodexEventsRPC (ID "tincan_probe_" random) thread r w in (s, Some r, w)
      end
  end.

(** [codexReloadCommand]. [missing]: the socket does not exist. *)
Definition codexReloadError (t : codexTarget) (missing : bool) (e : string) : string :=
  if bool_decide (tg_Source t = "default_socket") && missing
  then "this Codex runtime has no control socket available for reloading (desktop can use private stdio); check for tincan_connect on the next user turn before suggesting a restart; no invitation was redeemed: " +:+ e
  else "could not reach this Codex session to reload tools: " +:+ e.
Definition codexReloadCommand (thread : string) (discovered : result codexTarget) (open : codexTarget -> result codexRPC)
    (missing : bool) (w : W) : option string * option codexRPC * W :=
  if negb (codexTaskID thread)
  then (Some "run this command from your Codex task so it can find the right conversation", None, w) else
  match discovered with
  | Err e => (Some e, None, w)
  | Ok t =>
      match open t with
      | Err e => (Some (codexReloadError t missing e), None, w)
      | Ok r => let '(err, r, w) := reloadCodexRPC cb thread r w in (err, Some r, w)
      end
  end.
End Delivering.

(** [deliver]: to the Codex task, to the host's own notification, or to nobody. *)
Inductive delivered := ToCodex (err : option string) (o : outlet) | ToHost (payload : json) (err : option string) | Unheard.
Definition deliver (codex : bool) (notify : option (json -> option string)) (sc : delivery_script) (v : vault) (handle : string)
    (payload : json) (o : outlet) : delivered :=
  let payload := inboundNotification payload in
  if codex then let '(err, o) := deliverCodex sc v handle payload o in ToCodex err o
  else match notify with Some f => ToHost payload (f payload) | None => Unheard end.

(** ** The plugin's own inbox tools: the guard of a reply comes before its connection is looked
    up, the guard of an acknowledgment after. *)
Section Handlers.
Context `{!CryptoRoutes}.
Definition plugin_reply (worker : bool) (inbox_of : string -> result inbox) (sc : call_script) (connection : string) (seq : Z)
    (text token : string) : result (result json * inbox) :=
  if bool_decide (token = "") && negb worker then Err "delegate this request and call inbox_claim before replying" else
  i ← inbox_of connection;
  Ok (reply (cs_post sc) (cs_meanwhile sc) (cs_io1 sc) (cs_io2 sc) i seq text [token]).
Definition plugin_ack (worker : bool) (inbox_of : string -> result inbox) (sc : call_script) (connection : string) (seq : Z) (token : string)
    : result (option string * inbox) :=
  i ← inbox_of connection;
  if bool_decide (token = "") && negb worker && negb (isJoinReview i seq) && negb (isConnectionNotice i seq)
  then Err "delegate this request and call inbox_claim before acknowledging"
  else Ok (ack (cs_io1 sc) i seq [token]).
End Handlers.

(** ** What is served: properties

    Every tool of the server that the plugin serves asks for the connection it is meant for, and
    keeps what it asked for itself; a worker's runtime is never asked for a claim; a wake-up is
    kept while the worker is busy; and the plugin's inbox tools are the calls of [InboxTools]. *)

Lemma find_unique (l : list (string * json)) k v : NoDup l.*1 -> (k, v) ∈ l -> jfield k l = Some v.
Proof.
  unfold jfield. induction l as [|[k' w] l IH]; [by intros _ ?%not_elem_of_nil|]. rewrite fmap_cons.
  intros [Hk Hn]%NoDup_cons [[= <- <-]|Hin]%elem_of_cons; cbn.
  - by rewrite bool_decide_eq_true_2.
  - rewrite bool_decide_eq_false_2 by (intros ->; apply Hk; by apply (list_elem_of_fmap_2 fst) in Hin). by apply IH.
Qed.
Lemma jget_map (m : gmap string json) k : jget k (map_json as_is m) = m !! k.
Proof.
  unfold jget, map_json. destruct (m !! k) as [v|] eqn:E.
  - apply find_unique; rewrite (merge_sort_Permutation key_le); [apply NoDup_fst_map_to_list|].
    apply elem_of_map_to_list. by rewrite lookup_fmap, E.
  - destruct (jfield _ _) as [v|] eqn:Ef; [exfalso|done]. unfold jfield in Ef. apply fmap_Some in Ef as ([k' w] & Hf & _).
    apply List.find_some in Hf as [Hin Hk%bool_decide_eq_true]. cbn in Hk. subst k'. apply list_elem_of_In in Hin.
    rewrite (merge_sort_Permutation key_le) in Hin. apply elem_of_map_to_list in Hin. by rewrite lookup_fmap, E in Hin.
Qed.

Lemma added_connection name props : added_properties name props !! "connection" = Some connection_property.
Proof. unfold added_properties. apply lookup_insert_eq. Qed.

(** A call of a served tool names its connection: the schema has the property and requires it,
    along with everything the tool required before. *)
Theorem served_requires_connection t t' : served_tool t = Ok (Some t') ->
  tl_Name t' = tl_Name t /\ tl_Name t ∉ unserved_tools /\
  exists required props, jget "required" (tl_InputSchema t') = Some (JArr required) /\
    jget "properties" (tl_InputSchema t') = Some props /\ jget "connection" props = Some connection_property /\
    JStr "connection" ∈ required /\
    forall members l v, tl_InputSchema t = JObj members -> object_map members !! "required" = Some (JArr l) -> v ∈ l -> v ∈ required.
Proof.
  unfold served_tool. case_bool_decide as Hu; [done|]. destruct (tl_InputSchema t) as [| | | | |members] eqn:Es; try done.
  intros [= <-]. cbn [tl_Name tl_InputSchema]. split_and!; [done|done|].
  set (props := added_properties _ _). set (required := array_of _ ++ _).
  exists required, (map_json as_is props). split_and!.
  - rewrite jget_map. apply lookup_insert_eq.
  - rewrite jget_map, lookup_insert_ne by done. apply lookup_insert_eq.
  - rewrite jget_map. apply added_connection.
  - apply elem_of_app. right. by left.
  - intros ? l v [= <-] Hl Hv. apply elem_of_app. left. rewrite lookup_insert_ne by done. by rewrite Hl.
Qed.

Example served_tool_ex :
  let t := mkTool "channels_list" "Lists channels." (JObj [("type", JStr "object"); ("required", JArr [JStr "room_id"])]) in
  exists t', served_tool t = Ok (Some t') /\ jget "required" (tl_InputSchema t') = Some (JArr [JStr "room_id"; JStr "connection"]).
Proof. eexists. split; [vm_compute; reflexivity|vm_compute; reflexivity]. Qed.

(** The runtime of a worker reports an outcome without the claim. *)
Lemma worker_outcome_needs_no_claim t l : tl_Name t = "inbox_outcome" ->
  jget "required" (worker_schema t) = Some (JArr l) -> forall members, tl_InputSchema t = JObj members -> JStr "claim" ∉ l.
Proof.
  intros Hn H members Hm. unfold worker_schema in H. rewrite bool_decide_eq_true_2, Hm in H by done.
  rewrite jget_map in H. destruct (object_map members !! "required") as [[| | | |r|]|] eqn:E.
  5: { rewrite lookup_insert_eq in H. injection H as <-. intros [Hj _]%list_elem_of_filter. cbn in Hj.
       by rewrite bool_decide_eq_true_2 in Hj. }
  all: by rewrite E in H.
Qed.

(** The tools of a worker are those it is offered, and none that it must not have. *)
Lemma worker_specs_offered l : (worker_specs l).1 = offered_tools (tl_Name <$> l).
Proof.
  unfold worker_specs, offered_tools. cbn. f_equal. induction l as [|t l IH]; [done|].
  rewrite filter_cons, fmap_cons, filter_cons. destruct (decide (tl_Name t ∉ withheld_tools)); cbn; by rewrite IH.
Qed.

(** ** Wake-ups *)
Lemma worker_wake_is_kept handle commitments taken p place : jany "kind" p = JStr "mention" \/ jany "kind" p = JStr "message" ->
  exists q, worker_notify handle commitments false taken p place = (None, [], Some q) /\ (place = None -> q = p).
Proof. unfold worker_notify. intros [-> | ->]; destruct place; cbn; by eexists. Qed.

(** ** A call is sent on a connection whose task is loaded, and its failure is not silent *)
Lemma wrong_task_is_not_called {W} (cb : callbacks W) r diagnostics thread payload w : codexTaskID thread = false ->
  exists e, codexCallTarget cb (Ok r) diagnostics thread payload w = (Some e, Some r, w).
Proof. unfold codexCallTarget, codexExchangeRPC. intros ->. cbn. by eexists. Qed.

(** ** The plugin's inbox tools are the calls of a host *)
Section Handlers.
Context `{!CryptoRoutes}.

Lemma plugin_reply_is_call worker inbox_of sc connection i seq text token : inbox_of connection = Ok i ->
  match plugin_reply worker inbox_of sc connection seq text token with
  | Ok (v, i') => (Answered <$> v, i')
  | Err e => (Err e, i)
  end = inbox_call_run worker sc i (CallReply seq text token).
Proof.
  intros Hi. unfold plugin_reply, inbox_call_run, tool_reply, answered. rewrite Hi.
  destruct worker; [rewrite andb_false_r|rewrite andb_true_r]; cbn.
  - by destruct (reply _ _ _ _ _ _ _ _).
  - case_bool_decide; [done|]. cbn. by destruct (reply _ _ _ _ _ _ _ _).
Qed.
Lemma plugin_ack_is_call worker inbox_of sc connection i seq token : inbox_of connection = Ok i ->
  match plugin_ack worker inbox_of sc connection seq token with
  | Ok x => ended x
  | Err e => (Err e, i)
  end = inbox_call_run worker sc i (CallAck seq token).
Proof.
  intros Hi. unfold plugin_ack, inbox_call_run, tool_ack. rewrite Hi. cbn.
  destruct worker; cbn; [by rewrite andb_false_r|]. rewrite andb_true_r. by destruct (_ && _).
Qed.
End Handlers.
